(* ===== verification/_CoqProject ===== *)
-Q . S2P
Prelude.v
Interfaces.v
StakingLedger.v
SlashingSpans.v
StakingState.v
Slashing.v
ReporterRewards.v
SlashApplication.v
SlashingCorrect.v
Bonding.v
Governance.v
Payout.v
Eras.v
StakingInvariant.v
EraView.v
StakingCorrect.v
StakingLiveness.v
SlashDeferral.v
Migrations.v
PayoutCorrect.v
ErasCorrect.v
Ethereum.v
Claims.v
ClaimsCorrect.v
EvmAccounts.v
Revenue.v
EraClock.v
FundSolvency.v
SlashTiming.v
ExposureHistory.v
PayoutHistory.v
PayoutShares.v
EthereumPallet.v
EthereumCorrect.v
BridgeSpec.v
Assets.v
Runtime.v
RuntimeApi.v
RuntimeConfig.v
ChainSpec.v
ChainSpecCorrect.v
Node.v
Weights.v
StakingWeights.v
RewardCurve.v
RewardCurveCorrect.v
RewardFn.v
RewardPool.v
RewardPoolCorrect.v
Rpc.v
