(* ===== verification/Prelude.v ===== *)
(** * The Glitch blockchain protocol: a verification development

    The repository is a Substrate node.  Its own logic, beside the libraries it
    is assembled from, is a modified staking pallet ([src/frame/staking]) whose
    rewards come out of a fund instead of being minted, an Ethereum pallet
    ([src/frame/ethereum]), a bridge pallet ([src/modules/claims]), the mapping of
    EVM addresses to accounts ([src/modules/evm-accounts]), the small pallets that
    feed the reward fund ([src/frame/pallet-fund], [pallet-revenue-fund],
    [pallet-revenue]), the registry of foreign assets ([src/modules/asset-config])
    and a pool of rewards for the exchange ([src/modules/reward-pool],
    [incentives]).  This library models those and proves what they promise.

    ** The program and the files

    A pallet is a set of storage items and of functions that read and write
    them: calls (signed by an account, or by the root), hooks of the block and
    of the session, and callbacks of other pallets.  Each pallet has one record
    with a field per storage item, and each function is a computation in the
    monad [M] of this file over that record; it has the name of the function in
    the source, its guards in the same order and its early returns.

    - [Prelude]: record updates, machine integers, the monad and its proof
      automation ([keeps] for invariants, [wp] for symbolic execution,
      [always_ok] for computations that cannot fail, [verify_first] for those
      that leave no trace when they fail), vectors and binary search as in the
      standard library of Rust, sums over lists and maps.
    - [Interfaces]: the code outside the repository that more than one pallet
      uses: parts of a whole ([Perbill] and so on), fixed-point numbers, and the
      [Currency] of the balances pallet, each a class of operations with a class
      of laws and a concrete instance that satisfies them.
    - The staking pallet:
      [StakingLedger] (the ledger of a stash: [staking/src/lib.rs]),
      [SlashingSpans] (the spans of [staking/src/slashing.rs]),
      [StakingState] (data, storage, errors, events, configuration),
      [Slashing] (the rest of [slashing.rs], the offence handler and the
      deferred slashes of [pallet/impls.rs]),
      [Bonding] and [Governance] (the calls of [pallet/mod.rs]),
      [Payout] ([do_payout_stakers] and what it calls) and
      [Eras] (sessions, eras, exposures and the data of the election, all of
      [pallet/impls.rs]).
    - What the staking pallet promises: [StakingInvariant], [StakingCorrect],
      [StakingLiveness], [SlashingCorrect], [PayoutCorrect], [ErasCorrect];
      [ReporterRewards] keeps the account of the rewards of reporters while an
      offence is processed, [SlashApplication] says what applying slashes does to
      the ledgers, balances, events and hooks;
      [SlashDeferral] has the integrity test of the pallet and what it gives;
      [Migrations] has its storage migrations ([staking/src/migrations.rs]) and
      what they achieve.
    - The inflation of the staking pallet: [RewardCurve] and
      [RewardCurveCorrect] (the logarithm and the points of the curve that the
      macro of [staking/reward-curve] computes, and [staking/src/inflation.rs]),
      [RewardFn] ([staking/reward-fn/src/lib.rs]).
    - [Ethereum] (hex, signed messages and recovered addresses), [Claims] and
      [ClaimsCorrect] (the bridge), [BridgeSpec] (an abstract bridge, and the
      pallet as an implementation of it), [EvmAccounts] (the address mapping).
    - [EthereumPallet] and [EthereumCorrect]: Ethereum transactions in the pool
      and in a block, their execution, the receipts and the blocks
      ([frame/ethereum/src/lib.rs]).
    - [Revenue]: modules [Fund], [Wallet] and [WhiteList].
    - [EraClock] and [FundSolvency]: the composition of the staking pallet, the
      session pallet, the revenue wallet and the fund.  [EraClock] is an abstract
      clock of planned and active eras with the rewards that are left of each;
      [FundSolvency] shows that every call, hook and offence follows the clock and
      that the fund covers what the clock owes.
    - What holds over whole histories of that composition: [EraView] is what the
      histories can observe of the storage (eras, waiting slashes, exposures,
      rewards and the payouts made), with the operations that leave it unchanged;
      [SlashTiming] is about the slashes that wait, [ExposureHistory] about the
      clipped exposures, [PayoutHistory] about the payouts that were made and
      [PayoutShares] about what they took from the fund.
    - [Weights]: what the calls of the staking pallet declare to weigh, the
      interface they ask it from and its three tables ([staking/src/weights.rs],
      [runtime/src/weights/pallet_staking.rs]); [StakingWeights]: what they report
      after they ran, compared with that.
    - [Assets]: the registry of foreign assets, the locations and the trader that
      sells weight for them, and the registry of native ERC20 assets.
    - [RewardPool] and [RewardPoolCorrect]: the reward pool and the incentives,
      which know each other by the traits [RewardHandler] and [RewardPoolOps].
    - [Runtime]: the code the runtime adds to its pallets: the exchange of gas and
      weight and of balances and votes, fees, merged accounts, precompiles, the
      self-contained calls and the thresholds of the bags.  [RuntimeApi]: what it
      offers to the node (dry runs of the EVM, replays of a block for tracing,
      extrinsics signed off-chain); [RuntimeConfig]: the parameters it sets.
    - [ChainSpec] and [ChainSpecCorrect]: the genesis and the five networks
      ([node/src/chain_spec.rs]).  [Node]: the decisions of the node beside its
      services ([node/src/command.rs], [rpc.rs], [service.rs], [cli.rs]).  [Rpc]:
      the RPC servers of the exchange ([rpc/src]).

    The parts meet as in the source.  Calls and offences update the ledgers;
    a session asks the pallet for validators ([Eras.new_session]), which plans
    an era from an election result; starting an era applies the slashes that
    were deferred; ending one triggers the revenue wallet and promises the
    validators what the fund holds beyond what it promised before; a payout
    splits that promise and settles it with the fund.  A self-contained Ethereum
    call is checked by the pool and by the block with the functions of
    [EthereumPallet] that the runtime forwards to.

    ** The theorems

    - Well-formedness of all reachable storages: [reachable_staking_wf] (stash and
      controller are paired, ledgers are well formed and add up, roles belong to
      bonded stashes; from genesis, by every call, hook and offence).
    - Invariants of all reachable storages:
      [fund_covers_claims] (the fund holds all rewards that can still be claimed,
      but for the rounding of the parts that were paid: an amortised argument over
      the history of every era, with a bound computed from the events),
      [active_era_in_history], [resolve_injective], [mint_within_limit],
      [on_offence_rewards_bounded] (what reporters are paid or promised is at most
      what the records of the spans grow by, and these stay within the configured
      fraction), [eth_reachable_consistent] (receipts,
      statuses and cumulative gas of the pending transactions),
      [block_hash_window], [pool_solvent] (shares add up and the account of a
      pool covers what it may pay).
    - Refinement: [bridge_refines] and [bridge_realised] (the claims pallet and
      the abstract bridge simulate each other).
    - Liveness: [stash_can_exit] (a stash with room in its unlocking queue can leave
      with all that was not slashed, whatever calls of others, sessions, offences
      and payouts that are not staked to it come in between),
      [claim_collectable] (a claim that was minted can be collected),
      [claim_is_paid] (a valid claim of a staking reward is settled by the fund).
    - Safety: [era_paid_once] (over a whole history no validator is paid twice for
      an era, even when its stash was killed and bonded again), [claimed_once], [claim_message_binding],
      [slash_all_max] (only the largest slash of a span counts),
      [validated_execution], [dispatch_verify_first] (no call leaves a
      trace when it fails, but for a payout that the fund cannot settle),
      [apply_unapplied_slashes_correct] (the slashes that are due are applied once,
      in order, to the books and to each ledger, and taken out of the storage),
      [waiting_slash_covered] (in every reachable storage the stake that a waiting
      slash is for cannot be withdrawn, if the deferral is shorter than the bonding
      duration by more than one era or no further era is planned; [deferral_gap]
      runs the case that the configuration must exclude),
      [networks_start] (no network fails to start, or starts with another supply).
    - Conservation and bounds: [slash_conserves], [payout_conserves],
      [trader_refund], [payout_weight_covered] (a payout
      weighs no more than it declared), [staking_calls_fit] (what the calls declare
      fits into a block).
    - Functional behaviour on every branch: [unbond_correct], [rebond_correct]
      (with the termination of its loop),
      [genesis_authorities_validate] (the authorities of a genesis bond and
      validate), [migrations_complete], [trace_transaction_correct].
    - Equivalence: [pool_block_agree] (the transaction pool and the block, for the
      Ethereum pallet), [compute_inflation_reference] (the big integers and a
      signed series), [claim_pays_accumulated] (what a claim transfers and
      the query).
    - Round trip: [asset_registry_roundtrip], [signed_claim_accepted] (what a key
      signs for its EVM address is recovered and accepted).  Termination: [log2_spec],
      [compute_points_correct].
    - Further theorems: [fund_solvent] (the fund and the excess of the payouts),
      and of single operations: [nominate_correct], [payout_once],
      [deferred_slash_covered], [end_era_covered], [kill_stash_correct],
      [genesis_total_supply], [address_json_roundtrip],
      [cancel_deferred_slash_correct], [start_era_correct], [end_span_correct],
      [active_era_planned], [get_npos_voters_correct], [validate_agrees],
      [accrual_path_independent], [consolidate_unlocked_correct],
      [chill_other_correct], [add_offending_validator_correct],
      [clear_stash_metadata_correct], [compute_slash_not_worse],
      [slash_exhaustive], [pay_reporters_conserves], [clip_exposure_correct],
      [trigger_new_era_correct], [new_session_due], [prune_correct],
      [era_span_correct], [burn_correct], [migration_correct],
      [claim_account_correct], [trigger_wallet_correct], [white_list_correct],
      [merge_account_correct], [bags_tight], [gas_weight_roundtrip],
      [votes_roundtrip], [priority_wraps], [incentives_symmetric],
      [stash_of_correct], [unvm_iter_from_correct], [trace_block_replays],
      [created_transaction_checks], [transaction_period_remembered],
      [retain_filters_correct], [export_network], [runtime_errors_reported].

    ** Conventions and bounds

    - Integers are [Z] at their width: [+], [-] and [*] of the source wrap
      ([wadd] and so on), because the release profile of the workspace does not
      check overflow; [saturating_*] and [checked_*] are written as such.  The
      macro of the reward curve runs in the compiler, where overflow panics.
    - A computation that fails keeps its writes unless it is [transactional], as
      in the source; no rollback by the caller is assumed.  The reward pool says
      that it must be called in a storage transaction; [pool_solvent] does so.
    - An imbalance of the currency is its amount: dropping and settling it are
      explicit operations.  A positive imbalance of the staking payout is
      settled with the fund; where the fund cannot settle, the code drops it.
    - The calls of [OnStakerSlash] are recorded in the storage.  The types of the
      storage make entries that do not decode unrepresentable, so the branches
      for undecodable nominators are not modelled.
    - The recursion that is not structural has fuel: the loop of [rebond] runs at
      most once per chunk (a chunk is removed or the loop ends), the digits of a
      length need at most twenty iterations for a [usize], binary search halves
      its range; the logarithm finds its power of two within 32 steps and its
      series within 16, the loop of the curve takes at most one step per unit of
      its range ([loop_fuel]), and the inflation has 299 terms, as in the source.
      [rebond_correct], [claim_message_binding], [log2_spec] and
      [compute_points_correct] prove that the fuel is enough.
    - The result of an election is an argument of the operations that use it; the
      election provider, the session pallet, the voter list and the reference
      counts of accounts are parameters ([StakingConfig]) whose documented
      behaviour appears as hypotheses where a theorem needs it.  Other parameters
      of this kind are the hashes and curves of [Ethereum], the EVM
      ([EthereumConfig]), big integers ([BigUint]), piecewise linear functions,
      the assets of XCM and the [MultiCurrency] of the reward pool; each has a
      concrete instance that satisfies the laws assumed of it.  [RewardLaws]
      says that slashing raises no balance and that paying a reporter raises the
      balance of the reporter only, by at most the reward.  [FundLaws] says
      that the handlers configured for slashes and for the wallet do not take from
      the fund, and that what is settled with it does not reap it; the wallet pallet
      of [Revenue] is shown to satisfy it.  [Keys] (the derivation of keys),
      [Secp256k1] (the keys of wallets), [Extrinsics] and [Tracing] (the executive and the tracer), the weight of
      storage accesses ([DbWeight]), the reader of
      chain files and the runtime API of the exchange are parameters too.
    - Payouts are proved to keep the ledgers well formed while the balances they
      credit stay in 128 bits, the hypothesis [payout_room]; the points of an era
      stay in 32 bits ([points_room]).  What is said of rounding assumes that the
      library rounds by less than one part and one unit ([PerThingRounding]), and
      that the stakes of an election fit in a balance ([supports_fit]).

    ** What is not modelled

    Benchmarks and logging; the weights of the pallets beside staking and the
    weights that hooks and migrations return; the start-up of the node, which wires
    third-party services together, and the dispatch of its subcommands to them;
    the JSON and the transport of the RPC servers; in the runtime, the types that
    configure third-party pallets, the list of pallets and the runtime APIs that
    only pass a call on; the token stream and the floating point test that the
    macro of the reward curve generates. *)

From Stdlib Require Import ZArith Lia.
From stdpp Require Import base option list sorting gmap fin_maps fin_sets.
#[local] Open Scope Z_scope.

(** * Record update

    The storage of a pallet is one record with a field per storage item, and a
    call writes a few of them.  [set f g s] replaces the field [f] of [s] by
    [g (f s)]; the setter is computed from the eta expansion of the record,
    which each storage record declares as its [Eta] instance. *)

Class Eta (R : Type) := eta : R → R.

Class Setter {R T : Type} (proj : R → T) := set : (T → T) → R → R.
Arguments set {R T} proj {Setter} g s : rename.

Ltac solve_setter :=
  lazymatch goal with
  | |- @Setter ?R ?T ?proj =>
      let e := constr:(_ : Eta R) in
      let e' := eval hnf in e in
      exact (fun (g : T → T) (s : R) =>
        ltac:(let t := eval hnf in (e' s) in
              lazymatch eval pattern (proj s) in t with
              | ?k _ => let u := eval cbv beta in (k (g (proj s))) in exact u
              end))
  end.
#[export] Hint Extern 1 (Setter _) => solve_setter : typeclass_instances.

Declare Scope record_scope.
Delimit Scope record_scope with record.
Notation "s '<|' f '::=' g '|>'" := (set f g s)
  (at level 1, f at next level, g at level 200, left associativity) : record_scope.
Notation "s '<|' f ':=' v '|>'" := (set f (λ _, v) s)
  (at level 1, f at next level, v at level 200, left associativity) : record_scope.
#[global] Open Scope record_scope.

(** * Machine integers

    A [w]-bit unsigned integer is a [Z] in [0, 2^w).  The release profile of
    the workspace has no overflow checks, so the operators [+], [-] and [*] of
    the source wrap; [saturating_*] and [checked_*] are the methods of the
    standard library. *)

Definition in_u (w x : Z) : Prop := 0 ≤ x < 2 ^ w.
#[export] Instance in_u_dec w x : Decision (in_u w x).
Proof. unfold in_u. apply _. Defined.

Definition umax (w : Z) : Z := 2 ^ w - 1.
Definition wadd (w a b : Z) : Z := (a + b) mod 2 ^ w.
Definition wsub (w a b : Z) : Z := (a - b) mod 2 ^ w.
Definition wmul (w a b : Z) : Z := (a * b) mod 2 ^ w.
Definition sat_add (w a b : Z) : Z := Z.min (a + b) (umax w).
Definition sat_sub (a b : Z) : Z := Z.max (a - b) 0.
Definition sat_mul (w a b : Z) : Z := Z.min (a * b) (umax w).
Definition checked_add (w a b : Z) : option Z :=
  if decide (a + b ≤ umax w) then Some (a + b) else None.
Definition checked_sub (a b : Z) : option Z :=
  if decide (b ≤ a) then Some (a - b) else None.

(** Balances are [u128]; eras, sessions and indices are [u32]. *)
Abbreviation u128 := (in_u 128).
Abbreviation u32 := (in_u 32).

Lemma wadd_small w a b : in_u w (a + b) → wadd w a b = a + b.
Proof. intros H. unfold wadd. apply Z.mod_small, H. Qed.

Lemma wsub_small w a b : in_u w a → 0 ≤ b ≤ a → wsub w a b = a - b.
Proof. unfold in_u, wsub. intros Ha Hb. apply Z.mod_small. lia. Qed.

Lemma wadd_range w a b : 0 ≤ w → in_u w (wadd w a b).
Proof. intros Hw. apply Z.mod_pos_bound. lia. Qed.

Lemma wsub_range w a b : 0 ≤ w → in_u w (wsub w a b).
Proof. intros Hw. apply Z.mod_pos_bound. lia. Qed.

Lemma checked_sub_Some a b c : checked_sub a b = Some c ↔ b ≤ a ∧ c = a - b.
Proof.
  unfold checked_sub. case_decide; split; [by intros [= <-] | by intros [_ ->] | done | by intros [? _]].
Qed.

Lemma checked_add_Some w a b c :
  checked_add w a b = Some c ↔ a + b ≤ umax w ∧ c = a + b.
Proof.
  unfold checked_add. case_decide; split; [by intros [= <-] | by intros [_ ->] | done | by intros [? _]].
Qed.

Lemma sat_sub_le a b : 0 ≤ b → 0 ≤ a → 0 ≤ sat_sub a b ≤ a.
Proof. unfold sat_sub. lia. Qed.

Lemma sat_sub_exact a b : b ≤ a → sat_sub a b = a - b.
Proof. unfold sat_sub. lia. Qed.

Lemma sat_add_exact w a b : a + b < 2 ^ w → sat_add w a b = a + b.
Proof. unfold sat_add, umax. lia. Qed.

(** Integer goals, with the bounds of the machine types unfolded. *)
Ltac ulia := unfold sat_sub, sat_add, sat_mul, in_u, umax in *; lia.

Create HintDb uint.
Create Rewrite HintDb uint.
#[export] Hint Resolve wadd_range wsub_range sat_sub_le : uint.
#[export] Hint Rewrite wadd_small wsub_small sat_sub_exact sat_add_exact
  using ulia : uint.

(** Equations between tuples of integers. *)
Ltac tuple_lia :=
  first [ reflexivity | lia
        | lazymatch goal with
          | |- (_, _) = (_, _) => apply f_equal2; tuple_lia
          | |- Some _ = Some _ => apply f_equal; tuple_lia
          end ].

(** * Results and stateful computations

    A call runs on the storage and may fail.  The writes a call makes before
    an error stay in the storage of the error result: rolling them back is the
    job of [transactional], which is the attribute of the same name. *)

Inductive result (E A : Type) : Type :=
  | Ok (a : A)
  | Err (e : E).
Arguments Ok {E A} a.
Arguments Err {E A} e.

Definition is_ok {E A} (r : result E A) : bool :=
  match r with Ok _ => true | Err _ => false end.

Definition M (S E A : Type) : Type := S → result E A * S.

#[export] Instance M_ret S E : MRet (M S E) := λ A a s, (Ok a, s).
#[export] Instance M_bind S E : MBind (M S E) := λ A B f m s,
  match m s with
  | (Ok a, s') => f a s'
  | (Err e, s') => (Err e, s')
  end.

Section Operations.
Context {S E : Type}.

Definition gets {A} (f : S → A) : M S E A := λ s, (Ok (f s), s).
Definition modify (f : S → S) : M S E unit := λ s, (Ok tt, f s).
Definition throw {A} (e : E) : M S E A := λ s, (Err e, s).
Definition ensure (P : Prop) `{Decision P} (e : E) : M S E unit :=
  if decide P then mret tt else throw e.
Definition ok_or {A} (o : option A) (e : E) : M S E A :=
  match o with Some a => mret a | None => throw e end.
Definition of_result {A} (r : result E A) : M S E A :=
  match r with Ok a => mret a | Err e => throw e end.
Definition when (P : Prop) `{Decision P} (m : M S E unit) : M S E unit :=
  if decide P then m else mret tt.
Definition run {A} (m : M S E A) (s : S) : S := snd (m s).

(** [frame_support::transactional] and [with_transaction_result] *)
Definition transactional {A} (m : M S E A) : M S E A := λ s,
  match m s with
  | (Ok a, s') => (Ok a, s')
  | (Err e, _) => (Err e, s)
  end.

(** A [for] loop over a vector. *)
Fixpoint for_each {A} (l : list A) (f : A → M S E unit) : M S E unit :=
  match l with
  | [] => mret tt
  | a :: l' => f a ≫= λ _, for_each l' f
  end.
End Operations.
Arguments ensure {S E} P {_} e.
Arguments when {S E} P {_} m.

Section MonadLemmas.
Context {S E : Type}.
Implicit Types (s : S) (e : E).

Lemma bind_Ok {A B} (m : M S E A) (f : A → M S E B) b s s'' :
  (m ≫= f) s = (Ok b, s'') ↔
  ∃ a s', m s = (Ok a, s') ∧ f a s' = (Ok b, s'').
Proof.
  unfold mbind, M_bind. destruct (m s) as [[a|e] s'].
  - split; [eauto | intros (?&?&[= <- <-]&?); done].
  - split; [done | intros (?&?&?&?); done].
Qed.

Lemma bind_step {A B} (m : M S E A) (f : A → M S E B) a s s' :
  m s = (Ok a, s') → (m ≫= f) s = f a s'.
Proof. unfold mbind, M_bind. by intros ->. Qed.

Lemma bind_err {A B} (m : M S E A) (f : A → M S E B) e s s' :
  m s = (Err e, s') → (m ≫= f) s = (Err e, s').
Proof. unfold mbind, M_bind. by intros ->. Qed.

Lemma run_result {A} (m : M S E A) r s : fst (m s) = r → m s = (r, run m s).
Proof. intros <-. unfold run. by destruct (m s). Qed.

Lemma ensure_Ok P `{Decision P} e s s' (u : unit) :
  ensure P e s = (Ok u, s') ↔ P ∧ s' = s.
Proof.
  unfold ensure. destruct u. case_decide; split.
  - by intros [= ->].
  - by intros [_ ->].
  - done.
  - by intros [? _].
Qed.

Lemma ensure_true P `{Decision P} e s : P → ensure P e s = (Ok tt, s).
Proof. intros. unfold ensure. by rewrite decide_True. Qed.

Lemma ensure_false P `{Decision P} e s : ¬ P → ensure P e s = (Err e, s).
Proof. intros. unfold ensure. by rewrite decide_False. Qed.

Lemma ok_or_Ok {A} (o : option A) e s a s' :
  ok_or o e s = (Ok a, s') ↔ o = Some a ∧ s' = s.
Proof.
  destruct o as [a'|]; cbn; split.
  - by intros [= -> ->].
  - by intros [[= ->] ->].
  - done.
  - by intros [? _].
Qed.

Lemma gets_Ok {A} (f : S → A) a s s' :
  gets (E:=E) f s = (Ok a, s') ↔ a = f s ∧ s' = s.
Proof. unfold gets. split; [by intros [= -> ->] | by intros [-> ->]]. Qed.

Lemma modify_Ok (f : S → S) (u : unit) s s' :
  modify (E:=E) f s = (Ok u, s') ↔ s' = f s.
Proof. unfold modify. destruct u. split; [by intros [= ->] | by intros ->]. Qed.

Lemma transactional_Ok {A} (m : M S E A) a s s' :
  transactional m s = (Ok a, s') ↔ m s = (Ok a, s').
Proof. unfold transactional. by destruct (m s) as [[?|?] ?]. Qed.

(** A transactional call that fails leaves the storage as it found it. *)
Lemma transactional_Err {A} (m : M S E A) e s s' :
  transactional m s = (Err e, s') → s' = s.
Proof. unfold transactional. destruct (m s) as [[?|?] ?]; [done | by intros [= _ ->]]. Qed.
End MonadLemmas.

(** ** Invariants of computations

    [keeps I m Q]: whether [m] succeeds or fails, it takes storage that
    satisfies [I] to storage that satisfies [I], and a value it returns
    satisfies [Q]. *)
Section Keeps.
Context {S E : Type} (I : S → Prop).

Definition keeps {A} (m : M S E A) (Q : A → Prop) : Prop :=
  ∀ s, I s → I (run m s) ∧ ∀ a s', m s = (Ok a, s') → Q a.

Lemma keeps_ret {A} (a : A) (Q : A → Prop) : Q a → keeps (mret a) Q.
Proof. intros HQ s Hs. split; [done|]. by intros ? ? [= <- _]. Qed.
Lemma keeps_get {A} (f : S → A) (Q : A → Prop) :
  (∀ s, I s → Q (f s)) → keeps (gets f) Q.
Proof. intros HQ s Hs. split; [done|]. intros ? ? [= <- _]. auto. Qed.
Lemma keeps_throw {A} (e : E) (Q : A → Prop) : keeps (throw e) Q.
Proof. intros s Hs. split; [done|]. by intros ? ? [=]. Qed.
Lemma keeps_ensure P `{Decision P} (e : E) (Q : unit → Prop) :
  (P → Q tt) → keeps (ensure P e) Q.
Proof.
  intros HQ. unfold ensure. case_decide; [apply keeps_ret; auto | apply keeps_throw].
Qed.
Lemma keeps_ok_or {A} (o : option A) (e : E) (Q : A → Prop) :
  (∀ a, o = Some a → Q a) → keeps (ok_or o e) Q.
Proof. intros HQ. destruct o; [apply keeps_ret; auto | apply keeps_throw]. Qed.
Lemma keeps_of_result {A} (r : result E A) (Q : A → Prop) :
  (∀ a, r = Ok a → Q a) → keeps (of_result r) Q.
Proof. intros HQ. destruct r; [apply keeps_ret; auto | apply keeps_throw]. Qed.
Lemma keeps_modify (f : S → S) (Q : unit → Prop) :
  Q tt → (∀ s, I s → I (f s)) → keeps (modify f) Q.
Proof. intros HQ Hf s Hs. split; [by apply Hf|]. by intros [] ? _. Qed.
Lemma keeps_bind {A B} (m : M S E A) (f : A → M S E B) Q R :
  keeps m Q → (∀ a, Q a → keeps (f a) R) → keeps (m ≫= f) R.
Proof.
  intros Hm Hf s Hs. unfold run, mbind, M_bind.
  destruct (Hm s Hs) as [Hi Hq]. unfold run in Hi.
  destruct (m s) as [[a|e] s']; [|split; [done | by intros ? ? [=]]].
  apply Hf; [by eapply Hq | done].
Qed.
Lemma keeps_weaken {A} (m : M S E A) (Q R : A → Prop) :
  keeps m Q → (∀ a, Q a → R a) → keeps m R.
Proof. intros Hm HQR s Hs. destruct (Hm s Hs). split; eauto. Qed.
Lemma keeps_when P `{Decision P} (m : M S E unit) Q :
  (P → keeps m Q) → (¬ P → Q tt) → keeps (when P m) Q.
Proof. intros Hm HQ. unfold when. case_decide; [auto | by apply keeps_ret, HQ]. Qed.
Lemma keeps_transactional {A} (m : M S E A) Q : keeps m Q → keeps (transactional m) Q.
Proof.
  intros Hm s Hs. destruct (Hm s Hs) as [Hi Hq]. unfold run, transactional in *.
  destruct (m s) as [[a|e] s']; [|split; [done | by intros ? ? [=]]].
  split; [done|]. intros ? ? [= <- <-]. by eapply Hq.
Qed.
Lemma keeps_for_each {A} (l : list A) (f : A → M S E unit) :
  (∀ a, a ∈ l → keeps (f a) (λ _, True)) → keeps (for_each l f) (λ _, True).
Proof.
  induction l as [|a l IH]; intros Hf; [by apply keeps_ret|].
  eapply keeps_bind; [apply Hf; set_solver|].
  intros _ _. apply IH. intros; apply Hf; set_solver.
Qed.

Definition preserves {A} (m : M S E A) : Prop := keeps m (λ _, True).

Lemma preserves_run {A} (m : M S E A) s : preserves m → I s → I (run m s).
Proof. intros Hm Hs. apply (Hm s Hs). Qed.
Lemma preserves_result {A} (m : M S E A) s r s' :
  preserves m → m s = (r, s') → I s → I s'.
Proof. intros Hm Heq Hs. destruct (Hm s Hs) as [Hi _]. unfold run in Hi. by rewrite Heq in Hi. Qed.
Lemma preserves_keeps_bind {A B} (m : M S E A) (f : A → M S E B) :
  preserves m → (∀ a, preserves (f a)) → preserves (m ≫= f).
Proof. intros Hm Hf. eapply keeps_bind; [exact Hm|]. intros a _. apply Hf. Qed.
End Keeps.
Arguments keeps {S E} I {A} m Q.
Arguments preserves {S E} I {A} m.

Lemma keeps_conj {S E} (I J : S → Prop) {A} (m : M S E A) (Q : A → Prop) :
  keeps I m Q → preserves J m → keeps (λ s, I s ∧ J s) m Q.
Proof.
  intros HI HJ s [Hi Hj]. destruct (HI s Hi) as [Hi' HQ], (HJ s Hj) as [Hj' _]. by split_and!.
Qed.

(** [keeps_step] takes one step of an invariant proof; [keeps_auto] repeats it,
    uses the lemmas of the database [keeps] for calls of other operations, and
    leaves the storage writes that concern the invariant. *)
Create HintDb keeps.

Ltac keeps_step :=
  lazymatch goal with
  | |- preserves _ _ => unfold preserves
  | |- keeps _ (mret _) _ => apply keeps_ret
  | |- keeps _ (gets _) _ => apply keeps_get; intros ? ?
  | |- keeps _ (throw _) _ => apply keeps_throw
  | |- keeps _ (ensure _ _) _ => apply keeps_ensure; intros ?
  | |- keeps _ (ok_or _ _) _ => apply keeps_ok_or; intros ? ?
  | |- keeps _ (of_result _) _ => apply keeps_of_result; intros ? ?
  | |- keeps _ (modify _) _ => apply keeps_modify; [try done | intros ? ?]
  | |- keeps _ (when _ _) _ => apply keeps_when; [intros ? | intros ?]
  | |- keeps _ (transactional _) _ => apply keeps_transactional
  | |- keeps _ (for_each _ _) _ => apply keeps_for_each; intros ? ?
  | |- keeps ?I (gets id ≫= _) _ =>
      apply (keeps_bind I _ _ I); [apply keeps_get; intros ? ?; assumption | intros ? ?]
  | |- keeps ?I (ensure ?P _ ≫= _) _ =>
      apply (keeps_bind I _ _ (λ _, P)); [apply keeps_ensure; tauto | intros ? ?]
  | |- keeps ?I (ok_or ?o _ ≫= _) _ =>
      apply (keeps_bind I _ _ (λ a, o = Some a)); [apply keeps_ok_or; tauto | intros ? ?]
  | |- keeps ?I (_ ≫= _) _ => apply (keeps_bind I _ _ (λ _, True)); [|intros ? _]
  | |- keeps _ (let '(_, _) := ?x in _) _ => destruct x eqn:?
  | |- keeps _ (if ?b then _ else _) _ => destruct b eqn:?
  | |- keeps _ (match ?x with _ => _ end) _ => destruct x eqn:?
  end.

Ltac keeps_auto :=
  repeat first
    [ exact Logic.I
    | solve [eauto with keeps]
    | keeps_step
    | solve [assumption] ].

(** ** Symbolic execution

    [wp m s Q]: run from [s], [m] ends in a result and a storage that satisfy
    [Q].  Where [keeps] forgets the storage a value was read from, [wp] follows
    one run; [wp_auto] executes the steps whose effect is known. *)
Section Wp.
Context {S E : Type}.

Definition wp {A} (m : M S E A) (s : S) (Q : result E A → S → Prop) : Prop :=
  Q (fst (m s)) (snd (m s)).

Lemma wp_ret {A} (a : A) s (Q : result E A → S → Prop) : Q (Ok a) s → wp (mret a) s Q.
Proof. done. Qed.
Lemma wp_throw {A} (e : E) s (Q : result E A → S → Prop) : Q (Err e) s → wp (throw e) s Q.
Proof. done. Qed.
Lemma wp_gets {A} (f : S → A) s (Q : result E A → S → Prop) : Q (Ok (f s)) s → wp (gets f) s Q.
Proof. done. Qed.
Lemma wp_modify (f : S → S) s (Q : result E unit → S → Prop) :
  Q (Ok tt) (f s) → wp (modify f) s Q.
Proof. done. Qed.
Lemma wp_ensure P `{Decision P} (e : E) s (Q : result E unit → S → Prop) :
  (P → Q (Ok tt) s) → (¬ P → Q (Err e) s) → wp (ensure P e) s Q.
Proof. intros H1 H2. unfold ensure. case_decide; [by apply H1 | by apply H2]. Qed.
Lemma wp_ok_or {A} (o : option A) (e : E) s (Q : result E A → S → Prop) :
  (∀ a, o = Some a → Q (Ok a) s) → (o = None → Q (Err e) s) → wp (ok_or o e) s Q.
Proof. intros H1 H2. destruct o; [by apply H1 | by apply H2]. Qed.
Lemma wp_of_result {A} (r : result E A) s (Q : result E A → S → Prop) :
  (∀ a, r = Ok a → Q (Ok a) s) → (∀ e, r = Err e → Q (Err e) s) → wp (of_result r) s Q.
Proof. intros H1 H2. destruct r; [by apply H1 | by apply H2]. Qed.
Lemma wp_when P `{Decision P} (m : M S E unit) s (Q : result E unit → S → Prop) :
  (P → wp m s Q) → (¬ P → Q (Ok tt) s) → wp (when P m) s Q.
Proof. intros H1 H2. unfold when. case_decide; [by apply H1 | by apply H2]. Qed.
Lemma wp_bind {A B} (m : M S E A) (k : A → M S E B) s Q :
  wp m s (λ r s', match r with Ok a => wp (k a) s' Q | Err e => Q (Err e) s' end) →
  wp (m ≫= k) s Q.
Proof. unfold wp, mbind, M_bind. by destruct (m s) as [[a|e] s']. Qed.
Lemma wp_bind_inv {A B} (m : M S E A) (k : A → M S E B) s Q :
  wp (m ≫= k) s Q →
  wp m s (λ r s', match r with Ok a => wp (k a) s' Q | Err e => Q (Err e) s' end).
Proof. unfold wp, mbind, M_bind. by destruct (m s) as [[a|e] s']. Qed.
Lemma wp_get {A} (k : S → M S E A) s (Q : result E A → S → Prop) :
  wp (k s) s Q → wp (gets id ≫= k) s Q.
Proof. done. Qed.
Lemma wp_transactional {A} (m : M S E A) s (Q : result E A → S → Prop) :
  wp m s (λ r s', match r with Ok a => Q (Ok a) s' | Err e => Q (Err e) s end) →
  wp (transactional m) s Q.
Proof. unfold wp, transactional. by destruct (m s) as [[a|e] s']. Qed.
Lemma wp_mono {A} (m : M S E A) s (Q Q' : result E A → S → Prop) :
  wp m s Q → (∀ r s', Q r s' → Q' r s') → wp m s Q'.
Proof. unfold wp. auto. Qed.
Lemma wp_run {A} (m : M S E A) s r s' (Q : result E A → S → Prop) :
  m s = (r, s') → Q r s' → wp m s Q.
Proof. intros Heq HQ. unfold wp. destruct (m s). by injection Heq as -> ->. Qed.
Lemma wp_elim {A} (m : M S E A) s r s' (Q : result E A → S → Prop) :
  wp m s Q → m s = (r, s') → Q r s'.
Proof. unfold wp. intros HQ Heq. destruct (m s). by injection Heq as -> ->. Qed.
Lemma wp_preserves (I : S → Prop) {A} (m : M S E A) s :
  preserves I m → I s → wp m s (λ _, I).
Proof. intros Hm Hs. apply (Hm s Hs). Qed.
Lemma wp_keeps (I : S → Prop) {A} (m : M S E A) Q s :
  keeps I m Q → I s → wp m s (λ r s', I s' ∧ ∀ a, r = Ok a → Q a).
Proof.
  intros Hm Hs. destruct (Hm s Hs) as [HI HQ]. unfold wp, run in *.
  destruct (m s) as [r s'] eqn:Heq. split; [done|]. cbn. intros a ->. by eapply HQ.
Qed.
Lemma preserves_wp (I : S → Prop) {A} (m : M S E A) :
  (∀ s, I s → wp m s (λ _, I)) → preserves I m.
Proof. intros Hm s Hs. split; [by apply Hm | done]. Qed.
Lemma keeps_wp (I : S → Prop) {A} (m : M S E A) (Q : A → Prop) :
  (∀ s, I s → wp m s (λ r s', I s' ∧ ∀ a, r = Ok a → Q a)) → keeps I m Q.
Proof.
  intros Hm s Hs. specialize (Hm s Hs). unfold wp, run in *.
  destruct (m s) as [r s'] eqn:Heq. destruct Hm as [HI HQ]. split; [done|].
  intros a s2 [= -> ->]. by apply (HQ a).
Qed.
End Wp.

Ltac wp_step :=
  lazymatch goal with
  | |- wp (mret _) _ _ => apply wp_ret
  | |- wp (throw _) _ _ => apply wp_throw
  | |- wp (gets _) _ _ => apply wp_gets
  | |- wp (modify _) _ _ => apply wp_modify
  | |- wp (ensure _ _) _ _ => apply wp_ensure; intros ?
  | |- wp (ok_or _ _) _ _ => apply wp_ok_or; [intros ? ?|intros ?]
  | |- wp (of_result _) _ _ => apply wp_of_result; intros ? ?
  | |- wp (when _ _) _ _ => apply wp_when; intros ?
  | |- wp (transactional _) _ _ => apply wp_transactional
  | |- wp (gets id ≫= _) _ _ => apply wp_get
  | |- wp (_ ≫= _) _ _ => apply wp_bind
  | |- wp (let '(_, _) := ?x in _) _ _ => destruct x eqn:?
  | |- wp (if ?b then _ else _) _ _ => destruct b eqn:?
  | |- wp (match ?x with _ => _ end) _ _ => destruct x eqn:?
  end; cbv beta iota.
Ltac wp_auto := repeat wp_step.

(** ** Computations that cannot fail *)
Section AlwaysOk.
Context {S E : Type}.

Definition always_ok {A} (m : M S E A) : Prop := ∀ s, ∃ a s', m s = (Ok a, s').

Lemma always_ok_ret {A} (a : A) : always_ok (mret a).
Proof. intros s. by eexists _, _. Qed.
Lemma always_ok_gets {A} (f : S → A) : always_ok (gets f).
Proof. intros s. by eexists _, _. Qed.
Lemma always_ok_modify (f : S → S) : always_ok (modify f).
Proof. intros s. by eexists _, _. Qed.
Lemma always_ok_bind {A B} (m : M S E A) (f : A → M S E B) :
  always_ok m → (∀ a, always_ok (f a)) → always_ok (m ≫= f).
Proof.
  intros Hm Hf s. destruct (Hm s) as (a & s' & Heq). rewrite (bind_step _ _ _ _ _ Heq).
  apply Hf.
Qed.
Lemma always_ok_when P `{Decision P} (m : M S E unit) : always_ok m → always_ok (when P m).
Proof. intros Hm. unfold when. case_decide; [done | apply always_ok_ret]. Qed.
Lemma always_ok_for_each {A} (l : list A) (f : A → M S E unit) :
  (∀ a, always_ok (f a)) → always_ok (for_each l f).
Proof.
  intros Hf. induction l as [|a l IH]; [apply always_ok_ret|].
  by apply always_ok_bind.
Qed.
End AlwaysOk.

(** The database [total] holds the operations that cannot fail. *)
Create HintDb total.
#[export] Hint Resolve always_ok_ret always_ok_gets always_ok_modify : total.

Ltac total_step :=
  lazymatch goal with
  | |- always_ok (mret _) => apply always_ok_ret
  | |- always_ok (gets _) => apply always_ok_gets
  | |- always_ok (modify _) => apply always_ok_modify
  | |- always_ok (when _ _) => apply always_ok_when
  | |- always_ok (for_each _ _) => apply always_ok_for_each; intros ?
  | |- always_ok (_ ≫= _) => apply always_ok_bind; [|intros ?]
  | |- always_ok (let '(_, _) := ?x in _) => destruct x
  | |- always_ok (if ?b then _ else _) => destruct b
  | |- always_ok (match ?x with _ => _ end) => destruct x
  end.
Ltac total_auto := repeat first [solve [eauto with total] | total_step].

(** Take apart a hypothesis that a computation succeeded. *)
Ltac m_inv_step H :=
  lazymatch type of H with
  | (_ ≫= _) _ = (Ok _, _) =>
      let a := fresh "x" in let s := fresh "st" in
      let H1 := fresh "Hm" in let H2 := fresh "Hm" in
      apply bind_Ok in H as (a & s & H1 & H2); m_inv_step H1; m_inv_step H2
  | ensure _ _ _ = (Ok _, _) =>
      let H1 := fresh "Hens" in apply ensure_Ok in H as [H1 ->]
  | ok_or _ _ _ = (Ok _, _) =>
      let H1 := fresh "Hsome" in apply ok_or_Ok in H as [H1 ->]
  | gets _ _ = (Ok _, _) => apply gets_Ok in H as [-> ->]
  | modify _ _ = (Ok _, _) => apply modify_Ok in H as ->
  | transactional _ _ = (Ok _, _) => apply transactional_Ok in H; m_inv_step H
  | mret _ _ = (Ok _, _) => injection H as <- <-
  | throw _ _ = (Ok _, _) => discriminate H
  | _ => idtac
  end.
Tactic Notation "m_inv" hyp(H) := m_inv_step H.

(** ** Verify first, write last

    A computation that only reads, and one that leaves the storage as it found
    it when it fails. *)
Section VerifyFirst.
Context {S E : Type}.

Definition reads {A} (m : M S E A) : Prop := ∀ s, snd (m s) = s.
Definition verify_first {A} (m : M S E A) : Prop :=
  ∀ s e s', m s = (Err e, s') → s' = s.

Lemma reads_ret {A} (a : A) : reads (mret a).
Proof. done. Qed.
Lemma reads_gets {A} (f : S → A) : reads (gets f).
Proof. done. Qed.
Lemma reads_throw {A} (e : E) : reads (throw e : M S E A).
Proof. done. Qed.
Lemma reads_ensure P `{Decision P} (e : E) : reads (ensure P e).
Proof. intros s. unfold ensure. by case_decide. Qed.
Lemma reads_ok_or {A} (o : option A) (e : E) : reads (ok_or o e).
Proof. intros s. by destruct o. Qed.
Lemma reads_of_result {A} (r : result E A) : reads (of_result r).
Proof. intros s. by destruct r. Qed.
Lemma reads_bind {A B} (m : M S E A) (k : A → M S E B) :
  reads m → (∀ a, reads (k a)) → reads (m ≫= k).
Proof.
  intros Hm Hk s. specialize (Hm s). unfold mbind, M_bind.
  destruct (m s) as [[a|e] s']; cbn in *; [by rewrite Hk | done].
Qed.
Lemma reads_when P `{Decision P} (m : M S E unit) : reads m → reads (when P m).
Proof. intros Hm. unfold when. by case_decide. Qed.

Lemma verify_first_reads {A} (m : M S E A) : reads m → verify_first m.
Proof. intros Hm s e s' Heq. specialize (Hm s). by rewrite Heq in Hm. Qed.
Lemma verify_first_always_ok {A} (m : M S E A) : always_ok m → verify_first m.
Proof. intros Hm s e s' Heq. destruct (Hm s) as (a & s1 & Hok). congruence. Qed.
Lemma verify_first_read_bind {A B} (m : M S E A) (k : A → M S E B) :
  reads m → (∀ a, verify_first (k a)) → verify_first (m ≫= k).
Proof.
  intros Hm Hk s e s'. specialize (Hm s). unfold mbind, M_bind.
  destruct (m s) as [[a|e1] s1]; cbn in Hm; subst s1; [apply Hk | by intros [= _ ->]].
Qed.
Lemma verify_first_write_bind {A B} (m : M S E A) (k : A → M S E B) :
  verify_first m → (∀ a, always_ok (k a)) → verify_first (m ≫= k).
Proof.
  intros Hm Hk s e s'. unfold mbind, M_bind. destruct (m s) as [[a|e1] s1] eqn:Heq.
  - intros Hr. destruct (Hk a s1) as (b & s2 & Hok). congruence.
  - intros [= -> ->]. by eapply Hm.
Qed.
Lemma verify_first_when P `{Decision P} (m : M S E unit) :
  verify_first m → verify_first (when P m).
Proof.
  intros Hm. unfold when. case_decide; [done | apply verify_first_reads, reads_ret].
Qed.
End VerifyFirst.

Ltac reads_step :=
  lazymatch goal with
  | |- reads (mret _) => apply reads_ret
  | |- reads (gets _) => apply reads_gets
  | |- reads (throw _) => apply reads_throw
  | |- reads (ensure _ _) => apply reads_ensure
  | |- reads (ok_or _ _) => apply reads_ok_or
  | |- reads (of_result _) => apply reads_of_result
  | |- reads (when _ _) => apply reads_when
  | |- reads (_ ≫= _) => apply reads_bind; [|intros ?]
  | |- reads (let '(_, _) := ?x in _) => destruct x
  | |- reads (if ?b then _ else _) => destruct b
  | |- reads (match ?x with _ => _ end) => destruct x
  end.
Ltac solve_reads := solve [repeat reads_step].

(** Peel off the checks; what is left cannot fail, or verifies first itself. *)
Ltac verify_step :=
  lazymatch goal with
  | |- verify_first (when _ _) => apply verify_first_when
  | |- verify_first (let '(_, _) := ?x in _) => destruct x
  | |- verify_first (if ?b then _ else _) => destruct b
  | |- verify_first (match ?x with _ => _ end) => destruct x
  | |- verify_first (_ ≫= _) =>
      first [ apply verify_first_read_bind; [solve_reads | intros ?]
            | solve [apply verify_first_always_ok; total_auto] ]
  | |- verify_first _ =>
      first [ apply verify_first_reads; solve_reads
            | solve [apply verify_first_always_ok; total_auto] ]
  end.
Ltac verify_auto := repeat verify_step.

(** * Vectors

    The methods of [Vec] and of slices the source uses.  [binary_search] has
    the contract of the standard library on a sorted slice: [Ok] of the index
    of the key, or [Err] of the index where it can be inserted. *)

Definition vec_insert {A} (i : nat) (a : A) (l : list A) : list A :=
  take i l ++ a :: drop i l.

Definition vec_remove {A} (i : nat) (l : list A) : list A := take i l ++ drop (S i) l.

Lemma elem_of_vec_insert {A} (l : list A) i a b : b ∈ vec_insert i a l ↔ b = a ∨ b ∈ l.
Proof.
  unfold vec_insert. rewrite <- (take_drop i l) at 3. set_solver.
Qed.

Lemma length_vec_insert {A} (l : list A) i a :
  (i ≤ length l)%nat → length (vec_insert i a l) = S (length l).
Proof.
  intros. unfold vec_insert. rewrite length_app. cbn. rewrite length_take, length_drop. lia.
Qed.

(** [swap_remove]: the last element takes the place of the removed one. *)
Definition vec_swap_remove {A} (i : nat) (l : list A) : list A :=
  match last l with
  | Some x => removelast (<[i := x]> l)
  | None => l
  end.

Fixpoint binary_search_by_key {A} (key : A → Z) (k : Z) (l : list A) : result nat nat :=
  match l with
  | [] => Err 0%nat
  | a :: l' =>
      if decide (key a = k) then Ok 0%nat
      else if decide (k < key a) then Err 0%nat
      else match binary_search_by_key key k l' with
           | Ok i => Ok (S i)
           | Err i => Err (S i)
           end
  end.

Section BinarySearch.
Context {A : Type} (key : A → Z).
Implicit Types l : list A.

Definition sorted_by l : Prop := StronglySorted (λ a b, key a < key b) l.

Lemma binary_search_Ok k l i :
  binary_search_by_key key k l = Ok i → ∃ a, l !! i = Some a ∧ key a = k.
Proof.
  revert i. induction l as [|a l IH]; intros i; cbn; [done|].
  case_decide; [intros [= <-]; eauto|]. case_decide; [done|].
  destruct (binary_search_by_key key k l) as [j|]; intros [= <-]. by apply IH.
Qed.

Lemma binary_search_Err k l i :
  sorted_by l → binary_search_by_key key k l = Err i →
  (i ≤ length l)%nat ∧ Forall (λ a, key a < k) (take i l) ∧ Forall (λ a, k < key a) (drop i l).
Proof.
  intros Hs. revert i. induction Hs as [|a l Hs IH Ha]; intros i; cbn.
  { intros [= <-]. by repeat constructor. }
  case_decide; [done|]. case_decide.
  - intros [= <-]. split; [lia|]. rewrite take_0, drop_0. split; [done|].
    constructor; [done|]. eapply Forall_impl; [exact Ha|]. cbn. lia.
  - destruct (binary_search_by_key key k l) as [|j]; intros [= <-].
    destruct (IH j eq_refl) as (? & ? & ?). cbn. split; [lia|]. split; [|done].
    constructor; [lia | done].
Qed.

Lemma binary_search_find k l i a :
  sorted_by l → l !! i = Some a → key a = k → binary_search_by_key key k l = Ok i.
Proof.
  intros Hs. revert i. induction Hs as [|b l Hs IH Hb]; intros [|i] Hi Hk; cbn in *; try done.
  - simplify_eq. by rewrite decide_True.
  - pose proof (Forall_lookup_1 _ _ _ _ Hb Hi) as Hlt. cbn in Hlt.
    rewrite !decide_False by lia. by rewrite (IH i).
Qed.

Lemma sorted_by_insert l i a :
  sorted_by l → (i ≤ length l)%nat →
  Forall (λ b, key b < key a) (take i l) → Forall (λ b, key a < key b) (drop i l) →
  sorted_by (vec_insert i a l).
Proof.
  intros Hs Hi Hlo Hhi. unfold vec_insert, sorted_by in *.
  rewrite <- (take_drop i l) in Hs. revert Hs Hlo.
  generalize (take i l) as l1. induction l1 as [|b l1 IH]; cbn; intros Hs Hlo.
  - by constructor.
  - apply StronglySorted_inv in Hs as [Hs Hb]. apply Forall_cons in Hlo as [Hba Hlo].
    constructor; [by apply IH|]. apply Forall_app in Hb as [Hb1 Hb2].
    apply Forall_app. split; [done|]. by constructor.
Qed.

Lemma sorted_by_sublist l l' : l' `sublist_of` l → sorted_by l → sorted_by l'.
Proof.
  intros Hsub Hs. revert l' Hsub. induction Hs as [|a l Hs IH Ha]; intros l' Hsub.
  { apply sublist_nil_r in Hsub as ->. constructor. }
  apply sublist_cons_r in Hsub as [Hsub|(l'' & -> & Hsub)]; [by apply IH|].
  constructor; [by apply IH|]. rewrite Forall_forall in *. intros b Hb.
  apply Ha. by eapply elem_of_sublist.
Qed.

Lemma sorted_by_lt l i j a b :
  sorted_by l → l !! i = Some a → l !! j = Some b → (i < j)%nat → key a < key b.
Proof.
  intros Hs. revert i j. induction Hs as [|c l Hs IH Hc]; intros [|i] [|j] Hi Hj Hij;
    cbn in *; try done; try lia.
  - injection Hi as ->. by apply (Forall_lookup_1 _ _ _ _ Hc Hj).
  - apply (IH i j); try done; lia.
Qed.

Lemma sorted_by_inj l i j a b :
  sorted_by l → l !! i = Some a → l !! j = Some b → key a = key b → i = j.
Proof.
  intros Hs Hi Hj Hab. destruct (Nat.lt_trichotomy i j) as [Hl|[?|Hl]]; [|done|].
  - pose proof (sorted_by_lt l i j a b Hs Hi Hj Hl). lia.
  - pose proof (sorted_by_lt l j i b a Hs Hj Hi Hl). lia.
Qed.

Lemma sorted_by_update l i a b :
  sorted_by l → l !! i = Some a → key b = key a → sorted_by (<[i:=b]> l).
Proof.
  intros Hs. revert i. induction Hs as [|c l Hs IH Hc]; intros [|i] Hi Hk; cbn in *; try done.
  - injection Hi as <-. constructor; [done|]. by rewrite Hk.
  - constructor; [by apply IH|]. apply Forall_insert; [done|].
    rewrite Hk. by apply (Forall_lookup_1 _ _ _ _ Hc Hi).
Qed.

Lemma sorted_by_snoc l a :
  sorted_by l → Forall (λ b, key b < key a) l → sorted_by (l ++ [a]).
Proof.
  induction 1 as [|b l Hs IH Hb]; intros Hall; [by repeat constructor|].
  apply Forall_cons in Hall as [Hba Hall]. constructor; [by apply IH|].
  apply Forall_app. by repeat constructor.
Qed.

Lemma sorted_by_filter l (P : A → Prop) `{∀ a, Decision (P a)} :
  sorted_by l → sorted_by (filter P l).
Proof.
  unfold sorted_by. induction 1 as [|a l Hs IH Ha]; [constructor|].
  rewrite filter_cons. case_decide; [|done]. constructor; [done|].
  rewrite Forall_forall in *. intros b [_ ?]%list_elem_of_filter. auto.
Qed.

Lemma binary_search_absent l k i a :
  sorted_by l → binary_search_by_key key k l = Err i → a ∈ l → key a ≠ k.
Proof.
  intros Hs Hb (j & Hj)%list_elem_of_lookup <-.
  by rewrite (binary_search_find _ _ _ _ Hs Hj eq_refl) in Hb.
Qed.

Lemma sorted_by_binary_insert l i a :
  sorted_by l → binary_search_by_key key (key a) l = Err i → sorted_by (vec_insert i a l).
Proof.
  intros Hs Hb. destruct (binary_search_Err _ _ _ Hs Hb) as (?&?&?).
  by apply sorted_by_insert.
Qed.
End BinarySearch.

Lemma sorted_by_seqZ m n : sorted_by id (seqZ m n).
Proof.
  unfold seqZ, sorted_by. generalize (Z.to_nat n) as k. intros k.
  assert (∀ i, StronglySorted (λ a b, id a < id b) ((λ j : nat, Z.of_nat j + m) <$> seq i k)) as Hi; [|apply Hi].
  induction k as [|k IH]; intros i; cbn; [constructor|]. constructor; [apply IH|].
  rewrite Forall_forall. intros x (j & -> & Hj)%list_elem_of_fmap.
  apply elem_of_seq in Hj. unfold id. lia.
Qed.

(** * Sums of lists and of finite maps *)

Lemma Forall_filter_sub {A} (P Q : A → Prop) `{∀ a, Decision (Q a)} (l : list A) :
  Forall P l → Forall P (filter Q l).
Proof. rewrite !Forall_forall. intros HP a [_ Ha]%list_elem_of_filter. auto. Qed.

Lemma filter_all {A} (P : A → Prop) `{∀ a, Decision (P a)} (l : list A) :
  Forall P l → filter P l = l.
Proof. induction 1 as [|a l Ha _ IH]; [done|]. by rewrite filter_cons, decide_True, IH. Qed.

Lemma filter_none {A} (P : A → Prop) `{∀ a, Decision (P a)} (l : list A) :
  Forall (λ a, ¬ P a) l → filter P l = [].
Proof. induction 1 as [|a l Ha _ IH]; [done|]. by rewrite filter_cons, decide_False. Qed.

Fixpoint zsum {A} (f : A → Z) (l : list A) : Z :=
  match l with
  | [] => 0
  | a :: l' => f a + zsum f l'
  end.

Section Sums.
Context {A : Type} (f : A → Z).

Lemma zsum_app l1 l2 : zsum f (l1 ++ l2) = zsum f l1 + zsum f l2.
Proof. induction l1; cbn; lia. Qed.
Lemma zsum_nonneg l : Forall (λ a, 0 ≤ f a) l → 0 ≤ zsum f l.
Proof. induction 1; cbn; lia. Qed.
Lemma zsum_perm l1 l2 : l1 ≡ₚ l2 → zsum f l1 = zsum f l2.
Proof. induction 1; cbn; lia. Qed.
Lemma zsum_map {B} (g : B → A) l : zsum f (map g l) = zsum (λ b, f (g b)) l.
Proof. induction l; cbn; lia. Qed.
Lemma zsum_filter_split (P : A → Prop) `{∀ a, Decision (P a)} l :
  zsum f l = zsum f (filter P l) + zsum f (filter (λ a, ¬ P a) l).
Proof.
  induction l as [|a l IH]; [done|].
  rewrite !filter_cons. do 2 case_decide; cbn; try tauto; lia.
Qed.
Lemma zsum_ext (g : A → Z) l : (∀ a, a ∈ l → f a = g a) → zsum f l = zsum g l.
Proof.
  induction l as [|a l IH]; intros H; [done|]. cbn.
  rewrite (H a), IH; [done| |set_solver]. intros; apply H; set_solver.
Qed.
Lemma zsum_elem_le l a :
  Forall (λ x, 0 ≤ f x) l → a ∈ l → f a ≤ zsum f l.
Proof.
  induction 1 as [|b l Hb Hl IH]; [by intros ?%elem_of_nil|].
  pose proof (zsum_nonneg l Hl). intros [->|?]%elem_of_cons; cbn; [lia|].
  specialize (IH ltac:(done)). lia.
Qed.
End Sums.

Lemma zsum_le {A} (f g : A → Z) l : (∀ a, a ∈ l → f a ≤ g a) → zsum f l ≤ zsum g l.
Proof.
  induction l as [|a l IH]; intros H; cbn; [lia|].
  specialize (H a ltac:(set_solver)) as Ha.
  assert (zsum f l ≤ zsum g l) by (apply IH; intros; apply H; set_solver). lia.
Qed.

Definition map_sum {K V} `{Countable K} (f : V → Z) (m : gmap K V) : Z :=
  zsum (λ kv, f kv.2) (map_to_list m).

Section MapSums.
Context {K V : Type} `{Countable K} (f : V → Z).
Implicit Types m : gmap K V.

Lemma map_sum_empty : map_sum f (∅ : gmap K V) = 0.
Proof. unfold map_sum. by rewrite map_to_list_empty. Qed.
Lemma map_sum_insert_None m k v :
  m !! k = None → map_sum f (<[k:=v]> m) = f v + map_sum f m.
Proof.
  intros Hk. unfold map_sum.
  by rewrite (zsum_perm _ _ _ (map_to_list_insert m k v Hk)).
Qed.
Lemma map_sum_delete m k v :
  m !! k = Some v → map_sum f m = f v + map_sum f (delete k m).
Proof.
  intros Hk. unfold map_sum.
  by rewrite <- (zsum_perm _ _ _ (map_to_list_delete m k v Hk)).
Qed.
Lemma map_sum_insert m k v :
  map_sum f (<[k:=v]> m) = map_sum f m - from_option f 0 (m !! k) + f v.
Proof.
  destruct (m !! k) as [v'|] eqn:Hk; cbn.
  - rewrite <- insert_delete_eq, map_sum_insert_None by apply lookup_delete_eq.
    rewrite (map_sum_delete m k v' Hk). lia.
  - rewrite map_sum_insert_None by done. lia.
Qed.
Lemma map_sum_keys m ks :
  map_Forall (λ _ v, 0 ≤ f v) m → NoDup ks →
  zsum (λ k, from_option f 0 (m !! k)) ks ≤ map_sum f m.
Proof.
  intros Hm Hks. revert m Hm. induction Hks as [|k ks Hk _ IH]; intros m Hm; cbn.
  { apply zsum_nonneg, Forall_forall. intros [k v] Hkv. by apply elem_of_map_to_list, Hm in Hkv. }
  specialize (IH (delete k m) ltac:(by apply map_Forall_delete)).
  rewrite (zsum_ext _ (λ k', from_option f 0 (m !! k'))) in IH.
  2:{ intros k' Hk'. rewrite lookup_delete_ne; [done|]. by intros <-. }
  destruct (m !! k) as [v|] eqn:Hv; cbn.
  - rewrite (map_sum_delete m k v Hv). lia.
  - rewrite delete_id in IH by done. lia.
Qed.
Lemma map_sum_nonneg m : map_Forall (λ _ v, 0 ≤ f v) m → 0 ≤ map_sum f m.
Proof.
  intros Hm. apply zsum_nonneg, Forall_forall. intros [k v] Hkv.
  by apply elem_of_map_to_list, Hm in Hkv.
Qed.
End MapSums.
