(* ===== verification/Interfaces.v ===== *)
(** Interfaces to the code the pallets call and that is not part of the
    repository: the fixed-point arithmetic of [sp_arithmetic] and the
    [Currency] of the balances pallet.  An interface is a class of operations;
    what the pallets rely on is a class of laws that states the documented
    behaviour.  [TestPerThing], [TestFixedPoint] and [TestCurrency] are concrete instances, used to
    evaluate the pallets on inputs and to show that the laws can hold. *)

From Stdlib Require Import ZArith Lia.
From stdpp Require Import base option list gmap fin_maps.
From S2P Require Import Prelude.
#[local] Open Scope Z_scope.

(** An account identifier: the 256-bit number of an [AccountId32]. *)
Abbreviation AccountId := Z (only parsing).
Abbreviation EraIndex := Z (only parsing).
Abbreviation SessionIndex := Z (only parsing).

(** The origin of a call ([frame_system::RawOrigin]). *)
Inductive Origin := Root | Signed (who : AccountId) | NoOrigin.

(** * Parts of a whole

    [Perbill], [Perquintill] and [Percent] are parts per 10^9, 10^18 and 100;
    a value is its number of parts ([deconstruct]). *)

Class PerThing := {
  perbill_from_rational : Z → Z → Z;
  perbill_mul : Z → Z → Z;
  perquintill_from_rational : Z → Z → Z;
  perquintill_mul : Z → Z → Z;
  percent_mul : Z → Z → Z;
}.

Definition perbill_one : Z := 10 ^ 9.
Definition perquintill_one : Z := 10 ^ 18.
Definition is_perbill (p : Z) : Prop := 0 ≤ p ≤ perbill_one.
Definition is_perquintill (p : Z) : Prop := 0 ≤ p ≤ perquintill_one.

(** [from_rational] is clamped to one, and a part of [x] is at most [x]. *)
Class PerThingLaws `{PerThing} := {
  perbill_from_rational_range p q : is_perbill (perbill_from_rational p q);
  perquintill_from_rational_range p q :
    is_perquintill (perquintill_from_rational p q);
  perbill_mul_range p x :
    is_perbill p → 0 ≤ x → 0 ≤ perbill_mul p x ≤ x;
  perquintill_mul_range p x :
    is_perquintill p → 0 ≤ x → 0 ≤ perquintill_mul p x ≤ x;
  perbill_mul_zero x : 0 ≤ x → perbill_mul 0 x = 0;
  perbill_mul_mono p x y :
    is_perbill p → 0 ≤ x ≤ y → perbill_mul p x ≤ perbill_mul p y;
  perbill_mul_mono_l p q x :
    is_perbill q → 0 ≤ p ≤ q → 0 ≤ x → perbill_mul p x ≤ perbill_mul q x;
}.

(** A ratio and a part are rounded, by less than one part and one unit, in
    whichever direction. *)
Class PerThingRounding `{PerThing} := {
  perbill_from_rational_near p q :
    0 ≤ p ≤ q → (perbill_from_rational p q - 1) * Z.max 1 q ≤ p * perbill_one;
  perbill_mul_near p x :
    is_perbill p → 0 ≤ x → perbill_one * perbill_mul p x ≤ p * x + perbill_one;
}.

(** * Fixed-point numbers with 18 decimals ([FixedU128]) *)

Class FixedPoint := {
  checked_from_rational : Z → Z → option Z;
  checked_mul_int : Z → Z → option Z;
}.

Definition fixed_one : Z := 10 ^ 18.

(** A ratio of [n] to [d] is at most one when [n ≤ d], is one when they are
    equal, and [r * x] is monotone in [r], with [1 * x = x]. *)
Class FixedPointLaws `{FixedPoint} := {
  from_rational_le n d r :
    checked_from_rational n d = Some r → 0 ≤ n ≤ d → 0 ≤ r ≤ fixed_one;
  from_rational_nonneg n d r :
    checked_from_rational n d = Some r → 0 ≤ n → 0 ≤ d → 0 ≤ r;
  from_rational_same n : 0 < n → checked_from_rational n n = Some fixed_one;
  mul_int_le r x y :
    checked_mul_int r x = Some y → 0 ≤ r ≤ fixed_one → 0 ≤ x → 0 ≤ y ≤ x;
  mul_int_nonneg r x y : checked_mul_int r x = Some y → 0 ≤ r → 0 ≤ x → 0 ≤ y;
  mul_int_one x : u128 x → checked_mul_int fixed_one x = Some x;
  mul_int_range r x y : checked_mul_int r x = Some y → u128 y;
}.

(** * Currency *)

Inductive ExistenceRequirement := KeepAlive | AllowDeath.

#[export] Instance ExistenceRequirement_eq_dec : EqDecision ExistenceRequirement.
Proof. solve_decision. Defined.

(** The operations of [Currency] and [LockableCurrency] the pallets use.  A
    positive imbalance is the amount that was created and is not yet in the
    total issuance; [drop_positive] is its destructor, and [settle] takes it
    back out of an account instead.  A negative imbalance is the amount that
    was taken; [drop_negative] burns it. *)
Class Currency := {
  cur : Type;
  minimum_balance : Z;
  free_balance : AccountId → cur → Z;
  total_balance : AccountId → cur → Z;
  total_issuance : cur → Z;
  deposit_creating : AccountId → Z → cur → Z * cur;
  deposit_into_existing : AccountId → Z → cur → option Z * cur;
  drop_positive : Z → cur → cur;
  drop_negative : Z → cur → cur;
  withdraw : AccountId → Z → ExistenceRequirement → cur → option (Z * cur);
  transfer : AccountId → AccountId → Z → ExistenceRequirement → cur → option cur;
  slash_currency : AccountId → Z → cur → Z * Z * cur;
  resolve_creating : AccountId → Z → cur → cur;
  settle : AccountId → Z → ExistenceRequirement → cur → option cur;
  set_lock : AccountId → Z → cur → cur;
  remove_lock : AccountId → cur → cur;
}.

(** The laws.  [deposit_creating] either creates the whole value in the
    account or does nothing and returns an empty imbalance; a failed operation
    changes nothing (it returns no state); locks do not change balances. *)
Class CurrencyLaws `{Currency} := {
  free_range a c : u128 (free_balance a c);
  deposit_creating_spec a v c v' c' :
    deposit_creating a v c = (v', c') → 0 ≤ v →
    (v' = v ∨ v' = 0) ∧
    ∀ b, free_balance b c' = free_balance b c + (if decide (a = b) then v' else 0);
  deposit_creating_issuance a v c v' c' :
    deposit_creating a v c = (v', c') → total_issuance c' = total_issuance c;
  deposit_into_existing_spec a v c v' c' :
    deposit_into_existing a v c = (Some v', c') → 0 ≤ v →
    v' = v ∧
    ∀ b, free_balance b c' = free_balance b c + (if decide (a = b) then v else 0);
  deposit_into_existing_None a v c c' :
    deposit_into_existing a v c = (None, c') → c' = c;
  drop_positive_free v a c : free_balance a (drop_positive v c) = free_balance a c;
  drop_negative_free v a c : free_balance a (drop_negative v c) = free_balance a c;
  withdraw_spec a v er c v' c' :
    withdraw a v er c = Some (v', c') → 0 ≤ v →
    v' = v ∧ v ≤ free_balance a c ∧
    ∀ b, free_balance b c' = free_balance b c - (if decide (a = b) then v else 0);
  transfer_spec a b v er c c' :
    transfer a b v er c = Some c' → 0 ≤ v →
    v ≤ free_balance a c ∧
    ∀ d, free_balance d c' = free_balance d c
           - (if decide (a = d) then v else 0) + (if decide (b = d) then v else 0);
  slash_spec a v c imb missing c' :
    slash_currency a v c = (imb, missing, c') → 0 ≤ v →
    0 ≤ imb ∧ 0 ≤ missing ∧ imb + missing = v;
  settle_spec a v er c c' :
    settle a v er c = Some c' → 0 ≤ v →
    v ≤ free_balance a c ∧
    ∀ b, free_balance b c' = free_balance b c - (if decide (a = b) then v else 0);
  set_lock_free a v b c : free_balance b (set_lock a v c) = free_balance b c;
  remove_lock_free a b c : free_balance b (remove_lock a c) = free_balance b c;
}.

(** * Concrete instances *)

Definition part (acc p x : Z) : Z := p * x / acc.
Definition ratio_of (acc p q : Z) : Z := Z.max 0 (Z.min (p * acc / Z.max 1 q) acc).

Definition TestPerThing : PerThing := {|
  perbill_from_rational := ratio_of perbill_one;
  perbill_mul := part perbill_one;
  perquintill_from_rational := ratio_of perquintill_one;
  perquintill_mul := part perquintill_one;
  percent_mul := part 100;
|}.

Definition TestFixedPoint : FixedPoint := {|
  checked_from_rational n d :=
    if decide (0 < d ∧ n * fixed_one / d ≤ umax 128)
    then Some (n * fixed_one / d) else None;
  checked_mul_int r x :=
    if decide (0 ≤ r * x / fixed_one ≤ umax 128)
    then Some (r * x / fixed_one) else None;
|}.

Lemma part_range acc p x : 0 < acc → 0 ≤ p ≤ acc → 0 ≤ x → 0 ≤ part acc p x ≤ x.
Proof.
  intros Hacc Hp Hx. unfold part. split.
  - apply Z.div_pos; nia.
  - apply Z.div_le_upper_bound; nia.
Qed.

Lemma ratio_of_range acc p q : 0 < acc → 0 ≤ ratio_of acc p q ≤ acc.
Proof. intros. unfold ratio_of. lia. Qed.

Lemma TestPerThing_laws : @PerThingLaws TestPerThing.
Proof.
  split; cbn; unfold is_perbill, is_perquintill; intros.
  - by apply ratio_of_range.
  - by apply ratio_of_range.
  - by apply part_range.
  - by apply part_range.
  - done.
  - apply Z.div_le_mono; [done | nia].
  - apply Z.div_le_mono; [done | nia].
Qed.

Lemma TestPerThing_rounding : @PerThingRounding TestPerThing.
Proof.
  split; cbn.
  - intros p q Hp. unfold ratio_of. set (m := Z.max 1 q).
    pose proof (Z.mul_div_le (p * perbill_one) m ltac:(lia)).
    assert (0 ≤ p * perbill_one / m) by (apply Z.div_pos; unfold perbill_one; lia).
    set (a := p * perbill_one / m) in *. assert (Z.max 0 (Z.min a perbill_one) ≤ a) by lia. nia.
  - intros p x Hp Hx. unfold part. pose proof (Z.mul_div_le (p * x) perbill_one eq_refl).
    unfold perbill_one in *. lia.
Qed.

Lemma TestFixedPoint_laws : @FixedPointLaws TestFixedPoint.
Proof.
  assert (0 < fixed_one) as Hone by done.
  split; cbn; intros *.
  - case_decide as Hd; intros [= <-] Hn. split; [apply Z.div_pos; nia|].
    apply Z.div_le_upper_bound; nia.
  - case_decide as Hd; intros [= <-] ? ?. apply Z.div_pos; nia.
  - intros Hn. rewrite Z.mul_comm, Z.div_mul by lia.
    rewrite decide_True; [done|]. unfold fixed_one, umax. lia.
  - case_decide; intros [= <-] ? ?. split; [apply Z.div_pos; nia|].
    apply Z.div_le_upper_bound; nia.
  - case_decide; intros [= <-] ? ?. apply Z.div_pos; nia.
  - intros Hx. rewrite Z.mul_comm, Z.div_mul by lia.
    rewrite decide_True; [done|]. unfold in_u, umax in *. lia.
  - case_decide; intros [= <-]. unfold in_u, umax in *. lia.
Qed.

(** A ledger of balances: an account exists while its balance is positive,
    and a withdrawal that must keep the account alive leaves the minimum. *)
Record test_cur := TestCur {
  t_free : gmap AccountId Z;
  t_issuance : Z;
  t_locks : gmap AccountId Z;
}.

Section TestCurrency.
Definition t_balance (a : AccountId) (c : test_cur) : Z :=
  Z.max 0 (Z.min (umax 128) (default 0 (t_free c !! a))).
Definition t_put (a : AccountId) (v : Z) (c : test_cur) : test_cur :=
  TestCur (<[a := v]> (t_free c)) (t_issuance c) (t_locks c).
Definition t_add (a : AccountId) (v : Z) (c : test_cur) : test_cur :=
  t_put a (t_balance a c + v) c.
Definition t_can_take (a : AccountId) (v : Z) (er : ExistenceRequirement) c : bool :=
  bool_decide (v ≤ t_balance a c ∧ (er = KeepAlive → 1 ≤ t_balance a c - v)).
Definition t_fits (a : AccountId) (v : Z) c : bool :=
  bool_decide (t_balance a c + v ≤ umax 128).
Definition t_issue (v : Z) (c : test_cur) : test_cur :=
  TestCur (t_free c) (t_issuance c + v) (t_locks c).
End TestCurrency.

Definition TestCurrency : Currency := {|
  cur := test_cur;
  minimum_balance := 1;
  free_balance := t_balance;
  total_balance := t_balance;
  total_issuance := t_issuance;
  deposit_creating a v c := if t_fits a v c then (v, t_add a v c) else (0, c);
  deposit_into_existing a v c :=
    if bool_decide (0 < t_balance a c) && t_fits a v c then (Some v, t_add a v c)
    else (None, c);
  drop_positive := t_issue;
  drop_negative v := t_issue (- v);
  withdraw a v er c :=
    if t_can_take a v er c then Some (v, t_add a (- v) c) else None;
  transfer a b v er c :=
    if t_can_take a v er c && t_fits b v (t_add a (- v) c)
    then Some (t_add b v (t_add a (- v) c)) else None;
  slash_currency a v c :=
    let taken := Z.min v (t_balance a c) in (taken, v - taken, t_add a (- taken) c);
  resolve_creating a v c := t_add a v c;
  settle a v er c :=
    if t_can_take a v er c then Some (t_add a (- v) c) else None;
  set_lock a v c := TestCur (t_free c) (t_issuance c) (<[a := v]> (t_locks c));
  remove_lock a c := TestCur (t_free c) (t_issuance c) (delete a (t_locks c));
|}.

Lemma t_balance_range a c : u128 (t_balance a c).
Proof. unfold t_balance, in_u, umax. lia. Qed.

Lemma t_balance_add a v c b :
  - t_balance a c ≤ v → t_balance a c + v ≤ umax 128 →
  t_balance b (t_add a v c) = t_balance b c + (if decide (a = b) then v else 0).
Proof.
  intros Hv Hf. unfold t_balance in *; cbn. rewrite lookup_insert.
  case_decide; subst; cbn; unfold t_balance; lia.
Qed.

Lemma t_can_take_spec a v er c : t_can_take a v er c = true → v ≤ t_balance a c.
Proof. unfold t_can_take. intros ?%bool_decide_eq_true. tauto. Qed.

Lemma t_fits_spec a v c : t_fits a v c = true → t_balance a c + v ≤ umax 128.
Proof. apply bool_decide_eq_true. Qed.

(** Deposits add, withdrawals subtract. *)
Lemma t_add_spec a v c b :
  0 ≤ v → t_fits a v c = true →
  t_balance b (t_add a v c) = t_balance b c + (if decide (a = b) then v else 0).
Proof.
  intros Hv Hf%t_fits_spec. apply t_balance_add; [|done].
  pose proof (t_balance_range a c). ulia.
Qed.

Lemma t_take_spec a v er c b :
  0 ≤ v → t_can_take a v er c = true →
  t_balance b (t_add a (- v) c) = t_balance b c - (if decide (a = b) then v else 0).
Proof.
  intros Hv Hf%t_can_take_spec. pose proof (t_balance_range a c).
  rewrite t_balance_add by ulia. case_decide; lia.
Qed.

Lemma TestCurrency_laws : @CurrencyLaws TestCurrency.
Proof.
  split; cbn; intros *.
  - apply t_balance_range.
  - destruct (t_fits a v c) eqn:Hf; intros [= <- <-] Hv.
    + split; [auto|]. intros b. by apply t_add_spec.
    + split; [auto|]. intros b. case_decide; lia.
  - destruct (t_fits a v c); by intros [= <- <-].
  - destruct (bool_decide _), (t_fits a v c) eqn:Hf; cbn; intros [= <- <-] Hv.
    split; [done|]. intros b. by apply t_add_spec.
  - destruct (bool_decide _), (t_fits a v c); cbn; by intros [=].
  - done.
  - done.
  - destruct (t_can_take a v er c) eqn:Ht; intros [= <- <-] Hv.
    pose proof (t_can_take_spec _ _ _ _ Ht). repeat split; [done|].
    intros b. by eapply t_take_spec.
  - destruct (t_can_take a v er c) eqn:Ht; [|done]. cbn.
    destruct (t_fits b v _) eqn:Hf; intros [= <-] Hv.
    split; [by apply t_can_take_spec in Ht|].
    intros d. rewrite t_add_spec by done. by rewrite (t_take_spec _ _ er).
  - intros [= <- <- <-] Hv. pose proof (t_balance_range a c). ulia.
  - destruct (t_can_take a v er c) eqn:Ht; intros [= <-] Hv.
    split; [by apply t_can_take_spec in Ht|]. intros b. by eapply t_take_spec.
  - done.
  - done.
Qed.
