(* ===== verification/StakingLedger.v ===== *)
(** The ledger of a bonded stash: [StakingLedger] of
    [frame/staking/src/lib.rs] with its three operations,
    [consolidate_unlocked], [rebond] and [slash].  The invariant is that
    [total] is [active] plus the chunks that are being unlocked. *)

From Stdlib Require Import ZArith Lia.
From stdpp Require Import base option list gmap fin_maps.
From S2P Require Import Prelude Interfaces.
#[local] Open Scope Z_scope.

Record UnlockChunk := { value : Z; era : EraIndex }.
Add Printing Constructor UnlockChunk.

#[export] Instance UnlockChunk_eta : Eta UnlockChunk :=
  λ c, {| value := value c; era := era c |}.

Record StakingLedger := {
  stash : AccountId;
  total : Z;
  active : Z;
  unlocking : list UnlockChunk;
  claimed_rewards : list EraIndex;
}.

#[export] Instance StakingLedger_eta : Eta StakingLedger := λ l,
  {| stash := stash l; total := total l; active := active l;
     unlocking := unlocking l; claimed_rewards := claimed_rewards l |}.

#[export] Instance UnlockChunk_eq_dec : EqDecision UnlockChunk.
Proof. solve_decision. Defined.
#[export] Instance StakingLedger_eq_dec : EqDecision StakingLedger.
Proof. solve_decision. Defined.

(** [parameter_types! { pub MaxUnlockingChunks: u32 = 32; }] *)
Definition MaxUnlockingChunks : nat := 32.

Definition default_from (who : AccountId) : StakingLedger :=
  {| stash := who; total := 0; active := 0; unlocking := []; claimed_rewards := [] |}.

(** * [consolidate_unlocked] *)

(** The [filter] closure keeps the chunks of later eras and subtracts the
    others from [total]. *)
Fixpoint consolidate_chunks (current_era : EraIndex) (t : Z)
    (chunks : list UnlockChunk) : Z * list UnlockChunk :=
  match chunks with
  | [] => (t, [])
  | c :: chunks' =>
      if decide (era c > current_era) then
        let '(t', kept) := consolidate_chunks current_era t chunks' in (t', c :: kept)
      else consolidate_chunks current_era (sat_sub t (value c)) chunks'
  end.

Definition consolidate_unlocked (l : StakingLedger) (current_era : EraIndex)
    : StakingLedger :=
  let '(t, kept) := consolidate_chunks current_era (total l) (unlocking l) in
  {| stash := stash l; total := t; active := active l; unlocking := kept;
     claimed_rewards := claimed_rewards l |}.

(** * [rebond] *)

(** The [while let Some(last) = self.unlocking.last_mut()] loop, on the chunks
    with the last one first.  [None] when the fuel runs out. *)
Fixpoint rebond_loop (fuel : nat) (v : Z) (act unlocking_balance : Z)
    (rev_chunks : list UnlockChunk) : option (Z * Z * list UnlockChunk) :=
  match fuel, rev_chunks with
  | _, [] => Some (act, unlocking_balance, [])
  | O, _ => None
  | S fuel', last :: rest =>
      let '(act', ub', chunks') :=
        if decide (wadd 128 unlocking_balance (value last) ≤ v) then
          (wadd 128 act (value last), wadd 128 unlocking_balance (value last), rest)
        else
          let diff := wsub 128 v unlocking_balance in
          (wadd 128 act diff, wadd 128 unlocking_balance diff,
           {| value := wsub 128 (value last) diff; era := era last |} :: rest) in
      if decide (v ≤ ub') then Some (act', ub', chunks')
      else rebond_loop fuel' v act' ub' chunks'
  end.

Definition rebond (l : StakingLedger) (v : Z) : option (StakingLedger * Z) :=
  match rebond_loop (S (length (unlocking l))) v (active l) 0 (reverse (unlocking l)) with
  | Some (act, ub, chunks) =>
      Some (l <| active := act |> <| unlocking := reverse chunks |>, ub)
  | None => None
  end.

(** * [slash] *)

Section Slash.
Context `{PerThing}.

(** The closure [slash_out_of]: what is left of the target, of the total and
    of the slash. *)
Definition slash_out_of (slash_amount affected_balance minimum_balance : Z)
    (target tot slash_remaining : Z) : Z * Z * Z :=
  let ratio := perquintill_from_rational slash_amount affected_balance in
  let slash_from_target :=
    Z.min (if decide (slash_amount < affected_balance)
           then perquintill_mul ratio target else slash_remaining) target in
  let target' := wsub 128 target slash_from_target in
  let '(target'', slash_from_target') :=
    if decide (target' < minimum_balance)
    then (0, sat_add 128 target' slash_from_target)
    else (target', slash_from_target) in
  (target'', sat_sub tot slash_from_target',
   sat_sub slash_remaining slash_from_target').

(** The loop over [slash_chunks_priority], with its two [break]s. *)
Fixpoint slash_chunks (slash_amount affected_balance minimum_balance : Z)
    (priority : list nat) (chunks : list UnlockChunk) (tot remaining : Z)
    (slashed_unlocking : gmap EraIndex Z)
    : list UnlockChunk * Z * Z * gmap EraIndex Z :=
  match priority with
  | [] => (chunks, tot, remaining, slashed_unlocking)
  | i :: priority' =>
      match chunks !! i with
      | None => (chunks, tot, remaining, slashed_unlocking)
      | Some c =>
          if decide (remaining = 0) then (chunks, tot, remaining, slashed_unlocking)
          else
            let '(v', tot', remaining') :=
              slash_out_of slash_amount affected_balance minimum_balance
                (value c) tot remaining in
            slash_chunks slash_amount affected_balance minimum_balance priority'
              (<[i := {| value := v'; era := era c |}]> chunks) tot' remaining'
              (<[era c := v']> slashed_unlocking)
      end
  end.

(** [position]: the index of the first chunk that satisfies the test. *)
Definition position {A} (P : A → Prop) `{∀ x, Decision (P x)} (l : list A)
    : option nat := fst <$> list_find P l.

(** [affected_balance] and [slash_chunks_priority]. *)
Definition slash_targets (l : StakingLedger) (chunk_unlock_era_after_slash : EraIndex)
    : Z * list nat :=
  let n := length (unlocking l) in
  match position (λ c, era c >= chunk_unlock_era_after_slash) (unlocking l) with
  | Some start_index =>
      let affected_indices := seq start_index (n - start_index) in
      let unbonding_affected_balance :=
        foldl (λ sum i, match unlocking l !! i with
                        | Some chunk => sat_add 128 sum (value chunk)
                        | None => sum
                        end) 0 affected_indices in
      (sat_add 128 (active l) unbonding_affected_balance,
       affected_indices ++ reverse (seq 0 start_index))
  | None => (active l, reverse (seq 0 n))
  end.

(** [slash]: the new ledger, the amount slashed, and the arguments of the
    call to [T::OnStakerSlash::on_slash], if it is made. *)
Definition slash (BondingDuration : EraIndex) (l : StakingLedger)
    (slash_amount minimum_balance : Z) (slash_era : EraIndex)
    : StakingLedger * Z * option (AccountId * Z * gmap EraIndex Z) :=
  if decide (slash_amount = 0) then (l, 0, None) else
  let pre_slash_total := total l in
  let era_after_slash := wadd 32 slash_era 1 in
  let chunk_unlock_era_after_slash := wadd 32 era_after_slash BondingDuration in
  let '(affected_balance, slash_chunks_priority) :=
    slash_targets l chunk_unlock_era_after_slash in
  let '(act, tot, remaining) :=
    slash_out_of slash_amount affected_balance minimum_balance
      (active l) (total l) slash_amount in
  let '(chunks, tot', _, slashed_unlocking) :=
    slash_chunks slash_amount affected_balance minimum_balance
      slash_chunks_priority (unlocking l) tot remaining ∅ in
  let l' :=
    {| stash := stash l; total := tot'; active := act;
       unlocking := filter (λ c, value c ≠ 0) chunks;
       claimed_rewards := claimed_rewards l |} in
  (l', sat_sub pre_slash_total tot', Some (stash l, act, slashed_unlocking)).
End Slash.

(** * The invariant *)

Definition unlocking_sum (chunks : list UnlockChunk) : Z := zsum value chunks.

Record ledger_wf (l : StakingLedger) : Prop := {
  wf_total : total l = active l + unlocking_sum (unlocking l);
  wf_range : u128 (total l);
  wf_active : 0 ≤ active l;
  wf_chunks : Forall (λ c, 0 ≤ value c) (unlocking l);
}.

Lemma unlocking_sum_nonneg chunks :
  Forall (λ c, 0 ≤ value c) chunks → 0 ≤ unlocking_sum chunks.
Proof. apply zsum_nonneg. Qed.

Lemma unlocking_sum_reverse chunks :
  unlocking_sum (reverse chunks) = unlocking_sum chunks.
Proof. apply zsum_perm. by rewrite reverse_Permutation. Qed.

Lemma unlocking_sum_insert chunks i c v e :
  chunks !! i = Some c →
  unlocking_sum (<[i := {| value := v; era := e |}]> chunks)
  = unlocking_sum chunks - value c + v.
Proof.
  unfold unlocking_sum.
  revert i; induction chunks as [|d chunks IH]; intros [|i] Hi; try done.
  - injection Hi as ->. cbn. lia.
  - change (<[S i := ?x]> (d :: chunks)) with (d :: <[i := x]> chunks).
    cbn [zsum]. rewrite (IH i Hi). lia.
Qed.

(** ** Consolidation *)

Lemma consolidate_chunks_spec e chunks t :
  Forall (λ c, 0 ≤ value c) chunks → unlocking_sum chunks ≤ t →
  consolidate_chunks e t chunks =
    (t - unlocking_sum (filter (λ c, ¬ era c > e) chunks),
     filter (λ c, era c > e) chunks).
Proof.
  intros Hpos. revert t. induction Hpos as [|c chunks Hc Hpos IH]; intros t Ht.
  - cbn. f_equal. lia.
  - unfold unlocking_sum in *; cbn [zsum consolidate_chunks] in *.
    pose proof (zsum_nonneg value chunks Hpos). cbn beta in Hc.
    rewrite !filter_cons. case_decide as Hera.
    + rewrite IH by lia. rewrite (decide_False (P := ¬ era c > e)) by tauto. done.
    + rewrite sat_sub_exact, IH by lia.
      rewrite (decide_True (P := ¬ era c > e)) by done. cbn. f_equal. lia.
Qed.

Lemma consolidate_unlocked_eq l e :
  ledger_wf l →
  consolidate_unlocked l e =
    {| stash := stash l;
       total := active l + unlocking_sum (filter (λ c, era c > e) (unlocking l));
       active := active l;
       unlocking := filter (λ c, era c > e) (unlocking l);
       claimed_rewards := claimed_rewards l |}.
Proof.
  intros [Htot Hr Ha Hc]. unfold consolidate_unlocked.
  rewrite consolidate_chunks_spec by (auto; lia). f_equal.
  pose proof (zsum_filter_split value (λ c, era c > e) (unlocking l)).
  unfold unlocking_sum in *. lia.
Qed.

Lemma consolidate_unlocked_wf l e : ledger_wf l → ledger_wf (consolidate_unlocked l e).
Proof.
  intros Hwf. rewrite consolidate_unlocked_eq by done. destruct Hwf as [Htot Hr Ha Hc].
  pose proof (Forall_filter_sub _ (λ c, era c > e) _ Hc) as Hf.
  pose proof (Forall_filter_sub _ (λ c, ¬ era c > e) _ Hc) as Hf'.
  pose proof (zsum_filter_split value (λ c, era c > e) (unlocking l)).
  apply unlocking_sum_nonneg in Hf as ?. apply unlocking_sum_nonneg in Hf' as ?.
  split; cbn; unfold unlocking_sum, in_u in *; [done | lia | done | done].
Qed.

(** ** Rebonding *)

(** One run of the loop from a state in which [ub] was already rebonded. *)
Lemma rebond_loop_spec fuel v act ub chunks :
  (length chunks < fuel)%nat → 0 ≤ ub ≤ v → u128 v → 0 ≤ act →
  act + unlocking_sum chunks < 2 ^ 128 → ub + unlocking_sum chunks < 2 ^ 128 →
  Forall (λ c, 0 ≤ value c) chunks →
  ∃ chunks',
    rebond_loop fuel v act ub chunks =
      Some (act + Z.min (v - ub) (unlocking_sum chunks),
            ub + Z.min (v - ub) (unlocking_sum chunks), chunks')
    ∧ unlocking_sum chunks' = unlocking_sum chunks - Z.min (v - ub) (unlocking_sum chunks)
    ∧ Forall (λ c, 0 ≤ value c) chunks' ∧ (length chunks' ≤ length chunks)%nat.
Proof.
  revert act ub chunks. induction fuel as [|fuel IH]; intros act ub chunks; [lia|].
  destruct chunks as [|c chunks]; intros Hlen Hub Hv Hact Hs1 Hs2 Hpos.
  { exists []. unfold unlocking_sum in *; cbn in *.
    replace (Z.min (v - ub) 0) with 0 by lia. rewrite !Z.add_0_r. by repeat split. }
  apply Forall_cons in Hpos as [Hc Hpos].
  pose proof (unlocking_sum_nonneg chunks Hpos) as Hnn.
  unfold unlocking_sum in *; cbn [rebond_loop length zsum] in *.
  rewrite (wadd_small 128 ub) by ulia. case_decide as Hle.
  - rewrite (wadd_small 128 act) by ulia. case_decide as Hge.
    + exists chunks. replace (Z.min _ _) with (value c) by lia. repeat split; auto; lia.
    + destruct (IH (act + value c) (ub + value c) chunks)
        as (chunks' & Heq & Hsum & Hf & Hl); auto; try lia.
      exists chunks'. rewrite Heq. split; [|repeat split; auto; lia].
      tuple_lia.
  - rewrite (wsub_small 128 v) by ulia.
    rewrite (wadd_small 128 act), (wadd_small 128 ub) by ulia.
    rewrite (wsub_small 128 (value c)) by ulia.
    rewrite decide_True by lia.
    eexists (_ :: chunks).
    split; [tuple_lia|]. cbn [zsum value length].
    split; [lia|]. split; [|lia]. constructor; [cbn; lia | done].
Qed.

(** The loop ends: the fuel [rebond] gives it is enough, whatever the chunks. *)
Lemma rebond_spec l v :
  ledger_wf l → u128 v →
  ∃ l', rebond l v = Some (l', Z.min v (unlocking_sum (unlocking l)))
    ∧ ledger_wf l'
    ∧ stash l' = stash l ∧ total l' = total l
    ∧ claimed_rewards l' = claimed_rewards l
    ∧ active l' = active l + Z.min v (unlocking_sum (unlocking l))
    ∧ (length (unlocking l') ≤ length (unlocking l))%nat.
Proof.
  intros [Htot Hr Ha Hc] Hv. pose proof (unlocking_sum_nonneg _ Hc).
  pose proof (unlocking_sum_reverse (unlocking l)) as Hrev. unfold in_u in Hr.
  destruct (rebond_loop_spec (S (length (unlocking l))) v (active l) 0
              (reverse (unlocking l))) as (chunks & Heq & Hsum & Hpos & Hlen);
    rewrite ?length_reverse, ?Hrev in *; auto; try lia.
  { unfold in_u in Hv. lia. }
  { by rewrite reverse_Permutation. }
  unfold rebond. rewrite Heq, Z.sub_0_r in *.
  eexists; split; [reflexivity|]. cbn.
  rewrite length_reverse. repeat split; cbn; auto.
  all: rewrite ?unlocking_sum_reverse; try ulia.
  by rewrite reverse_Permutation.
Qed.

(** ** Slashing *)

Lemma unlocking_sum_filter_zero chunks :
  unlocking_sum (filter (λ c, value c ≠ 0) chunks) = unlocking_sum chunks.
Proof.
  unfold unlocking_sum. induction chunks as [|c chunks IH]; [done|].
  rewrite filter_cons. case_decide as Hz; cbn [zsum]; [lia|].
  assert (value c = 0) by lia. lia.
Qed.

Lemma unlocking_sum_elem_le chunks i c :
  Forall (λ c, 0 ≤ value c) chunks → chunks !! i = Some c →
  value c ≤ unlocking_sum chunks.
Proof. intros Hpos Hi. apply zsum_elem_le; [done|]. by eapply list_elem_of_lookup_2. Qed.

Lemma unlocking_sum_zero chunks :
  (∀ i c, chunks !! i = Some c → value c = 0) → unlocking_sum chunks = 0.
Proof.
  unfold unlocking_sum. induction chunks as [|c chunks IH]; intros Hz; [done|].
  cbn [zsum]. rewrite (Hz 0%nat c), IH; [done| |done].
  intros i. apply (Hz (S i)).
Qed.

Section SlashLemmas.
Context `{PerThingLaws}.
Context (slash_amount affected_balance min_bal : Z).

Abbreviation slash_out := (slash_out_of slash_amount affected_balance min_bal).
Abbreviation slash_loop := (slash_chunks slash_amount affected_balance min_bal).

(** The closure takes the same amount out of the target and of the total. *)
Lemma slash_out_of_spec target tot rem :
  0 ≤ target ≤ tot → u128 tot → 0 ≤ rem →
  ∃ taken,
    slash_out target tot rem = (target - taken, tot - taken, sat_sub rem taken)
    ∧ 0 ≤ taken ≤ target
    ∧ (affected_balance ≤ slash_amount →
         Z.min rem target ≤ taken ∧
         (target ≤ rem → taken = target) ∧
         taken ≤ Z.min rem target + Z.max 0 (min_bal - 1)).
Proof.
  intros Htar Htot Hrem. unfold slash_out_of.
  set (want := if decide (slash_amount < affected_balance) then _ else rem).
  assert (0 ≤ want ∧ (affected_balance ≤ slash_amount → want = rem)) as [Hw Hw'].
  { subst want. case_decide; [|split; [lia | done]].
    split; [|lia].
    edestruct (perquintill_mul_range
      (perquintill_from_rational slash_amount affected_balance) target);
      [apply perquintill_from_rational_range | lia | done]. }
  clearbody want. rewrite (wsub_small 128) by ulia. case_decide as Hdust.
  - exists target. rewrite (sat_add_exact 128) by ulia.
    replace (target - Z.min want target + Z.min want target) with target by lia.
    rewrite sat_sub_exact by lia. rewrite Z.sub_diag.
    split; [done|]. split; [lia|]. intros Haff. specialize (Hw' Haff). lia.
  - exists (Z.min want target). rewrite (sat_sub_exact tot) by lia.
    split; [done|]. split; [lia|]. intros Haff. specialize (Hw' Haff). lia.
Qed.

(** Nothing is taken when nothing remains. *)
Lemma slash_loop_zero priority chunks tot slashed :
  slash_loop priority chunks tot 0 slashed = (chunks, tot, 0, slashed).
Proof.
  destruct priority as [|i priority]; cbn [slash_chunks]; [done|].
  destruct (chunks !! i); [by rewrite decide_True|done].
Qed.

(** Chunks keep their era and only lose value. *)
Lemma lowered_insert (chunks chunks' : list UnlockChunk) i c v :
  chunks !! i = Some c → v ≤ value c →
  (∀ j d, <[i := {| value := v; era := era c |}]> chunks !! j = Some d →
     ∃ d', chunks' !! j = Some d' ∧ era d' = era d ∧ value d' ≤ value d) →
  ∀ j d, chunks !! j = Some d → ∃ d', chunks' !! j = Some d' ∧ era d' = era d ∧ value d' ≤ value d.
Proof.
  intros Hc Hv Hlow j d Hj. destruct (decide (i = j)) as [<-|Hne].
  - simplify_eq. destruct (Hlow i {| value := v; era := era c |}) as (c' & ? & ? & ?).
    { apply list_lookup_insert_eq. by eapply lookup_lt_Some. }
    exists c'. cbn in *. split_and!; [done | done | lia].
  - apply Hlow. by rewrite list_lookup_insert_ne.
Qed.

(** The loop takes from the chunks what it takes from the total, keeps the
    eras of the chunks, and stops early only when nothing remains. *)
Lemma slash_chunks_spec priority chunks tot rem slashed :
  Forall (λ c, 0 ≤ value c) chunks → unlocking_sum chunks ≤ tot → u128 tot → 0 ≤ rem →
  (∀ i, i ∈ priority → (i < length chunks)%nat) →
  ∃ chunks' taken slashed',
    slash_loop priority chunks tot rem slashed =
      (chunks', tot - taken, sat_sub rem taken, slashed')
    ∧ unlocking_sum chunks' = unlocking_sum chunks - taken
    ∧ 0 ≤ taken ∧ Forall (λ c, 0 ≤ value c) chunks'
    ∧ length chunks' = length chunks
    ∧ (∀ i c, chunks !! i = Some c →
         ∃ c', chunks' !! i = Some c' ∧ era c' = era c ∧ value c' ≤ value c)
    ∧ (affected_balance ≤ slash_amount →
         taken ≤ rem + Z.max 0 (min_bal - 1) ∧
         (sat_sub rem taken = 0 ∨
          ∀ i c, i ∈ priority → chunks' !! i = Some c → value c = 0)).
Proof.
  revert chunks tot rem slashed.
  induction priority as [|i priority IH]; intros chunks tot rem slashed
    Hpos Hsum Htot Hrem Hin; cbn [slash_chunks].
  { exists chunks, 0, slashed. rewrite Z.sub_0_r, (sat_sub_exact rem), Z.sub_0_r by lia.
    split_and!; [done | lia | lia | done | done | by eauto using Z.le_refl |].
    split; [lia|]. right. by intros ? ? ?%elem_of_nil. }
  destruct (lookup_lt_is_Some_2 chunks i) as [c Hc]; [apply Hin; set_solver|].
  rewrite Hc. case_decide as Hz.
  { exists chunks, 0, slashed. rewrite Z.sub_0_r, (sat_sub_exact rem), Z.sub_0_r by lia.
    split_and!; [done | lia | lia | done | done | by eauto using Z.le_refl |].
    split; [lia | by left]. }
  pose proof (unlocking_sum_elem_le _ _ _ Hpos Hc) as Hle.
  pose proof (Forall_lookup_1 _ _ _ _ Hpos Hc) as Hc0; cbn in Hc0.
  destruct (slash_out_of_spec (value c) tot rem) as (tk & Heq & Htk & Hfull);
    [lia | done | done |]. rewrite Heq.
  set (chunks1 := <[i := _]> chunks).
  assert (unlocking_sum chunks1 = unlocking_sum chunks - tk) as Hsum1
    by (subst chunks1; rewrite (unlocking_sum_insert _ _ c) by done; lia).
  assert (Forall (λ c, 0 ≤ value c) chunks1) as Hpos1 by (apply Forall_insert; [done | cbn; lia]).
  assert (length chunks1 = length chunks) as Hlen1 by apply length_insert.
  assert (0 ≤ sat_sub rem tk) by ulia.
  destruct (IH chunks1 (tot - tk) (sat_sub rem tk) (<[era c := value c - tk]> slashed))
    as (chunks' & tk' & sl' & Hloop & Hs & Htk' & Hp & Hl & Hera & Hnp);
    [done | lia | ulia | done | intros; rewrite Hlen1; apply Hin; set_solver |].
  exists chunks', (tk + tk'), sl'. rewrite Hloop.
  split; [unfold sat_sub; tuple_lia|].
  split; [lia|]. split; [lia|]. split; [done|]. split; [lia|]. split.
  - apply (lowered_insert chunks chunks' i c (value c - tk)); [done | lia | exact Hera].
  - intros Haff. destruct (Hfull Haff) as (Hmin & Hall & Hup).
    destruct (Hnp Haff) as [Hup' Hend]. split.
    { destruct (decide (value c ≤ rem)); [rewrite Hall in * by done; ulia|].
      assert (sat_sub rem tk = 0) as Hr0 by ulia. rewrite Hr0, slash_loop_zero in Hloop.
      assert (tk' = 0) by (injection Hloop; lia). lia. }
    destruct Hend as [Hend|Hend]; [left; ulia|].
    destruct (decide (sat_sub rem (tk + tk') = 0)); [by left|right].
    intros j d [->|Hj]%elem_of_cons Hd; [|by eapply Hend].
    assert (tk = value c) as -> by (apply Hall; ulia).
    destruct (Hera i {| value := value c - value c; era := era c |})
      as (c' & Hc' & ? & ?); cbn in *.
    { unfold chunks1. apply list_lookup_insert_eq. by eapply lookup_lt_Some. }
    pose proof (Forall_lookup_1 _ _ _ _ Hp Hc') as ?; cbn in *. simplify_eq. lia.
Qed.
End SlashLemmas.

(** The priority order visits every chunk: the affected ones first, then the
    older ones from the newest to the oldest. *)
Lemma slash_targets_priority l e affected priority :
  slash_targets l e = (affected, priority) →
  ∀ i, i ∈ priority ↔ (i < length (unlocking l))%nat.
Proof.
  unfold slash_targets, position.
  destruct (list_find _ _) as [[k c]|] eqn:Hfind;
    cbn [fmap option_fmap option_map fst]; intros [= <- <-] i.
  - apply list_find_Some in Hfind as (Hk%lookup_lt_Some & _ & _).
    rewrite elem_of_app, elem_of_reverse, !elem_of_seq. lia.
  - rewrite elem_of_reverse, elem_of_seq. lia.
Qed.

Lemma slash_targets_affected l e :
  ledger_wf l → active l ≤ fst (slash_targets l e).
Proof.
  intros [Htot Hr Ha Hc]. pose proof (unlocking_sum_nonneg _ Hc).
  unfold slash_targets.
  destruct (position _ _) as [k|]; cbn [fst]; [|done].
  match goal with |- context [foldl ?g 0 _] => set (f := g) end.
  enough (∀ idx acc, 0 ≤ acc → 0 ≤ foldl f acc idx) as Hf.
  { pose proof (Hf (seq k (length (unlocking l) - k)) 0 (Z.le_refl 0)) as Hs.
    clear Hf Hc. clearbody f. ulia. }
  induction idx as [|i idx IH]; intros acc Hacc; cbn [foldl]; [done|].
  apply IH. subst f; cbn. destruct (unlocking l !! i) as [c|] eqn:Hi; [|done].
  pose proof (Forall_lookup_1 _ _ _ _ Hc Hi); cbn in *. ulia.
Qed.

Section SlashSpec.
Context `{PerThingLaws}.

(** Every branch of [slash] on a well-formed ledger. *)
Lemma slash_spec dur l amount min_bal e l' slashed call :
  ledger_wf l → 0 ≤ amount →
  slash dur l amount min_bal e = (l', slashed, call) →
  ledger_wf l' ∧ stash l' = stash l ∧ claimed_rewards l' = claimed_rewards l
  ∧ total l' = total l - slashed ∧ 0 ≤ slashed
  ∧ 0 ≤ active l' ≤ active l
  ∧ (amount ≠ 0 →
     Forall (λ c, value c ≠ 0) (unlocking l') ∧
     (fst (slash_targets l (wadd 32 (wadd 32 e 1) dur)) ≤ amount →
        active l' = 0 ∧
        Z.min amount (total l) ≤ slashed ≤ amount + Z.max 0 (min_bal - 1))).
Proof.
  intros Hwf Ham Hslash. pose proof Hwf as [Htot Hr Ha Hc]. unfold slash in Hslash.
  case_decide as Hz.
  { injection Hslash as <- <- <-. split_and!; auto; lia. }
  destruct (slash_targets l _) as [affected priority] eqn:Htargets.
  pose proof (slash_targets_priority _ _ _ _ Htargets) as Hprio.
  pose proof (unlocking_sum_nonneg _ Hc).
  destruct (slash_out_of_spec amount affected min_bal (active l) (total l) amount)
    as (tk & Hout & Htk & Hfull); [lia | done | ulia |].
  destruct (slash_chunks_spec amount affected min_bal priority (unlocking l)
    (total l - tk) (sat_sub amount tk) ∅)
    as (chunks & tk' & sl & Hloop & Hsum & Htk' & Hpos & Hlen & Hera & Hnp);
    [done | lia | ulia | ulia | intros; by apply Hprio |].
  rewrite Hout, Hloop in Hslash. injection Hslash as <- <- <-.
  assert (0 ≤ unlocking_sum chunks) by by apply unlocking_sum_nonneg.
  rewrite sat_sub_exact by lia. cbn [stash total active unlocking claimed_rewards fst].
  split_and!; try done; try lia.
  - split; cbn; rewrite ?unlocking_sum_filter_zero; try ulia.
    by apply Forall_filter_sub.
  - intros _. split; [by apply Forall_forall; intros ? [? _]%list_elem_of_filter|].
    intros Haff. pose proof (slash_targets_affected l (wadd 32 (wadd 32 e 1) dur) Hwf) as Hact.
    rewrite Htargets in Hact. cbn [fst] in Hact.
    destruct (Hfull Haff) as (Hmin & Hall & Hup).
    destruct (Hnp Haff) as [Hup' Hend]. rewrite Hall in * by lia.
    split; [lia|]. split; [|ulia].
    destruct Hend as [Hend|Hend]; [ulia|].
    enough (unlocking_sum chunks = 0) by lia. apply unlocking_sum_zero.
    intros i c Hi. eapply (Hend i c); [|done]. apply Hprio.
    rewrite <- Hlen. by eapply lookup_lt_Some.
Qed.
End SlashSpec.

(** * Properties *)

Section Properties.
Context `{PerThingLaws}.

(** C20: slashing a well-formed ledger keeps it well-formed ([total] is still
    [active] plus the chunks, nothing is negative or out of range), takes
    out of [total] exactly the amount it returns, never increases [active],
    and leaves no empty chunk behind. *)
Theorem slash_conserves dur l amount min_bal e l' slashed call :
  ledger_wf l → u128 amount → amount ≠ 0 →
  slash dur l amount min_bal e = (l', slashed, call) →
  ledger_wf l' ∧ total l' + slashed = total l ∧ 0 ≤ slashed
  ∧ active l' ≤ active l ∧ Forall (λ c, value c ≠ 0) (unlocking l')
  ∧ stash l' = stash l ∧ claimed_rewards l' = claimed_rewards l.
Proof.
  intros Hwf Ham Hz Hslash.
  apply slash_spec in Hslash as (?&?&?&?&?&[_ ?]&Hnz); [|done|ulia].
  destruct (Hnz Hz). split_and!; auto; lia.
Qed.

(** A slash of at least the affected balance (active funds plus the
    chunks unlocking since the offence) wipes [active], takes the whole
    amount or the whole ledger, and exceeds the amount by less than the
    minimum balance, which is the dust rule. *)
Theorem slash_exhaustive dur l amount min_bal e l' slashed call :
  ledger_wf l → u128 amount → amount ≠ 0 → 0 < min_bal →
  fst (slash_targets l (wadd 32 (wadd 32 e 1) dur)) ≤ amount →
  slash dur l amount min_bal e = (l', slashed, call) →
  active l' = 0 ∧ Z.min amount (total l) ≤ slashed < amount + min_bal.
Proof.
  intros Hwf Ham Hz Hmin Haff Hslash.
  apply slash_spec in Hslash as (?&?&?&?&?&?&Hnz); [|done|ulia].
  destruct (Hnz Hz) as [_ Hfull]. destruct (Hfull Haff). lia.
Qed.
End Properties.

(** C23: [rebond] terminates on every well-formed ledger; it moves
    [min value (sum of chunks)] from the chunks back to [active], returns that
    amount, and leaves [total] and the invariant unchanged. *)
Theorem rebond_correct l v :
  ledger_wf l → u128 v →
  ∃ l', rebond l v = Some (l', Z.min v (unlocking_sum (unlocking l)))
    ∧ ledger_wf l' ∧ total l' = total l
    ∧ active l' = active l + Z.min v (unlocking_sum (unlocking l))
    ∧ unlocking_sum (unlocking l') =
        unlocking_sum (unlocking l) - Z.min v (unlocking_sum (unlocking l)).
Proof.
  intros Hwf Hv. destruct (rebond_spec l v Hwf Hv) as (l' & Heq & Hwf' & _ & Ht & _ & Ha & _).
  exists l'. split_and!; auto. destruct Hwf, Hwf'. lia.
Qed.

(** [consolidate_unlocked] drops exactly the chunks whose era has come,
    reduces [total] by exactly their sum, and keeps the invariant. *)
Theorem consolidate_unlocked_correct l e :
  ledger_wf l →
  ledger_wf (consolidate_unlocked l e)
  ∧ unlocking (consolidate_unlocked l e) = filter (λ c, era c > e) (unlocking l)
  ∧ active (consolidate_unlocked l e) = active l
  ∧ total (consolidate_unlocked l e) =
      total l - unlocking_sum (filter (λ c, ¬ era c > e) (unlocking l)).
Proof.
  intros Hwf. split; [by apply consolidate_unlocked_wf|].
  rewrite consolidate_unlocked_eq by done. cbn. split_and!; try done.
  pose proof (zsum_filter_split value (λ c, era c > e) (unlocking l)).
  destruct Hwf. unfold unlocking_sum in *. lia.
Qed.

(** ** Concrete ledgers *)

Definition ledger_ex : StakingLedger :=
  {| stash := 1; total := 110; active := 50;
     unlocking := [{| value := 10; era := 4 |}; {| value := 20; era := 5 |};
                   {| value := 30; era := 6 |}];
     claimed_rewards := [] |}.

Lemma ledger_ex_wf : ledger_wf ledger_ex.
Proof. split; [done | unfold in_u; cbn; lia | done | by repeat constructor]. Qed.

(** Era 2 with a bonding duration of 2: the chunks of eras 5 and 6 are affected. *)
Example slash_ex :
  @slash TestPerThing 2 ledger_ex 50 1 2 =
    ({| stash := 1; total := 60; active := 25;
        unlocking := [{| value := 10; era := 4 |}; {| value := 10; era := 5 |};
                      {| value := 15; era := 6 |}];
        claimed_rewards := [] |}, 50,
     Some (1, 25, {[5 := 10; 6 := 15]})).
Proof. vm_compute. reflexivity. Qed.

Lemma slash_conserves_witness :
  ∃ l' slashed call,
    @slash TestPerThing 2 ledger_ex 50 1 2 = (l', slashed, call)
    ∧ ledger_wf l' ∧ total l' + slashed = 110 ∧ slashed = 50.
Proof.
  eexists _, _, _. split; [exact slash_ex|].
  edestruct (@slash_conserves TestPerThing TestPerThing_laws 2 ledger_ex 50 1 2)
    as (Hwf & Ht & _); [apply ledger_ex_wf | unfold in_u; lia | done | exact slash_ex |].
  split; [exact Hwf|]. split; [exact Ht | reflexivity].
Defined.

Lemma slash_exhaustive_witness :
  ∃ l' slashed call,
    @slash TestPerThing 2 ledger_ex 108 5 2 = (l', slashed, call)
    ∧ active l' = 0 ∧ slashed = 110.
Proof.
  eexists _, _, _. split; [vm_compute; reflexivity|].
  edestruct (@slash_exhaustive TestPerThing TestPerThing_laws 2 ledger_ex 108 5 2)
    as [Ha _]; [apply ledger_ex_wf | unfold in_u; lia | done | lia |
                vm_compute; done | vm_compute; reflexivity |].
  split; [exact Ha | reflexivity].
Defined.

Lemma rebond_correct_witness :
  ∃ l', rebond ledger_ex 45 = Some (l', 45) ∧ total l' = 110 ∧ active l' = 95.
Proof.
  destruct (rebond_correct ledger_ex 45 ledger_ex_wf ltac:(unfold in_u; lia))
    as (l' & Heq & _ & Ht & Ha & _).
  exists l'. split; [exact Heq|]. split; [exact Ht | exact Ha].
Defined.

Lemma consolidate_unlocked_correct_witness :
  total (consolidate_unlocked ledger_ex 5) = 80
  ∧ unlocking (consolidate_unlocked ledger_ex 5) = [{| value := 30; era := 6 |}].
Proof.
  destruct (consolidate_unlocked_correct ledger_ex 5 ledger_ex_wf) as (_ & Hu & _ & Ht).
  split; [rewrite Ht; reflexivity | rewrite Hu; reflexivity].
Defined.
