(* ===== verification/SlashingSpans.v ===== *)
(** The slashing spans of a staker: [SlashingSpan] and [SlashingSpans] of
    [frame/staking/src/slashing.rs].  The spans partition the eras since the
    first one into contiguous ranges, the last of which is open. *)

From Stdlib Require Import ZArith Lia.
From stdpp Require Import base option list gmap fin_sets.
From S2P Require Import Prelude Interfaces.
#[local] Open Scope Z_scope.

Abbreviation SpanIndex := Z (only parsing).

Record SlashingSpan := { index : SpanIndex; start : EraIndex; span_length : option EraIndex }.

#[export] Instance SlashingSpan_eq_dec : EqDecision SlashingSpan.
Proof. solve_decision. Defined.

Record SlashingSpans := {
  span_index : SpanIndex;
  last_start : EraIndex;
  last_nonzero_slash : EraIndex;
  prior : list EraIndex;
}.

#[export] Instance SlashingSpans_eta : Eta SlashingSpans := λ s,
  {| span_index := span_index s; last_start := last_start s;
     last_nonzero_slash := last_nonzero_slash s; prior := prior s |}.
#[export] Instance SlashingSpans_eq_dec : EqDecision SlashingSpans.
Proof. solve_decision. Defined.

Definition contains_era (sp : SlashingSpan) (e : EraIndex) : bool :=
  (start sp <=? e) &&
  match span_length sp with Some l => wadd 32 (start sp) l >? e | None => true end.

Definition new (window_start : EraIndex) : SlashingSpans :=
  {| span_index := 0; last_start := window_start; last_nonzero_slash := 0; prior := [] |}.

Definition end_span (s : SlashingSpans) (now : EraIndex) : SlashingSpans * bool :=
  let next_start := wadd 32 now 1 in
  if decide (next_start ≤ last_start s) then (s, false)
  else
    let last_length := wsub 32 next_start (last_start s) in
    ({| span_index := wadd 32 (span_index s) 1; last_start := next_start;
        last_nonzero_slash := last_nonzero_slash s; prior := last_length :: prior s |},
     true).

(** The closure of [iter], which walks [last_start] and [index] backwards. *)
Fixpoint iter_prior (ls : EraIndex) (idx : SpanIndex) (lens : list EraIndex)
    : list SlashingSpan :=
  match lens with
  | [] => []
  | len :: lens' =>
      let st := wsub 32 ls len in
      let idx' := wsub 32 idx 1 in
      {| index := idx'; start := st; span_length := Some len |} :: iter_prior st idx' lens'
  end.

Definition iter (s : SlashingSpans) : list SlashingSpan :=
  {| index := span_index s; start := last_start s; span_length := None |}
    :: iter_prior (last_start s) (span_index s) (prior s).

(** The test of [prune]: the span ended before the window. *)
Definition span_expired (window_start : EraIndex) (sp : SlashingSpan) : bool :=
  match span_length sp with
  | Some len => wadd 32 (start sp) len <=? window_start
  | None => false
  end.

Definition prune (s : SlashingSpans) (window_start : EraIndex)
    : SlashingSpans * option (SpanIndex * SpanIndex) :=
  let old_idx := fst <$> list_find (λ sp, span_expired window_start sp) (drop 1 (iter s)) in
  let earliest_span_index := wsub 32 (span_index s) (Z.of_nat (length (prior s))) in
  let '(prior', pruned) :=
    match old_idx with
    | Some o =>
        let prior' := take o (prior s) in
        (prior', Some (earliest_span_index,
                       wsub 32 (span_index s) (Z.of_nat (length prior'))))
    | None => (prior s, None)
    end in
  (s <| prior := prior' |> <| last_start := Z.max (last_start s) window_start |>, pruned).

(** [era_span] of [InspectingSpans] *)
Definition era_span (s : SlashingSpans) (e : EraIndex) : option SlashingSpan :=
  snd <$> list_find (λ sp, contains_era sp e) (iter s).

(** * Well-formed spans *)

Record spans_wf (s : SlashingSpans) : Prop := {
  swf_last : u32 (last_start s);
  swf_index : u32 (span_index s);
  swf_prior : Forall (λ l, 0 < l) (prior s);
  swf_sum : zsum id (prior s) ≤ last_start s;
  swf_len : Z.of_nat (length (prior s)) ≤ span_index s;
}.

Lemma new_wf w : u32 w → spans_wf (new w).
Proof. intros Hw. split; cbn; [done | ulia | done | ulia | lia]. Qed.

Lemma zsum_id_nonneg l : Forall (λ x, 0 < x) l → 0 ≤ zsum id l.
Proof.
  intros Hl. apply zsum_nonneg. eapply Forall_impl; [exact Hl|].
  intros x Hx. unfold id. cbn in Hx. lia.
Qed.

(** The spans before [ls], without the machine arithmetic. *)
Fixpoint prior_spans (ls : EraIndex) (idx : SpanIndex) (lens : list EraIndex)
    : list SlashingSpan :=
  match lens with
  | [] => []
  | len :: lens' =>
      {| index := idx - 1; start := ls - len; span_length := Some len |}
        :: prior_spans (ls - len) (idx - 1) lens'
  end.

Lemma iter_prior_spans ls idx lens :
  u32 ls → u32 idx → Forall (λ l, 0 < l) lens → zsum id lens ≤ ls →
  Z.of_nat (length lens) ≤ idx →
  iter_prior ls idx lens = prior_spans ls idx lens.
Proof.
  intros Hls Hidx Hpos. revert ls idx Hls Hidx.
  induction Hpos as [|len lens Hlen Hpos IH]; intros ls idx Hls Hidx Hsum Hl; [done|].
  cbn [iter_prior prior_spans zsum length] in *. unfold id in Hsum at 1.
  pose proof (zsum_id_nonneg lens Hpos).
  rewrite !wsub_small by ulia. rewrite IH; [done | ulia | ulia | lia | lia].
Qed.

Lemma iter_eq s :
  spans_wf s →
  iter s = {| index := span_index s; start := last_start s; span_length := None |}
    :: prior_spans (last_start s) (span_index s) (prior s).
Proof. intros []. unfold iter. by rewrite iter_prior_spans. Qed.

Definition span_end (sp : SlashingSpan) : option Z :=
  match span_length sp with Some l => Some (start sp + l) | None => None end.

(** The span ended at or before era [w]. *)
Definition ended (w : EraIndex) (sp : SlashingSpan) : Prop :=
  from_option (λ e, e ≤ w) False (span_end sp).
#[export] Instance ended_dec w sp : Decision (ended w sp).
Proof. unfold ended, span_end. destruct (span_length sp); cbn; apply _. Defined.

(** Each prior span ends at or before [ls], is not empty, and its index is
    below [idx]. *)
Lemma prior_spans_elem ls idx lens sp :
  Forall (λ l, 0 < l) lens → sp ∈ prior_spans ls idx lens →
  ∃ len, span_length sp = Some len ∧ 0 < len ∧ start sp + len ≤ ls
    ∧ ls - zsum id lens ≤ start sp
    ∧ idx - Z.of_nat (length lens) ≤ index sp < idx.
Proof.
  intros Hpos. revert ls idx. induction Hpos as [|len lens Hlen Hpos IH]; intros ls idx.
  { by intros ?%elem_of_nil. }
  cbn [prior_spans length zsum]. unfold id at 1.
  pose proof (zsum_id_nonneg lens Hpos).
  intros [->|Hin]%elem_of_cons; cbn [span_length start index].
  - exists len. split_and!; [done | done | lia | lia | lia | lia].
  - destruct (IH _ _ Hin) as (l & ? & ? & ? & ? & ? & ?). exists l. split_and!; try done; lia.
Qed.

Lemma prior_spans_no_wrap s sp len :
  spans_wf s → sp ∈ prior_spans (last_start s) (span_index s) (prior s) →
  span_length sp = Some len → wadd 32 (start sp) len = start sp + len.
Proof.
  intros [Hl Hi Hp Hs Hn] Hin Hlen.
  destruct (prior_spans_elem _ _ _ _ Hp Hin) as (l & ? & ? & ? & ? & ?).
  simplify_eq. apply wadd_small. ulia.
Qed.

(** ** Ending a span *)

Lemma end_span_spec s now s' b :
  spans_wf s → u32 (now + 1) → u32 (span_index s + 1) →
  end_span s now = (s', b) →
  spans_wf s' ∧ last_nonzero_slash s' = last_nonzero_slash s ∧
  if b then
    last_start s < now + 1 ∧
    iter s' = {| index := span_index s + 1; start := now + 1; span_length := None |}
      :: {| index := span_index s; start := last_start s;
            span_length := Some (now + 1 - last_start s) |}
      :: drop 1 (iter s)
  else now + 1 ≤ last_start s ∧ s' = s.
Proof.
  intros Hwf Hnow Hidx. unfold end_span. rewrite wadd_small by done.
  case_decide as Hle; intros [= <- <-]; [by split_and!|].
  assert (spans_wf {| span_index := wadd 32 (span_index s) 1; last_start := now + 1;
     last_nonzero_slash := last_nonzero_slash s;
     prior := wsub 32 (now + 1) (last_start s) :: prior s |}) as Hwf'.
  { destruct Hwf. rewrite wadd_small, wsub_small by ulia.
    split; cbn [last_start span_index prior zsum length]; [done | done | | |lia].
    - constructor; [lia | done].
    - unfold id at 1. lia. }
  split_and!; [done | done | lia |]. rewrite !iter_eq by done. destruct Hwf.
  cbn [last_start span_index prior prior_spans drop].
  rewrite wadd_small, wsub_small by ulia.
  replace (now + 1 - (now + 1 - last_start s)) with (last_start s) by lia.
  by replace (span_index s + 1 - 1) with (span_index s) by lia.
Qed.

(** ** Pruning *)

(** From the newest to the oldest, the spans that have not expired come first. *)
Lemma prior_spans_expired_split w ls idx lens :
  Forall (λ l, 0 < l) lens →
  match list_find (λ sp, ended w sp)
          (prior_spans ls idx lens) with
  | Some (o, _) =>
      (o < length lens)%nat ∧
      prior_spans ls idx (take o lens) =
        filter (λ sp, ¬ ended w sp)
          (prior_spans ls idx lens)
      ∧ (w < ls ∨ o = 0%nat)
  | None =>
      filter (λ sp, ¬ ended w sp)
        (prior_spans ls idx lens) = prior_spans ls idx lens
      ∧ (lens = [] ∨ w < ls)
  end.
Proof.
  intros Hpos. revert ls idx. induction Hpos as [|len lens Hlen Hpos IH]; intros ls idx.
  { cbn. auto. }
  cbn [prior_spans list_find take length]. rewrite filter_cons.
  set (sp0 := {| index := _; start := ls - len; span_length := _ |}).
  assert (ended w sp0 ↔ ls ≤ w) as Hiff
    by (unfold ended, sp0; cbn; replace (ls - len + len) with ls by lia; done).
  case_decide as Hle; rewrite Hiff in Hle.
  - rewrite decide_False by tauto. split_and!; [lia | | by right]. 
    symmetry. clear IH. assert (∀ sp, sp ∈ prior_spans (ls - len) (idx - 1) lens →
      ended w sp) as Hall.
    { intros sp Hsp. destruct (prior_spans_elem _ _ _ _ Hpos Hsp) as (l & Hl & ? & ? & _).
      unfold ended, span_end. rewrite Hl. cbn. lia. }
    revert Hall. generalize (prior_spans (ls - len) (idx - 1) lens) as sps.
    induction sps as [|sp sps IH]; intros Hall; [done|]. rewrite filter_cons, decide_False.
    + apply IH. intros; apply Hall; set_solver.
    + intros Hn. apply Hn, Hall. set_solver.
  - rewrite decide_True by tauto. specialize (IH (ls - len) (idx - 1)).
    destruct (list_find _ _) as [[o sp]|]; cbn [fmap option_fmap option_map prod_map fst].
    + destruct IH as (? & Heq & _). cbn [take prior_spans]. rewrite Heq.
      split_and!; [lia | done | left; lia].
    + destruct IH as [-> _]. split; [done | right; lia].
Qed.

Lemma list_find_ext_elem {A} (P Q : A → Prop) `{∀ x, Decision (P x), ∀ x, Decision (Q x)} l :
  (∀ x, x ∈ l → P x ↔ Q x) → list_find P l = list_find Q l.
Proof.
  induction l as [|x l IH]; intros HPQ; [done|]. cbn.
  rewrite IH by (intros; apply HPQ; set_solver).
  destruct (HPQ x ltac:(set_solver)). by do 2 case_decide; try tauto.
Qed.

Lemma prune_find s w :
  spans_wf s →
  list_find (λ sp, span_expired w sp) (drop 1 (iter s)) =
  list_find (λ sp, ended w sp)
    (prior_spans (last_start s) (span_index s) (prior s)).
Proof.
  intros Hwf. rewrite iter_eq by done. cbn [drop]. apply list_find_ext_elem.
  intros sp Hsp. pose proof Hwf as [_ _ Hp _ _].
  destruct (prior_spans_elem _ _ _ _ Hp Hsp) as (len & Hlen & _).
  unfold span_expired, ended, span_end. rewrite Hlen. cbn [from_option].
  rewrite (prior_spans_no_wrap s sp len) by done.
  rewrite Is_true_true, Z.leb_le. done.
Qed.

Lemma prior_spans_sum lens o :
  Forall (λ l, 0 < l) lens → zsum id (take o lens) ≤ zsum id lens.
Proof.
  intros Hpos. rewrite <- (take_drop o lens) at 2. rewrite zsum_app.
  pose proof (zsum_id_nonneg (drop o lens) (Forall_drop _ _ _ Hpos)). lia.
Qed.

(** What [prune] leaves, on both branches. *)
Lemma prune_iter s w s' r :
  spans_wf s → u32 w → prune s w = (s', r) →
  spans_wf s' ∧ last_nonzero_slash s' = last_nonzero_slash s
  ∧ span_index s' = span_index s
  ∧ iter s' =
      {| index := span_index s; start := Z.max (last_start s) w; span_length := None |}
        :: filter (λ sp, ¬ ended w sp) (drop 1 (iter s))
  ∧ (length (prior s') ≤ length (prior s))%nat
  ∧ r = if decide (length (prior s') = length (prior s)) then None
        else Some (span_index s - Z.of_nat (length (prior s)),
                   span_index s - Z.of_nat (length (prior s'))).
Proof.
  intros Hwf Hw. pose proof Hwf as [Hl Hi Hp Hs Hn].
  pose proof (prior_spans_expired_split w (last_start s) (span_index s) (prior s) Hp) as Hsplit.
  unfold prune. rewrite prune_find by done. rewrite (iter_eq s) by done. cbn [drop].
  rewrite !wsub_small by ulia.
  destruct (list_find _ _) as [[o sp]|] eqn:Hf; cbn [fmap option_fmap option_map fst].
  - destruct Hsplit as (Ho & Heq & Hbound). intros [= <- <-].
    assert (length (take o (prior s)) = o) as Hlen by (rewrite length_take; lia).
    pose proof (prior_spans_sum (prior s) o Hp).
    match goal with |- spans_wf ?t ∧ _ => set (s' := t) end.
    assert (spans_wf s') as Hwf'.
    { split; cbn; rewrite ?Hlen; [ulia | done | by apply Forall_take | lia | lia]. }
    split_and!; [done | done | done | | cbn; lia |].
    + rewrite iter_eq by done. unfold s'. cbn [last_start span_index prior set].
      rewrite ?drop_0.
      destruct Hbound as [Hb| ->]; [|by rewrite <- Heq].
      rewrite Z.max_l by lia. by rewrite Heq.
    + cbn. rewrite Hlen, decide_False by lia. rewrite wsub_small by ulia. done.
  - destruct Hsplit as [Heq Hbound]. intros [= <- <-].
    match goal with |- spans_wf ?t ∧ _ => set (s' := t) end.
    assert (spans_wf s') as Hwf' by (split; cbn; [ulia | done | done | lia | lia]).
    split_and!; [done | done | done | | cbn; lia | cbn; by rewrite decide_True].
    rewrite iter_eq by done. unfold s'. cbn [last_start span_index prior set].
    rewrite ?drop_0, Heq.
    destruct Hbound as [->|?]; [done|]. by rewrite Z.max_l by lia.
Qed.

(** ** Looking up the span of an era *)

Lemma contains_era_spec s sp e :
  spans_wf s → sp ∈ iter s →
  contains_era sp e ↔
    start sp ≤ e ∧ from_option (λ en, e < en) True (span_end sp).
Proof.
  intros Hwf Hin. rewrite iter_eq in Hin by done.
  unfold contains_era, span_end. rewrite andb_True, Is_true_true, Z.leb_le.
  apply elem_of_cons in Hin as [->|Hin]; cbn [start span_length from_option]; [done|].
  pose proof Hwf as [_ _ Hp _ _].
  destruct (prior_spans_elem _ _ _ _ Hp Hin) as (len & Hlen & _).
  rewrite Hlen, (prior_spans_no_wrap s sp len) by done. cbn [from_option].
  rewrite Is_true_true, Z.gtb_lt. done.
Qed.

(** Two prior spans that contain the same era are the same span. *)
Lemma prior_spans_unique ls idx lens sp1 sp2 e :
  Forall (λ l, 0 < l) lens →
  sp1 ∈ prior_spans ls idx lens → sp2 ∈ prior_spans ls idx lens →
  start sp1 ≤ e → from_option (λ en, e < en) True (span_end sp1) →
  start sp2 ≤ e → from_option (λ en, e < en) True (span_end sp2) → sp1 = sp2.
Proof.
  intros Hpos. revert ls idx. induction Hpos as [|len lens Hlen Hpos IH]; intros ls idx.
  { by intros ?%elem_of_nil. }
  cbn [prior_spans]. intros [->|H1]%elem_of_cons [->|H2]%elem_of_cons;
    cbn [start span_end span_length from_option]; intros Hs1 He1 Hs2 He2.
  - done.
  - destruct (prior_spans_elem _ _ _ _ Hpos H2) as (l & Hl & ? & ? & _).
    unfold span_end in He2. rewrite Hl in He2. cbn in He2. lia.
  - destruct (prior_spans_elem _ _ _ _ Hpos H1) as (l & Hl & ? & ? & _).
    unfold span_end in He1. rewrite Hl in He1. cbn in He1. lia.
  - eauto.
Qed.

Lemma iter_unique s sp1 sp2 e :
  spans_wf s → sp1 ∈ iter s → sp2 ∈ iter s →
  contains_era sp1 e → contains_era sp2 e → sp1 = sp2.
Proof.
  intros Hwf H1 H2 C1 C2.
  apply contains_era_spec with (s := s) in C1 as [? He1]; [|done|done].
  apply contains_era_spec with (s := s) in C2 as [? He2]; [|done|done].
  rewrite iter_eq in H1, H2 by done. pose proof Hwf as [_ _ Hp _ _].
  apply elem_of_cons in H1 as [->|H1], H2 as [->|H2]; cbn [start] in *.
  - done.
  - destruct (prior_spans_elem _ _ _ _ Hp H2) as (l & Hl & ? & ? & _).
    unfold span_end in He2. rewrite Hl in He2. cbn in He2. lia.
  - destruct (prior_spans_elem _ _ _ _ Hp H1) as (l & Hl & ? & ? & _).
    unfold span_end in He1. rewrite Hl in He1. cbn in He1. lia.
  - by eapply prior_spans_unique.
Qed.

Lemma era_span_Some s e sp :
  spans_wf s → era_span s e = Some sp ↔ sp ∈ iter s ∧ contains_era sp e.
Proof.
  intros Hwf. unfold era_span. split.
  - destruct (list_find _ _) as [[i sp']|] eqn:Hf; cbn; intros [= ->].
    apply list_find_Some in Hf as (Hi & Hc & _).
    split; [by eapply list_elem_of_lookup_2 | done].
  - intros [Hin Hc]. destruct (list_find _ _) as [[i sp']|] eqn:Hf; cbn.
    + apply list_find_Some in Hf as (Hi & Hc' & _). f_equal.
      eapply iter_unique; eauto. by eapply list_elem_of_lookup_2.
    + apply list_find_None in Hf. rewrite Forall_forall in Hf. by destruct (Hf sp).
Qed.

(** Every era since the start of the oldest span is in a span. *)
Lemma prior_spans_cover ls idx lens e :
  ls - zsum id lens ≤ e < ls →
  ∃ sp, sp ∈ prior_spans ls idx lens ∧ start sp ≤ e
    ∧ from_option (λ en, e < en) True (span_end sp).
Proof.
  revert ls idx. induction lens as [|len lens IH]; intros ls idx; cbn [zsum prior_spans].
  { lia. }
  unfold id at 1. intros He. destruct (decide (ls - len ≤ e)) as [Hle|Hgt].
  - eexists. split; [apply elem_of_cons; by left|]. cbn. lia.
  - destruct (IH (ls - len) (idx - 1)) as (sp & ? & ? & ?); [lia|].
    exists sp. split_and!; auto. apply elem_of_cons; by right.
Qed.

(** The newest [o] spans are those with the [o] highest indices. *)
Lemma prior_spans_take ls idx lens o sp :
  Forall (λ l, 0 < l) lens → sp ∈ prior_spans ls idx lens →
  idx - Z.of_nat o ≤ index sp ↔ sp ∈ prior_spans ls idx (take o lens).
Proof.
  intros Hpos. revert ls idx o. induction Hpos as [|len lens Hlen Hpos IH]; intros ls idx o.
  { by intros ?%elem_of_nil. }
  cbn [prior_spans]. intros [->|Hin]%elem_of_cons; destruct o as [|o];
    cbn [take prior_spans index].
  - split; [lia | by intros ?%elem_of_nil].
  - split; [intros _; apply elem_of_cons; by left | lia].
  - destruct (prior_spans_elem _ _ _ _ Hpos Hin) as (l & ? & ? & ? & ? & ? & ?).
    split; [lia | by intros ?%elem_of_nil].
  - destruct (prior_spans_elem _ _ _ _ Hpos Hin) as (l & ? & ? & ? & ? & ? & ?).
    rewrite elem_of_cons. specialize (IH _ _ o Hin). rewrite <- IH. split.
    + intros. right. lia.
    + intros [->|?]; cbn [index] in *; lia.
Qed.

Lemma prune_range s w s' a b :
  spans_wf s → u32 w → prune s w = (s', Some (a, b)) →
  ∀ sp, sp ∈ drop 1 (iter s) → ended w sp ↔ a ≤ index sp < b.
Proof.
  intros Hwf Hw Hprune sp Hsp. pose proof Hwf as [Hl Hi Hp Hs Hn].
  pose proof (prior_spans_expired_split w (last_start s) (span_index s) (prior s) Hp) as Hsplit.
  unfold prune in Hprune. rewrite prune_find in Hprune by done.
  rewrite iter_eq in Hsp by done. cbn [drop] in Hsp. rewrite drop_0 in Hsp.
  destruct (list_find _ _) as [[o sp']|]; cbn [fmap option_fmap option_map fst] in Hprune;
    [|by injection Hprune].
  destruct Hsplit as (Ho & Heq & _).
  assert (length (take o (prior s)) = o) as Hlen by (rewrite length_take; lia).
  injection Hprune as _ <- <-. rewrite Hlen, !wsub_small by ulia.
  destruct (prior_spans_elem _ _ _ _ Hp Hsp) as (len & _ & _ & _ & _ & Hidx).
  pose proof (prior_spans_take _ _ _ o _ Hp Hsp) as Htake.
  rewrite Heq, list_elem_of_filter in Htake.
  split.
  - intros Hend. split; [lia|].
    destruct (decide (span_index s - Z.of_nat o ≤ index sp)); [tauto | lia].
  - intros [_ Hlt]. destruct (decide (ended w sp)) as [|Hend]; [done|].
    assert (span_index s - Z.of_nat o ≤ index sp) by (apply Htake; by split). lia.
Qed.

(** * Properties *)

(** Pruning a staker's spans against a window keeps, with their
    boundaries unchanged, exactly the prior spans that reach into the window,
    moves the start of the open span to the window, keeps the record
    well-formed, and returns the range of indices of the spans it dropped. *)
Theorem prune_correct s w s' r :
  spans_wf s → u32 w → prune s w = (s', r) →
  spans_wf s'
  ∧ iter s' =
      {| index := span_index s; start := Z.max (last_start s) w; span_length := None |}
        :: filter (λ sp, ¬ ended w sp) (drop 1 (iter s))
  ∧ match r with
    | Some (a, b) => ∀ sp, sp ∈ drop 1 (iter s) → ended w sp ↔ a ≤ index sp < b
    | None => length (prior s') = length (prior s)
    end.
Proof.
  intros Hwf Hw Hprune. destruct (prune_iter _ _ _ _ Hwf Hw Hprune) as (? & _ & _ & ? & _ & Hr).
  split_and!; [done | done |]. destruct r as [[a b]|].
  - exact (prune_range s w s' a b Hwf Hw Hprune).
  - revert Hr. by case_decide.
Qed.

(** Every era since the start of the oldest span lies in exactly one span,
    and [era_span] finds it. *)
Theorem era_span_correct s e :
  spans_wf s → last_start s - zsum id (prior s) ≤ e →
  ∃ sp, era_span s e = Some sp ∧ sp ∈ iter s ∧ contains_era sp e
    ∧ ∀ sp', sp' ∈ iter s → contains_era sp' e → sp' = sp.
Proof.
  intros Hwf He.
  assert (∃ sp, sp ∈ iter s ∧ contains_era sp e) as (sp & Hin & Hc).
  { destruct (decide (last_start s ≤ e)).
    - eexists. rewrite iter_eq by done. split; [apply elem_of_cons; by left|].
      apply contains_era_spec with (s := s); [done| |done].
      rewrite iter_eq by done. apply elem_of_cons; by left.
    - destruct (prior_spans_cover (last_start s) (span_index s) (prior s) e)
        as (sp & Hin & Hst & Hend); [lia|].
      assert (sp ∈ iter s) by (rewrite iter_eq by done; apply elem_of_cons; by right).
      exists sp. split; [done|]. by apply (contains_era_spec s sp e). }
  exists sp. split_and!; [by apply era_span_Some | done | done |].
  intros sp' Hin' Hc'. by eapply iter_unique.
Qed.

(** [end_span] closes the open span at the end of era [now] and opens the
    next one, leaving the prior spans as they were; it does nothing when the
    open span starts after [now]. *)
Theorem end_span_correct s now s' b :
  spans_wf s → u32 (now + 1) → u32 (span_index s + 1) →
  end_span s now = (s', b) →
  spans_wf s' ∧
  if b then
    last_start s ≤ now ∧
    iter s' = {| index := span_index s + 1; start := now + 1; span_length := None |}
      :: {| index := span_index s; start := last_start s;
            span_length := Some (now + 1 - last_start s) |}
      :: drop 1 (iter s)
  else now < last_start s ∧ s' = s.
Proof.
  intros Hwf Hn Hi Heq. destruct (end_span_spec _ _ _ _ Hwf Hn Hi Heq) as (? & _ & Hb).
  split; [done|]. destruct b; destruct Hb; split; try done; lia.
Qed.

(** ** The spans of the unit tests *)

Definition spans_ex : SlashingSpans :=
  {| span_index := 10; last_start := 1000; last_nonzero_slash := 0; prior := [10; 9; 8; 10] |}.

Lemma spans_ex_wf : spans_wf spans_ex.
Proof. split; cbn; [ulia | ulia | by repeat constructor | unfold id; lia | lia]. Qed.

Example many_prior_spans :
  iter spans_ex =
    [ {| index := 10; start := 1000; span_length := None |};
      {| index := 9; start := 990; span_length := Some 10 |};
      {| index := 8; start := 981; span_length := Some 9 |};
      {| index := 7; start := 973; span_length := Some 8 |};
      {| index := 6; start := 963; span_length := Some 10 |} ].
Proof. vm_compute. reflexivity. Qed.

Example pruning_spans :
  snd (prune spans_ex 981) = Some (6, 8) ∧ snd (prune spans_ex 2000) = Some (6, 10)
  ∧ snd (prune (fst (prune spans_ex 981)) 989) = None.
Proof. vm_compute. done. Qed.

Lemma prune_correct_witness :
  ∃ s' r, prune spans_ex 981 = (s', r) ∧ spans_wf s' ∧ r = Some (6, 8).
Proof.
  eexists _, _. split; [vm_compute; reflexivity|].
  edestruct (prune_correct spans_ex 981) as (Hwf & _);
    [exact spans_ex_wf | ulia | vm_compute; reflexivity |].
  split; [exact Hwf | reflexivity].
Defined.

Lemma era_span_correct_witness :
  era_span spans_ex 985 = Some {| index := 8; start := 981; span_length := Some 9 |}
  ∧ ∃ sp, era_span spans_ex 985 = Some sp ∧ contains_era sp 985.
Proof.
  split; [vm_compute; reflexivity|].
  destruct (era_span_correct spans_ex 985 spans_ex_wf) as (sp & Hs & _ & Hc & _);
    [vm_compute; discriminate|].
  exists sp. split; [exact Hs | exact Hc].
Defined.

Lemma end_span_correct_witness :
  ∃ s', end_span spans_ex 1004 = (s', true) ∧ spans_wf s' ∧ prior s' = [5; 10; 9; 8; 10].
Proof.
  eexists. split; [vm_compute; reflexivity|].
  edestruct (end_span_correct spans_ex 1004) as [Hwf _];
    [exact spans_ex_wf | ulia | cbn; ulia | vm_compute; reflexivity |].
  split; [exact Hwf | reflexivity].
Defined.
