(* ===== verification/StakingState.v ===== *)
(** The data and the storage of the staking pallet: the types of
    [frame/staking/src/lib.rs], the storage items, errors and events of
    [frame/staking/src/pallet/mod.rs], the code the pallet is configured with,
    and the small storage operations every component uses. *)

From Stdlib Require Import ZArith Lia.
From stdpp Require Import base option list gmap fin_maps fin_sets strings.
From S2P Require Import Prelude Interfaces StakingLedger SlashingSpans.
#[local] Open Scope Z_scope.

(** * Data *)

Record ActiveEraInfo := { ae_index : EraIndex; ae_start : option Z }.

Record EraRewardPoints := { rp_total : Z; individual : gmap AccountId Z }.

Definition EraRewardPoints_default : EraRewardPoints :=
  {| rp_total := 0; individual := ∅ |}.

Inductive StakerStatus :=
  | Idle
  | StatusValidator
  | StatusNominator (targets : list AccountId).

Inductive RewardDestination :=
  | Staked
  | Stash
  | Controller
  | Account (a : AccountId)
  | NoDestination.

Definition RewardDestination_default : RewardDestination := Staked.

Record ValidatorPrefs := { commission : Z; blocked : bool }.

Definition ValidatorPrefs_default : ValidatorPrefs := {| commission := 0; blocked := false |}.

Record Nominations := {
  targets : list AccountId;
  submitted_in : EraIndex;
  suppressed : bool;
}.

Record IndividualExposure := { who : AccountId; ie_value : Z }.

Record Exposure := { exp_total : Z; own : Z; others : list IndividualExposure }.

Definition Exposure_default : Exposure := {| exp_total := 0; own := 0; others := [] |}.

Record UnappliedSlash := {
  us_validator : AccountId;
  us_own : Z;
  us_others : list (AccountId * Z);
  us_reporters : list AccountId;
  us_payout : Z;
}.

Definition UnappliedSlash_default_from (v : AccountId) : UnappliedSlash :=
  {| us_validator := v; us_own := 0; us_others := []; us_reporters := []; us_payout := 0 |}.

Inductive Forcing := NotForcing | ForceNew | ForceNone | ForceAlways.

Definition Forcing_default : Forcing := NotForcing.

Inductive Releases :=
  | V1_0_0Ancient | V2_0_0 | V3_0_0 | V4_0_0 | V5_0_0 | V6_0_0 | V7_0_0 | V8_0_0 | V9_0_0.

Definition Releases_default : Releases := V8_0_0.

#[export] Instance Forcing_eq_dec : EqDecision Forcing.
Proof. solve_decision. Defined.
#[export] Instance Releases_eq_dec : EqDecision Releases.
Proof. solve_decision. Defined.
#[export] Instance RewardDestination_eq_dec : EqDecision RewardDestination.
Proof. solve_decision. Defined.
#[export] Instance ValidatorPrefs_eq_dec : EqDecision ValidatorPrefs.
Proof. solve_decision. Defined.

Record SpanRecord := { slashed : Z; paid_out : Z }.

Definition SpanRecord_default : SpanRecord := {| slashed := 0; paid_out := 0 |}.

Inductive DisableStrategy := DisableNever | DisableWhenSlashed | DisableAlways.
#[export] Instance DisableStrategy_eq_dec : EqDecision DisableStrategy.
Proof. solve_decision. Defined.

Inductive ConfigOp (T : Type) := Noop | Set_ (v : T) | Remove.
Arguments Noop {T}.
Arguments Set_ {T} v.
Arguments Remove {T}.

Inductive Error :=
  | NotController | NotStash | AlreadyBonded | AlreadyPaired | EmptyTargets
  | DuplicateIndex | InvalidSlashIndex | InsufficientBond | NoMoreChunks
  | NoUnlockChunk | FundedTarget | InvalidEraToReward | InvalidNumberOfNominations
  | NotSortedAndUnique | AlreadyClaimed | IncorrectHistoryDepth
  | IncorrectSlashingSpans | BadState | TooManyTargets | BadTarget
  | CannotChillOther | TooManyNominators | TooManyValidators | CommissionTooLow
  | CannotPayout
  (* errors of the frame system *)
  | BadOrigin | CannotLookup.

#[export] Instance Error_eq_dec : EqDecision Error.
Proof. solve_decision. Defined.

Inductive Event :=
  | EraPaid (e : EraIndex) (v : Z)
  | Rewarded (a : AccountId) (v : Z)
  | Slashed (a : AccountId) (v : Z)
  | OldSlashingReportDiscarded (s : SessionIndex)
  | StakersElected
  | Bonded (a : AccountId) (v : Z)
  | Unbonded (a : AccountId) (v : Z)
  | Withdrawn (a : AccountId) (v : Z)
  | Kicked (n s : AccountId)
  | StakingElectionFailed
  | Chilled (a : AccountId)
  | PayoutStarted (e : EraIndex) (a : AccountId)
  | ValidatorPrefsSet (a : AccountId) (p : ValidatorPrefs).

(** * Configuration

    The constants and the types the pallet is configured with ([Config]).
    [pallet_account] is [PalletId::into_account_truncating]; [vlist] is the
    [VoterList], [session] the session pallet, [sys] the reference counts of
    the system pallet; [trigger_wallet] is [RevenueFund::trigger_wallet] and
    [slash_on_unbalanced] the handler [Slash]. *)

Class StakingConfig `{Currency} := {
  BondingDuration : EraIndex;
  SessionsPerEra : SessionIndex;
  SlashDeferDuration : EraIndex;
  MaxNominations : nat;
  MaxNominatorRewardedPerValidator : nat;
  OffendingValidatorsThreshold : Z;
  pallet_account : string → AccountId;
  to_vote : Z → Z → Z;
  to_currency : Z → Z → Z;
  vlist : Type;
  vl_on_insert : AccountId → Z → vlist → option vlist;
  vl_on_update : AccountId → Z → vlist → option vlist;
  vl_on_remove : AccountId → vlist → option vlist;
  vl_contains : AccountId → vlist → bool;
  vl_iter : vlist → list AccountId;
  vl_count : vlist → nat;
  session : Type;
  session_validators : session → list AccountId;
  session_disable_validator : Z → session → session;
  session_prune_historical_up_to : SessionIndex → session → session;
  sys : Type;
  inc_consumers : AccountId → sys → option sys;
  dec_consumers : AccountId → sys → sys;
  trigger_wallet : cur → cur;
  slash_on_unbalanced : Z → cur → cur;
  lookup : Z → option AccountId;
  unlookup : AccountId → Z;
  slash_cancel_origin : Origin → bool;
}.

(** * Storage

    One field per storage item.  A [StorageMap] with [ValueQuery] is a map and
    its getter supplies the default; a [StorageDoubleMap] is a map from pairs. *)

Section Storage.
Context `{StakingConfig}.

Record Store := {
  eras_not_claimed_reward_map : gmap EraIndex Z;
  history_depth : Z;
  validator_count : Z;
  minimum_validator_count : Z;
  invulnerables : list AccountId;
  bonded : gmap AccountId AccountId;
  min_nominator_bond : Z;
  min_validator_bond : Z;
  min_commission : Z;
  ledger : gmap AccountId StakingLedger;
  payee_map : gmap AccountId RewardDestination;
  validators_map : gmap AccountId ValidatorPrefs;
  max_validators_count : option Z;
  nominators : gmap AccountId Nominations;
  max_nominators_count : option Z;
  current_era : option EraIndex;
  active_era : option ActiveEraInfo;
  eras_start_session_index : gmap EraIndex SessionIndex;
  eras_stakers_map : gmap (EraIndex * AccountId) Exposure;
  eras_stakers_clipped_map : gmap (EraIndex * AccountId) Exposure;
  eras_validator_prefs_map : gmap (EraIndex * AccountId) ValidatorPrefs;
  eras_validator_reward : gmap EraIndex Z;
  eras_reward_points_map : gmap EraIndex EraRewardPoints;
  eras_total_stake_map : gmap EraIndex Z;
  force_era : Forcing;
  slash_reward_fraction : Z;
  canceled_payout : Z;
  unapplied_slashes_map : gmap EraIndex (list UnappliedSlash);
  bonded_eras : list (EraIndex * SessionIndex);
  validator_slash_in_era : gmap (EraIndex * AccountId) (Z * Z);
  nominator_slash_in_era : gmap (EraIndex * AccountId) Z;
  slashing_spans : gmap AccountId SlashingSpans;
  span_slash_map : gmap (AccountId * SpanIndex) SpanRecord;
  earliest_unapplied_slash : option EraIndex;
  current_planned_session : SessionIndex;
  offending_validators : list (Z * bool);
  storage_version : Releases;
  chill_threshold : option Z;
  (* the state of the code the pallet calls *)
  currency : cur;
  voter_list : vlist;
  sessions : session;
  system : sys;
  (* events, oldest first, and the calls of [OnStakerSlash::on_slash] *)
  events : list Event;
  staker_slashes : list (AccountId * Z * gmap EraIndex Z);
}.

#[export] Instance Store_eta : Eta Store := λ s, {|
  eras_not_claimed_reward_map := eras_not_claimed_reward_map s;
  history_depth := history_depth s;
  validator_count := validator_count s;
  minimum_validator_count := minimum_validator_count s;
  invulnerables := invulnerables s;
  bonded := bonded s;
  min_nominator_bond := min_nominator_bond s;
  min_validator_bond := min_validator_bond s;
  min_commission := min_commission s;
  ledger := ledger s;
  payee_map := payee_map s;
  validators_map := validators_map s;
  max_validators_count := max_validators_count s;
  nominators := nominators s;
  max_nominators_count := max_nominators_count s;
  current_era := current_era s;
  active_era := active_era s;
  eras_start_session_index := eras_start_session_index s;
  eras_stakers_map := eras_stakers_map s;
  eras_stakers_clipped_map := eras_stakers_clipped_map s;
  eras_validator_prefs_map := eras_validator_prefs_map s;
  eras_validator_reward := eras_validator_reward s;
  eras_reward_points_map := eras_reward_points_map s;
  eras_total_stake_map := eras_total_stake_map s;
  force_era := force_era s;
  slash_reward_fraction := slash_reward_fraction s;
  canceled_payout := canceled_payout s;
  unapplied_slashes_map := unapplied_slashes_map s;
  bonded_eras := bonded_eras s;
  validator_slash_in_era := validator_slash_in_era s;
  nominator_slash_in_era := nominator_slash_in_era s;
  slashing_spans := slashing_spans s;
  span_slash_map := span_slash_map s;
  earliest_unapplied_slash := earliest_unapplied_slash s;
  current_planned_session := current_planned_session s;
  offending_validators := offending_validators s;
  storage_version := storage_version s;
  chill_threshold := chill_threshold s;
  currency := currency s;
  voter_list := voter_list s;
  sessions := sessions s;
  system := system s;
  events := events s;
  staker_slashes := staker_slashes s;
|}.

(** ** Getters of the [ValueQuery] items *)

Definition payee (s : Store) (a : AccountId) : RewardDestination :=
  default RewardDestination_default (payee_map s !! a).
Definition validators (s : Store) (a : AccountId) : ValidatorPrefs :=
  default ValidatorPrefs_default (validators_map s !! a).
Definition eras_stakers (s : Store) (e : EraIndex) (a : AccountId) : Exposure :=
  default Exposure_default (eras_stakers_map s !! (e, a)).
Definition eras_stakers_clipped (s : Store) (e : EraIndex) (a : AccountId) : Exposure :=
  default Exposure_default (eras_stakers_clipped_map s !! (e, a)).
Definition eras_validator_prefs (s : Store) (e : EraIndex) (a : AccountId)
    : ValidatorPrefs :=
  default ValidatorPrefs_default (eras_validator_prefs_map s !! (e, a)).
Definition eras_reward_points (s : Store) (e : EraIndex) : EraRewardPoints :=
  default EraRewardPoints_default (eras_reward_points_map s !! e).
Definition eras_total_stake (s : Store) (e : EraIndex) : Z :=
  default 0 (eras_total_stake_map s !! e).
Definition eras_not_claimed_reward (s : Store) (e : EraIndex) : Z :=
  default 0 (eras_not_claimed_reward_map s !! e).
Definition unapplied_slashes (s : Store) (e : EraIndex) : list UnappliedSlash :=
  default [] (unapplied_slashes_map s !! e).
Definition span_slash (s : Store) (k : AccountId * SpanIndex) : SpanRecord :=
  default SpanRecord_default (span_slash_map s !! k).

End Storage.

(** A call of the pallet. *)
Abbreviation Call := (M Store Error).

Section Operations.
Context `{StakingConfig}.

Definition deposit_event (e : Event) : Call unit :=
  modify (λ s, s <| events ::= λ l, l ++ [e] |>).

Definition ensure_signed (o : Origin) : Call AccountId :=
  match o with Signed a => mret a | _ => throw BadOrigin end.

Definition ensure_root (o : Origin) : Call unit :=
  match o with Root => mret tt | _ => throw BadOrigin end.

(** [StorageDoubleMap::remove_prefix] *)
Definition remove_prefix {V} (e : EraIndex) (m : gmap (EraIndex * AccountId) V)
    : gmap (EraIndex * AccountId) V := filter (λ kv, kv.1.1 ≠ e) m.

(** [CountedStorageMap::count] *)
Definition count {V} (m : gmap AccountId V) : Z := Z.of_nat (size m).

(** ** [impls.rs]: stake and ledgers *)

Definition slashable_balance_of (s : Store) (who : AccountId) : Z :=
  default 0 (active <$> (bonded s !! who ≫= λ c, ledger s !! c)).

Definition slashable_balance_of_vote_weight (s : Store) (who : AccountId)
    (issuance : Z) : Z := to_vote (slashable_balance_of s who) issuance.

Definition weight_of (s : Store) (who : AccountId) : Z :=
  slashable_balance_of_vote_weight s who (total_issuance (currency s)).

Definition weight_of_fn (s : Store) : AccountId → Z :=
  let issuance := total_issuance (currency s) in
  λ who, slashable_balance_of_vote_weight s who issuance.

(** [update_ledger]: the lock is set on the stash of the ledger. *)
Definition update_ledger (controller : AccountId) (l : StakingLedger) : Call unit :=
  modify (λ s, s <| currency ::= set_lock (stash l) (total l) |>
                 <| ledger ::= insert controller l |>).

(** ** [impls.rs]: nominators, validators and the voter list

    A failure of the voter list is ignored ([defensive]). *)

Definition try_update {A} (f : A → option A) (a : A) : A := default a (f a).

Definition do_add_nominator (who : AccountId) (n : Nominations) : Call unit :=
  s ← gets id;
  when (nominators s !! who = None)
    (modify (λ s, s <| voter_list ::= try_update (vl_on_insert who (weight_of s who)) |>)) ≫= λ _,
  modify (λ s, s <| nominators ::= insert who n |>).

Definition do_remove_nominator (who : AccountId) : Call bool :=
  s ← gets id;
  match nominators s !! who with
  | Some _ =>
      modify (λ s, s <| nominators ::= delete who |>
                     <| voter_list ::= try_update (vl_on_remove who) |>) ≫= λ _,
      mret true
  | None => mret false
  end.

Definition do_add_validator (who : AccountId) (p : ValidatorPrefs) : Call unit :=
  s ← gets id;
  when (validators_map s !! who = None)
    (modify (λ s, s <| voter_list ::= try_update (vl_on_insert who (weight_of s who)) |>)) ≫= λ _,
  modify (λ s, s <| validators_map ::= insert who p |>).

Definition do_remove_validator (who : AccountId) : Call bool :=
  s ← gets id;
  match validators_map s !! who with
  | Some _ =>
      modify (λ s, s <| validators_map ::= delete who |>
                     <| voter_list ::= try_update (vl_on_remove who) |>) ≫= λ _,
      mret true
  | None => mret false
  end.

Definition chill_stash (who : AccountId) : Call unit :=
  chilled_as_validator ← do_remove_validator who;
  chilled_as_nominator ← do_remove_nominator who;
  when (chilled_as_validator = true ∨ chilled_as_nominator = true)
    (deposit_event (Chilled who)).

Definition ensure_new_era : Call unit :=
  modify (λ s, match force_era s with
               | ForceAlways | ForceNew => s
               | _ => s <| force_era := ForceNew |>
               end).
End Operations.

(** * Frames

    An invariant that does not depend on who validates and nominates, nor on
    the voter list, the session pallet, the offender list or the events, is
    kept by the operations that only touch these.  The class saves one lemma
    per invariant and operation. *)

Class RoleFrame `{StakingConfig} (I : Store → Prop) := {
  frame_voters g s : I s → I (s <| voter_list ::= g |>);
  frame_validators g s : I s → I (s <| validators_map ::= g |>);
  frame_nominators g s : I s → I (s <| nominators ::= g |>);
  frame_events g s : I s → I (s <| events ::= g |>);
  frame_offending g s : I s → I (s <| offending_validators ::= g |>);
  frame_sessions g s : I s → I (s <| sessions ::= g |>);
  frame_force g s : I s → I (s <| force_era ::= g |>);
}.

Section RoleFrame.
Context `{StakingConfig} (I : Store → Prop) `{!RoleFrame I}.

Lemma keeps_deposit_event e : preserves I (deposit_event e).
Proof. unfold deposit_event. keeps_auto. by apply frame_events. Qed.

Lemma keeps_do_add_nominator a n : preserves I (do_add_nominator a n).
Proof.
  unfold do_add_nominator. keeps_auto.
  - by apply frame_voters.
  - by apply frame_nominators.
Qed.

Lemma keeps_do_add_validator a p : preserves I (do_add_validator a p).
Proof.
  unfold do_add_validator. keeps_auto.
  - by apply frame_voters.
  - by apply frame_validators.
Qed.

Lemma keeps_do_remove_nominator a : preserves I (do_remove_nominator a).
Proof.
  unfold do_remove_nominator. keeps_auto. by apply frame_voters, frame_nominators.
Qed.

Lemma keeps_do_remove_validator a : preserves I (do_remove_validator a).
Proof.
  unfold do_remove_validator. keeps_auto. by apply frame_voters, frame_validators.
Qed.

Lemma keeps_chill_stash a : preserves I (chill_stash a).
Proof.
  unfold chill_stash. unfold preserves. repeat keeps_step; try done.
  - apply keeps_do_remove_validator.
  - apply keeps_do_remove_nominator.
  - apply keeps_deposit_event.
Qed.

Lemma keeps_ensure_new_era : preserves I ensure_new_era.
Proof. unfold ensure_new_era. keeps_auto. case_match; try done; by apply frame_force. Qed.
End RoleFrame.

#[export] Hint Resolve keeps_deposit_event keeps_do_add_nominator keeps_do_add_validator
  keeps_do_remove_nominator keeps_do_remove_validator keeps_chill_stash
  keeps_ensure_new_era : keeps.

(** * A concrete configuration

    Used to evaluate the pallet on inputs.  The voter list is a list of
    accounts in order of insertion, the session pallet keeps the validators
    and the disabled indices, the system pallet counts consumers. *)

Definition test_pallet_account (name : string) : AccountId :=
  if decide (name = "fundreve"%string) then 900
  else if decide (name = "waltfund"%string) then 901 else 902.

Definition test_burn (v : Z) : @cur TestCurrency → @cur TestCurrency := t_issue (- v).

Definition TestStaking (slash_defer max_rewarded : Z) : @StakingConfig TestCurrency := {|
  BondingDuration := 3;
  SessionsPerEra := 3;
  SlashDeferDuration := slash_defer;
  MaxNominations := 16;
  MaxNominatorRewardedPerValidator := Z.to_nat max_rewarded;
  OffendingValidatorsThreshold := 750000000;
  pallet_account := test_pallet_account;
  to_vote v _ := Z.min v (umax 64);
  to_currency v _ := v;
  vlist := list AccountId;
  vl_on_insert a _ l := if decide (a ∈ l) then None else Some (l ++ [a]);
  vl_on_update a _ l := if decide (a ∈ l) then Some l else None;
  vl_on_remove a l := if decide (a ∈ l) then Some (filter (λ b, b ≠ a) l) else None;
  vl_contains a l := bool_decide (a ∈ l);
  vl_iter l := l;
  vl_count := length;
  session := list AccountId * list Z;
  session_validators := fst;
  session_disable_validator i s := (s.1, s.2 ++ [i]);
  session_prune_historical_up_to _ s := s;
  sys := gmap AccountId Z;
  inc_consumers a m := Some (<[a := default 0 (m !! a) + 1]> m);
  dec_consumers a m := <[a := default 0 (m !! a) - 1]> m;
  trigger_wallet c := c;
  slash_on_unbalanced := test_burn;
  lookup a := if decide (0 ≤ a) then Some a else None;
  unlookup a := a;
  slash_cancel_origin o := match o with Root => true | _ => false end;
|}.

(** The storage before genesis: every item at its default. *)
Definition store_default `{StakingConfig} (c : cur) (vl : vlist) (ss : session) (sy : sys)
    : Store := {|
  eras_not_claimed_reward_map := ∅; history_depth := 84; validator_count := 0;
  minimum_validator_count := 0; invulnerables := []; bonded := ∅;
  min_nominator_bond := 0; min_validator_bond := 0; min_commission := 0;
  ledger := ∅; payee_map := ∅; validators_map := ∅; max_validators_count := None;
  nominators := ∅; max_nominators_count := None; current_era := None;
  active_era := None; eras_start_session_index := ∅; eras_stakers_map := ∅;
  eras_stakers_clipped_map := ∅; eras_validator_prefs_map := ∅;
  eras_validator_reward := ∅; eras_reward_points_map := ∅; eras_total_stake_map := ∅;
  force_era := Forcing_default; slash_reward_fraction := 0; canceled_payout := 0;
  unapplied_slashes_map := ∅; bonded_eras := []; validator_slash_in_era := ∅;
  nominator_slash_in_era := ∅; slashing_spans := ∅; span_slash_map := ∅;
  earliest_unapplied_slash := None; current_planned_session := 0;
  offending_validators := []; storage_version := Releases_default;
  chill_threshold := None; currency := c; voter_list := vl; sessions := ss;
  system := sy; events := []; staker_slashes := [];
|}.

Definition test_store (d m : Z) (c : test_cur) (vals : list AccountId)
    : @Store _ (TestStaking d m) :=
  @store_default _ (TestStaking d m) c [] (vals, []) ∅.
