(* ===== verification/Slashing.v ===== *)
(** Slashing: the stateful part of [frame/staking/src/slashing.rs] (computing,
    recording and applying slashes) and the offence handler and the deferred
    slashes of [frame/staking/src/pallet/impls.rs]. *)

From Stdlib Require Import ZArith Lia.
From stdpp Require Import base option list gmap fin_maps fin_sets strings.
From S2P Require Import Prelude Interfaces StakingLedger SlashingSpans StakingState.
#[local] Open Scope Z_scope.

(** [REWARD_F1]: 50 percent, as parts of a [Perbill]. *)
Definition REWARD_F1 : Z := 500000000.

Section Slashing.
Context `{PerThing} `{StakingConfig}.

Record SlashParams := {
  sp_stash : AccountId;
  sp_slash : Z;
  sp_exposure : Exposure;
  sp_slash_era : EraIndex;
  sp_window_start : EraIndex;
  sp_now : EraIndex;
  sp_reward_proportion : Z;
  sp_disable_strategy : DisableStrategy;
}.

(** * Inspecting the spans of a staker

    [paid_out] and [slash_of] are mutable references of the caller: the record
    holds their values, and [drop_spans] gives them back. *)

Record InspectingSpans := {
  dirty : bool;
  window_start : EraIndex;
  is_stash : AccountId;
  spans : SlashingSpans;
  is_paid_out : Z;
  slash_of : Z;
  reward_proportion : Z;
}.

#[export] Instance InspectingSpans_eta : Eta InspectingSpans := λ i,
  {| dirty := dirty i; window_start := window_start i; is_stash := is_stash i;
     spans := spans i; is_paid_out := is_paid_out i; slash_of := slash_of i;
     reward_proportion := reward_proportion i |}.

Definition fetch_spans (who : AccountId) (ws : EraIndex) (paid slash_acc rp : Z)
    : Call InspectingSpans :=
  s ← gets id;
  sps ← match slashing_spans s !! who with
        | Some sps => mret sps
        | None =>
            let sps := new ws in
            modify (λ s, s <| slashing_spans ::= insert who sps |>) ≫= λ _, mret sps
        end;
  mret {| dirty := false; window_start := ws; is_stash := who; spans := sps;
          is_paid_out := paid; slash_of := slash_acc; reward_proportion := rp |}.

Definition is_span_index (i : InspectingSpans) : SpanIndex := span_index (spans i).

Definition is_end_span (i : InspectingSpans) (now : EraIndex) : InspectingSpans :=
  let '(sps, b) := end_span (spans i) now in
  i <| spans := sps |> <| dirty := b || dirty i |>.

Definition add_slash (i : InspectingSpans) (amount : Z) (slash_era : EraIndex)
    : InspectingSpans :=
  i <| slash_of ::= λ v, wadd 128 v amount |>
    <| spans ::= λ sps, sps <| last_nonzero_slash ::= λ e, Z.max e slash_era |> |>.

(** The three branches of the comparison: the new record, the reward, the
    inspected spans after [add_slash], and [changed]. *)
Definition span_slash_step (i : InspectingSpans) (rec : SpanRecord)
    (slash_era : EraIndex) (amount : Z) : SpanRecord * Z * InspectingSpans * bool :=
  let reward :=
    perbill_mul REWARD_F1
      (sat_sub (perbill_mul (reward_proportion i) amount) (paid_out rec)) in
  if decide (slashed rec < amount) then
    let difference := wsub 128 amount (slashed rec) in
    ({| slashed := amount; paid_out := paid_out rec |}, reward,
     add_slash i difference slash_era, true)
  else if decide (slashed rec = amount) then (rec, reward, i, false)
  else (rec, 0, i, false).

Definition compare_and_update_span_slash (i : InspectingSpans)
    (slash_era : EraIndex) (amount : Z) : Call (InspectingSpans * option SpanIndex) :=
  match era_span (spans i) slash_era with
  | None => mret (i, None)
  | Some target_span =>
      let span_slash_key := (is_stash i, index target_span) in
      s ← gets id;
      let '(rec, reward, i', changed) :=
        span_slash_step i (span_slash s span_slash_key) slash_era amount in
      let '(rec', i'', changed') :=
        if decide (reward = 0) then (rec, i', changed)
        else ({| slashed := slashed rec; paid_out := wadd 128 (paid_out rec) reward |},
              i' <| is_paid_out ::= λ v, wadd 128 v reward |>, true) in
      if (changed' : bool) then
        modify (λ s, s <| span_slash_map ::= insert span_slash_key rec' |>) ≫= λ _,
        mret (i'' <| dirty := true |>, Some (index target_span))
      else mret (i'', Some (index target_span))
  end.

(** [Drop for InspectingSpans] *)
Definition drop_spans (i : InspectingSpans) : Call unit :=
  if dirty i then
    let '(sps, pruned) := prune (spans i) (window_start i) in
    match pruned with
    | Some (a, b) =>
        for_each (seqZ a (b - a)) (λ span_index,
          modify (λ s, s <| span_slash_map ::= delete (is_stash i, span_index) |>))
    | None => mret tt
    end ≫= λ _,
    modify (λ s, s <| slashing_spans ::= insert (is_stash i) sps |>)
  else mret tt.

(** * Computing a slash *)

(** The closure of [OffendingValidators::mutate]. *)
Definition add_offending_validator (who : AccountId) (disable : bool) : Call unit :=
  s ← gets id;
  let vals := session_validators (sessions s) in
  match fst <$> list_find (λ v, v = who) vals with
  | None => mret tt
  | Some validator_index =>
      let idx := Z.of_nat validator_index in
      let offending := offending_validators s in
      match binary_search_by_key fst idx offending with
      | Err i =>
          let offending' := vec_insert i (idx, disable) offending in
          let offending_threshold :=
            perbill_mul OffendingValidatorsThreshold (Z.of_nat (length vals)) in
          when (offending_threshold ≤ Z.of_nat (length offending')) ensure_new_era ≫= λ _,
          when (disable = true)
            (modify (λ s, s <| sessions ::= session_disable_validator idx |>)) ≫= λ _,
          modify (λ s, s <| offending_validators := offending' |>)
      | Ok i =>
          match offending !! i with
          | Some (k, false) =>
              when (disable = true)
                (modify (λ s, s <| offending_validators ::= insert i (k, true) |>
                                <| sessions ::= session_disable_validator idx |>))
          | _ => mret tt
          end
      end
  end.

Definition kick_out_if_recent (p : SlashParams) : Call unit :=
  i ← fetch_spans (sp_stash p) (sp_window_start p) 0 0 (sp_reward_proportion p);
  i' ← (if decide (index <$> era_span (spans i) (sp_slash_era p) = Some (is_span_index i))
        then chill_stash (sp_stash p) ≫= λ _, mret (is_end_span i (sp_now p))
        else mret i);
  add_offending_validator (sp_stash p)
    (bool_decide (sp_disable_strategy p = DisableAlways)) ≫= λ _,
  drop_spans i'.

(** One iteration of the loop of [slash_nominators]: the reward paid so far
    and the amount slashed from this nominator. *)
Definition slash_nominator (p : SlashParams) (prior_slash_p : Z)
    (reward_payout : Z) (nominator : IndividualExposure) : Call (Z * Z) :=
  let nom := who nominator in
  let own_slash_prior := perbill_mul prior_slash_p (ie_value nominator) in
  let own_slash_by_validator := perbill_mul (sp_slash p) (ie_value nominator) in
  let own_slash_difference := sat_sub own_slash_by_validator own_slash_prior in
  s ← gets id;
  let era_slash :=
    wadd 128 (default 0 (nominator_slash_in_era s !! (sp_slash_era p, nom)))
      own_slash_difference in
  modify (λ s, s <| nominator_slash_in_era ::= insert (sp_slash_era p, nom) era_slash |>)
    ≫= λ _,
  i ← fetch_spans nom (sp_window_start p) reward_payout 0 (sp_reward_proportion p);
  '(i', target_span) ← compare_and_update_span_slash i (sp_slash_era p) era_slash;
  let i'' := if decide (target_span = Some (is_span_index i'))
             then is_end_span i' (sp_now p) else i' in
  drop_spans i'' ≫= λ _,
  mret (is_paid_out i'', slash_of i'').

Fixpoint slash_nominators_loop (p : SlashParams) (prior_slash_p : Z)
    (reward_payout : Z) (nominators_slashed : list (AccountId * Z))
    (noms : list IndividualExposure) : Call (Z * list (AccountId * Z)) :=
  match noms with
  | [] => mret (reward_payout, nominators_slashed)
  | nominator :: noms' =>
      '(reward_payout', nom_slashed) ← slash_nominator p prior_slash_p reward_payout nominator;
      slash_nominators_loop p prior_slash_p reward_payout'
        (nominators_slashed ++ [(who nominator, nom_slashed)]) noms'
  end.

Definition slash_nominators (p : SlashParams) (prior_slash_p : Z)
    : Call (Z * list (AccountId * Z)) :=
  slash_nominators_loop p prior_slash_p 0 [] (others (sp_exposure p)).

(** The block that applies the slash to the validator: the reward to pay and
    the amount slashed from it. *)
Definition slash_validator (p : SlashParams) (own_slash : Z) : Call (Z * Z) :=
  i ← fetch_spans (sp_stash p) (sp_window_start p) 0 0 (sp_reward_proportion p);
  '(i', target_span) ← compare_and_update_span_slash i (sp_slash_era p) own_slash;
  i'' ← (if decide (target_span = Some (is_span_index i'))
         then chill_stash (sp_stash p) ≫= λ _, mret (is_end_span i' (sp_now p))
         else mret i');
  drop_spans i'' ≫= λ _,
  mret (is_paid_out i'', slash_of i'').

Definition compute_slash (p : SlashParams) : Call (option UnappliedSlash) :=
  let own_slash := perbill_mul (sp_slash p) (own (sp_exposure p)) in
  if decide (perbill_mul (sp_slash p) (exp_total (sp_exposure p)) = 0) then
    kick_out_if_recent p ≫= λ _, mret None
  else
    s ← gets id;
    let '(prior_slash_p, _) :=
      default (0, 0) (validator_slash_in_era s !! (sp_slash_era p, sp_stash p)) in
    if decide (sp_slash p > prior_slash_p) then
      modify (λ s, s <| validator_slash_in_era ::=
                insert (sp_slash_era p, sp_stash p) (sp_slash p, own_slash) |>) ≫= λ _,
      '(reward_payout, val_slashed) ← slash_validator p own_slash;
      add_offending_validator (sp_stash p)
        (bool_decide (sp_disable_strategy p ≠ DisableNever)) ≫= λ _,
      '(nominators_payout, nominators_slashed) ← slash_nominators p prior_slash_p;
      mret (Some {| us_validator := sp_stash p; us_own := val_slashed;
                    us_others := nominators_slashed; us_reporters := [];
                    us_payout := wadd 128 reward_payout nominators_payout |})
    else mret None.

(** * Slashing metadata *)

Definition clear_era_metadata (obsolete_era : EraIndex) : Call unit :=
  modify (λ s, s <| validator_slash_in_era ::= remove_prefix obsolete_era |>
                 <| nominator_slash_in_era ::= remove_prefix obsolete_era |>).

Definition clear_stash_metadata (who : AccountId) (num_slashing_spans : Z) : Call unit :=
  s ← gets id;
  match slashing_spans s !! who with
  | None => mret tt
  | Some sps =>
      ensure (Z.of_nat (length (iter sps)) ≤ num_slashing_spans) IncorrectSlashingSpans ≫= λ _,
      modify (λ s, s <| slashing_spans ::= delete who |>) ≫= λ _,
      for_each (iter sps) (λ span,
        modify (λ s, s <| span_slash_map ::= delete (who, index span) |>))
  end.

(** * Applying a slash *)

(** [do_slash]: the reward payout and the slashed imbalance it is given are
    the mutable references; it returns their new values. *)
Definition do_slash (who : AccountId) (amount : Z) (reward_payout slashed_imbalance : Z)
    (slash_era : EraIndex) : Call (Z * Z) :=
  s ← gets id;
  match bonded s !! who with
  | None => mret (reward_payout, slashed_imbalance)
  | Some controller =>
  match ledger s !! controller with
  | None => mret (reward_payout, slashed_imbalance)
  | Some l =>
      let '(l', v, hook) := slash BondingDuration l amount minimum_balance slash_era in
      modify (λ s, s <| staker_slashes ::= λ h, h ++ option_list hook |>) ≫= λ _,
      if decide (v = 0) then mret (reward_payout, slashed_imbalance)
      else
        let '(imbalance, missing, c') := slash_currency who v (currency s) in
        modify (λ s, s <| currency := c' |>) ≫= λ _,
        let reward_payout' :=
          if decide (missing = 0) then reward_payout else sat_sub reward_payout missing in
        update_ledger controller l' ≫= λ _,
        deposit_event (Slashed who v) ≫= λ _,
        mret (reward_payout', slashed_imbalance + imbalance)
  end end.

(** The split of the imbalance over the reporters. *)
Fixpoint pay_each_reporter (per_reporter reward_payout : Z) (reps : list AccountId)
    (c : cur) : Z * cur :=
  match reps with
  | [] => (reward_payout, c)
  | r :: reps' =>
      let reporter_reward := Z.min per_reporter reward_payout in
      pay_each_reporter per_reporter (reward_payout - reporter_reward) reps'
        (resolve_creating r reporter_reward c)
  end.

Definition pay_reporters (reward_payout slashed_imbalance : Z) (reps : list AccountId)
    : Call unit :=
  if decide (reward_payout = 0 ∨ reps = []) then
    modify (λ s, s <| currency ::= slash_on_unbalanced slashed_imbalance |>)
  else
    let reward_payout := Z.min reward_payout slashed_imbalance in
    let value_slashed := slashed_imbalance - reward_payout in
    let per_reporter := reward_payout / Z.of_nat (length reps) in
    modify (λ s,
      let '(rest, c) := pay_each_reporter per_reporter reward_payout reps (currency s) in
      s <| currency := slash_on_unbalanced (value_slashed + rest) c |>).

Fixpoint do_slash_others (noms : list (AccountId * Z)) (reward_payout slashed_imbalance : Z)
    (slash_era : EraIndex) : Call (Z * Z) :=
  match noms with
  | [] => mret (reward_payout, slashed_imbalance)
  | (nom, amount) :: noms' =>
      '(rp, si) ← do_slash nom amount reward_payout slashed_imbalance slash_era;
      do_slash_others noms' rp si slash_era
  end.

Definition apply_slash (u : UnappliedSlash) (slash_era : EraIndex) : Call unit :=
  '(rp, si) ← do_slash (us_validator u) (us_own u) (us_payout u) 0 slash_era;
  '(rp', si') ← do_slash_others (us_others u) rp si slash_era;
  pay_reporters rp' si' (us_reporters u).

(** [Pallet::apply_unapplied_slashes]: the slashes of an era are taken out of
    the storage and applied in order. *)
Definition apply_era_slashes (e : EraIndex) : Call unit :=
  s ← gets id;
  modify (λ s, s <| unapplied_slashes_map ::= delete e |>) ≫= λ _,
  for_each (unapplied_slashes s e) (λ u, apply_slash u e).

Definition apply_unapplied_slashes (ae : EraIndex) : Call unit :=
  s ← gets id;
  match earliest_unapplied_slash s with
  | None => mret tt
  | Some earliest =>
      let keep_from := sat_sub ae SlashDeferDuration in
      for_each (seqZ earliest (keep_from - earliest)) apply_era_slashes ≫= λ _,
      modify (λ s, s <| earliest_unapplied_slash := Some (Z.max earliest keep_from) |>)
  end.

(** * The offence handler *)

Record OffenceDetails := {
  offender : AccountId * Exposure;
  od_reporters : list AccountId;
}.

Definition on_offence_one (invuln : list AccountId) (slash_era ws ae rp : Z)
    (ds : DisableStrategy) (details : OffenceDetails) (slash_fraction : Z) : Call unit :=
  let '(who, exposure) := offender details in
  if decide (who ∈ invuln) then mret tt
  else
    unapplied ← compute_slash
      {| sp_stash := who; sp_slash := slash_fraction; sp_exposure := exposure;
         sp_slash_era := slash_era; sp_window_start := ws; sp_now := ae;
         sp_reward_proportion := rp; sp_disable_strategy := ds |};
    match unapplied with
    | None => mret tt
    | Some u =>
        let u' := {| us_validator := us_validator u; us_own := us_own u;
                     us_others := us_others u; us_reporters := od_reporters details;
                     us_payout := us_payout u |} in
        if decide (SlashDeferDuration = 0) then apply_slash u' slash_era
        else modify (λ s, s <| unapplied_slashes_map ::=
                       insert ae (unapplied_slashes s ae ++ [u']) |>)
    end.

(** The era of an offence in session [slash_session]. *)
Definition offence_era (s : Store) (ae : EraIndex) (slash_session : SessionIndex)
    : option EraIndex :=
  let active_era_start_session_index := default 0 (eras_start_session_index s !! ae) in
  if decide (slash_session >= active_era_start_session_index) then Some ae
  else (λ r, r.2.1) <$>
         list_find (λ es, es.2 ≤ slash_session) (reverse (bonded_eras s)).

Definition on_offence (offenders : list OffenceDetails) (slash_fraction : list Z)
    (slash_session : SessionIndex) (ds : DisableStrategy) : Call unit :=
  s ← gets id;
  match active_era s with
  | None => mret tt
  | Some ae_info =>
      let ae := ae_index ae_info in
      let ws := sat_sub ae BondingDuration in
      match offence_era s ae slash_session with
      | None => mret tt
      | Some slash_era =>
          modify (λ s, match earliest_unapplied_slash s with
                       | None => s <| earliest_unapplied_slash := Some ae |>
                       | Some _ => s
                       end) ≫= λ _,
          for_each (zip offenders slash_fraction) (λ '(details, fraction),
            on_offence_one (invulnerables s) slash_era ws ae (slash_reward_fraction s)
              ds details fraction)
      end
  end.

(** [FilterHistoricalOffences::report_offence]: [report] is the handler it
    wraps; reports from before the bonding period are discarded. *)
Definition report_offence (report : Call unit) (offence_session : SessionIndex) : Call unit :=
  s ← gets id;
  match head (bonded_eras s) with
  | Some (_, st) =>
      if decide (offence_session >= st) then report
      else deposit_event (OldSlashingReportDiscarded offence_session)
  | None => deposit_event (OldSlashingReportDiscarded offence_session)
  end.
End Slashing.

(** * The record of a span

    In a span, only the largest slash counts: the record holds the maximum of
    the amounts it was compared with, and the staker loses the increase. *)

Section SpanSlash.
Context `{PerThingLaws} `{StakingConfig}.

Lemma span_slash_insert (s : Store) k r k' :
  span_slash (s <| span_slash_map ::= insert k r |>) k' =
  if decide (k = k') then r else span_slash s k'.
Proof. unfold span_slash; cbn. rewrite lookup_insert. by case_decide. Qed.

Lemma span_slash_step_spec i rec e amount rec' reward i' changed :
  span_slash_step i rec e amount = (rec', reward, i', changed) →
  paid_out rec' = paid_out rec ∧ slashed rec' = Z.max (slashed rec) amount
  ∧ slash_of i' = (if decide (slashed rec < amount)
                   then wadd 128 (slash_of i) (wsub 128 amount (slashed rec)) else slash_of i)
  ∧ is_paid_out i' = is_paid_out i ∧ is_stash i' = is_stash i
  ∧ window_start i' = window_start i ∧ reward_proportion i' = reward_proportion i
  ∧ iter (spans i') = iter (spans i) ∧ dirty i' = dirty i
  ∧ span_index (spans i') = span_index (spans i)
  ∧ (reward = 0 ∨ slashed rec ≤ amount ∧ reward = perbill_mul REWARD_F1
       (sat_sub (perbill_mul (reward_proportion i) amount) (paid_out rec)))
  ∧ (changed = false → rec' = rec).
Proof.
  unfold span_slash_step. case_decide; [|case_decide];
    intros [= <- <- <- <-]; cbn; split_and!;
    first [ done | lia | by rewrite decide_True by lia | by rewrite decide_False by lia
          | by left | right; split; [lia | done] ].
Qed.

Lemma compare_and_update_spec i e amount sp (s : Store) :
  era_span (spans i) e = Some sp →
  ∃ i' s',
    compare_and_update_span_slash i e amount s = (Ok (i', Some (index sp)), s')
    ∧ (let old := slashed (span_slash s (is_stash i, index sp)) in
       slashed (span_slash s' (is_stash i, index sp)) = Z.max old amount
       ∧ slash_of i' = (if decide (old < amount)
                        then wadd 128 (slash_of i) (wsub 128 amount old) else slash_of i))
    ∧ (∀ k, k ≠ (is_stash i, index sp) → span_slash s' k = span_slash s k)
    ∧ iter (spans i') = iter (spans i).
Proof.
  intros Hsp. unfold compare_and_update_span_slash. rewrite Hsp.
  rewrite (bind_step _ _ s s s) by done.
  destruct (span_slash_step _ _ _ _) as [[[rec reward] i'] changed] eqn:Hstep.
  apply span_slash_step_spec in Hstep
    as (Hpaid & Hmax & Hof & _ & _ & _ & _ & Hiter & _ & _ & _ & Hch).
  destruct (decide (reward = 0)) as [Hr|Hr]; [destruct changed|].
  - eexists _, _. split; [reflexivity|]. rewrite span_slash_insert, decide_True by done.
    split_and!; [done | done | | done]. intros k Hk. by rewrite span_slash_insert, decide_False.
  - eexists _, _. split; [reflexivity|]. specialize (Hch eq_refl) as ->. by split_and!.
  - eexists _, _. split; [reflexivity|]. rewrite span_slash_insert, decide_True by done.
    split_and!; [done | done | | done]. intros k Hk. by rewrite span_slash_insert, decide_False.
Qed.

(** ** Rewards never exceed their share of the slash *)

(** What was paid out for a span is at most [rp] of what was slashed in it. *)
Definition record_ok (rp : Z) (r : SpanRecord) : Prop :=
  u128 (slashed r) ∧ 0 ≤ paid_out r ≤ perbill_mul rp (slashed r).

Definition payouts_bounded (rp : Z) (s : Store) : Prop :=
  map_Forall (λ _, record_ok rp) (span_slash_map s).

Lemma REWARD_F1_perbill : is_perbill REWARD_F1.
Proof. done. Qed.

Lemma record_ok_default rp : is_perbill rp → record_ok rp SpanRecord_default.
Proof.
  intros Hrp. split; [unfold in_u; cbn; lia|]. cbn.
  destruct (perbill_mul_range rp 0 Hrp); lia.
Qed.

Lemma payouts_bounded_lookup rp s k :
  is_perbill rp → payouts_bounded rp s → record_ok rp (span_slash s k).
Proof.
  intros Hrp Hs. unfold span_slash.
  destruct (span_slash_map s !! k) eqn:Hk; [by apply (Hs k)|by apply record_ok_default].
Qed.

Lemma reward_bounded rp amount paid :
  is_perbill rp → 0 ≤ amount → 0 ≤ paid ≤ perbill_mul rp amount →
  0 ≤ perbill_mul REWARD_F1 (sat_sub (perbill_mul rp amount) paid)
    ≤ perbill_mul rp amount - paid.
Proof.
  intros Hrp Ha Hp. rewrite sat_sub_exact by lia.
  apply perbill_mul_range; [apply REWARD_F1_perbill | lia].
Qed.

End SpanSlash.

(** * Invariants of the slashing operations *)

Section SlashingFrame.
Context `{PerThing} `{StakingConfig} (I : Store → Prop) `{!RoleFrame I}.

Lemma keeps_add_offending_validator a b : preserves I (add_offending_validator a b).
Proof.
  unfold add_offending_validator. keeps_auto.
  all: rewrite ?bool_decide_eq_true in *; try by apply keeps_ensure_new_era.
  - by apply frame_sessions, frame_offending.
  - by apply frame_sessions.
  - by apply frame_offending.
Qed.
End SlashingFrame.
#[export] Hint Resolve keeps_add_offending_validator : keeps.

(** An invariant that does not read balances, ledgers, events nor the calls of
    [OnStakerSlash] is kept by applying a slash. *)
Class BalanceFrame `{StakingConfig} (I : Store → Prop) := {
  bframe_currency g s : I s → I (s <| currency ::= g |>);
  bframe_ledger g s : I s → I (s <| ledger ::= g |>);
  bframe_events g s : I s → I (s <| events ::= g |>);
  bframe_hooks g s : I s → I (s <| staker_slashes ::= g |>);
}.

Section BalanceFrame.
Context `{PerThing} `{StakingConfig} (I : Store → Prop) `{!BalanceFrame I}.

Lemma keeps_do_slash_frame a v r si e : preserves I (do_slash a v r si e).
Proof.
  unfold do_slash, update_ledger, deposit_event. keeps_auto.
  all: first [ done | by apply bframe_hooks | by apply bframe_currency
             | by apply bframe_ledger, bframe_currency | by apply bframe_events ].
Qed.

Lemma keeps_do_slash_others_frame noms : ∀ r si e, preserves I (do_slash_others noms r si e).
Proof.
  induction noms as [|[n v] noms IH]; intros r si e; cbn; [by apply keeps_ret|].
  apply preserves_keeps_bind; [apply keeps_do_slash_frame|]. intros []. apply IH.
Qed.

Lemma keeps_apply_slash_frame u e : preserves I (apply_slash u e).
Proof.
  unfold apply_slash. apply preserves_keeps_bind; [apply keeps_do_slash_frame|]. intros [r si].
  apply preserves_keeps_bind; [apply keeps_do_slash_others_frame|].
  intros [r' si']. unfold pay_reporters. keeps_auto; try done.
  - by apply bframe_currency.
  - destruct (pay_each_reporter _ _ _ _). by apply bframe_currency.
Qed.
End BalanceFrame.

(** * Slashing cannot fail

    An offence is reported from a hook, where nobody could handle an error:
    every operation of this file but [clear_stash_metadata] returns [Ok]. *)

Section Total.
Context `{PerThing} `{StakingConfig}.

Lemma total_chill_stash a : always_ok (chill_stash a).
Proof. unfold chill_stash, do_remove_validator, do_remove_nominator, deposit_event. total_auto. Qed.

Lemma total_add_offending_validator a b : always_ok (add_offending_validator a b).
Proof. unfold add_offending_validator, ensure_new_era. total_auto. Qed.

Lemma total_fetch_spans a ws p sl rp : always_ok (fetch_spans a ws p sl rp).
Proof. unfold fetch_spans. total_auto. Qed.

Lemma total_drop_spans i : always_ok (drop_spans i).
Proof. unfold drop_spans. total_auto. Qed.

Lemma total_compare_and_update i e v : always_ok (compare_and_update_span_slash i e v).
Proof. unfold compare_and_update_span_slash. total_auto. Qed.

#[local] Hint Resolve total_chill_stash total_add_offending_validator total_fetch_spans
  total_drop_spans total_compare_and_update : total.

Lemma total_slash_nominators_loop p pr rew acc noms :
  always_ok (slash_nominators_loop p pr rew acc noms).
Proof.
  revert rew acc. induction noms as [|n noms IH]; intros; cbn; [total_auto|].
  unfold slash_nominator. total_auto.
Qed.

Lemma total_compute_slash p : always_ok (compute_slash p).
Proof.
  unfold compute_slash, kick_out_if_recent, slash_validator, slash_nominators.
  total_auto. apply total_slash_nominators_loop.
Qed.

Lemma total_do_slash a v r si e : always_ok (do_slash a v r si e).
Proof. unfold do_slash, update_ledger, deposit_event. total_auto. Qed.

#[local] Hint Resolve total_compute_slash total_do_slash : total.

Lemma total_do_slash_others noms r si e : always_ok (do_slash_others noms r si e).
Proof. revert r si. induction noms as [|[n v] noms IH]; intros; cbn; total_auto. Qed.

Lemma total_apply_slash u e : always_ok (apply_slash u e).
Proof.
  unfold apply_slash, pay_reporters. total_auto. apply total_do_slash_others.
Qed.

#[local] Hint Resolve total_apply_slash : total.

Lemma total_apply_unapplied_slashes e : always_ok (apply_unapplied_slashes e).
Proof. unfold apply_unapplied_slashes, apply_era_slashes. total_auto. Qed.

Lemma total_on_offence offs fr ss ds : always_ok (on_offence offs fr ss ds).
Proof. unfold on_offence, on_offence_one. total_auto. Qed.
End Total.
#[export] Hint Resolve total_chill_stash total_add_offending_validator total_compute_slash
  total_apply_slash total_apply_unapplied_slashes total_on_offence : total.
