(* ===== verification/ReporterRewards.v ===== *)
(** The rewards of reporters against the records of the slashing spans: an
    account of all that is handed out or promised while an offence is processed.
    The records are pruned meanwhile; [tracked] shows that a record which is gone
    was not written before in the same offence, so that the records of the start
    overlaid with those of the storage hold all that was paid out. *)

From Stdlib Require Import ZArith Lia.
From stdpp Require Import base option list gmap fin_maps fin_sets strings.
From S2P Require Import Prelude Interfaces StakingLedger SlashingSpans StakingState Slashing.
#[local] Open Scope Z_scope.

(** What the rewards rely on of the currency: a slash raises no balance, and
    [resolve_creating] raises the balance it is for by at most the imbalance. *)
Class RewardLaws `{Currency} := {
  slash_raises_nothing a v c imb missing c' b :
    slash_currency a v c = (imb, missing, c') → 0 ≤ v →
    free_balance b c' ≤ free_balance b c;
  resolve_raises a v c b :
    0 ≤ v → free_balance b (resolve_creating a v c)
              ≤ free_balance b c + (if decide (a = b) then v else 0);
}.

Lemma TestCurrency_reward_laws : @RewardLaws TestCurrency.
Proof.
  split; cbn; intros *.
  - intros [= <- <- <-] Hv. pose proof (t_balance_range a c).
    rewrite t_balance_add by ulia. case_decide; ulia.
  - intros Hv. unfold t_balance at 1; cbn. rewrite lookup_insert. pose proof (t_balance_range a c).
    case_decide; subst; cbn; [|unfold t_balance]; ulia.
Qed.

(** * The spans of the stakers while an offence is processed *)

Section Tracked.
Implicit Types (s : SlashingSpans) (w : AccountId) (i : SpanIndex).
Context (e ws now : EraIndex) (m0 : gmap (AccountId * SpanIndex) SpanRecord).
Context (He : 0 ≤ ws ≤ e) (Hnow : e ≤ now) (Hfit : u32 (now + 1)).

(** The index of the oldest span. *)
Definition lowest s : SpanIndex := span_index s - Z.of_nat (length (prior s)).

(** The index of the open span has room for the one end of a span there can be. *)
Definition spans_room s : Prop :=
  spans_wf s ∧ (u32 (span_index s + 1) ∨ now + 1 ≤ last_start s).

(** Between the records [m0] of the start and those of now, [m], every record
    written belongs to the span of the era of the offence, and every record gone
    is older than the spans of its staker. *)
Record tracked (sps : gmap AccountId SlashingSpans)
    (m : gmap (AccountId * SpanIndex) SpanRecord) : Prop := {
  tr_room : map_Forall (λ _, spans_room) sps;
  tr_live w i r : m !! (w, i) = Some r →
    m0 !! (w, i) = Some r ∨
    ∃ s sp, sps !! w = Some s ∧ era_span s e = Some sp ∧ index sp = i;
  tr_gone w i : is_Some (m0 !! (w, i)) → m !! (w, i) = None →
    ∃ s, sps !! w = Some s ∧ i < lowest s;
}.

Lemma lowest_iter s sp : spans_wf s → sp ∈ iter s → lowest s ≤ index sp ≤ span_index s.
Proof.
  intros Hwf Hin. rewrite iter_eq in Hin by done. unfold lowest. destruct Hwf as [_ _ Hp _ _].
  apply elem_of_cons in Hin as [->|Hin]; cbn; [lia|].
  destruct (prior_spans_elem _ _ _ _ Hp Hin) as (? & _ & _ & _ & _ & ?). lia.
Qed.

Lemma tracked_start sps :
  map_Forall (λ _, spans_room) sps → tracked sps m0.
Proof. intros Hr. split; [done | by left |]. intros w i [r Hm] Hn. congruence. Qed.

(** Replacing the spans of a staker by others with the same span of the era
    and no lower index. *)
Lemma tracked_spans sps m w s s' :
  tracked sps m → sps !! w = Some s → spans_room s' → lowest s ≤ lowest s' →
  (∀ sp, era_span s e = Some sp → ∃ sp', era_span s' e = Some sp' ∧ index sp' = index sp) →
  tracked (<[w:=s']> sps) m.
Proof.
  intros [Hr Hlive Hgone] Hs Hr' Hlow Hspan. split; [by apply map_Forall_insert_2| |].
  - intros v i r Hm. destruct (Hlive v i r Hm) as [Hm0|(t & sp & Ht & Hsp & Hi)]; [by left|].
    right. destruct (decide (w = v)) as [<-|Hne].
    + assert (t = s) as -> by congruence. destruct (Hspan sp Hsp) as (sp' & Hsp' & Hi').
      exists s', sp'. rewrite lookup_insert_eq. split_and!; [done | done | congruence].
    + exists t, sp. by rewrite lookup_insert_ne.
  - intros v i Hm0 Hm. destruct (Hgone v i Hm0 Hm) as (t & Ht & Hi).
    destruct (decide (w = v)) as [<-|Hne].
    + assert (t = s) as -> by congruence. exists s'. rewrite lookup_insert_eq. split; [done | lia].
    + exists t. by rewrite lookup_insert_ne.
Qed.

Lemma tracked_reshape sps m w s s' :
  tracked sps m → sps !! w = Some s → span_index s' = span_index s →
  last_start s' = last_start s → prior s' = prior s → tracked (<[w:=s']> sps) m.
Proof.
  intros Ht Hs Hi Hl Hp. destruct (tr_room _ _ Ht w s Hs) as [[] Hroom].
  apply (tracked_spans sps m w s); [done | done | | unfold lowest; by rewrite Hi, Hp |].
  - split; [split; rewrite ?Hl, ?Hi, ?Hp; done | by rewrite Hi, Hl].
  - intros sp Hsp. exists sp. split; [|done]. unfold era_span, iter in *. by rewrite Hi, Hl, Hp.
Qed.

Lemma tracked_new sps m w :
  tracked sps m → sps !! w = None → tracked (<[w:=new ws]> sps) m.
Proof.
  intros [Hr Hlive Hgone] Hs. split.
  - apply map_Forall_insert_2; [|done]. split; [apply new_wf; ulia | left; cbn; ulia].
  - intros v i r Hm. destruct (Hlive v i r Hm) as [Hm0|(t & sp & Ht & Hsp & Hi)]; [by left|].
    right. exists t, sp. rewrite lookup_insert_ne by congruence. done.
  - intros v i Hm0 Hm. destruct (Hgone v i Hm0 Hm) as (t & Ht & Hi).
    exists t. by rewrite lookup_insert_ne by congruence.
Qed.

(** Writing the record of the span of the era. *)
Lemma tracked_record sps m w s sp r :
  tracked sps m → sps !! w = Some s → era_span s e = Some sp →
  tracked sps (<[(w, index sp):=r]> m).
Proof.
  intros [Hr Hlive Hgone] Hs Hsp. split; [done| |].
  - intros v i r' Hm. apply lookup_insert_Some in Hm as [[[= -> <-] _]|[_ Hm]].
    + right. by exists s, sp.
    + by apply (Hlive v i r').
  - intros v i Hm0 Hm. apply lookup_insert_None in Hm as [Hm _]. by apply (Hgone v i).
Qed.

(** A record about to be written was not there before, if it is not there now. *)
Lemma tracked_absent sps m w s sp :
  tracked sps m → sps !! w = Some s → era_span s e = Some sp →
  m !! (w, index sp) = None → m0 !! (w, index sp) = None.
Proof.
  intros [Hr _ Hgone] Hs Hsp Hm. destruct (m0 !! (w, index sp)) eqn:Hm0; [|done].
  destruct (Hgone w (index sp) ltac:(by eexists) Hm) as (t & Ht & Hi).
  assert (t = s) as -> by congruence. destruct (Hr w s Hs) as [Hwf _].
  apply era_span_Some in Hsp as [Hin _]; [|done]. pose proof (lowest_iter _ _ Hwf Hin). lia.
Qed.

Lemma length_iter s : length (iter s) = S (length (prior s)).
Proof.
  unfold iter. cbn [length]. f_equal. generalize (last_start s), (span_index s).
  induction (prior s) as [|x l IH]; intros; cbn; [done | by rewrite IH].
Qed.

Lemma end_span_tracked sps m w s s' b :
  tracked sps m → sps !! w = Some s → end_span s now = (s', b) → tracked (<[w:=s']> sps) m.
Proof.
  intros Ht Hs Hend. pose proof (tr_room _ _ Ht w s Hs) as [Hwf Hroom].
  destruct (decide (now + 1 ≤ last_start s)) as [Hle|Hgt].
  { unfold end_span in Hend. rewrite wadd_small, decide_True in Hend by done.
    injection Hend as <- <-. by rewrite insert_id. }
  destruct (end_span_spec s now s' b Hwf Hfit ltac:(tauto) Hend) as (Hwf' & _ & Hb).
  destruct b; [|lia]. destruct Hb as [_ Hit].
  assert (span_index s' = span_index s + 1 ∧ last_start s' = now + 1) as [Hsi Hls].
  { rewrite (iter_eq s') in Hit by done. by injection Hit. }
  assert (length (prior s') = S (length (prior s))) as Hlen.
  { pose proof (f_equal length Hit) as Hl. cbn [length] in Hl.
    rewrite length_drop, !length_iter in Hl. lia. }
  apply (tracked_spans sps m w s); [done | done | | unfold lowest; lia |].
  { split; [done | right; lia]. }
  intros sp [Hin Hc]%era_span_Some; [|done].
  pose proof Hc as [Hst Hen]%(contains_era_spec s); [|done|done].
  destruct (decide (sp ∈ drop 1 (iter s))) as [Hd|Hd].
  { exists sp. split; [|done]. apply era_span_Some; [done|]. split; [|done].
    rewrite Hit. set_solver. }
  rewrite iter_eq in Hin, Hd by done. cbn [drop] in Hd. rewrite drop_0 in Hd.
  apply elem_of_cons in Hin as [->|]; [|done]. cbn in Hst.
  exists {| index := span_index s; start := last_start s;
            span_length := Some (now + 1 - last_start s) |}.
  split; [apply era_span_Some; [done|] | reflexivity].
  assert (∀ a b l, (b : SlashingSpan) ∈ a :: b :: l) as Hsnd by set_solver.
  rewrite Hit. split; [apply Hsnd|]. apply (contains_era_spec s'); [done | rewrite Hit; apply Hsnd |].
  cbn. lia.
Qed.

(** The span of the era is not pruned. *)
Lemma prune_keeps_era s s' r sp :
  spans_wf s → prune s ws = (s', r) → era_span s e = Some sp →
  (∃ sp', era_span s' e = Some sp' ∧ index sp' = index sp) ∧ lowest s' ≤ index sp.
Proof.
  intros Hwf Hp [Hin Hc]%era_span_Some; [|done].
  pose proof Hc as [Hst Hen]%(contains_era_spec s); [|done|done].
  destruct (prune_iter s ws s' r Hwf ltac:(ulia) Hp) as (Hwf' & _ & Hsi & Hit & Hlen & _).
  assert (∃ sp', era_span s' e = Some sp' ∧ index sp' = index sp) as (sp' & Hsp' & Hi).
  { destruct (decide (sp ∈ drop 1 (iter s))) as [Hd|Hd].
    - exists sp. split; [|done]. apply era_span_Some; [done|]. split; [|done].
      rewrite Hit. apply elem_of_cons. right. apply list_elem_of_filter. split; [|done].
      unfold ended. destruct (span_end sp); cbn in *; lia || tauto.
    - rewrite iter_eq in Hin, Hd by done. cbn [drop] in Hd. rewrite drop_0 in Hd.
      apply elem_of_cons in Hin as [->|]; [|done]. cbn in Hst.
      exists {| index := span_index s; start := Z.max (last_start s) ws; span_length := None |}.
      split; [apply era_span_Some; [done|] | reflexivity].
      rewrite Hit. split; [set_solver|].
      apply (contains_era_spec s'); [done | rewrite Hit; set_solver |]. cbn. split; [lia|done]. }
  split; [by exists sp'|]. apply era_span_Some in Hsp' as [Hin' _]; [|done].
  pose proof (lowest_iter _ _ Hwf' Hin'). lia.
Qed.

(** The indices whose records [prune] returns for deletion. *)
Definition pruned_index (r : option (SpanIndex * SpanIndex)) i : bool :=
  match r with Some (a, b) => (a <=? i) && (i <? b) | None => false end.

(** What pruning the records of a staker leaves: the records of the start
    overlaid with the rest are what they were. *)
Lemma prune_tracked sps m m' w s s' r :
  tracked sps m → sps !! w = Some s → prune s ws = (s', r) →
  (∀ v i, m' !! (v, i) =
     if bool_decide (v = w) && pruned_index r i then None else m !! (v, i)) →
  tracked (<[w:=s']> sps) m' ∧ m' ∪ m0 = m ∪ m0.
Proof.
  intros Ht Hs Hp Hm'. pose proof (tr_room _ _ Ht w s Hs) as [Hwf Hroom].
  destruct (prune_iter s ws s' r Hwf ltac:(ulia) Hp) as (Hwf' & _ & Hsi & Hit & Hlen & Hr).
  assert (last_start s ≤ last_start s') as Hls.
  { rewrite (iter_eq s') in Hit by done. injection Hit as _ -> _. lia. }
  assert (∀ i, pruned_index r i = true → i < lowest s') as Hlow.
  { intros i. rewrite Hr. unfold lowest. case_decide; cbn; [done | lia]. }
  assert (∀ v i, bool_decide (v = w) && pruned_index r i = true → v = w ∧ i < lowest s') as Hgone'.
  { intros v i [->%bool_decide_eq_true ?]%andb_true_iff. auto. }
  assert (tracked (<[w:=s']> sps) m) as Htr.
  { apply (tracked_spans sps m w s); [done | done | | unfold lowest; lia |].
    - split; [done|]. rewrite Hsi. destruct Hroom; [by left | right; lia].
    - intros sp Hsp. by destruct (prune_keeps_era s s' r sp Hwf Hp Hsp) as [Hk _]. }
  split.
  - destruct Htr as [Hroom' Hlive Hgone]. split; [done| |].
    + intros v i r' Hi. rewrite Hm' in Hi. case_match; [done|]. by apply Hlive.
    + intros v i Hm0 Hi. rewrite Hm' in Hi.
      destruct (bool_decide (v = w) && pruned_index r i) eqn:Hd; [|by apply Hgone].
      apply Hgone' in Hd as [-> Hd]. exists s'. by rewrite lookup_insert_eq.
  - apply map_eq. intros [v i]. rewrite !lookup_union, Hm'.
    destruct (bool_decide (v = w) && pruned_index r i) eqn:Hd; [|done].
    apply Hgone' in Hd as [-> Hd]. destruct (m !! (w, i)) as [x|] eqn:Hm; [|done].
    destruct (tr_live _ _ Ht w i x Hm) as [->|(t & sp & Ht' & Hsp & <-)]; [done|].
    assert (t = s) as -> by congruence.
    destruct (prune_keeps_era s s' r sp Hwf Hp Hsp) as [_ Hi]. lia.
Qed.
End Tracked.

(** * What applying a slash hands out *)

Section Handed.
Context `{PerThingLaws} `{CurrencyLaws} `{!RewardLaws} `{!StakingConfig}.
Implicit Types s : Store.

(** The accounts [A] are watched; the handler of slashed funds pays none of them. *)
Context (A : list AccountId) (HA : NoDup A).
Context (Hhandler : ∀ a v c, a ∈ A → 0 ≤ v →
  free_balance a (slash_on_unbalanced v c) ≤ free_balance a c).

Definition held_in (c : cur) : Z := zsum (λ a, free_balance a c) A.

(** What the accounts hold, and what slashes that wait promise to reporters. *)
Definition all_held s : Z := held_in (currency s).
Definition promised s : Z := map_sum (zsum us_payout) (unapplied_slashes_map s).

Lemma zsum_single (v : Z) (r : AccountId) l :
  NoDup l → 0 ≤ v → zsum (λ a, if decide (r = a) then v else 0) l ≤ v.
Proof.
  intros Hl Hv. induction Hl as [|a l Ha _ IH]; cbn; [done|]. case_decide; [subst|lia].
  rewrite (zsum_ext _ (λ _, 0)).
  - assert (zsum (λ _ : AccountId, 0) l = 0) as -> by (clear; induction l; cbn; lia). lia.
  - intros b Hb. rewrite decide_False; [done|]. by intros ->.
Qed.

Lemma held_resolve r v c : 0 ≤ v → held_in (resolve_creating r v c) ≤ held_in c + v.
Proof.
  intros Hv. unfold held_in. pose proof (zsum_single v r A HA Hv) as Hone.
  assert (zsum (λ a, free_balance a (resolve_creating r v c)) A
    ≤ zsum (λ a, free_balance a c + (if decide (r = a) then v else 0)) A).
  { apply zsum_le. intros a _. by apply resolve_raises. }
  assert (∀ f g : AccountId → Z, zsum (λ a, f a + g a) A = zsum f A + zsum g A) as Hadd.
  { intros f g. clear. induction A; cbn; lia. }
  rewrite Hadd in *. lia.
Qed.

Lemma held_le c c' : (∀ a, a ∈ A → free_balance a c' ≤ free_balance a c) → held_in c' ≤ held_in c.
Proof. apply zsum_le. Qed.

Lemma slash_amount_nonneg d l v mb e l' v' hook :
  slash d l v mb e = (l', v', hook) → 0 ≤ v'.
Proof.
  unfold slash. case_decide; [by intros [= _ <- _]|]. destruct (slash_targets _ _) as [aff pr].
  destruct (slash_out_of _ _ _ _ _ _) as [[act tot] rem].
  destruct (slash_chunks _ _ _ _ _ _ _ _) as [[[ch tot'] ?] ?]. intros [= _ <- _]. ulia.
Qed.

Lemma keeps_held_do_slash W a v rp si e :
  0 ≤ rp → 0 ≤ si →
  keeps (λ s, all_held s ≤ W) (do_slash a v rp si e) (λ r, 0 ≤ r.1 ≤ rp ∧ 0 ≤ r.2).
Proof.
  intros Hrp Hsi. apply keeps_wp. intros s Hs.
  assert (∀ rp' si' s', 0 ≤ rp' ≤ rp → 0 ≤ si' → all_held s' ≤ W →
    all_held s' ≤ W ∧ ∀ x, (Ok (rp', si') : result Error (Z * Z)) = Ok x → 0 ≤ x.1 ≤ rp ∧ 0 ≤ x.2) as Hret.
  { intros rp' si' s' ? ? ?. split; [done|]. by intros x [= <-]. }
  unfold do_slash. apply wp_get.
  destruct (bonded s !! a) as [c|]; [|apply wp_ret, Hret; [lia | done | done]].
  destruct (ledger s !! c) as [l|]; [|apply wp_ret, Hret; [lia | done | done]].
  destruct (slash _ l v _ e) as [[l' v'] hook] eqn:Hsl. apply slash_amount_nonneg in Hsl as Hv'.
  apply wp_bind, wp_modify. destruct (decide (v' = 0)); [apply wp_ret, Hret; [lia | done | done]|].
  destruct (slash_currency _ _ _) as [[imb miss] c'] eqn:Hcur. cbn [currency set] in Hcur.
  destruct (Interfaces.slash_spec _ _ _ _ _ _ Hcur Hv') as (Himb & Hmiss & _).
  unfold update_ledger, deposit_event. wp_auto. apply Hret; [destruct (decide _); ulia | lia |].
  unfold all_held in *. cbn. etransitivity; [|exact Hs]. apply held_le. intros b _.
  rewrite set_lock_free. by eapply slash_raises_nothing.
Qed.

Lemma keeps_held_do_slash_others W noms : ∀ rp si e,
  0 ≤ rp → 0 ≤ si →
  keeps (λ s, all_held s ≤ W) (do_slash_others noms rp si e) (λ r, 0 ≤ r.1 ≤ rp ∧ 0 ≤ r.2).
Proof.
  induction noms as [|[n v] noms IH]; intros rp si e Hrp Hsi; cbn [do_slash_others].
  { apply keeps_ret. cbn. lia. }
  eapply keeps_bind; [by apply keeps_held_do_slash|]. intros [rp' si'] [? ?]. cbn in *.
  eapply keeps_weaken; [apply (IH rp' si'); lia|]. intros [? ?]. cbn. lia.
Qed.

Lemma pay_each_reporter_held per reps : ∀ rp c rest c',
  0 ≤ per → 0 ≤ rp → pay_each_reporter per rp reps c = (rest, c') →
  0 ≤ rest ≤ rp ∧ held_in c' ≤ held_in c + (rp - rest).
Proof.
  induction reps as [|r reps IH]; intros rp c rest c' Hper Hrp; cbn.
  { intros [= <- <-]. lia. }
  intros Hp. pose proof (held_resolve r (Z.min per rp) c ltac:(lia)).
  apply IH in Hp; lia.
Qed.

Lemma wp_held_pay_reporters rp si reps s :
  0 ≤ rp → 0 ≤ si → wp (pay_reporters rp si reps) s (λ _ s', all_held s' ≤ all_held s + rp).
Proof.
  intros Hrp Hsi. unfold pay_reporters, all_held. destruct (decide _) as [_|Hne].
  - apply wp_modify. cbn. pose proof (held_le (currency s) (slash_on_unbalanced si (currency s))
      ltac:(intros; by apply Hhandler)). lia.
  - cbv zeta. set (total := Z.min rp si). set (per := total / _).
    assert (0 ≤ per) by (apply Z.div_pos; [lia|]; destruct reps; [tauto | rewrite length_cons; lia]).
    apply wp_modify. destruct (pay_each_reporter _ _ _ _) as [rest c] eqn:Hp. cbn.
    apply pay_each_reporter_held in Hp as [Hrest Hheld]; [|done|lia].
    pose proof (held_le c (slash_on_unbalanced (si - total + rest) c)
      ltac:(intros; apply Hhandler; [done | lia])). lia.
Qed.

(** Applying a slash hands out no more than it promised. *)
Lemma wp_held_apply_slash u e s :
  0 ≤ us_payout u → wp (apply_slash u e) s (λ _ s', all_held s' ≤ all_held s + us_payout u).
Proof.
  intros Hu. unfold apply_slash. apply wp_bind.
  eapply wp_mono; [exact (wp_keeps _ _ _ s (keeps_held_do_slash (all_held s) _ _ _ 0 e Hu ltac:(lia)) (Z.le_refl _))|].
  intros [[rp si]|er] s1 [Hs1 Hr]; [|lia]. destruct (Hr _ eq_refl) as [Hrp Hsi]. cbn in Hrp, Hsi.
  apply wp_bind. eapply wp_mono;
    [exact (wp_keeps _ _ _ s1 (keeps_held_do_slash_others (all_held s) _ rp si e ltac:(lia) ltac:(lia)) Hs1)|].
  intros [[rp' si']|er] s2 [Hs2 Hr']; [|lia]. destruct (Hr' _ eq_refl) as [Hrp' Hsi']. cbn in Hrp', Hsi'.
  eapply wp_mono; [apply wp_held_pay_reporters; lia|]. intros ? s3 ?. cbn in *. lia.
Qed.

(** Slashes that are applied when they are due hand out what they promised. *)
Definition promises_ok s : Prop :=
  map_Forall (λ _, Forall (λ u, 0 ≤ us_payout u)) (unapplied_slashes_map s).

Lemma wp_held_apply_all l e : ∀ s,
  Forall (λ u, 0 ≤ us_payout u) l →
  wp (for_each l (λ u, apply_slash u e)) s (λ _ s',
    all_held s' ≤ all_held s + zsum us_payout l ∧ unapplied_slashes_map s' = unapplied_slashes_map s).
Proof.
  induction l as [|u l IH]; intros s Hl; cbn [for_each zsum].
  { apply wp_ret. split; [lia | done]. }
  apply Forall_cons in Hl as [Hu Hl]. apply wp_bind.
  assert (preserves (λ t, unapplied_slashes_map t = unapplied_slashes_map s) (apply_slash u e)) as Hframe
    by (apply keeps_apply_slash_frame; by split).
  destruct (total_apply_slash u e s) as ([] & s1 & Heq). eapply wp_run; [exact Heq|].
  pose proof (wp_elim _ _ _ _ _ (wp_held_apply_slash u e s Hu) Heq) as Hheld.
  pose proof (preserves_result _ _ _ _ _ Hframe Heq eq_refl) as Hun. cbn in Hun.
  eapply wp_mono; [by apply IH|]. intros r s2 [? ->]. split; [cbn in *; lia | done].
Qed.

Lemma wp_held_apply_era e s :
  promises_ok s →
  wp (apply_era_slashes e) s (λ _ s', all_held s' + promised s' ≤ all_held s + promised s ∧ promises_ok s').
Proof.
  intros Hs. unfold apply_era_slashes. apply wp_get, wp_bind, wp_modify. cbn [id].
  assert (Forall (λ u, 0 ≤ us_payout u) (unapplied_slashes s e)) as Hl.
  { unfold unapplied_slashes. destruct (unapplied_slashes_map s !! e) eqn:He; [by apply (Hs e) | done]. }
  eapply wp_mono; [by apply wp_held_apply_all|]. intros r s' [Hheld Hun]. cbn in Hun.
  unfold promised, promises_ok, unapplied_slashes, all_held in *. rewrite Hun. cbn in *.
  split; [|by apply map_Forall_delete].
  destruct (unapplied_slashes_map s !! e) as [l|] eqn:He; cbn in *.
  - rewrite (map_sum_delete _ _ e l He). lia.
  - rewrite delete_id by done. lia.
Qed.

Lemma wp_held_apply_eras l : ∀ s,
  promises_ok s →
  wp (for_each l apply_era_slashes) s (λ _ s', all_held s' + promised s' ≤ all_held s + promised s).
Proof.
  induction l as [|e l IH]; intros s Hs; cbn [for_each]; [by apply wp_ret|]. apply wp_bind.
  eapply wp_mono; [by apply wp_held_apply_era|]. intros [[]|er] s1 [Hle Hs1]; [|lia].
  eapply wp_mono; [by apply IH|]. intros r s2 ?. cbn in *. lia.
Qed.

Lemma held_apply_unapplied ae s :
  promises_ok s →
  let s' := run (apply_unapplied_slashes ae) s in all_held s' + promised s' ≤ all_held s + promised s.
Proof.
  intros Hs. change (wp (apply_unapplied_slashes ae) s (λ _ s', all_held s' + promised s' ≤ all_held s + promised s)).
  unfold apply_unapplied_slashes. apply wp_get. cbn [id]. destruct (earliest_unapplied_slash s); [|by apply wp_ret].
  cbv zeta. apply wp_bind. eapply wp_mono; [by apply wp_held_apply_eras|].
  intros [[]|er] s1 Hle; [|lia]. by apply wp_modify.
Qed.
End Handed.


(** * The account kept while an offence is processed *)

Section Account.
Context `{PerThingLaws} `{CurrencyLaws} `{!RewardLaws} `{!StakingConfig}.
Implicit Types (s : Store) (i : InspectingSpans).

Context (A : list AccountId) (HA : NoDup A).
Context (Hhandler : ∀ a v c, a ∈ A → 0 ≤ v →
  free_balance a (slash_on_unbalanced v c) ≤ free_balance a c).
Context (e ws now rp : Z) (m0 : gmap (AccountId * SpanIndex) SpanRecord) (R : Z).
Context (He : 0 ≤ ws ≤ e) (Hnow : e ≤ now) (Hfit : u32 (now + 1)) (Hrp : is_perbill rp).

(** All that was handed out or promised, and [d] more, is within [R] and what
    the records hold: those of the storage over those of the start. *)
Definition balanced (d : Z) s : Prop :=
  payouts_bounded rp s ∧
  all_held A s + promised s + d ≤ R + map_sum paid_out (span_slash_map s ∪ m0).

Definition reckoned (d : Z) s : Prop :=
  tracked e now m0 (slashing_spans s) (span_slash_map s) ∧ balanced d s.

(** The same while the spans of a staker are inspected. *)
Definition inspecting (d : Z) i s : Prop :=
  (dirty i = false → slashing_spans s !! is_stash i = Some (spans i)) ∧
  reward_proportion i = rp ∧ window_start i = ws ∧ 0 ≤ is_paid_out i ∧
  tracked e now m0 (<[is_stash i := spans i]> (slashing_spans s)) (span_slash_map s) ∧
  balanced (d + is_paid_out i) s.

#[local] Instance accounted_frame d : RoleFrame (reckoned d).
Proof. by split. Qed.
#[local] Instance inspecting_frame d i : RoleFrame (inspecting d i).
Proof. by split. Qed.

Lemma accounted_zero d s : reckoned (d + 0) s ↔ reckoned d s.
Proof. by rewrite Z.add_0_r. Qed.

Lemma wp_fetch_spans d a p sl s :
  0 ≤ p → reckoned (d + p) s →
  wp (fetch_spans a ws p sl rp) s (λ r s', ∃ i, r = Ok i ∧ is_paid_out i = p ∧ inspecting d i s').
Proof.
  intros Hp [Ht Hb]. unfold fetch_spans. apply wp_get, wp_bind. cbn [id].
  destruct (slashing_spans s !! a) as [sps|] eqn:Hs; [|apply wp_bind, wp_modify];
    apply wp_ret, wp_ret; eexists; (split; [reflexivity|]); (split; [reflexivity|]);
    unfold inspecting; cbn; (split_and!; [ | done | done | done | | done]).
  - done.
  - by rewrite insert_id.
  - intros _. by rewrite lookup_insert_eq.
  - rewrite insert_insert_eq. by apply (tracked_new e ws now m0 He Hnow Hfit).
Qed.

Lemma inspecting_end_span d i s :
  inspecting d i s → inspecting d (is_end_span i now) s ∧ is_paid_out (is_end_span i now) = is_paid_out i.
Proof.
  intros (Hd & Hr & Hw & Hp & Ht & Hb). unfold is_end_span.
  destruct (end_span (spans i) now) as [sps b] eqn:Hend. split; [|done]. split_and!; cbn; try done.
  - intros [-> Hi]%orb_false_iff. rewrite (Hd Hi). unfold end_span in Hend.
    by case_decide; injection Hend as <-.
  - pose proof (end_span_tracked e ws now m0 He Hnow Hfit _ _ (is_stash i) (spans i) sps b Ht
      ltac:(by rewrite lookup_insert_eq) Hend) as Ht'. by rewrite insert_insert_eq in Ht'.
Qed.

Lemma span_slash_step_shape i rec v rec' reward i' changed :
  span_slash_step i rec e v = (rec', reward, i', changed) →
  (changed = false → i' = i) ∧ span_index (spans i') = span_index (spans i)
  ∧ last_start (spans i') = last_start (spans i) ∧ prior (spans i') = prior (spans i).
Proof. unfold span_slash_step. case_decide; [|case_decide]; by intros [= <- <- <- <-]. Qed.

(** The record that is replaced counts with what it held. *)
Lemma replaced_record s sps (w : AccountId) (s1 : SlashingSpans) sp :
  tracked e now m0 sps (span_slash_map s) → sps !! w = Some s1 → era_span s1 e = Some sp →
  from_option paid_out 0 ((span_slash_map s ∪ m0) !! (w, index sp))
    = paid_out (span_slash s (w, index sp)).
Proof.
  intros Ht Hs Hsp. rewrite lookup_union. unfold span_slash.
  destruct (span_slash_map s !! (w, index sp)) eqn:Hm; [by destruct (m0 !! _)|].
  by rewrite (tracked_absent e now m0 _ _ _ _ _ Ht Hs Hsp Hm).
Qed.

(** A step keeps the record within its bound, with the reward it gives. *)
Lemma span_slash_step_reward i rec v rec' reward i' changed :
  span_slash_step i rec e v = (rec', reward, i', changed) →
  reward_proportion i = rp → u128 v → record_ok rp rec →
  0 ≤ reward ∧ paid_out rec' + reward ≤ perbill_mul rp (slashed rec') ≤ slashed rec'
  ∧ u128 (slashed rec') ∧ 0 ≤ paid_out rec' ∧ paid_out rec' = paid_out rec.
Proof.
  intros Hstep Hr Hv [Hu Hrec].
  apply span_slash_step_spec in Hstep as (Hpaid & Hmax & _ & _ & _ & _ & _ & _ & _ & _ & Hrew & _).
  pose proof (perbill_mul_mono rp (slashed rec) (slashed rec') Hrp ltac:(ulia)) as Hmono.
  pose proof (perbill_mul_range rp (slashed rec') Hrp ltac:(ulia)) as Hrange.
  assert (u128 (slashed rec')) by ulia. destruct Hrew as [->|[Hle ->]]; [split_and!; lia || done|].
  assert (slashed rec' = v) as Hrv by lia. rewrite Hrv, Hr in *.
  destruct (reward_bounded rp v (paid_out rec) Hrp); [ulia | lia |]. split_and!; lia || done.
Qed.

(** A reward is recorded with what it hands out. *)
Lemma wp_compare_and_update d i v s :
  inspecting d i s → u128 v →
  wp (compare_and_update_span_slash i e v) s (λ r s', ∃ i' t, r = Ok (i', t) ∧ inspecting d i' s').
Proof.
  intros (Hd & Hr & Hw & Hp & Ht & Hbound & Hb) Hv. unfold compare_and_update_span_slash.
  destruct (era_span (spans i) e) as [sp|] eqn:Hsp; [|by apply wp_ret; eexists _, _].
  apply wp_get. cbn [id]. set (k := (is_stash i, index sp)).
  pose proof (replaced_record s _ _ _ sp Ht ltac:(by rewrite lookup_insert_eq) Hsp) as Hold. fold k in Hold.
  destruct (span_slash_step _ _ _ _) as [[[rec reward] i'] changed] eqn:Hstep.
  pose proof (span_slash_step_shape _ _ _ _ _ _ _ Hstep) as (Hsame & Hidx & Hlast & Hprior).
  pose proof (span_slash_step_spec _ _ _ _ _ _ _ _ Hstep)
    as (_ & _ & _ & Hip & Hst & Hws & Hprop & Hit & _).
  pose proof (span_slash_step_reward _ _ _ _ _ _ _ Hstep Hr Hv (payouts_bounded_lookup rp s k Hrp Hbound))
    as (Hrew0 & Hrec' & Hu & Hrec0 & Hpaid).
  assert (∀ rec' i'', slashed rec' = slashed rec → paid_out rec' = paid_out rec + reward →
    is_stash i'' = is_stash i → reward_proportion i'' = rp → window_start i'' = ws →
    spans i'' = spans i' → 0 ≤ is_paid_out i'' ≤ is_paid_out i + reward →
    inspecting d (i'' <| dirty := true |>) (s <| span_slash_map ::= insert k rec' |>)) as Hwrite.
  { intros rec' i'' Hs' Hp' Hst' Hr' Hws' Hsps' Hip'. unfold inspecting. cbn.
    rewrite Hst', Hsps'. split_and!; [done | done | done | lia | |].
    - apply (tracked_record e now m0 _ _ _ (spans i') sp).
      + rewrite <- (insert_insert_eq (slashing_spans s) (is_stash i) (spans i') (spans i)).
        by apply (tracked_reshape e now m0 _ _ _ (spans i)); rewrite ?lookup_insert_eq.
      + by rewrite lookup_insert_eq.
      + unfold era_span in *. by rewrite Hit.
    - split.
      + apply map_Forall_insert_2; [|done]. split; [rewrite Hs'; ulia | rewrite Hs', Hp'; lia].
      + cbn. rewrite <- insert_union_l, map_sum_insert, Hold, Hp', Hpaid.
        unfold all_held, promised in *. cbn. lia. }
  destruct (decide (reward = 0)) as [->|Hnz]; [destruct changed|].
  - apply wp_bind, wp_modify, wp_ret. eexists _, _. split; [reflexivity|].
    apply Hwrite; try congruence; lia.
  - apply wp_ret. eexists _, _. split; [reflexivity|]. rewrite (Hsame eq_refl). by split_and!.
  - apply wp_bind, wp_modify, wp_ret. eexists _, _. split; [reflexivity|].
    apply Hwrite; cbn; [done | apply wadd_small; ulia | congruence | congruence | congruence | done |].
    unfold wadd. rewrite Hip. split; [apply Z.mod_pos_bound; lia | apply Z.mod_le; lia].
Qed.

(** Giving the inspected spans back. *)
Lemma delete_records (w : AccountId) (l : list SpanIndex) : ∀ s,
  ∃ m', (for_each l (λ j, modify (λ s, s <| span_slash_map ::= delete (w, j) |>)) : Call unit) s
          = (Ok tt, s <| span_slash_map := m' |>)
    ∧ ∀ v j, m' !! (v, j) = if bool_decide (v = w) && bool_decide (j ∈ l) then None
                            else span_slash_map s !! (v, j).
Proof.
  induction l as [|a l IH]; intros s; cbn [for_each].
  - exists (span_slash_map s). split; [by destruct s|]. intros v j. by rewrite andb_comm.
  - destruct (IH (s <| span_slash_map ::= delete (w, a) |>)) as (m' & Heq & Hm'). exists m'.
    split; [exact Heq|]. intros v j. rewrite Hm'. cbn. rewrite lookup_delete.
    destruct (decide (v = w)) as [->|Hv]; [|rewrite bool_decide_false, decide_False by congruence; done].
    rewrite (bool_decide_true (w = w)) by done. cbn [andb].
    destruct (decide (a = j)) as [->|Ha].
    + rewrite decide_True, (bool_decide_true (j ∈ j :: l)) by set_solver. by case_match.
    + rewrite decide_False by congruence. by rewrite (bool_decide_ext (j ∈ a :: l) (j ∈ l)) by set_solver.
Qed.

Lemma wp_drop_spans d i s :
  inspecting d i s → wp (drop_spans i) s (λ r s', r = Ok tt ∧ reckoned (d + is_paid_out i) s').
Proof.
  intros (Hd & Hr & Hw & Hp & Ht & Hbound & Hb). unfold drop_spans. rewrite Hw.
  destruct (dirty i).
  2:{ apply wp_ret. split; [done|]. split; [|done]. by rewrite insert_id in Ht by auto. }
  destruct (prune (spans i) ws) as [sps pruned] eqn:Hprune.
  assert (∃ m', (match pruned with
    | Some (a, b) => for_each (seqZ a (b - a)) (λ j,
        modify (λ s, s <| span_slash_map ::= delete (is_stash i, j) |>))
    | None => mret tt end : Call unit) s = (Ok tt, s <| span_slash_map := m' |>)
    ∧ ∀ v j, m' !! (v, j) = if bool_decide (v = is_stash i) && pruned_index pruned j then None
                            else span_slash_map s !! (v, j)) as (m' & Heq & Hm').
  { destruct pruned as [[a b]|]; cbn.
    - destruct (delete_records (is_stash i) (seqZ a (b - a)) s) as (m' & Heq & Hm').
      exists m'. split; [exact Heq|]. intros v j. rewrite Hm'. f_equal.
      assert (bool_decide (j ∈ seqZ a (b - a)) = (a <=? j) && (j <? b)) as ->; [|done].
      apply eq_true_iff_eq. rewrite bool_decide_eq_true, elem_of_seqZ, andb_true_iff. lia.
    - exists (span_slash_map s). split; [by destruct s|]. intros v j. by rewrite andb_comm. }
  apply wp_bind. eapply wp_run; [exact Heq|]. apply wp_modify. split; [done|].
  destruct (prune_tracked e ws now m0 He Hnow Hfit (<[is_stash i:=spans i]> (slashing_spans s)) (span_slash_map s) m' (is_stash i)
    (spans i) sps pruned) as [Ht' Hunion]; [done | by rewrite lookup_insert_eq | done | done |].
  rewrite insert_insert_eq in Ht'. split; [exact Ht'|]. split; cbn.
  - intros [v j] r Hj. rewrite Hm' in Hj. case_match; [done|]. by apply (Hbound (v, j)).
  - unfold all_held, promised in *. cbn. by rewrite Hunion.
Qed.

(** ** The steps of computing a slash *)

Lemma wp_total {T} (I : Store → Prop) (m : Call T) s :
  always_ok m → preserves I m → I s → wp m s (λ r s', ∃ a, r = Ok a ∧ I s').
Proof.
  intros Hm HI Hs. destruct (Hm s) as (a & s' & Heq). eapply wp_run; [exact Heq|].
  exists a. split; [done|]. exact (preserves_result I _ _ _ _ HI Heq Hs).
Qed.

Lemma wp_chilled d i a s :
  inspecting d i s → wp (chill_stash a) s (λ r s', ∃ u, r = Ok u ∧ inspecting d i s').
Proof. apply wp_total; [apply total_chill_stash | apply keeps_chill_stash, _]. Qed.

(** The parameters of the offence. *)
Definition of_offence (p : SlashParams) : Prop :=
  sp_slash_era p = e ∧ sp_window_start p = ws ∧ sp_now p = now ∧ sp_reward_proportion p = rp.

Lemma wp_kick_out d p s :
  of_offence p → reckoned d s →
  wp (kick_out_if_recent p) s (λ r s', r = Ok tt ∧ reckoned d s').
Proof.
  intros (_ & Hw & Hn & Hr) Hs. unfold kick_out_if_recent. rewrite Hw, Hr, Hn. apply wp_bind.
  eapply wp_mono; [apply (wp_fetch_spans d _ 0); [done | by apply accounted_zero]|].
  intros ? s1 (i & -> & Hp & Hi).
  assert (∀ i' s2, is_paid_out i' = 0 → inspecting d i' s2 →
    wp (add_offending_validator (sp_stash p) (bool_decide (sp_disable_strategy p = DisableAlways))
        ≫= λ _, drop_spans i') s2 (λ r s', r = Ok tt ∧ reckoned d s')) as Htail.
  { intros i' s2 Hp' Hi'. apply wp_bind. eapply wp_mono;
      [apply (wp_total (inspecting d i')); [apply total_add_offending_validator
        | apply keeps_add_offending_validator, _ | exact Hi']|].
    intros ? s3 ([] & -> & Hi3). eapply wp_mono; [by apply (wp_drop_spans d)|].
    intros r s4 Hr4. by rewrite Hp', accounted_zero in Hr4. }
  apply wp_bind. destruct (decide _).
  - apply wp_bind. eapply wp_mono; [by apply wp_chilled|]. intros ? s2 (? & -> & Hi2).
    apply wp_ret. destruct (inspecting_end_span d i s2 Hi2). apply Htail; congruence || done.
  - by apply wp_ret, Htail.
Qed.

Lemma wp_slash_nominator d p prior_p reward nom s :
  of_offence p → 0 ≤ reward → reckoned (d + reward) s →
  wp (slash_nominator p prior_p reward nom) s
    (λ r s', ∃ x, r = Ok x ∧ 0 ≤ x.1 ∧ reckoned (d + x.1) s').
Proof.
  intros (Hera & Hw & Hn & Hr) Hrew Hs. unfold slash_nominator. rewrite Hera, Hw, Hr, Hn. cbv zeta.
  apply wp_get, wp_bind, wp_modify, wp_bind.
  eapply wp_mono; [apply (wp_fetch_spans d _ reward); [done | exact Hs]|].
  intros ? s1 (i & -> & _ & Hi). apply wp_bind.
  eapply wp_mono; [apply (wp_compare_and_update d); [exact Hi | by apply wadd_range]|].
  intros ? s2 (i' & t & -> & Hi'). apply wp_bind.
  set (i'' := if decide _ then _ else _).
  assert (inspecting d i'' s2) as Hi''.
  { unfold i''. case_decide; [by apply inspecting_end_span | done]. }
  eapply wp_mono; [by apply (wp_drop_spans d)|]. intros ? s3 (-> & Hs3). apply wp_ret.
  eexists. split; [reflexivity|]. split; [apply Hi'' | exact Hs3].
Qed.

Lemma wp_slash_nominators_loop d p prior_p noms : ∀ reward acc s,
  of_offence p → 0 ≤ reward → reckoned (d + reward) s →
  wp (slash_nominators_loop p prior_p reward acc noms) s
    (λ r s', ∃ x, r = Ok x ∧ 0 ≤ x.1 ∧ reckoned (d + x.1) s').
Proof.
  induction noms as [|nom noms IH]; intros reward acc s Hp Hrew Hs; cbn.
  { apply wp_ret. by eexists. }
  apply wp_bind. eapply wp_mono; [by apply (wp_slash_nominator d)|].
  intros ? s1 ([reward' v] & -> & Hrew' & Hs1). by apply IH.
Qed.

Lemma wp_slash_validator d p v s :
  of_offence p → u128 v → reckoned d s →
  wp (slash_validator p v) s (λ r s', ∃ x, r = Ok x ∧ 0 ≤ x.1 ∧ reckoned (d + x.1) s').
Proof.
  intros (Hera & Hw & Hn & Hr) Hv Hs. unfold slash_validator. rewrite Hera, Hw, Hr, Hn.
  apply wp_bind. eapply wp_mono; [apply (wp_fetch_spans d _ 0); [done | by apply accounted_zero]|].
  intros ? s1 (i & -> & _ & Hi). apply wp_bind.
  eapply wp_mono; [by apply (wp_compare_and_update d)|]. intros ? s2 (i' & t & -> & Hi').
  assert (∀ i'' s3, inspecting d i'' s3 →
    wp (drop_spans i'' ≫= λ _, mret (is_paid_out i'', slash_of i'')) s3
      (λ r s', ∃ x, r = Ok x ∧ 0 ≤ x.1 ∧ reckoned (d + x.1) s')) as Htail.
  { intros i'' s3 Hi3. apply wp_bind. eapply wp_mono; [by apply (wp_drop_spans d)|].
    intros ? s4 (-> & Hs4). apply wp_ret. eexists. split; [reflexivity|]. split; [apply Hi3 | exact Hs4]. }
  apply wp_bind. destruct (decide _).
  - apply wp_bind. eapply wp_mono; [by apply wp_chilled|]. intros ? s3 (? & -> & Hi3).
    apply wp_ret, Htail. by apply inspecting_end_span.
  - by apply wp_ret, Htail.
Qed.

(** A slash promises the reporters no more than its records hold. *)
Lemma wp_compute_slash d p s :
  of_offence p → is_perbill (sp_slash p) → u128 (own (sp_exposure p)) → reckoned d s →
  wp (compute_slash p) s (λ r s', match r with
    | Ok (Some u) => 0 ≤ us_payout u ∧ reckoned (d + us_payout u) s'
    | Ok None => reckoned d s'
    | Err _ => False
    end).
Proof.
  intros Hp Hsl Hown Hs. unfold compute_slash. case_decide.
  { apply wp_bind. eapply wp_mono; [by apply (wp_kick_out d)|]. by intros ? s1 (-> & Hs1). }
  apply wp_get. destruct (default _ _) as [prior_p ?]. case_decide; [|by apply wp_ret].
  apply wp_bind, wp_modify, wp_bind. eapply wp_mono; [apply (wp_slash_validator d)|].
  - done.
  - destruct (perbill_mul_range (sp_slash p) (own (sp_exposure p)) Hsl); ulia.
  - exact Hs.
  - intros ? s1 ([reward v] & -> & Hrew & Hs1). cbn in Hrew, Hs1. apply wp_bind. eapply wp_mono;
      [apply (wp_total (reckoned (d + reward))); [apply total_add_offending_validator
        | apply keeps_add_offending_validator, _ | exact Hs1]|].
    intros ? s2 ([] & -> & Hs2). apply wp_bind. eapply wp_mono;
      [apply (wp_slash_nominators_loop (d + reward)); [done | done | by apply accounted_zero]|].
    intros ? s3 ([reward' noms] & -> & Hrew' & Ht & Hb & Hs3). apply wp_ret. cbn in *.
    split; [by apply wadd_range|]. split; [exact Ht|]. split; [exact Hb|].
    pose proof (Z.mod_le (reward + reward') (2 ^ 128) ltac:(lia) ltac:(lia)).
    unfold wadd. lia.
Qed.

Lemma wp_apply_promised d u er s :
  0 ≤ us_payout u → reckoned (d + us_payout u) s →
  wp (apply_slash u er) s (λ r s', ∃ a, r = Ok a ∧ reckoned d s').
Proof.
  intros Hu (Ht & Hb & Hs). destruct (total_apply_slash u er s) as ([] & s' & Heq).
  pose proof (wp_elim _ _ _ _ _ (wp_held_apply_slash A HA Hhandler u er s Hu) Heq) as Hheld.
  assert (preserves (λ t, slashing_spans t = slashing_spans s ∧ span_slash_map t = span_slash_map s
    ∧ unapplied_slashes_map t = unapplied_slashes_map s) (apply_slash u er)) as Hframe
    by (apply keeps_apply_slash_frame; by split).
  destruct (preserves_result _ _ _ _ _ Hframe Heq ltac:(done)) as (Hsp & Hm & Hun).
  eapply wp_run; [exact Heq|]. exists tt. split; [done|]. split; [by rewrite Hsp, Hm|].
  split; [unfold payouts_bounded in *; by rewrite Hm|].
  unfold promised in *. rewrite Hun, Hm. lia.
Qed.

Lemma promised_push s ae u :
  promised (s <| unapplied_slashes_map ::= insert ae (unapplied_slashes s ae ++ [u]) |>)
    = promised s + us_payout u.
Proof.
  unfold promised, unapplied_slashes. cbn. rewrite map_sum_insert, zsum_app. cbn.
  destruct (unapplied_slashes_map s !! ae); cbn; lia.
Qed.

Lemma wp_on_offence_one invuln ds details fraction s :
  is_perbill fraction → u128 (own (snd (offender details))) → reckoned 0 s →
  wp (on_offence_one invuln e ws now rp ds details fraction) s
    (λ r s', ∃ a, r = Ok a ∧ reckoned 0 s').
Proof.
  intros Hf Hown Hs. unfold on_offence_one. destruct (offender details) as [who ex]. cbn in Hown.
  case_decide; [apply wp_ret; by exists tt|]. apply wp_bind.
  eapply wp_mono; [by apply (wp_compute_slash 0)|].
  intros [[u|]|er] s1 Hs1; [|apply wp_ret; by exists tt | done]. destruct Hs1 as [Hu Hs1].
  case_decide; [by apply wp_apply_promised|]. apply wp_modify. exists tt. split; [done|].
  destruct Hs1 as (Ht & Hb & Hs1). split; [exact Ht|]. split; [exact Hb|].
  rewrite promised_push. cbn. unfold all_held in *. cbn. lia.
Qed.
End Account.
