(* ===== verification/SlashApplication.v ===== *)
(** What applying slashes does, as a function of the books a slash touches: the
    ledgers, the balances, the events and the calls of [OnStakerSlash].  The
    slashes of the code are charged in order, the validator first and then its
    nominators, and the imbalance of each is split between its reporters and the
    handler; on the ledgers, this is to charge each staker with what names it. *)

From Stdlib Require Import ZArith Lia.
From stdpp Require Import base option list gmap fin_maps fin_sets strings.
From S2P Require Import Prelude Interfaces StakingLedger SlashingSpans StakingState Slashing.
#[local] Open Scope Z_scope.

(** An amount an account is slashed by, for a slash of an era. *)
Record Charge := { ch_era : EraIndex; ch_account : AccountId; ch_amount : Z }.

(** The charges of a slash, the validator first. *)
Definition charges_of_slash (e : EraIndex) (u : UnappliedSlash) : list Charge :=
  map (λ '(a, v), {| ch_era := e; ch_account := a; ch_amount := v |})
    ((us_validator u, us_own u) :: us_others u).

Section Books.
Context `{PerThing} `{StakingConfig}.
Implicit Types s : Store.

Record Books := {
  bk_ledger : gmap AccountId StakingLedger;
  bk_currency : cur;
  bk_events : list Event;
  bk_hooks : list (AccountId * Z * gmap EraIndex Z);
}.

Definition books s : Books :=
  {| bk_ledger := ledger s; bk_currency := currency s; bk_events := events s;
     bk_hooks := staker_slashes s |}.
Definition put_books (b : Books) s : Store :=
  s <| ledger := bk_ledger b |> <| currency := bk_currency b |> <| events := bk_events b |>
    <| staker_slashes := bk_hooks b |>.

(** A charge takes from the ledger and the balance of the account; what could not
    be taken reduces the reward of the reporters. *)
Definition charge_books (bd : gmap AccountId AccountId) (x : Books * Z * Z) (ch : Charge)
    : Books * Z * Z :=
  let '(b, reward, imbalance) := x in
  match bd !! ch_account ch ≫= λ c, pair c <$> bk_ledger b !! c with
  | None => x
  | Some (c, l) =>
      let '(l', v, hook) := slash BondingDuration l (ch_amount ch) minimum_balance (ch_era ch) in
      let hooks := bk_hooks b ++ option_list hook in
      if decide (v = 0) then
        ({| bk_ledger := bk_ledger b; bk_currency := bk_currency b; bk_events := bk_events b;
            bk_hooks := hooks |}, reward, imbalance)
      else
        let '(taken, missing, cu) := slash_currency (ch_account ch) v (bk_currency b) in
        ({| bk_ledger := <[c := l']> (bk_ledger b);
            bk_currency := set_lock (stash l') (total l') cu;
            bk_events := bk_events b ++ [Slashed (ch_account ch) v]; bk_hooks := hooks |},
         (if decide (missing = 0) then reward else sat_sub reward missing),
         imbalance + taken)
  end.

(** The imbalance: each reporter gets an equal part of the reward, the handler of
    slashed funds the rest. *)
Definition share_imbalance (reward imbalance : Z) (reps : list AccountId) (cu : cur) : cur :=
  if decide (reward = 0 ∨ reps = []) then slash_on_unbalanced imbalance cu
  else
    let paid := Z.min reward imbalance in
    let '(rest, cu') := pay_each_reporter (paid / Z.of_nat (length reps)) paid reps cu in
    slash_on_unbalanced (imbalance - paid + rest) cu'.

Definition settle_slash (bd : gmap AccountId AccountId) (b : Books) (eu : EraIndex * UnappliedSlash)
    : Books :=
  let '(b', reward, imbalance) :=
    foldl (charge_books bd) (b, us_payout eu.2, 0) (charges_of_slash eu.1 eu.2) in
  {| bk_ledger := bk_ledger b'; bk_events := bk_events b'; bk_hooks := bk_hooks b';
     bk_currency := share_imbalance reward imbalance (us_reporters eu.2) (bk_currency b') |}.

(** * The operations settle the books *)

Lemma put_books_id s : put_books (books s) s = s.
Proof. by destruct s. Qed.

Lemma do_slash_books a v e b reward imbalance s :
  do_slash a v reward imbalance e (put_books b s) =
    let '(b', r, i) := charge_books (bonded s) (b, reward, imbalance)
                         {| ch_era := e; ch_account := a; ch_amount := v |} in
    (Ok (r, i), put_books b' s).
Proof.
  unfold do_slash, charge_books. rewrite (bind_step _ _ (put_books b s) (put_books b s) (put_books b s)) by done.
  cbn [ch_account ch_amount ch_era]. change (bonded (put_books b s)) with (bonded s).
  destruct (bonded s !! a) as [c|]; [|done]. cbn. change (ledger (put_books b s)) with (bk_ledger b).
  destruct (bk_ledger b !! c) as [l|]; [|done]. cbn.
  destruct (slash _ l v _ e) as [[l' v'] hook]. unfold update_ledger, deposit_event.
  unfold mbind, M_bind, modify, mret, M_ret. case_decide; [done|]. cbn.
  by destruct (slash_currency a v' _) as [[t m] cu].
Qed.

Lemma do_slash_others_books noms e s : ∀ b reward imbalance,
  do_slash_others noms reward imbalance e (put_books b s) =
    let '(b', r, i) := foldl (charge_books (bonded s)) (b, reward, imbalance)
      (map (λ '(a, v), {| ch_era := e; ch_account := a; ch_amount := v |}) noms) in
    (Ok (r, i), put_books b' s).
Proof.
  induction noms as [|[a v] noms IH]; intros b reward imbalance; cbn [do_slash_others map foldl]; [done|].
  unfold mbind, M_bind. rewrite do_slash_books.
  destruct (charge_books _ _ _) as [[b' r] i]. apply IH.
Qed.

Lemma apply_slash_books u e b s :
  apply_slash u e (put_books b s) = (Ok tt, put_books (settle_slash (bonded s) b (e, u)) s).
Proof.
  unfold apply_slash, settle_slash, charges_of_slash. cbn [map foldl fst snd].
  unfold mbind, M_bind. rewrite do_slash_books.
  destruct (charge_books _ _ _) as [[b1 r1] i1]. rewrite do_slash_others_books.
  destruct (foldl _ _ _) as [[b2 r2] i2]. unfold pay_reporters, share_imbalance.
  case_decide; [done|]. unfold modify. cbn. by destruct (pay_each_reporter _ _ _ _).
Qed.

(** The slashes of the eras [es] of a storage, in the order they are applied. *)
Definition slashes_of s (es : list EraIndex) : list (EraIndex * UnappliedSlash) :=
  e ← es; pair e <$> unapplied_slashes s e.

Lemma apply_all_books l e b s :
  for_each l (λ u, apply_slash u e) (put_books b s)
    = (Ok tt, put_books (foldl (settle_slash (bonded s)) b (pair e <$> l)) s).
Proof.
  revert b. induction l as [|u l IH]; intros b; cbn [for_each fmap list_fmap foldl]; [done|].
  rewrite (bind_step _ _ _ _ _ (apply_slash_books u e b s)). apply IH.
Qed.

Definition drop_eras (es : list EraIndex) (m : gmap EraIndex (list UnappliedSlash)) :=
  foldl (λ m e, delete e m) m es.

Lemma lookup_drop_eras es : ∀ m e,
  drop_eras es m !! e = if decide (e ∈ es) then None else m !! e.
Proof.
  induction es as [|a es IH]; intros m e; cbn; [by rewrite decide_False by set_solver|].
  unfold drop_eras in IH. rewrite IH, lookup_delete.
  destruct (decide (e ∈ es)), (decide (a = e)), (decide (e ∈ a :: es)); set_solver.
Qed.

Lemma apply_eras_books es : ∀ b s, NoDup es →
  for_each es apply_era_slashes (put_books b s)
    = (Ok tt, put_books (foldl (settle_slash (bonded s)) b (slashes_of s es))
                (s <| unapplied_slashes_map ::= drop_eras es |>)).
Proof.
  induction es as [|e es IH]; intros b s Hes; cbn [for_each].
  { by destruct s. }
  apply NoDup_cons in Hes as [He Hes].
  set (s1 := s <| unapplied_slashes_map ::= delete e |>).
  assert (apply_era_slashes e (put_books b s)
    = (Ok tt, put_books (foldl (settle_slash (bonded s)) b (pair e <$> unapplied_slashes s e)) s1)) as Heq.
  { unfold apply_era_slashes.
    rewrite (bind_step _ _ (put_books b s) (put_books b s) (put_books b s)) by done.
    rewrite (bind_step _ _ tt _ (put_books b s1)) by done.
    exact (apply_all_books (unapplied_slashes s e) e b s1). }
  rewrite (bind_step _ _ _ _ _ Heq), IH by done. unfold slashes_of. cbn [mbind list_bind].
  rewrite foldl_app. f_equal. f_equal. f_equal.
  assert (∀ l, e ∉ l → (l ≫= λ x, pair x <$> unapplied_slashes s1 x)
     = (l ≫= λ x, pair x <$> unapplied_slashes s x)) as Hext; [|by apply Hext].
  clear. intros l. induction l as [|x l IH]; intros Hl; cbn; [done|].
  rewrite IH by set_solver. f_equal. unfold unapplied_slashes, s1. cbn.
  by rewrite lookup_delete_ne by set_solver.
Qed.
End Books.

(** * The ledgers

    Seen from one ledger, applying slashes is to charge it with the charges that
    name its stash, in order. *)

Section Ledgers.
Context `{PerThing} `{StakingConfig}.
Implicit Types (l : StakingLedger) (bd : gmap AccountId AccountId) (b : Books).

Definition charge_ledger l (ch : Charge) : StakingLedger :=
  let '(l', v, _) := slash BondingDuration l (ch_amount ch) minimum_balance (ch_era ch) in
  if decide (v = 0) then l else l'.

Definition charged (chs : list Charge) l : StakingLedger :=
  foldl charge_ledger l (filter (λ ch, ch_account ch = stash l) chs).

#[local] Arguments charged : simpl never.

(** Bonds and ledgers point at each other. *)
Definition ledgers_bonded bd (lg : gmap AccountId StakingLedger) : Prop :=
  (∀ a c l, bd !! a = Some c → lg !! c = Some l → stash l = a) ∧
  (∀ c l, lg !! c = Some l → bd !! stash l = Some c).

Lemma slash_stash d l v mb e l' v' hook : slash d l v mb e = (l', v', hook) → stash l' = stash l.
Proof.
  unfold slash. case_decide; [by intros [= <- _ _]|]. destruct (slash_targets _ _) as [aff pr].
  destruct (slash_out_of _ _ _ _ _ _) as [[act tot] rem].
  destruct (slash_chunks _ _ _ _ _ _ _ _) as [[[ch tot'] ?] ?]. by intros [= <- _ _].
Qed.

Lemma charge_ledger_stash l ch : stash (charge_ledger l ch) = stash l.
Proof.
  unfold charge_ledger. destruct (slash _ _ _ _ _) as [[l' v] hook] eqn:Hs.
  case_decide; [done|]. by eapply slash_stash.
Qed.

Lemma charge_books_ledger bd x ch : ledgers_bonded bd (bk_ledger x.1.1) →
  ∀ c, bk_ledger (charge_books bd x ch).1.1 !! c = charged [ch] <$> bk_ledger x.1.1 !! c.
Proof.
  destruct x as [[b reward] imbalance]. cbn [fst]. intros [Hb Hl] c.
  assert (∀ l, ch_account ch ≠ stash l → charged [ch] l = l) as Hother
    by (intros l Hne; unfold charged; by rewrite filter_cons, decide_False).
  assert (∀ l, ch_account ch = stash l → charged [ch] l = charge_ledger l ch) as Hown
    by (intros l Heq; unfold charged; by rewrite filter_cons, decide_True).
  assert ((∀ l, bk_ledger b !! c = Some l → ch_account ch ≠ stash l) →
    charged [ch] <$> bk_ledger b !! c = bk_ledger b !! c) as Hsame.
  { intros Hne. destruct (bk_ledger b !! c) as [l|]; [|done].
    change (Some (charged [ch] l) = Some l). rewrite Hother; [done | by apply Hne]. }
  unfold charge_books. destruct (bd !! ch_account ch) as [c0|] eqn:Hc0; cbn [mbind option_bind].
  2:{ cbn. rewrite Hsame; [done|]. intros l Hlc Heq. rewrite Heq, (Hl c l Hlc) in Hc0. done. }
  destruct (bk_ledger b !! c0) as [l0|] eqn:Hl0; cbn [fmap option_fmap option_map].
  2:{ cbn [fst]. rewrite Hsame; [done|]. intros l Hlc Heq.
      rewrite Heq, (Hl c l Hlc) in Hc0. congruence. }
  pose proof (Hb _ _ _ Hc0 Hl0) as Hst.
  destruct (slash _ l0 _ _ _) as [[l' v] hook] eqn:Hs.
  assert (charge_ledger l0 ch = if decide (v = 0) then l0 else l') as Hch
    by (unfold charge_ledger; by rewrite Hs).
  destruct (decide (c0 = c)) as [->|Hne].
  - rewrite Hl0. change (charged [ch] <$> Some l0) with (Some (charged [ch] l0)).
    rewrite Hown, Hch by done. case_decide; [done|].
    destruct (slash_currency _ _ _) as [[? ?] ?]. apply lookup_insert_eq.
  - rewrite Hsame.
    2:{ intros l Hlc Heq. rewrite Heq, (Hl c l Hlc) in Hc0. congruence. }
    case_decide; [done|]. destruct (slash_currency _ _ _) as [[? ?] ?].
    by apply lookup_insert_ne.
Qed.

Lemma charged_stash chs l : stash (charged chs l) = stash l.
Proof.
  unfold charged. generalize (filter (λ ch, ch_account ch = stash l) chs). intros k. revert l.
  induction k as [|ch k IH]; intros l; cbn; [done|]. by rewrite IH, charge_ledger_stash.
Qed.

Lemma ledgers_bonded_charged bd lg lg' chs :
  ledgers_bonded bd lg → (∀ c, lg' !! c = charged chs <$> lg !! c) → ledgers_bonded bd lg'.
Proof.
  intros [Hb Hl] Hlg. split.
  - intros a c l Ha Hc. rewrite Hlg in Hc. destruct (lg !! c) as [l0|] eqn:H0'; [|done].
    injection Hc as <-. rewrite charged_stash. by eapply Hb.
  - intros c l Hc. rewrite Hlg in Hc. destruct (lg !! c) as [l0|] eqn:H0'; [|done].
    injection Hc as <-. rewrite charged_stash. by apply Hl.
Qed.

Lemma charged_app chs chs' l : charged (chs ++ chs') l = charged chs' (charged chs l).
Proof. unfold charged at 1. rewrite filter_app, foldl_app. unfold charged at 1. by rewrite charged_stash. Qed.

Lemma foldl_charge_ledgers bd chs : ∀ x, ledgers_bonded bd (bk_ledger x.1.1) →
  ∀ c, bk_ledger (foldl (charge_books bd) x chs).1.1 !! c = charged chs <$> bk_ledger x.1.1 !! c.
Proof.
  induction chs as [|ch chs IH]; intros x Hx c; cbn [foldl].
  { by destruct (_ !! c). }
  pose proof (charge_books_ledger bd x ch Hx) as Hch.
  rewrite IH, Hch by by eapply ledgers_bonded_charged.
  destruct (bk_ledger x.1.1 !! c); cbn; [|done]. by rewrite <- charged_app.
Qed.

(** All the charges of the slashes. *)
Definition charges_of (eus : list (EraIndex * UnappliedSlash)) : list Charge :=
  eus ≫= λ eu, charges_of_slash eu.1 eu.2.

Lemma settle_ledgers bd eus : ∀ b, ledgers_bonded bd (bk_ledger b) →
  ∀ c, bk_ledger (foldl (settle_slash bd) b eus) !! c = charged (charges_of eus) <$> bk_ledger b !! c.
Proof.
  induction eus as [|eu eus IH]; intros b Hb c; cbn [foldl].
  { by destruct (_ !! c). }
  assert (∀ c, bk_ledger (settle_slash bd b eu) !! c
     = charged (charges_of_slash eu.1 eu.2) <$> bk_ledger b !! c) as Hone.
  { intros c'. rewrite <- (foldl_charge_ledgers bd _ (b, us_payout eu.2, 0) Hb). unfold settle_slash.
    by destruct (foldl _ _ _) as [[? ?] ?]. }
  rewrite IH, Hone by by eapply ledgers_bonded_charged.
  destruct (bk_ledger b !! c) as [l|]; cbn; [|done]. by rewrite <- charged_app.
Qed.
End Ledgers.
