(* ===== verification/SlashingCorrect.v ===== *)
(** What slashing promises: only the largest slash of a span counts, rewards
    are bounded by their share of the slash, reporters and the slash handler
    together get what was taken, offenders are recorded once, and deferred
    slashes are applied for every era that is due.  The invariants are proved
    of the operations in [Slashing]. *)

From Stdlib Require Import ZArith Lia.
From stdpp Require Import base option list gmap fin_maps fin_sets strings.
From S2P Require Import Prelude Interfaces StakingLedger SlashingSpans StakingState Slashing.
From S2P Require Import ReporterRewards SlashApplication.
#[local] Open Scope Z_scope.

(** * Only the largest slash of a span counts *)

Section SpanMaximum.
Context `{PerThingLaws} `{StakingConfig}.

(** A staker is slashed by each of [amounts] in turn in the era [e]. *)
Fixpoint slash_all (i : InspectingSpans) (e : EraIndex) (amounts : list Z)
    : Call InspectingSpans :=
  match amounts with
  | [] => mret i
  | v :: amounts' =>
      '(i', _) ← compare_and_update_span_slash i e v;
      slash_all i' e amounts'
  end.

Definition max_of (v : Z) (l : list Z) : Z := foldr Z.max v l.

Lemma max_of_le v l : v ≤ max_of v l.
Proof. induction l; cbn [max_of foldr] in *; unfold max_of in *; lia. Qed.

Lemma max_of_range v l : u128 v → Forall u128 l → u128 (max_of v l).
Proof. intros Hv. induction 1; cbn [max_of foldr]; [done|]. unfold max_of in *. ulia. Qed.

Lemma max_of_max v w l : max_of (Z.max v w) l = Z.max w (max_of v l).
Proof. induction l; cbn [max_of foldr] in *; unfold max_of in *; lia. Qed.

Lemma compare_and_update_stash i e v (s : Store) i' r s' :
  compare_and_update_span_slash i e v s = (Ok (i', r), s') →
  is_stash i' = is_stash i ∧ (era_span (spans i') e) = era_span (spans i) e.
Proof.
  unfold compare_and_update_span_slash. destruct (era_span (spans i) e) as [sp|] eqn:Hsp.
  2:{ intros [= <- _ _]. by rewrite Hsp. }
  rewrite (bind_step _ _ s s s) by done. destruct (span_slash_step _ _ _ _) as [[[rec reward] j] changed] eqn:Hstep.
  apply span_slash_step_spec in Hstep as (_ & _ & _ & _ & Hst & _ & _ & Hit & _).
  assert (era_span (spans j) e = Some sp) as Hj by (by unfold era_span in *; rewrite Hit).
  destruct (decide (reward = 0)); [destruct changed|]; intros [= <- _ _]; by rewrite <- ?Hst.
Qed.

Lemma slash_all_spec amounts : ∀ i e sp (s : Store) i' s',
  era_span (spans i) e = Some sp → Forall u128 amounts →
  let key := (is_stash i, index sp) in
  u128 (slashed (span_slash s key)) →
  u128 (slash_of i + max_of (slashed (span_slash s key)) amounts - slashed (span_slash s key)) →
  u128 (slash_of i) →
  slash_all i e amounts s = (Ok i', s') →
  slashed (span_slash s' key) = max_of (slashed (span_slash s key)) amounts
  ∧ slash_of i' = slash_of i + max_of (slashed (span_slash s key)) amounts
                  - slashed (span_slash s key)
  ∧ ∀ k, k ≠ key → span_slash s' k = span_slash s k.
Proof.
  induction amounts as [|v amounts IH]; intros i e sp s i' s' Hsp Ha key Hold Hof Hi Hm; cbn in Hm.
  - m_inv Hm. cbn. split_and!; [done | lia | done].
  - apply Forall_cons in Ha as [Hv Ha].
    destruct (compare_and_update_spec i e v sp s Hsp) as (i1 & s1 & Heq & (Hmax & Hsl) & Hoth & Hit).
    rewrite (bind_step _ _ _ _ _ Heq) in Hm.
    destruct (compare_and_update_stash _ _ _ _ _ _ _ Heq) as [Hst Hes].
    fold key in Hmax, Hsl, Hoth, Hof, Hold. cbn [max_of foldr] in *.
    fold (max_of (slashed (span_slash s key)) amounts) in *.
    pose proof (max_of_le (slashed (span_slash s key)) amounts) as Hle.
    pose proof (max_of_range _ _ Hold Ha) as Hr.
    assert (slash_of i1 = slash_of i + Z.max (slashed (span_slash s key)) v
            - slashed (span_slash s key)) as Hi1.
    { rewrite Hsl. destruct (decide (slashed (span_slash s key) < v)); [|lia].
      rewrite wsub_small by ulia. rewrite wadd_small by ulia. lia. }
    assert (key = (is_stash i1, index sp)) as Hkey by (unfold key; by rewrite Hst).
    specialize (IH i1 e sp s1 i' s'). cbn zeta in IH. rewrite <- Hkey, Hmax in IH.
    rewrite max_of_max in IH.
    destruct IH as (H1' & H2' & H3'); try done; try ulia; [by rewrite Hes|].
    split_and!; [lia | lia |]. intros k Hk. by rewrite H3', Hoth.
Qed.

(** C3: However many slashes hit a staker in the eras of one slashing span,
    the record of the span ends at the largest of them, the staker loses
    exactly the increase over what the span held before, and the records of
    other spans and stakers are not touched.  The slashes are always
    processed. *)
Theorem slash_all_max i e sp (s : Store) amounts
    (Hsp : era_span (spans i) e = Some sp) (Ha : Forall u128 amounts)
    (Hold : u128 (slashed (span_slash s (is_stash i, index sp))))
    (Hof : u128 (slash_of i)) (Hsum : u128 (slash_of i + max_of 0 amounts)) :
  ∃ i' s', slash_all i e amounts s = (Ok i', s')
  ∧ let old := slashed (span_slash s (is_stash i, index sp)) in
    slashed (span_slash s' (is_stash i, index sp)) = max_of old amounts
    ∧ slash_of i' = slash_of i + (max_of old amounts - old)
    ∧ ∀ k, k ≠ (is_stash i, index sp) → span_slash s' k = span_slash s k.
Proof.
  assert (always_ok (slash_all i e amounts)) as Htot.
  { clear. revert i. induction amounts; intros i; cbn; [apply always_ok_ret|].
    apply always_ok_bind; [apply total_compare_and_update|]. intros [i' r]. apply IHamounts. }
  destruct (Htot s) as (i' & s' & Heq). exists i', s'. split; [done|].
  pose proof (max_of_max 0 (slashed (span_slash s (is_stash i, index sp))) amounts) as Hm.
  rewrite Z.max_r in Hm by ulia. pose proof (max_of_le 0 amounts).
  destruct (slash_all_spec amounts i e sp s i' s') as (?&?&?); try done; [ulia|].
  cbn zeta. split_and!; [done | lia | done].
Qed.
End SpanMaximum.

(** * Rewards of reporters are bounded *)

Section OffenceRewards.
Context `{PerThingLaws} `{CurrencyLaws} `{!RewardLaws} `{!StakingConfig}.
Implicit Types s : Store.

(** The offences come with perbill fractions and exposures of machine integers. *)
Definition offence_ok (d : OffenceDetails) : Prop := u128 (own (snd (offender d))).

(** The eras an offence can be of lie in the window of the active era, and no
    slashing span is at the end of its indices. *)
Definition offence_window s : Prop :=
  ∀ info, active_era s = Some info → let ae := ae_index info in
    0 ≤ ae ∧ u32 (ae + 1) ∧ map_Forall (λ _, spans_room ae) (slashing_spans s) ∧
    Forall (λ es, sat_sub ae BondingDuration ≤ es.1 ≤ ae) (bonded_eras s).

Lemma offence_era_window s ae ss e :
  0 ≤ BondingDuration → 0 ≤ ae →
  Forall (λ es, sat_sub ae BondingDuration ≤ es.1 ≤ ae) (bonded_eras s) →
  offence_era s ae ss = Some e → sat_sub ae BondingDuration ≤ e ≤ ae.
Proof.
  intros Hbd Hae Hb. unfold offence_era. case_decide; [intros [= <-]; ulia|].
  destruct (list_find _ _) as [[n es]|] eqn:Hf; intros [= <-]. cbn.
  apply list_find_Some in Hf as (Hn%list_elem_of_lookup_2 & _).
  rewrite Forall_forall in Hb. apply Hb. by apply elem_of_reverse.
Qed.

(** Everything the reporters among the accounts [A] got or were promised, against
    the records: a record that was pruned counts as it was. *)
Definition rewards_recorded (A : list AccountId) s s' : Prop :=
  all_held A s' + promised s' - (all_held A s + promised s)
    ≤ map_sum paid_out (span_slash_map s' ∪ span_slash_map s) - map_sum paid_out (span_slash_map s).

Lemma on_offence_accounted A s offs fracs ss ds s'
    (HA : NoDup A)
    (Hhandler : ∀ a v c, a ∈ A → 0 ≤ v →
       free_balance a (slash_on_unbalanced v c) ≤ free_balance a c)
    (Hbd : 0 ≤ BondingDuration) (Hrp : is_perbill (slash_reward_fraction s))
    (Hs : payouts_bounded (slash_reward_fraction s) s) (Hwin : offence_window s)
    (Hoffs : Forall offence_ok offs) (Hfracs : Forall is_perbill fracs) :
  on_offence offs fracs ss ds s = (Ok tt, s') →
  payouts_bounded (slash_reward_fraction s) s' ∧ rewards_recorded A s s'.
Proof.
  set (rp := slash_reward_fraction s) in *. unfold on_offence, rewards_recorded. intros Heq.
  assert (span_slash_map s ∪ span_slash_map s = span_slash_map s) as Hself by apply map_union_idemp.
  rewrite (bind_step _ _ s s s) in Heq by done.
  destruct (active_era s) as [info|] eqn:Hae; [|injection Heq as <-; rewrite Hself; split; [done | lia]].
  destruct (Hwin info Hae) as (H0' & Hfit & Hroom & Heras). set (ae := ae_index info) in *.
  destruct (offence_era s ae ss) as [e|] eqn:He;
    [|injection Heq as <-; rewrite Hself; split; [done | lia]].
  pose proof (offence_era_window s ae ss e Hbd H0' Heras He) as Hew.
  set (ws := sat_sub ae BondingDuration) in *.
  assert (0 ≤ ws ≤ e) as Hws by (unfold ws in *; ulia).
  set (R := all_held A s + promised s - map_sum paid_out (span_slash_map s)).
  set (J := reckoned A e ae rp (span_slash_map s) R 0).
  assert (J s) as HJ.
  { split; [by apply tracked_start|]. split; [done|]. rewrite Hself. unfold R. lia. }
  cut (J s').
  { intros (_ & Hb & Hle). split; [exact Hb|]. unfold R in Hle. lia. }
  eapply (preserves_result J); [|exact Heq|exact HJ]. apply preserves_keeps_bind.
  { apply keeps_modify; [done|]. intros t Ht. by destruct (earliest_unapplied_slash t). }
  intros _. apply keeps_for_each. intros [d f] Hdf. apply preserves_wp. intros t Ht.
  rewrite Forall_forall in Hoffs. rewrite Forall_forall in Hfracs.
  eapply wp_mono; [apply (wp_on_offence_one A HA Hhandler e ws ae rp (span_slash_map s) R)|]; try done.
  - ulia.
  - apply Hfracs. by eapply elem_of_zip_r.
  - apply Hoffs. by eapply elem_of_zip_l.
  - by intros ? t' (? & _ & ?).
Qed.

(** C4: Processing an offence pays and promises the reporters no more than the
    slashing spans record: for any accounts [A], what they hold and what the slashes
    that wait promise grows by at most what the records of payments grow; every
    record stays within the configured fraction of what was slashed in its span, so
    repeated reports of the same misbehaviour cannot drain more than that; applying
    the slashes that wait hands out no more than they promised; and no offence
    fails to be processed. *)
Theorem on_offence_rewards_bounded A s offs fracs ss ds
    (HA : NoDup A)
    (Hhandler : ∀ a v c, a ∈ A → 0 ≤ v →
       free_balance a (slash_on_unbalanced v c) ≤ free_balance a c)
    (Hbd : 0 ≤ BondingDuration) (Hrp : is_perbill (slash_reward_fraction s))
    (Hs : payouts_bounded (slash_reward_fraction s) s) (Hwin : offence_window s)
    (Hoffs : Forall offence_ok offs) (Hfracs : Forall is_perbill fracs) :
  (∃ s', on_offence offs fracs ss ds s = (Ok tt, s')
    ∧ rewards_recorded A s s'
    ∧ ∀ k, let r := span_slash s' k in
        0 ≤ paid_out r ≤ perbill_mul (slash_reward_fraction s) (slashed r))
  ∧ ∀ t ae, promises_ok t → let t' := run (apply_unapplied_slashes ae) t in
      all_held A t' + promised t' ≤ all_held A t + promised t.
Proof.
  split; [|intros t ae Ht; by apply held_apply_unapplied].
  destruct (total_on_offence offs fracs ss ds s) as ([] & s' & Heq). exists s'. split; [done|].
  destruct (on_offence_accounted A s offs fracs ss ds s' HA Hhandler Hbd Hrp Hs Hwin Hoffs Hfracs Heq)
    as [Hb Hrec].
  split; [done|]. intros k. by apply (payouts_bounded_lookup _ s' k).
Qed.
End OffenceRewards.

(** * Reporters and the slash handler get what was taken *)

Section Reporters.
Context `{StakingConfig}.

Lemma pay_each_reporter_spec per rp reps c :
  0 ≤ per → per * Z.of_nat (length reps) ≤ rp →
  pay_each_reporter per rp reps c =
    (rp - per * Z.of_nat (length reps), foldl (λ c r, resolve_creating r per c) c reps).
Proof.
  intros Hper. revert rp c. induction reps as [|r reps IH]; intros rp c Hle; cbn [pay_each_reporter].
  { cbn. tuple_lia. }
  rewrite length_cons in *. rewrite Z.min_l by lia. rewrite IH by lia.
  cbn [foldl]. f_equal. lia.
Qed.

(** [pay_reporters] splits the slashed imbalance without loss: each
    reporter is credited the same whole share of the reward, which is capped
    by what was slashed, and the slash handler gets the remainder, including
    the indivisible rest; the shares and the remainder add up to the
    imbalance.  With no reward or no reporter the handler gets everything. *)
Theorem pay_reporters_conserves (s : Store) reward imbalance reps
    (Hr : 0 ≤ reward) (Hi : 0 ≤ imbalance) :
  ∃ per rest,
    per * Z.of_nat (length reps) + rest = imbalance
    ∧ 0 ≤ per ∧ per * Z.of_nat (length reps) ≤ reward
    ∧ 0 ≤ rest
    ∧ (reps ≠ [] → Z.min reward imbalance < (per + 1) * Z.of_nat (length reps))
    ∧ pay_reporters reward imbalance reps s =
        (Ok tt, s <| currency :=
           slash_on_unbalanced rest
             (if decide (reward = 0) then currency s
              else foldl (λ c r, resolve_creating r per c) (currency s) reps) |>).
Proof.
  unfold pay_reporters. destruct (decide (reward = 0 ∨ reps = [])) as [Hz|Hz].
  - exists 0, imbalance. split_and!; try lia.
    + intros Hne. destruct Hz as [->|?]; [|done]. destruct reps; [done|]. cbn [length]. lia.
    + destruct (decide (reward = 0)); [done|]. by destruct Hz as [? | ->].
  - apply Decidable.not_or in Hz as [Hnz Hne].
    assert (0 < Z.of_nat (length reps)) as Hn by (destruct reps; [done | cbn [length]; lia]).
    set (rw := Z.min reward imbalance). set (n := Z.of_nat (length reps)) in *.
    pose proof (Z.div_mod rw n ltac:(lia)) as Hdm. pose proof (Z.mod_pos_bound rw n Hn) as Hmod.
    assert (0 ≤ rw / n) by (apply Z.div_pos; lia).
    exists (rw / n), (imbalance - rw / n * n). split_and!; try nia.
    cbn zeta. rewrite decide_False by done. unfold modify.
    assert (rw / n * n ≤ rw) by nia.
    rewrite (pay_each_reporter_spec (rw / n) rw) by (fold n; lia). fold n.
    by replace (imbalance - rw + (rw - rw / n * n)) with (imbalance - rw / n * n) by lia.
Qed.
End Reporters.

(** * The offenders of an era *)

Section Offenders.
Context `{PerThing} `{StakingConfig}.

Definition offenders_wf (s : Store) : Prop := sorted_by fst (offending_validators s).

(** The flags of a sorted list after the flag of one index is written. *)
Definition flag_written (l l' : list (Z * bool)) (idx : Z) (flag : bool) : Prop :=
  ∀ k b, (k, b) ∈ l' ↔ (k ≠ idx ∧ (k, b) ∈ l) ∨ (k = idx ∧ b = flag).

Lemma sorted_flag_unique (l : list (Z * bool)) i idx b0 b :
  sorted_by fst l → l !! i = Some (idx, b0) → (idx, b) ∈ l ↔ b = b0.
Proof.
  intros Hs Hi. split; [|intros ->; by eapply list_elem_of_lookup_2].
  intros (j & Hj)%list_elem_of_lookup.
  assert (j = i) as -> by (by eapply (sorted_by_inj fst l)). congruence.
Qed.

Lemma flag_written_insert l i idx b0 b1 :
  sorted_by fst l → l !! i = Some (idx, b0) → flag_written l (<[i:=(idx, b1)]> l) idx b1.
Proof.
  intros Hs Hi k b. rewrite list_elem_of_lookup. split.
  - intros (j & [(-> & [= -> ->] & _)|[Hne Hj]]%list_lookup_insert_Some); [by right|]. left.
    split; [|by eapply list_elem_of_lookup_2]. intros ->. apply Hne.
    by eapply (sorted_by_inj fst l).
  - intros [[Hne (j & Hj)%list_elem_of_lookup]|[-> ->]].
    + exists j. rewrite list_lookup_insert_ne; [done|]. intros ->. congruence.
    + exists i. rewrite list_lookup_insert_eq; [done|]. by eapply lookup_lt_Some.
Qed.

Lemma flag_written_new l i idx flag :
  (∀ b, (idx, b) ∉ l) → flag_written l (vec_insert i (idx, flag) l) idx flag.
Proof.
  intros Habs k b. rewrite elem_of_vec_insert. split.
  - intros [[= -> ->]|Hkb]; [by right|]. left. split; [|done]. intros ->. by apply (Habs b).
  - intros [[_ ?]|[-> ->]]; [by right | by left].
Qed.

Lemma existsb_key (l : list (Z * bool)) idx :
  existsb (λ o, o.1 =? idx) l = true ↔ ∃ b, (idx, b) ∈ l.
Proof.
  rewrite existsb_exists. setoid_rewrite <- list_elem_of_In. split.
  - intros ([k b] & Hin & He%Z.eqb_eq). cbn in He. subst. by exists b.
  - intros (b & Hin). exists (idx, b). split; [done | apply Z.eqb_refl].
Qed.

(** Reporting a validator of the session records it under its index: the
    list of offenders stays sorted with one entry per index, the entry of the
    validator is flagged as disabled if it was before or the report disables
    it, other entries are as before; the session pallet is told to disable it
    exactly when the flag is raised; and a first report that brings the list
    to the threshold forces a new era. *)
Theorem add_offending_validator_correct (s : Store) v disable n
    (Hwf : offenders_wf s)
    (Hv : fst <$> list_find (λ a, a = v) (session_validators (sessions s)) = Some n) :
  let idx := Z.of_nat n in
  let was := bool_decide ((idx, true) ∈ offending_validators s) in
  let known := existsb (λ o, o.1 =? idx) (offending_validators s) in
  ∃ s', add_offending_validator v disable s = (Ok tt, s')
    ∧ offenders_wf s'
    ∧ flag_written (offending_validators s) (offending_validators s') idx (disable || was)
    ∧ sessions s' = (if disable && negb was then session_disable_validator idx (sessions s)
                     else sessions s)
    ∧ (known = true → force_era s' = force_era s)
    ∧ (known = false →
       perbill_mul OffendingValidatorsThreshold
           (Z.of_nat (length (session_validators (sessions s))))
         ≤ Z.of_nat (length (offending_validators s)) + 1 →
       force_era s' = ForceNew ∨ force_era s' = ForceAlways).
Proof.
  intros idx was known. unfold offenders_wf in *.
  set (l := offending_validators s) in *.
  unfold add_offending_validator. rewrite (bind_step _ _ s s s) by done.
  rewrite Hv. fold idx l. destruct (binary_search_by_key fst idx l) as [i|i] eqn:Hb.
  - apply binary_search_Ok in Hb as ([k b0] & Hi & Hk). cbn in Hk. subst k. rewrite Hi.
    pose proof (sorted_flag_unique l i idx b0) as Huniq.
    assert (known = true) as -> by (apply existsb_key; exists b0; by apply Huniq).
    assert (was = b0) as ->.
    { unfold was. destruct b0; [apply bool_decide_eq_true | apply bool_decide_eq_false];
        rewrite Huniq; done. }
    pose proof (flag_written_insert l i idx b0 b0 Hwf Hi) as Hsame.
    rewrite list_insert_id in Hsame by done.
    destruct b0; [|destruct disable]; cbn;
      (eexists; split; [reflexivity|]; cbn [set offending_validators sessions force_era];
       fold l; split_and!; try done).
    + by rewrite orb_true_r.
    + by rewrite andb_false_r.
    + by eapply sorted_by_update.
    + by apply (flag_written_insert l i idx false).
  - assert (∀ b, (idx, b) ∉ l) as Habs.
    { intros b Hin. by eapply (binary_search_absent fst l idx i (idx, b)). }
    assert (known = false) as ->.
    { apply not_true_is_false. intros (b & Hin)%existsb_key. by apply (Habs b). }
    assert (was = false) as -> by (by apply bool_decide_eq_false).
    rewrite orb_false_r, andb_true_r.
    pose proof (sorted_by_binary_insert fst l i (idx, disable) Hwf Hb) as Hsort.
    pose proof (flag_written_new l i idx disable Habs) as Hin.
    pose proof (length_vec_insert l i (idx, disable)) as Hlen.
    unfold when, ensure_new_era. rewrite Hlen by (by destruct (binary_search_Err fst _ _ _ Hwf Hb)).
    set (th := perbill_mul _ _) in *.
    destruct (decide (th ≤ Z.of_nat (S (length l)))) as [Ht|Ht]; destruct disable; cbn;
      (eexists; split; [reflexivity|]; split_and!; try done).
    all: try (intros _ ?; lia).
    all: destruct (force_era s) eqn:Hf; cbn; auto.
Qed.
End Offenders.

(** * Deferred slashes, repeated offences and metadata *)

Section Deferred.
Context `{PerThing} `{StakingConfig}.

Lemma apply_slash_frame (m : gmap EraIndex (list UnappliedSlash)) u e :
  preserves (λ s, unapplied_slashes_map s = m) (apply_slash u e).
Proof. apply keeps_apply_slash_frame. by split. Qed.

Lemma apply_era_slashes_spec e (s s' : Store) u :
  apply_era_slashes e s = (Ok u, s') →
  unapplied_slashes_map s' = delete e (unapplied_slashes_map s).
Proof.
  unfold apply_era_slashes. rewrite (bind_step _ _ s s s) by done.
  set (m := delete e (unapplied_slashes_map s)). intros Heq.
  rewrite (bind_step _ _ tt s (s <| unapplied_slashes_map := m |>)) in Heq by done.
  eapply (preserves_result (λ s, unapplied_slashes_map s = m)); [|exact Heq|done].
  apply keeps_for_each. intros. apply apply_slash_frame.
Qed.

Lemma for_each_era_slashes l : ∀ (s s' : Store) u,
  for_each l apply_era_slashes s = (Ok u, s') →
  ∀ e, unapplied_slashes_map s' !! e =
       if decide (e ∈ l) then None else unapplied_slashes_map s !! e.
Proof.
  induction l as [|a l IH]; intros s s' u Heq e; cbn in Heq.
  { injection Heq as <- <-. by rewrite decide_False by set_solver. }
  apply bind_Ok in Heq as ([] & s1 & Hf & Hm). apply apply_era_slashes_spec in Hf.
  rewrite (IH _ _ _ Hm), Hf, lookup_delete.
  destruct (decide (e ∈ l)), (decide (a = e)), (decide (e ∈ a :: l)); set_solver.
Qed.

(** C5: When an era starts, [apply_unapplied_slashes] applies every slash of the
    eras from the earliest with deferred slashes up to, and without, the first that
    is still deferred, each exactly once, oldest era first and in the order they
    were reported: the ledgers, balances, events and calls of [OnStakerSlash] are
    those of settling these slashes in turn, so that every ledger is charged with
    exactly what names its stash; their entries are taken out of the storage,
    entries of other eras stay, nothing else changes, and the earliest era moves up
    to the deferral boundary and never back.  It cannot fail. *)
Theorem apply_unapplied_slashes_correct (s : Store) ae :
  ∃ s', apply_unapplied_slashes ae s = (Ok tt, s') ∧
  match earliest_unapplied_slash s with
  | None => s' = s
  | Some e0 =>
      let keep_from := sat_sub ae SlashDeferDuration in
      let eras := seqZ e0 (keep_from - e0) in
      let due := slashes_of s eras in
      s' = put_books (foldl (settle_slash (bonded s)) (books s) due)
             (s <| unapplied_slashes_map ::= drop_eras eras |>
                <| earliest_unapplied_slash := Some (Z.max e0 keep_from) |>)
      ∧ (∀ e, unapplied_slashes_map s' !! e =
              if decide (e0 ≤ e < keep_from) then None else unapplied_slashes_map s !! e)
      ∧ (ledgers_bonded (bonded s) (ledger s) →
         ∀ c, ledger s' !! c = charged (charges_of due) <$> ledger s !! c)
  end.
Proof.
  unfold apply_unapplied_slashes. rewrite (bind_step _ _ s s s) by done. cbn [id].
  destruct (earliest_unapplied_slash s) as [e0|]; [|by exists s]. cbv zeta.
  set (b := sat_sub ae SlashDeferDuration). set (eras := seqZ e0 (b - e0)).
  pose proof (apply_eras_books eras (books s) s (NoDup_seqZ _ _)) as Heq. rewrite put_books_id in Heq.
  rewrite (bind_step _ _ _ _ _ Heq). eexists. split; [reflexivity|]. split_and!.
  - done.
  - intros e. cbn. rewrite lookup_drop_eras.
    destruct (decide (e ∈ eras)) as [Hin|Hin]; unfold eras in Hin; rewrite elem_of_seqZ in Hin;
      [by rewrite decide_True by lia | by rewrite decide_False by lia].
  - intros Hb c. apply (settle_ledgers (bonded s) (slashes_of s eras) (books s) Hb c).
Qed.

(** An offence that is no worse than the worst one of the validator in the
    same era changes nothing: no slash, no record, no offender, no chilling. *)
Theorem compute_slash_not_worse p (s : Store) prior own_prior
    (Hnz : perbill_mul (sp_slash p) (exp_total (sp_exposure p)) ≠ 0)
    (Hprior : validator_slash_in_era s !! (sp_slash_era p, sp_stash p) = Some (prior, own_prior))
    (Hle : sp_slash p ≤ prior) :
  compute_slash p s = (Ok None, s).
Proof.
  unfold compute_slash. rewrite decide_False by done.
  rewrite (bind_step _ _ s s s) by done. rewrite Hprior. cbn.
  by destruct (decide (sp_slash p > prior)); [lia|].
Qed.

Lemma for_each_delete_records who l : ∀ (s : Store),
  ∃ s', (for_each l (λ span, modify (λ s,
          s <| span_slash_map ::= delete (who, index span) |>)) : Call unit) s = (Ok tt, s')
    ∧ slashing_spans s' = slashing_spans s
    ∧ ∀ k, span_slash_map s' !! k =
           if decide (k.1 = who ∧ k.2 ∈ index <$> l) then None else span_slash_map s !! k.
Proof.
  induction l as [|a l IH]; intros s; cbn [for_each].
  - exists s. split_and!; try done. intros k. rewrite decide_False; [done|]. set_solver.
  - destruct (IH (s <| span_slash_map ::= delete (who, index a) |>)) as (s' & Heq & Hsp & Hk).
    exists s'. split_and!; [done | done |]. intros [w i]. rewrite Hk. cbn.
    destruct (decide (w = who ∧ i ∈ index <$> l)) as [[-> Hi]|Hn].
    + rewrite decide_True; [done|]. set_solver.
    + rewrite lookup_delete. destruct (decide ((who, index a) = (w, i))) as [[= <- <-]|Hne].
      * rewrite decide_True; [done|]. set_solver.
      * rewrite decide_False; [done|]. intros [-> Hin]. set_solver.
Qed.

(** Clearing the metadata of a stash checks the number of spans the caller
    gave before it removes anything; then the spans and all their records are
    gone, and nothing of any other staker is. *)
Theorem clear_stash_metadata_correct (s : Store) who sps num
    (Hsp : slashing_spans s !! who = Some sps)
    (Hrec : ∀ i r, span_slash_map s !! (who, i) = Some r → i ∈ index <$> iter sps) :
  if decide (Z.of_nat (length (iter sps)) ≤ num) then
    ∃ s', clear_stash_metadata who num s = (Ok tt, s')
      ∧ slashing_spans s' = delete who (slashing_spans s)
      ∧ (∀ i, span_slash_map s' !! (who, i) = None)
      ∧ ∀ w i, w ≠ who → span_slash_map s' !! (w, i) = span_slash_map s !! (w, i)
  else clear_stash_metadata who num s = (Err IncorrectSlashingSpans, s).
Proof.
  unfold clear_stash_metadata. rewrite (bind_step _ _ s s s) by done. rewrite Hsp.
  destruct (decide _) as [Hn|Hn].
  - rewrite (bind_step _ _ tt s s) by by apply ensure_true.
    rewrite (bind_step _ _ tt s (s <| slashing_spans ::= delete who |>)) by done.
    edestruct (for_each_delete_records who (iter sps)) as (s' & Heq & Hs' & Hk).
    exists s'. split_and!; [exact Heq | by rewrite Hs' | |].
    + intros i. rewrite Hk. cbn. destruct (decide _) as [|Hd]; [done|].
      destruct (span_slash_map s !! (who, i)) eqn:Hi; [|done].
      exfalso. apply Hd. split; [done|]. by eapply Hrec.
    + intros w i Hw. rewrite Hk, decide_False; [done|]. cbn. tauto.
  - by rewrite (bind_err _ _ IncorrectSlashingSpans s s) by by apply ensure_false.
Qed.
End Deferred.

(** * Concrete inputs *)

Section Examples.
#[local] Existing Instances TestPerThing TestPerThing_laws TestCurrency TestCurrency_laws
  TestCurrency_reward_laws.
#[local] Instance ex_config : StakingConfig := TestStaking 0 64.

(** Validator 11 with 1000 of its own and 500 of nominator 101, in era 1. *)
Definition ex_cur : test_cur := TestCur {[ 11 := 2000; 101 := 2000; 50 := 10 ]} 5000 ∅.
Definition ex_ledger (st v : Z) : StakingLedger :=
  {| stash := st; total := v; active := v; unlocking := []; claimed_rewards := [] |}.
Definition ex_exposure : Exposure :=
  {| exp_total := 1500; own := 1000; others := [ {| who := 101; ie_value := 500 |} ] |}.
Definition ex_store : Store :=
  (test_store 0 64 ex_cur [11; 21])
    <| bonded := {[ 11 := 10; 101 := 100 ]} |>
    <| ledger := {[ 10 := ex_ledger 11 1000; 100 := ex_ledger 101 500 ]} |>
    <| validators_map := {[ 11 := ValidatorPrefs_default ]} |>
    <| active_era := Some {| ae_index := 1; ae_start := Some 0 |} |>
    <| eras_start_session_index := {[ 1 := 3 ]} |>
    <| bonded_eras := [(0, 0); (1, 3)] |>
    <| slash_reward_fraction := 100000000 |>.

Definition ex_offence : OffenceDetails :=
  {| offender := (11, ex_exposure); od_reporters := [50] |}.

(** A 10 percent offence takes 100 of the validator and 50 of the nominator;
    the reporter gets half of 10 percent of each. *)
Example ex_offence_slashes :
  let s := run (on_offence [ex_offence] [100000000] 4 DisableWhenSlashed) ex_store in
  map active <$> (ledger s !! 10 ≫= λ l, Some [l]) = Some [900]
  ∧ map active <$> (ledger s !! 100 ≫= λ l, Some [l]) = Some [450]
  ∧ t_balance 11 (currency s) = 1900 ∧ t_balance 101 (currency s) = 1950
  ∧ t_balance 50 (currency s) = 17
  ∧ offending_validators s = [(0, true)] ∧ validators_map s = ∅.
Proof. vm_compute. done. Qed.

Definition ex_inspect : InspectingSpans :=
  {| dirty := false; window_start := 0; is_stash := 11; spans := new 0; is_paid_out := 0;
     slash_of := 0; reward_proportion := 100000000 |}.
Definition ex_span : SlashingSpan := {| index := 0; start := 0; span_length := None |}.

Lemma slash_all_max_witness :
  ∃ i' s', slash_all ex_inspect 1 [30; 100; 70] ex_store = (Ok i', s')
    ∧ slashed (span_slash s' (11, 0)) = 100 ∧ slash_of i' = 100.
Proof.
  destruct (slash_all_max ex_inspect 1 ex_span ex_store [30; 100; 70])
    as (i' & s' & Heq & Hm & Hs & _).
  - reflexivity.
  - repeat constructor; unfold in_u; lia.
  - vm_compute. split; [discriminate | reflexivity].
  - vm_compute. split; [discriminate | reflexivity].
  - vm_compute. split; [discriminate | reflexivity].
  - exists i', s'. split; [exact Heq|]. split; [exact Hm | exact Hs].
Defined.

(** Half of the 10 percent of the slashes of 100 and 50 goes to the reporter 50,
    and is what the two records hold. *)
Lemma on_offence_rewards_bounded_witness :
  ∃ s', on_offence [ex_offence] [100000000] 4 DisableWhenSlashed ex_store = (Ok tt, s')
    ∧ rewards_recorded [50] ex_store s'
    ∧ all_held [50] s' = all_held [50] ex_store + 7
    ∧ map_sum paid_out (span_slash_map s') = 7
    ∧ 0 ≤ paid_out (span_slash s' (11, 0))
        ≤ perbill_mul 100000000 (slashed (span_slash s' (11, 0))).
Proof.
  destruct (on_offence_rewards_bounded [50] ex_store [ex_offence] [100000000] 4 DisableWhenSlashed)
    as [(s' & Heq & Hrec & Hk) _].
  - apply NoDup_singleton.
  - intros a v c _ _. apply Z.le_refl.
  - vm_compute. discriminate.
  - vm_compute. split; discriminate.
  - apply map_Forall_empty.
  - intros info Hinfo. injection Hinfo as <-. cbv zeta. cbn [ae_index].
    split; [discriminate|]. split; [split; [discriminate | reflexivity]|].
    split; [apply map_Forall_empty|]. repeat constructor; vm_compute; discriminate.
  - constructor; [|constructor]. vm_compute. split; [discriminate | reflexivity].
  - constructor; [|constructor]. vm_compute. split; discriminate.
  - exists s'. split; [exact Heq|]. split; [exact Hrec|].
    assert (s' = run (on_offence [ex_offence] [100000000] 4 DisableWhenSlashed) ex_store) as Hs'
      by exact (f_equal snd (eq_sym Heq)).
    split; [|split; [|exact (Hk (11, 0))]]; rewrite Hs'; vm_compute; reflexivity.
Defined.

Lemma pay_reporters_conserves_witness :
  ∃ per rest, per * 3 + rest = 100 ∧ 40 < (per + 1) * 3
    ∧ t_balance 50 (currency (run (pay_reporters 40 100 [50; 51; 52]) ex_store)) = 23.
Proof.
  destruct (pay_reporters_conserves ex_store 40 100 [50; 51; 52])
    as (per & rest & Hsum & _ & _ & _ & Hlt & _); [lia | lia |].
  exists per, rest. split; [exact Hsum|]. split; [|vm_compute; reflexivity].
  apply Hlt. discriminate.
Defined.

Lemma add_offending_validator_correct_witness :
  ∃ s', add_offending_validator 21 true ex_store = (Ok tt, s')
    ∧ offenders_wf s' ∧ sessions s' = ([11; 21], [1]).
Proof.
  destruct (add_offending_validator_correct ex_store 21 true 1)
    as (s' & Heq & Hwf & _ & Hses & _).
  - constructor.
  - vm_compute. reflexivity.
  - exists s'. split; [exact Heq|]. split; [exact Hwf | exact Hses].
Defined.

(** A slash of era 4 that is due in era 5. *)
Definition ex_due : Store :=
  ex_store <| unapplied_slashes_map := {[ 4 := [ {| us_validator := 11; us_own := 100;
      us_others := [(101, 50)]; us_reporters := [50]; us_payout := 7 |} ] ]} |>
    <| earliest_unapplied_slash := Some 3 |>.

Lemma ex_due_bonded : ledgers_bonded (bonded ex_due) (ledger ex_due).
Proof.
  assert (∀ c l, ledger ex_due !! c = Some l →
    c = 10 ∧ l = ex_ledger 11 1000 ∨ c = 100 ∧ l = ex_ledger 101 500) as Hl.
  { intros c l Hc.
    change (({[ 10 := ex_ledger 11 1000; 100 := ex_ledger 101 500 ]} : gmap Z _) !! c = Some l) in Hc.
    apply lookup_insert_Some in Hc as [[<- <-]|[_ Hc]]; [by left|].
    apply lookup_singleton_Some in Hc as [<- <-]. by right. }
  split.
  - intros a c l Ha Hc. change (({[ 11 := 10; 101 := 100 ]} : gmap Z Z) !! a = Some c) in Ha.
    apply lookup_insert_Some in Ha as [[<- <-]|[_ Ha]].
    + by destruct (Hl _ _ Hc) as [[_ ->]|[? _]].
    + apply lookup_singleton_Some in Ha as [<- <-]. by destruct (Hl _ _ Hc) as [[? _]|[_ ->]].
  - intros c l Hc. by destruct (Hl _ _ Hc) as [[-> ->]|[-> ->]].
Qed.

Lemma apply_unapplied_slashes_correct_witness :
  ∃ s', apply_unapplied_slashes 5 ex_due = (Ok tt, s')
    ∧ unapplied_slashes_map s' !! 4 = None
    ∧ active <$> ledger s' !! 10 = Some 900 ∧ active <$> ledger s' !! 100 = Some 450
    ∧ t_balance 11 (currency s') = 1900 ∧ t_balance 50 (currency s') = 17.
Proof.
  destruct (apply_unapplied_slashes_correct ex_due 5) as (s' & Heq & Hs & Hu & Hl).
  specialize (Hl ex_due_bonded). exists s'. split; [exact Heq|].
  split; [rewrite Hu; vm_compute; reflexivity|].
  split; [rewrite Hl; vm_compute; reflexivity|]. split; [rewrite Hl; vm_compute; reflexivity|].
  clear Hu Hl. split; rewrite Hs; vm_compute; reflexivity.
Defined.

Definition ex_params (f : Z) : SlashParams :=
  {| sp_stash := 11; sp_slash := f; sp_exposure := ex_exposure; sp_slash_era := 1;
     sp_window_start := 0; sp_now := 1; sp_reward_proportion := 100000000;
     sp_disable_strategy := DisableAlways |}.

Lemma compute_slash_not_worse_witness :
  let s := run (compute_slash (ex_params 100000000)) ex_store in
  compute_slash (ex_params 50000000) s = (Ok None, s).
Proof.
  intros s. apply (compute_slash_not_worse _ s 100000000 100).
  - vm_compute. discriminate.
  - vm_compute. reflexivity.
  - vm_compute. discriminate.
Defined.

Lemma clear_stash_metadata_correct_witness :
  let s := run (compute_slash (ex_params 100000000)) ex_store in
  ∃ s', clear_stash_metadata 11 2 s = (Ok tt, s') ∧ span_slash_map s' !! (11, 0) = None.
Proof.
  intros s. destruct (slashing_spans s !! 11) as [sps|] eqn:Hs; [|vm_compute in Hs; discriminate].
  pose proof (clear_stash_metadata_correct s 11 sps 2 Hs) as Hc.
  vm_compute in Hs. injection Hs as <-.
  destruct Hc as (s' & Heq & _ & Hnone & _).
  - intros i r Hi.
    assert (i = 0) as ->.
    { assert (span_slash_map s = {[ (11, 0) := {| slashed := 100; paid_out := 5 |};
                                     (101, 0) := {| slashed := 50; paid_out := 2 |} ]})
        as Hm by (vm_compute; reflexivity).
      rewrite Hm in Hi. apply lookup_insert_Some in Hi as [[Hk _]|[_ Hi]]; [congruence|].
      apply lookup_singleton_Some in Hi as [Hk _]. congruence. }
    vm_compute. right. left.
  - exists s'. split; [exact Heq | apply Hnone].
Defined.
End Examples.
