(* ===== verification/Bonding.v ===== *)
(** The calls of the staking pallet that bond stake and manage the roles of a
    stash ([frame/staking/src/pallet/mod.rs]), and the removal of a stash
    ([kill_stash] of [frame/staking/src/pallet/impls.rs]). *)

From Stdlib Require Import ZArith Lia.
From stdpp Require Import base option list gmap fin_maps fin_sets strings.
From S2P Require Import Prelude Interfaces StakingLedger SlashingSpans StakingState Slashing.
#[local] Open Scope Z_scope.

Abbreviation ledger_rebond := StakingLedger.rebond.

Section Bonding.
Context `{PerThing} `{StakingConfig}.

(** [is_sorted_and_unique]: every window of two is increasing. *)
Fixpoint is_sorted_and_unique (l : list Z) : bool :=
  match l with
  | a :: (b :: _) as l' => (a <? b) && is_sorted_and_unique l'
  | _ => true
  end.

(** The update of a staker in the voter list, if it is in the list; a failure
    is ignored ([defensive]). *)
Definition update_voter (stash : AccountId) : Call unit :=
  s ← gets id;
  when (vl_contains stash (voter_list s) = true)
    (modify (λ s, s <| voter_list ::= try_update (vl_on_update stash (weight_of s stash)) |>)).

Definition kill_stash (stash : AccountId) (num_slashing_spans : Z) : Call unit :=
  s ← gets id;
  controller ← ok_or (bonded s !! stash) NotStash;
  clear_stash_metadata stash num_slashing_spans ≫= λ _,
  modify (λ s, s <| bonded ::= delete stash |> <| ledger ::= delete controller |>
                 <| payee_map ::= delete stash |>) ≫= λ _,
  do_remove_validator stash ≫= λ _,
  do_remove_nominator stash ≫= λ _,
  modify (λ s, s <| system ::= dec_consumers stash |>).

(** * Bonding *)

Definition bond (o : Origin) (controller_src : Z) (v : Z) (p : RewardDestination)
    : Call unit :=
  stash ← ensure_signed o;
  s ← gets id;
  ensure (bonded s !! stash = None) AlreadyBonded ≫= λ _,
  controller ← ok_or (lookup controller_src) CannotLookup;
  ensure (ledger s !! controller = None) AlreadyPaired ≫= λ _,
  ensure (minimum_balance ≤ v) InsufficientBond ≫= λ _,
  sys' ← ok_or (inc_consumers stash (system s)) BadState;
  modify (λ s, s <| system := sys' |> <| bonded ::= insert stash controller |>
                 <| payee_map ::= insert stash p |>) ≫= λ _,
  let ce := default 0 (current_era s) in
  let last_reward_era := sat_sub ce (history_depth s) in
  let stash_balance := free_balance stash (currency s) in
  let v := Z.min v stash_balance in
  deposit_event (Bonded stash v) ≫= λ _,
  update_ledger controller
    {| stash := stash; total := v; active := v; unlocking := [];
       claimed_rewards := seqZ last_reward_era (ce - last_reward_era) |}.

Definition bond_extra (o : Origin) (max_additional : Z) : Call unit :=
  stash ← ensure_signed o;
  s ← gets id;
  controller ← ok_or (bonded s !! stash) NotStash;
  l ← ok_or (ledger s !! controller) NotController;
  match checked_sub (free_balance stash (currency s)) (total l) with
  | None => mret tt
  | Some extra =>
      let extra := Z.min extra max_additional in
      let l' := l <| total ::= λ t, wadd 128 t extra |>
                  <| active ::= λ a, wadd 128 a extra |> in
      ensure (active l' >= minimum_balance) InsufficientBond ≫= λ _,
      update_ledger controller l' ≫= λ _,
      update_voter stash ≫= λ _,
      deposit_event (Bonded stash extra)
  end.

(** The smallest active bond the role of a stash allows. *)
Definition min_active_bond (s : Store) (stash : AccountId) : Z :=
  if decide (nominators s !! stash ≠ None) then min_nominator_bond s
  else if decide (validators_map s !! stash ≠ None) then min_validator_bond s
  else 0.

(** The chunk of era [e] is the last one if there is one. *)
Definition push_chunk (chunks : list UnlockChunk) (v : Z) (e : EraIndex)
    : option (list UnlockChunk) :=
  let push := if decide (length chunks < MaxUnlockingChunks)%nat
              then Some (chunks ++ [ {| value := v; era := e |} ]) else None in
  match last chunks with
  | Some c =>
      if decide (era c = e) then
        Some (removelast chunks ++ [ {| value := sat_add 128 (value c) v; era := e |} ])
      else push
  | None => push
  end.

Definition unbond (o : Origin) (v : Z) : Call unit :=
  controller ← ensure_signed o;
  s ← gets id;
  l ← ok_or (ledger s !! controller) NotController;
  ensure (length (unlocking l) < MaxUnlockingChunks)%nat NoMoreChunks ≫= λ _,
  let v := Z.min v (active l) in
  when (v ≠ 0) (
    let act := wsub 128 (active l) v in
    let '(v', act') := if decide (act < minimum_balance) then (wadd 128 v act, 0)
                       else (v, act) in
    ensure (act' >= min_active_bond s (stash l)) InsufficientBond ≫= λ _,
    let e := wadd 32 (default 0 (current_era s)) BondingDuration in
    chunks ← ok_or (push_chunk (unlocking l) v' e) NoMoreChunks;
    update_ledger controller (l <| active := act' |> <| unlocking := chunks |>) ≫= λ _,
    update_voter (stash l) ≫= λ _,
    deposit_event (Unbonded (stash l) v')).

Definition withdraw_unbonded (o : Origin) (num_slashing_spans : Z) : Call unit :=
  controller ← ensure_signed o;
  s ← gets id;
  l ← ok_or (ledger s !! controller) NotController;
  let old_total := total l in
  let l' := match current_era s with
            | Some ce => consolidate_unlocked l ce
            | None => l
            end in
  (if decide (unlocking l' = [] ∧ active l' < minimum_balance) then
     kill_stash (stash l) num_slashing_spans ≫= λ _,
     modify (λ s, s <| currency ::= remove_lock (stash l) |>)
   else update_ledger controller l') ≫= λ _,
  when (total l' < old_total)
    (deposit_event (Withdrawn (stash l) (wsub 128 old_total (total l')))).

Definition rebond (o : Origin) (v : Z) : Call unit :=
  controller ← ensure_signed o;
  s ← gets id;
  l ← ok_or (ledger s !! controller) NotController;
  ensure (unlocking l ≠ []) NoUnlockChunk ≫= λ _,
  '(l', rebonded_value) ← ok_or (ledger_rebond l v) BadState;
  ensure (active l' >= minimum_balance) InsufficientBond ≫= λ _,
  deposit_event (Bonded (stash l') rebonded_value) ≫= λ _,
  update_ledger controller l' ≫= λ _,
  update_voter (stash l').

(** * Roles *)

Definition validate (o : Origin) (p : ValidatorPrefs) : Call unit :=
  controller ← ensure_signed o;
  s ← gets id;
  l ← ok_or (ledger s !! controller) NotController;
  ensure (active l >= min_validator_bond s) InsufficientBond ≫= λ _,
  ensure (commission p >= min_commission s) CommissionTooLow ≫= λ _,
  when (validators_map s !! stash l = None)
    (match max_validators_count s with
     | Some max_validators => ensure (count (validators_map s) < max_validators) TooManyValidators
     | None => mret tt
     end) ≫= λ _,
  do_remove_nominator (stash l) ≫= λ _,
  do_add_validator (stash l) p ≫= λ _,
  deposit_event (ValidatorPrefsSet (stash l) p).

(** The lookup and the check of the targets, up to the first error. *)
Fixpoint check_targets (s : Store) (old : list AccountId) (ts : list Z)
    : result Error (list AccountId) :=
  match ts with
  | [] => Ok []
  | t :: ts' =>
      match lookup t with
      | None => Err CannotLookup
      | Some n =>
          if decide (n ∈ old ∨ blocked (validators s n) = false) then
            match check_targets s old ts' with
            | Ok ns => Ok (n :: ns)
            | Err e => Err e
            end
          else Err BadTarget
      end
  end.

Definition nominate (o : Origin) (ts : list Z) : Call unit :=
  controller ← ensure_signed o;
  s ← gets id;
  l ← ok_or (ledger s !! controller) NotController;
  ensure (active l >= min_nominator_bond s) InsufficientBond ≫= λ _,
  when (nominators s !! stash l = None)
    (match max_nominators_count s with
     | Some max_nominators => ensure (count (nominators s) < max_nominators) TooManyNominators
     | None => mret tt
     end) ≫= λ _,
  ensure (ts ≠ []) EmptyTargets ≫= λ _,
  ensure (length ts ≤ MaxNominations)%nat TooManyTargets ≫= λ _,
  let old := default [] (targets <$> nominators s !! stash l) in
  ns ← of_result (check_targets s old ts);
  ensure (length ns ≤ MaxNominations)%nat TooManyNominators ≫= λ _,
  do_remove_validator (stash l) ≫= λ _,
  do_add_nominator (stash l)
    {| targets := ns; submitted_in := default 0 (current_era s); suppressed := false |}.

Definition chill (o : Origin) : Call unit :=
  controller ← ensure_signed o;
  s ← gets id;
  l ← ok_or (ledger s !! controller) NotController;
  chill_stash (stash l).

Definition set_payee (o : Origin) (p : RewardDestination) : Call unit :=
  controller ← ensure_signed o;
  s ← gets id;
  l ← ok_or (ledger s !! controller) NotController;
  modify (λ s, s <| payee_map ::= insert (stash l) p |>).

Definition set_controller (o : Origin) (controller_src : Z) : Call unit :=
  stash ← ensure_signed o;
  s ← gets id;
  old_controller ← ok_or (bonded s !! stash) NotStash;
  controller ← ok_or (lookup controller_src) CannotLookup;
  ensure (ledger s !! controller = None) AlreadyPaired ≫= λ _,
  when (controller ≠ old_controller)
    (modify (λ s, s <| bonded ::= insert stash controller |>) ≫= λ _,
     match ledger s !! old_controller with
     | Some l => modify (λ s, s <| ledger ::= λ m, insert controller l (delete old_controller m) |>)
     | None => mret tt
     end).

(** One nominator of [kick]. *)
Definition kick_one (stash : AccountId) (nom_stash : AccountId) : Call unit :=
  s ← gets id;
  match nominators s !! nom_stash with
  | None => mret tt
  | Some nom =>
      match position (λ v, v = stash) (targets nom) with
      | Some pos =>
          modify (λ s, s <| nominators ::= insert nom_stash
            {| targets := vec_swap_remove pos (targets nom);
               submitted_in := submitted_in nom; suppressed := suppressed nom |} |>) ≫= λ _,
          deposit_event (Kicked nom_stash stash)
      | None => mret tt
      end
  end.

Definition kick (o : Origin) (whos : list Z) : Call unit :=
  controller ← ensure_signed o;
  s ← gets id;
  l ← ok_or (ledger s !! controller) NotController;
  noms ← ok_or (mapM lookup whos) CannotLookup;
  for_each noms (kick_one (stash l)).

Definition chill_other (o : Origin) (controller : AccountId) : Call unit :=
  caller ← ensure_signed o;
  s ← gets id;
  l ← ok_or (ledger s !! controller) NotController;
  let stash := stash l in
  when (caller ≠ controller)
    (threshold ← ok_or (chill_threshold s) CannotChillOther;
     min_active_bond ←
       (if decide (nominators s !! stash ≠ None) then
          max_nominator_count ← ok_or (max_nominators_count s) CannotChillOther;
          ensure (percent_mul threshold max_nominator_count < count (nominators s))
            CannotChillOther ≫= λ _,
          mret (min_nominator_bond s)
        else if decide (validators_map s !! stash ≠ None) then
          max_validator_count ← ok_or (max_validators_count s) CannotChillOther;
          ensure (percent_mul threshold max_validator_count < count (validators_map s))
            CannotChillOther ≫= λ _,
          mret (min_validator_bond s)
        else mret 0);
     ensure (active l < min_active_bond) CannotChillOther) ≫= λ _,
  chill_stash stash.

Definition force_apply_min_commission (o : Origin) (validator_stash : AccountId) : Call unit :=
  ensure_signed o ≫= λ _,
  s ← gets id;
  match validators_map s !! validator_stash with
  | None => throw NotStash
  | Some p =>
      when (commission p < min_commission s)
        (modify (λ s, s <| validators_map ::=
           insert validator_stash {| commission := min_commission s; blocked := blocked p |} |>))
  end.
End Bonding.
