(* ===== verification/Governance.v ===== *)
(** The calls of the staking pallet for governance and cleaning up, its
    [on_finalize] hook and its genesis ([frame/staking/src/pallet/mod.rs]),
    and the [StakingInterface] it offers to other pallets
    ([frame/staking/src/pallet/impls.rs]). *)

From Stdlib Require Import ZArith Lia.
From stdpp Require Import base option list gmap fin_maps fin_sets strings.
From S2P Require Import Prelude Interfaces StakingLedger SlashingSpans StakingState Slashing.
From S2P Require Import Bonding.
#[local] Open Scope Z_scope.

Section Governance.
Context `{PerThing} `{StakingConfig}.

(** * Validator counts, forcing, configuration *)

Definition set_validator_count (o : Origin) (n : Z) : Call unit :=
  ensure_root o ≫= λ _, modify (λ s, s <| validator_count := n |>).

Definition increase_validator_count (o : Origin) (additional : Z) : Call unit :=
  ensure_root o ≫= λ _, modify (λ s, s <| validator_count ::= λ n, wadd 32 n additional |>).

Definition scale_validator_count (o : Origin) (factor : Z) : Call unit :=
  ensure_root o ≫= λ _,
  modify (λ s, s <| validator_count ::= λ n, wadd 32 n (percent_mul factor n) |>).

Definition force_no_eras (o : Origin) : Call unit :=
  ensure_root o ≫= λ _, modify (λ s, s <| force_era := ForceNone |>).

Definition force_new_era (o : Origin) : Call unit :=
  ensure_root o ≫= λ _, modify (λ s, s <| force_era := ForceNew |>).

Definition force_new_era_always (o : Origin) : Call unit :=
  ensure_root o ≫= λ _, modify (λ s, s <| force_era := ForceAlways |>).

Definition set_invulnerables (o : Origin) (l : list AccountId) : Call unit :=
  ensure_root o ≫= λ _, modify (λ s, s <| invulnerables := l |>).

(** The macro [config_op_exp] on a [ValueQuery] item, whose default is zero,
    and on an [OptionQuery] item. *)
Definition config_op_value (op : ConfigOp Z) (v : Z) : Z :=
  match op with Noop => v | Set_ v' => v' | Remove => 0 end.
Definition config_op_option (op : ConfigOp Z) (v : option Z) : option Z :=
  match op with Noop => v | Set_ v' => Some v' | Remove => None end.

Definition set_staking_configs (o : Origin)
    (min_nominator_bond_op min_validator_bond_op max_nominator_count_op
     max_validator_count_op chill_threshold_op min_commission_op : ConfigOp Z) : Call unit :=
  ensure_root o ≫= λ _,
  modify (λ s,
    s <| min_nominator_bond ::= config_op_value min_nominator_bond_op |>
      <| min_validator_bond ::= config_op_value min_validator_bond_op |>
      <| max_nominators_count ::= config_op_option max_nominator_count_op |>
      <| max_validators_count ::= config_op_option max_validator_count_op |>
      <| chill_threshold ::= config_op_option chill_threshold_op |>
      <| min_commission ::= config_op_value min_commission_op |>).

(** * Removing a stash *)

Definition force_unstake (o : Origin) (stash : AccountId) (num_slashing_spans : Z) : Call unit :=
  ensure_root o ≫= λ _,
  kill_stash stash num_slashing_spans ≫= λ _,
  modify (λ s, s <| currency ::= remove_lock stash |>).

Definition reap_stash (o : Origin) (stash : AccountId) (num_slashing_spans : Z) : Call unit :=
  ensure_signed o ≫= λ _,
  s ← gets id;
  reapable ←
    (if decide (total_balance stash (currency s) < minimum_balance) then mret true
     else
       controller ← ok_or (bonded s !! stash) NotStash;
       mret (bool_decide (default 0 (total <$> ledger s !! controller) < minimum_balance)));
  ensure (reapable = true) FundedTarget ≫= λ _,
  kill_stash stash num_slashing_spans ≫= λ _,
  modify (λ s, s <| currency ::= remove_lock stash |>).

(** * Deferred slashes *)

(** The loop removes the item at each index, less the items already removed. *)
Fixpoint remove_indices {A} (removed : Z) (indices : list Z) (l : list A) : list A :=
  match indices with
  | [] => l
  | i :: indices' =>
      remove_indices (removed + 1) indices' (vec_remove (Z.to_nat (i - removed)) l)
  end.

Definition cancel_deferred_slash (o : Origin) (e : EraIndex) (slash_indices : list Z)
    : Call unit :=
  ensure (slash_cancel_origin o = true) BadOrigin ≫= λ _,
  ensure (slash_indices ≠ []) EmptyTargets ≫= λ _,
  ensure (is_sorted_and_unique slash_indices = true) NotSortedAndUnique ≫= λ _,
  s ← gets id;
  let unapplied := unapplied_slashes s e in
  let last_item := default 0 (last slash_indices) in
  ensure (last_item < Z.of_nat (length unapplied)) InvalidSlashIndex ≫= λ _,
  modify (λ s, s <| unapplied_slashes_map ::=
    insert e (remove_indices 0 slash_indices unapplied) |>).

(** * The hook: the time the first era started *)

Definition on_finalize (now_as_millis : Z) : Call unit :=
  modify (λ s,
    match active_era s with
    | Some ae =>
        match ae_start ae with
        | None => s <| active_era := Some {| ae_index := ae_index ae;
                                             ae_start := Some (Z.min now_as_millis (umax 64)) |} |>
        | Some _ => s
        end
    | None => s
    end).

(** * Genesis

    [GenesisConfig]; the build panics, here [None], when an assertion fails. *)

Record GenesisConfig := {
  g_history_depth : Z;
  g_validator_count : Z;
  g_minimum_validator_count : Z;
  g_invulnerables : list AccountId;
  g_force_era : Forcing;
  g_slash_reward_fraction : Z;
  g_canceled_payout : Z;
  g_stakers : list (AccountId * AccountId * Z * StakerStatus);
  g_min_nominator_bond : Z;
  g_min_validator_bond : Z;
  g_max_validator_count : option Z;
  g_max_nominator_count : option Z;
}.

Definition assert_ok (m : Call unit) (s : Store) : option Store :=
  match m s with
  | (Ok _, s') => Some s'
  | (Err _, _) => None
  end.

Definition genesis_staker (s : Store)
    (staker : AccountId * AccountId * Z * StakerStatus) : option Store :=
  let '(stash, controller, balance, status) := staker in
  if decide (free_balance stash (currency s) >= balance) then
    s' ← assert_ok (bond (Signed stash) (unlookup controller) balance Staked) s;
    match status with
    | StatusValidator => assert_ok (validate (Signed controller) ValidatorPrefs_default) s'
    | StatusNominator votes => assert_ok (nominate (Signed controller) (map unlookup votes)) s'
    | Idle => Some s'
    end
  else None.

Fixpoint genesis_stakers (s : Store)
    (stakers : list (AccountId * AccountId * Z * StakerStatus)) : option Store :=
  match stakers with
  | [] => Some s
  | st :: stakers' => s' ← genesis_staker s st; genesis_stakers s' stakers'
  end.

Definition genesis_values (g : GenesisConfig) (s : Store) : Store :=
  s <| history_depth := g_history_depth g |>
    <| validator_count := g_validator_count g |>
    <| minimum_validator_count := g_minimum_validator_count g |>
    <| invulnerables := g_invulnerables g |>
    <| force_era := g_force_era g |>
    <| canceled_payout := g_canceled_payout g |>
    <| slash_reward_fraction := g_slash_reward_fraction g |>
    <| storage_version := V7_0_0 |>
    <| min_nominator_bond := g_min_nominator_bond g |>
    <| min_validator_bond := g_min_validator_bond g |>
    <| max_validators_count ::= λ v, match g_max_validator_count g with
                                     | Some x => Some x | None => v end |>
    <| max_nominators_count ::= λ v, match g_max_nominator_count g with
                                     | Some x => Some x | None => v end |>.

Definition genesis_build (g : GenesisConfig) (s : Store) : option Store :=
  s' ← genesis_stakers (genesis_values g s) (g_stakers g);
  if decide (Z.of_nat (vl_count (voter_list s'))
             = wadd 32 (count (nominators s')) (count (validators_map s')))
  then Some s' else None.

(** * [StakingInterface] *)

Definition si_minimum_bond (s : Store) : Z := min_nominator_bond s.
Definition si_current_era (s : Store) : EraIndex := default 0 (current_era s).
Definition si_active_stake (s : Store) (controller : AccountId) : option Z :=
  active <$> ledger s !! controller.
Definition si_total_stake (s : Store) (controller : AccountId) : option Z :=
  total <$> ledger s !! controller.
Definition si_bonding_duration : EraIndex := BondingDuration.
Definition si_nominations (s : Store) (who : AccountId) : option (list AccountId) :=
  targets <$> nominators s !! who.
Definition si_bond_extra (stash : AccountId) (extra : Z) : Call unit :=
  bond_extra (Signed stash) extra.
Definition si_unbond (controller : AccountId) (v : Z) : Call unit :=
  unbond (Signed controller) v.
Definition si_chill (controller : AccountId) : Call unit := chill (Signed controller).
(** The answer is whether the controller has no ledger any more. *)
Definition si_withdraw_unbonded (controller : AccountId) (num_slashing_spans : Z)
    : Call bool :=
  withdraw_unbonded (Signed controller) num_slashing_spans ≫= λ _,
  gets (λ s, bool_decide (ledger s !! controller = None)).
Definition si_bond (stash controller : AccountId) (v : Z) (payee : AccountId) : Call unit :=
  bond (Signed stash) (unlookup controller) v (Account payee).
Definition si_nominate (controller : AccountId) (ts : list AccountId) : Call unit :=
  nominate (Signed controller) (map unlookup ts).
End Governance.
