(* ===== verification/Payout.v ===== *)
(** The payout of staking rewards: the reward fund, the rewards not claimed
    yet, and the payout of a validator and its nominators
    ([frame/staking/src/pallet/impls.rs], [payout_stakers] of
    [frame/staking/src/pallet/mod.rs]). *)

From Stdlib Require Import ZArith Lia.
From stdpp Require Import base option list gmap fin_maps fin_sets strings.
From S2P Require Import Prelude Interfaces StakingLedger SlashingSpans StakingState.
#[local] Open Scope Z_scope.

(** [primitives::EXISTENTIAL_DEPOSIT]: ten cents of a token of 18 decimals. *)
Definition EXISTENTIAL_DEPOSIT : Z :=
  let DOLLARS := 10 ^ 18 in
  let CENTS := DOLLARS / 100 in
  10 * CENTS.

Section Payout.
Context `{PerThing} `{StakingConfig}.

Definition update_not_claimed_reward (e : EraIndex) (claimed_value : Z) : Call unit :=
  modify (λ s,
    match eras_not_claimed_reward_map s !! e with
    | None => s
    | Some reward =>
        s <| eras_not_claimed_reward_map ::= insert e (sat_sub reward claimed_value) |>
    end).

(** The [while] loop over the eras before the current one. *)
Definition get_total_not_claimed_reward (s : Store) (ce : EraIndex) : Z :=
  let first := sat_sub ce (wsub 32 (history_depth s) 1) in
  foldl (λ result e,
    match eras_not_claimed_reward_map s !! e with
    | None => result
    | Some reward => sat_add 128 result reward
    end) 0 (seqZ first (ce - first)).

Definition fund_account_id : AccountId := pallet_account "fundreve".

Definition fund_balance (s : Store) : Z :=
  sat_sub (free_balance fund_account_id (currency s)) EXISTENTIAL_DEPOSIT.

(** [make_payout]: the imbalance is the amount created. *)
Definition make_payout (stash : AccountId) (amount : Z) : Call (option Z) :=
  s ← gets id;
  match payee s stash with
  | Controller =>
      match bonded s !! stash with
      | Some controller =>
          let '(imb, c) := deposit_creating controller amount (currency s) in
          modify (λ s, s <| currency := c |>) ≫= λ _, mret (Some imb)
      | None => mret None
      end
  | Stash =>
      let '(imb, c) := deposit_into_existing stash amount (currency s) in
      modify (λ s, s <| currency := c |>) ≫= λ _, mret imb
  | Staked =>
      match bonded s !! stash with
      | None => mret None
      | Some controller =>
          match ledger s !! controller with
          | None => mret None
          | Some l =>
              let l' := l <| active ::= λ a, wadd 128 a amount |>
                          <| total ::= λ t, wadd 128 t amount |> in
              let '(r, c) := deposit_into_existing stash amount (currency s) in
              modify (λ s, s <| currency := c |>) ≫= λ _,
              update_ledger controller l' ≫= λ _,
              mret r
          end
      end
  | Account dest_account =>
      let '(imb, c) := deposit_creating dest_account amount (currency s) in
      modify (λ s, s <| currency := c |>) ≫= λ _, mret (Some imb)
  | NoDestination => mret None
  end.

(** A payout with its event; the total imbalance with it. *)
Definition payout_one (who : AccountId) (amount total_imbalance : Z) : Call Z :=
  r ← make_payout who amount;
  match r with
  | Some imbalance =>
      deposit_event (Rewarded who imbalance) ≫= λ _,
      mret (sat_add 128 total_imbalance imbalance)
  | None => mret total_imbalance
  end.

Fixpoint payout_nominators (exposure_total validator_leftover_payout : Z)
    (noms : list IndividualExposure) (total_imbalance : Z) : Call Z :=
  match noms with
  | [] => mret total_imbalance
  | nominator :: noms' =>
      let nominator_exposure_part :=
        perbill_from_rational (ie_value nominator) exposure_total in
      let nominator_reward := perbill_mul nominator_exposure_part validator_leftover_payout in
      total' ← payout_one (who nominator) nominator_reward total_imbalance;
      payout_nominators exposure_total validator_leftover_payout noms' total'
  end.

(** What the validator gets and what is left for the stakers. *)
Definition validator_payouts (s : Store) (validator_stash : AccountId) (e : EraIndex)
    (exposure : Exposure) (validator_reward_points total_reward_points era_payout : Z)
    : Z * Z :=
  let validator_total_reward_part :=
    perbill_from_rational validator_reward_points total_reward_points in
  let validator_total_payout := perbill_mul validator_total_reward_part era_payout in
  let validator_commission := commission (eras_validator_prefs s e validator_stash) in
  let validator_commission_payout := perbill_mul validator_commission validator_total_payout in
  let validator_leftover_payout :=
    wsub 128 validator_total_payout validator_commission_payout in
  let validator_exposure_part :=
    perbill_from_rational (own exposure) (exp_total exposure) in
  let validator_staking_payout :=
    perbill_mul validator_exposure_part validator_leftover_payout in
  (wadd 128 validator_staking_payout validator_commission_payout, validator_leftover_payout).

(** The transfer of the paid total out of the reward fund: the imbalance is
    settled against the fund, or dropped when that fails. *)
Definition settle_payouts (v : Z) : Call unit :=
  s ← gets id;
  match settle fund_account_id v KeepAlive (currency s) with
  | Some c => modify (λ s, s <| currency := c |>)
  | None => modify (λ s, s <| currency ::= drop_positive v |>) ≫= λ _, throw CannotPayout
  end.

(** The claim of an era in the ledger of the validator. *)
Definition claim_era (s : Store) (validator_stash : AccountId) (e : EraIndex)
    : result Error (AccountId * StakingLedger * Z) :=
  match current_era s with
  | None => Err InvalidEraToReward
  | Some ce =>
      if decide (e ≤ ce ∧ e >= sat_sub ce (history_depth s)) then
        match eras_validator_reward s !! e with
        | None => Err InvalidEraToReward
        | Some era_payout =>
            match bonded s !! validator_stash with
            | None => Err NotStash
            | Some controller =>
                match ledger s !! controller with
                | None => Err NotController
                | Some l =>
                    let claimed :=
                      filter (λ x, x >= sat_sub ce (history_depth s)) (claimed_rewards l) in
                    match binary_search_by_key id e claimed with
                    | Ok _ => Err AlreadyClaimed
                    | Err pos =>
                        Ok (controller, l <| claimed_rewards := vec_insert pos e claimed |>,
                            era_payout)
                    end
                end
            end
        end
      else Err InvalidEraToReward
  end.

Definition do_payout_stakers (validator_stash : AccountId) (e : EraIndex) : Call unit :=
  s ← gets id;
  '(controller, l, era_payout) ← of_result (claim_era s validator_stash e);
  let exposure := eras_stakers_clipped s e (stash l) in
  modify (λ s, s <| ledger ::= insert controller l |>) ≫= λ _,
  let points := eras_reward_points s e in
  let validator_reward_points := default 0 (individual points !! stash l) in
  if decide (validator_reward_points = 0) then mret tt
  else
    let '(validator_payout, validator_leftover_payout) :=
      validator_payouts s validator_stash e exposure validator_reward_points
        (rp_total points) era_payout in
    deposit_event (PayoutStarted e (stash l)) ≫= λ _,
    total1 ← payout_one (stash l) validator_payout 0;
    value ← payout_nominators (exp_total exposure) validator_leftover_payout
              (others exposure) total1;
    settle_payouts value ≫= λ _,
    update_not_claimed_reward e value.

Definition payout_stakers (o : Origin) (validator_stash : AccountId) (e : EraIndex) : Call unit :=
  ensure_signed o ≫= λ _, do_payout_stakers validator_stash e.
End Payout.
