(* ===== verification/Eras.v ===== *)
(** Sessions and eras: planning, starting and ending them, the exposures of an
    era, reward points, and what the election reads
    ([frame/staking/src/pallet/impls.rs]). *)

From Stdlib Require Import ZArith Lia.
From stdpp Require Import base option list gmap fin_maps fin_sets strings.
From S2P Require Import Prelude Interfaces StakingLedger SlashingSpans StakingState Slashing.
From S2P Require Import Payout.
#[local] Open Scope Z_scope.

(** A support of the election: a winner and its voters with their weights. *)
Abbreviation Supports := (list (AccountId * list (AccountId * Z))) (only parsing).

Definition NPOS_MAX_ITERATIONS_COEFFICIENT : Z := 2.

Section Eras.
Context `{PerThing} `{StakingConfig}.

(** * Exposures *)

Definition add_voter_exposure (validator : AccountId) (ex : Exposure)
    (voter : AccountId * Z) : Exposure :=
  let '(nominator, stake) := voter in
  let '(own', others') :=
    if decide (nominator = validator) then (sat_add 128 (own ex) stake, others ex)
    else (own ex, others ex ++ [ {| who := nominator; ie_value := stake |} ]) in
  {| exp_total := sat_add 128 (exp_total ex) stake; own := own'; others := others' |}.

Definition collect_exposures (s : Store) (supports : Supports) : list (AccountId * Exposure) :=
  let total_issuance := total_issuance (currency s) in
  map (λ '(validator, voters),
    (validator,
     foldl (add_voter_exposure validator) Exposure_default
       (map (λ '(nominator, weight), (nominator, to_currency weight total_issuance)) voters)))
    supports.

(** [sort_by] with the reversed order of the values: stable, largest first. *)
Fixpoint insert_desc (x : IndividualExposure) (l : list IndividualExposure)
    : list IndividualExposure :=
  match l with
  | [] => [x]
  | y :: l' => if decide (ie_value y ≤ ie_value x) then x :: l else y :: insert_desc x l'
  end.
Definition sort_desc (l : list IndividualExposure) : list IndividualExposure :=
  foldr insert_desc [] l.

Definition clip_exposure (ex : Exposure) : Exposure :=
  if decide (MaxNominatorRewardedPerValidator < length (others ex))%nat then
    {| exp_total := exp_total ex; own := own ex;
       others := take MaxNominatorRewardedPerValidator (sort_desc (others ex)) |}
  else ex.

Definition store_stakers_info (exposures : list (AccountId * Exposure))
    (new_planned_era : EraIndex) : Call (list AccountId) :=
  let elected_stashes := map fst exposures in
  for_each exposures (λ '(stash, exposure),
    modify (λ s, s <| eras_stakers_map ::= insert (new_planned_era, stash) exposure |>
                   <| eras_stakers_clipped_map ::=
                        insert (new_planned_era, stash) (clip_exposure exposure) |>)) ≫= λ _,
  let total_stake := foldl (λ t '(_, ex), sat_add 128 t (exp_total ex)) 0 exposures in
  modify (λ s, s <| eras_total_stake_map ::= insert new_planned_era total_stake |>) ≫= λ _,
  for_each elected_stashes (λ stash,
    modify (λ s, s <| eras_validator_prefs_map ::=
                   insert (new_planned_era, stash) (validators s stash) |>)) ≫= λ _,
  mret elected_stashes.

(** * Planning an era *)

Definition clear_era_information (e : EraIndex) : Call unit :=
  modify (λ s,
    s <| eras_stakers_map ::= remove_prefix e |>
      <| eras_stakers_clipped_map ::= remove_prefix e |>
      <| eras_validator_prefs_map ::= remove_prefix e |>
      <| eras_validator_reward ::= delete e |>
      <| eras_reward_points_map ::= delete e |>
      <| eras_total_stake_map ::= delete e |>
      <| eras_not_claimed_reward_map ::= delete e |>
      <| eras_start_session_index ::= delete e |>).

Definition set_history_depth (o : Origin) (new_history_depth : Z) : Call unit :=
  ensure_root o ≫= λ _,
  s ← gets id;
  match current_era s with
  | None => mret tt
  | Some ce =>
      let last_kept := sat_sub ce (history_depth s) in
      let new_last_kept := sat_sub ce new_history_depth in
      for_each (seqZ last_kept (new_last_kept - last_kept)) clear_era_information ≫= λ _,
      modify (λ s, s <| history_depth := new_history_depth |>)
  end.

Definition trigger_new_era (start_session_index : SessionIndex)
    (exposures : list (AccountId * Exposure)) : Call (list AccountId) :=
  s ← gets id;
  let new_planned_era := match current_era s with Some e => wadd 32 e 1 | None => 0 end in
  modify (λ s, s <| current_era := Some new_planned_era |>
                 <| eras_start_session_index ::= insert new_planned_era start_session_index |>)
    ≫= λ _,
  match checked_sub new_planned_era (wadd 32 (history_depth s) 1) with
  | Some old_era => clear_era_information old_era
  | None => mret tt
  end ≫= λ _,
  store_stakers_info exposures new_planned_era.

(** The election provider, at genesis or not, on the storage it reads. *)
Context (elect : bool → Store → option Supports).

Definition try_trigger_new_era (start_session_index : SessionIndex) (is_genesis : bool)
    : Call (option (list AccountId)) :=
  s ← gets id;
  match elect is_genesis s with
  | None => deposit_event StakingElectionFailed ≫= λ _, mret None
  | Some supports =>
      let exposures := collect_exposures s supports in
      if decide (Z.of_nat (length exposures) < Z.max (minimum_validator_count s) 1) then
        when (current_era s = None)
          (modify (λ s, s <| current_era := Some 0 |>
                          <| eras_start_session_index ::= insert 0 start_session_index |>)) ≫= λ _,
        deposit_event StakingElectionFailed ≫= λ _,
        mret None
      else
        deposit_event StakersElected ≫= λ _,
        vals ← trigger_new_era start_session_index exposures;
        mret (Some vals)
  end.

Definition new_session (session_index : SessionIndex) (is_genesis : bool)
    : Call (option (list AccountId)) :=
  s ← gets id;
  match current_era s with
  | None => try_trigger_new_era session_index is_genesis
  | Some ce =>
      let current_era_start_session_index := default 0 (eras_start_session_index s !! ce) in
      let era_length := sat_sub session_index current_era_start_session_index in
      let go := match force_era s with
                | ForceNew | ForceAlways => true
                | NotForcing => bool_decide (era_length >= SessionsPerEra)
                | ForceNone => false
                end in
      if (go : bool) then
        vals ← try_trigger_new_era session_index is_genesis;
        s' ← gets id;
        when (vals ≠ None ∧ force_era s' = ForceNew)
          (modify (λ s, s <| force_era := NotForcing |>)) ≫= λ _,
        mret vals
      else mret None
  end.

(** * Starting an era *)

(** The closure of [BondedEras::mutate]: the eras that stay and the ones that
    are pruned. *)
Definition prune_bonded (bonding_duration active_era : EraIndex)
    (b : list (EraIndex * SessionIndex))
    : list (EraIndex * SessionIndex) * list (EraIndex * SessionIndex) :=
  if decide (active_era > bonding_duration) then
    let first_kept := wsub 32 active_era bonding_duration in
    let n_to_prune :=
      match list_find (λ es, ¬ es.1 < first_kept) b with
      | Some (n, _) => n
      | None => length b
      end in
    (drop n_to_prune b, take n_to_prune b)
  else (b, []).

Definition start_era (start_session : SessionIndex) : Call unit :=
  s ← gets id;
  let ae := match active_era s with Some info => wadd 32 (ae_index info) 1 | None => 0 end in
  modify (λ s, s <| active_era := Some {| ae_index := ae; ae_start := None |} |>) ≫= λ _,
  let '(kept, pruned) := prune_bonded BondingDuration ae (bonded_eras s ++ [(ae, start_session)]) in
  for_each pruned (λ '(pruned_era, _), clear_era_metadata pruned_era) ≫= λ _,
  when (ae > BondingDuration)
    (match head kept with
     | Some (_, first_session) =>
         modify (λ s, s <| sessions ::= session_prune_historical_up_to first_session |>)
     | None => mret tt
     end) ≫= λ _,
  modify (λ s, s <| bonded_eras := kept |>) ≫= λ _,
  apply_unapplied_slashes ae.

Definition start_session (start : SessionIndex) : Call unit :=
  s ← gets id;
  let next_active_era :=
    match active_era s with Some e => wadd 32 (ae_index e) 1 | None => 0 end in
  match eras_start_session_index s !! next_active_era with
  | Some next_start => when (next_start ≤ start) (start_era start)
  | None => mret tt
  end ≫= λ _,
  s' ← gets id;
  for_each (offending_validators s') (λ '(idx, disabled),
    when (disabled = true) (modify (λ s, s <| sessions ::= session_disable_validator idx |>))).

(** * Ending an era *)

Definition end_era (ae : ActiveEraInfo) : Call unit :=
  match ae_start ae with
  | None => mret tt
  | Some _ =>
      modify (λ s, s <| currency ::= trigger_wallet |>) ≫= λ _,
      s ← gets id;
      let total_fund := fund_balance s in
      let not_claimed_reward := get_total_not_claimed_reward s (ae_index ae) in
      let era_reward := sat_sub total_fund not_claimed_reward in
      deposit_event (EraPaid (ae_index ae) era_reward) ≫= λ _,
      modify (λ s, s <| eras_validator_reward ::= insert (ae_index ae) era_reward |>
                     <| eras_not_claimed_reward_map ::= insert (ae_index ae) era_reward |>
                     <| offending_validators := [] |>)
  end.

Definition end_session (session_index : SessionIndex) : Call unit :=
  s ← gets id;
  match active_era s with
  | None => mret tt
  | Some ae =>
      match eras_start_session_index s !! (wadd 32 (ae_index ae) 1) with
      | Some next_start =>
          when (next_start = wadd 32 session_index 1) (end_era ae)
      | None => mret tt
      end
  end.

(** * Reward points *)

Definition add_points (ep : EraRewardPoints) (vp : AccountId * Z) : EraRewardPoints :=
  let '(validator, points) := vp in
  {| rp_total := wadd 32 (rp_total ep) points;
     individual := <[validator := wadd 32 (default 0 (individual ep !! validator)) points]>
                     (individual ep) |}.

Definition reward_by_ids (validators_points : list (AccountId * Z)) : Call unit :=
  s ← gets id;
  match active_era s with
  | None => mret tt
  | Some ae =>
      modify (λ s, s <| eras_reward_points_map ::=
        insert (ae_index ae) (foldl add_points (eras_reward_points s (ae_index ae))
                                validators_points) |>)
  end.

Definition note_author (author : AccountId) : Call unit := reward_by_ids [(author, 20)].

(** [block_author] is the answer of the authorship pallet. *)
Definition note_uncle (block_author : option AccountId) (uncle_author : AccountId) : Call unit :=
  match block_author with
  | Some author => reward_by_ids [(author, 2); (uncle_author, 1)]
  | None => mret tt
  end.

(** * What the election reads *)

(** A vote from before the last slash of the target does not count. *)
Definition target_retained (s : Store) (nom : Nominations) (stash : AccountId) : bool :=
  match slashing_spans s !! stash with
  | Some sps => bool_decide (submitted_in nom >= last_nonzero_slash sps)
  | None => true
  end.

(** The [while] loop over the voter list. *)
Fixpoint collect_voters (s : Store) (max_allowed_len : Z) (voters_seen : Z)
    (all_voters : list (AccountId * Z * list AccountId)) (sorted_voters : list AccountId)
    : list (AccountId * Z * list AccountId) :=
  if decide (Z.of_nat (length all_voters) < max_allowed_len ∧
             voters_seen < wmul 32 NPOS_MAX_ITERATIONS_COEFFICIENT max_allowed_len) then
    match sorted_voters with
    | [] => all_voters
    | voter :: rest =>
        let voters_seen := sat_add 32 voters_seen 1 in
        match nominators s !! voter with
        | Some nom =>
            let ts := filter (λ stash, target_retained s nom stash = true) (targets nom) in
            collect_voters s max_allowed_len voters_seen
              (match ts with [] => all_voters
                             | _ => all_voters ++ [(voter, weight_of s voter, ts)] end) rest
        | None =>
            collect_voters s max_allowed_len voters_seen
              (match validators_map s !! voter with
               | Some _ => all_voters ++ [(voter, weight_of s voter, [voter])]
               | None => all_voters end) rest
        end
    end
  else all_voters.

Definition get_npos_voters (s : Store) (maybe_max_len : option Z)
    : list (AccountId * Z * list AccountId) :=
  let all_voter_count := Z.of_nat (vl_count (voter_list s)) in
  let max_allowed_len := Z.min (default all_voter_count maybe_max_len) all_voter_count in
  collect_voters s max_allowed_len 0 [] (vl_iter (voter_list s)).

Definition get_npos_targets (s : Store) : list AccountId :=
  map fst (map_to_list (validators_map s)).

Definition desired_targets (s : Store) : Z := validator_count s.

Definition electing_voters (s : Store) (maybe_max_len : option Z)
    : list (AccountId * Z * list AccountId) := get_npos_voters s maybe_max_len.

(** [None] is the error "Target snapshot too big". *)
Definition electable_targets (s : Store) (maybe_max_len : option Z)
    : option (list AccountId) :=
  if match maybe_max_len with
     | Some max_len => bool_decide (count (validators_map s) > max_len mod 2 ^ 32)
     | None => false
     end
  then None else Some (get_npos_targets s).

(** [next_new_session] is [estimate_next_new_session] and [session_length] the
    average length; block numbers are [u32]. *)
Definition next_election_prediction (s : Store) (next_new_session : option Z)
    (session_length now : Z) : Z :=
  let ce := default 0 (current_era s) in
  let start := default 0 (eras_start_session_index s !! ce) in
  let era_progress := Z.min (sat_sub (current_planned_session s) start) SessionsPerEra in
  let until_this_session_end := sat_sub (default 0 next_new_session) now in
  let sessions_left :=
    match force_era s with
    | ForceNone => umax 32
    | ForceNew | ForceAlways => 0
    | NotForcing =>
        if decide (era_progress >= SessionsPerEra) then 0
        else sat_sub (sat_sub SessionsPerEra era_progress) 1
    end in
  sat_add 32 now (sat_add 32 until_this_session_end (sat_mul 32 sessions_left session_length)).

(** * The session manager *)

Definition sm_new_session (is_genesis : bool) (new_index : SessionIndex)
    : Call (option (list AccountId)) :=
  modify (λ s, s <| current_planned_session := new_index |>) ≫= λ _,
  new_session new_index is_genesis.

(** [historical::SessionManager]: the validators with their exposures. *)
Definition hsm_new_session (is_genesis : bool) (new_index : SessionIndex)
    : Call (option (list (AccountId * Exposure))) :=
  vals ← sm_new_session is_genesis new_index;
  s ← gets id;
  mret ((λ vs, map (λ v, (v, eras_stakers s (default 0 (current_era s)) v)) vs) <$> vals).

(** * The voter list made of the two maps *)

Definition unvm_iter (s : Store) : list AccountId :=
  map fst (map_to_list (validators_map s)) ++ map fst (map_to_list (nominators s)).

(** The keys of a map after one of them, in the order of the map. *)
Fixpoint keys_after (start : AccountId) (l : list AccountId) : list AccountId :=
  match l with
  | [] => []
  | a :: l' => if decide (a = start) then l' else keys_after start l'
  end.

Definition unvm_iter_from (s : Store) (start : AccountId) : result unit (list AccountId) :=
  if decide (validators_map s !! start ≠ None) then
    Ok (keys_after start (map fst (map_to_list (validators_map s)))
        ++ map fst (map_to_list (nominators s)))
  else if decide (nominators s !! start ≠ None) then
    Ok (keys_after start (map fst (map_to_list (nominators s))))
  else Err tt.

Definition unvm_count (s : Store) : Z :=
  sat_add 32 (count (nominators s)) (count (validators_map s)).
Definition unvm_contains (s : Store) (who : AccountId) : bool :=
  bool_decide (nominators s !! who ≠ None ∨ validators_map s !! who ≠ None).
Definition unvm_get_score (s : Store) (who : AccountId) : Z := weight_of s who.
Definition unvm_unsafe_clear : Call unit :=
  modify (λ s, s <| nominators := ∅ |> <| validators_map := ∅ |>).
(** * What other pallets ask: [StashOf], [ExposureOf] and [ScoreProvider] *)

Definition stash_of (s : Store) (controller : AccountId) : option AccountId :=
  stash <$> ledger s !! controller.
Definition exposure_of (s : Store) (validator : AccountId) : option Exposure :=
  (λ era, eras_stakers s (ae_index era) validator) <$> active_era s.
Definition score (s : Store) (who : AccountId) : Z := weight_of s who.
End Eras.
