(* ===== verification/StakingInvariant.v ===== *)
(** The invariant of the staking pallet: stash and controller accounts are
    paired one to one, every ledger is well formed, and a stash has at most
    one role, and only while it is bonded.  Every call, the slashing of an
    offence and the hooks of sessions and eras keep it, on success and on
    error. *)

From Stdlib Require Import ZArith Lia.
From stdpp Require Import base option list gmap fin_maps fin_sets strings.
From S2P Require Import Prelude Interfaces StakingLedger SlashingSpans StakingState Slashing.
From S2P Require Import Bonding Governance Payout Eras.
#[local] Open Scope Z_scope.

Definition ledger_ok (l : StakingLedger) : Prop :=
  ledger_wf l ∧ sorted_by id (claimed_rewards l).

Record stake_wf (bd : gmap AccountId AccountId) (lg : gmap AccountId StakingLedger)
    (vs : gmap AccountId ValidatorPrefs) (ns : gmap AccountId Nominations) : Prop := {
  wf_bonded st c : bd !! st = Some c → ∃ l, lg !! c = Some l ∧ stash l = st;
  wf_ledger c l : lg !! c = Some l → bd !! stash l = Some c ∧ ledger_ok l;
  wf_validator st : vs !! st ≠ None → bd !! st ≠ None;
  wf_nominator st : ns !! st ≠ None → bd !! st ≠ None;
  wf_one_role st : vs !! st ≠ None → ns !! st = None;
}.

Definition us_wf (u : UnappliedSlash) : Prop :=
  0 ≤ us_own u ∧ Forall (λ nv, 0 ≤ nv.2) (us_others u) ∧ 0 ≤ us_payout u.

Definition unapplied_wf (m : gmap EraIndex (list UnappliedSlash)) : Prop :=
  map_Forall (λ _, Forall us_wf) m.

(** * The writes that keep it *)

Section Writes.
Context (bd : gmap AccountId AccountId) (lg : gmap AccountId StakingLedger)
  (vs : gmap AccountId ValidatorPrefs) (ns : gmap AccountId Nominations).
Context (Hwf : stake_wf bd lg vs ns).

Lemma stake_wf_update c l l' :
  lg !! c = Some l → stash l' = stash l → ledger_ok l' → stake_wf bd (<[c:=l']> lg) vs ns.
Proof.
  intros Hc Hst Hok. destruct Hwf as [Hb Hl Hv Hn Hr]. split; try done.
  - intros st c' (l0 & Hc' & <-)%Hb. destruct (decide (c = c')) as [<-|Hne].
    + exists l'. rewrite lookup_insert_eq. split; [done|]. by rewrite Hst; congruence.
    + exists l0. by rewrite lookup_insert_ne.
  - intros c' l0 [(-> & ->)|(Hne & Hc')]%lookup_insert_Some; [|by apply Hl].
    rewrite Hst. split; [by apply (Hl c' l)|done].
Qed.

Lemma stake_wf_bond st c l :
  bd !! st = None → lg !! c = None → stash l = st → ledger_ok l →
  stake_wf (<[st:=c]> bd) (<[c:=l]> lg) vs ns.
Proof.
  intros Hst Hc <- Hok. destruct Hwf as [Hb Hl Hv Hn Hr]. split; try done.
  - intros st' c' [(<- & <-)|(Hne & Hst')]%lookup_insert_Some.
    + exists l. by rewrite lookup_insert_eq.
    + destruct (Hb _ _ Hst') as (l0 & Hl0 & Heq). exists l0. split; [|done].
      rewrite lookup_insert_ne; [done|]. intros <-. congruence.
  - intros c' l0 [(<- & <-)|(Hne & Hc')]%lookup_insert_Some; [by rewrite lookup_insert_eq|].
    destruct (Hl _ _ Hc') as [Hbd ?]. split; [|done].
    rewrite lookup_insert_ne; [done|]. intros Heq. congruence.
  - intros st' Hst' [? _]%lookup_insert_None. by apply (Hv st').
  - intros st' Hst' [? _]%lookup_insert_None. by apply (Hn st').
Qed.

Lemma stake_wf_kill st c :
  bd !! st = Some c → stake_wf (delete st bd) (delete c lg) (delete st vs) (delete st ns).
Proof.
  intros Hst. destruct Hwf as [Hb Hl Hv Hn Hr].
  destruct (Hb _ _ Hst) as (l & Hc & Hl0). split.
  - intros st' c' (Hne & Hst')%lookup_delete_Some. destruct (Hb _ _ Hst') as (l' & Hl' & <-).
    exists l'. rewrite lookup_delete_ne; [done|]. intros <-. congruence.
  - intros c' l' (Hne & Hc')%lookup_delete_Some. destruct (Hl _ _ Hc') as [Hbd ?].
    split; [|done]. rewrite lookup_delete_ne; [done|]. intros Heq. congruence.
  - intros st'. rewrite !lookup_delete. destruct (decide _); [done|]. apply Hv.
  - intros st'. rewrite !lookup_delete. destruct (decide _); [done|]. apply Hn.
  - intros st'. rewrite !lookup_delete. destruct (decide _); [done|]. apply Hr.
Qed.

Lemma stake_wf_move st c c' l :
  bd !! st = Some c → lg !! c = Some l → lg !! c' = None →
  stake_wf (<[st:=c']> bd) (<[c':=l]> (delete c lg)) vs ns.
Proof.
  intros Hst Hc Hc'. destruct Hwf as [Hb Hl Hv Hn Hr].
  destruct (Hl _ _ Hc) as [Hbd Hok]. destruct (Hb _ _ Hst) as (l0 & Hl0 & Hs).
  assert (l0 = l) as -> by congruence. split; try done.
  - intros st' c0 [(<- & <-)|(Hne & Hst')]%lookup_insert_Some.
    + exists l. by rewrite lookup_insert_eq.
    + destruct (Hb _ _ Hst') as (l1 & Hl1 & Heq). exists l1. split; [|done].
      rewrite lookup_insert_ne, lookup_delete_ne; [done| |]; intros ->; congruence.
  - intros c0 l1 [(<- & <-)|(Hne & Hc0)]%lookup_insert_Some.
    + by rewrite Hs, lookup_insert_eq.
    + apply lookup_delete_Some in Hc0 as [Hne0 Hc0]. destruct (Hl _ _ Hc0) as [Hb1 ?].
      split; [|done]. rewrite lookup_insert_ne; [done|]. intros ->. congruence.
  - intros st' Hst' [? _]%lookup_insert_None. by apply (Hv st').
  - intros st' Hst' [? _]%lookup_insert_None. by apply (Hn st').
Qed.

Lemma stake_wf_chill st : stake_wf bd lg (delete st vs) (delete st ns).
Proof.
  destruct Hwf as [Hb Hl Hv Hn Hr]. split; try done; intros st'; rewrite ?lookup_delete;
    destruct (decide _); try done; eauto.
Qed.

Lemma stake_wf_validate st p :
  bd !! st ≠ None → stake_wf bd lg (<[st:=p]> vs) (delete st ns).
Proof.
  intros Hst. destruct Hwf as [Hb Hl Hv Hn Hr]. split; try done; intros st';
    rewrite ?lookup_delete, ?lookup_insert; destruct (decide (st = st')); subst; eauto; done.
Qed.

Lemma stake_wf_nominate st n :
  bd !! st ≠ None → stake_wf bd lg (delete st vs) (<[st:=n]> ns).
Proof.
  intros Hst. destruct Hwf as [Hb Hl Hv Hn Hr]. split; try done; intros st';
    rewrite ?lookup_delete, ?lookup_insert; destruct (decide (st = st')); subst; eauto; done.
Qed.

Lemma stake_wf_nominator_update st n : ns !! st ≠ None → stake_wf bd lg vs (<[st:=n]> ns).
Proof.
  intros Hst. destruct Hwf as [Hb Hl Hv Hn Hr]. split; try done; intros st';
    rewrite ?lookup_insert; destruct (decide (st = st')); subst; eauto.
  intros Hv'. exfalso. by apply Hst, Hr.
Qed.

Lemma stake_wf_validator_update st p : vs !! st ≠ None → stake_wf bd lg (<[st:=p]> vs) ns.
Proof.
  intros Hst. destruct Hwf as [Hb Hl Hv Hn Hr]. split; try done; intros st';
    rewrite ?lookup_insert; destruct (decide (st = st')); subst; eauto.
Qed.
End Writes.

(** * The invariant *)

Section Invariant.
Context `{PerThingLaws} `{CurrencyLaws} `{!StakingConfig}.
Implicit Types s : Store.

Definition staking_wf (s : Store) : Prop :=
  stake_wf (bonded s) (ledger s) (validators_map s) (nominators s)
  ∧ unapplied_wf (unapplied_slashes_map s).

(** The part of the storage the invariant reads. *)
Definition core (s : Store) :=
  (bonded s, ledger s, validators_map s, nominators s, unapplied_slashes_map s).

Lemma staking_wf_core s bd lg vs ns un :
  core s = (bd, lg, vs, ns, un) → stake_wf bd lg vs ns → unapplied_wf un → staking_wf s.
Proof. intros [= <- <- <- <- <-]. by split. Qed.

(** An operation that does not write the core keeps the invariant and every
    fact about the core. *)
Definition frames {A} (m : Call A) : Prop := ∀ p, preserves (λ s, core s = p) m.

Lemma frames_wp {A} (m : Call A) s (Q : result Error A → Store → Prop) :
  frames m → (∀ r s', core s' = core s → Q r s') → wp m s Q.
Proof.
  intros Hm HQ. eapply wp_mono; [by eapply (wp_preserves (λ s', core s' = core s))|].
  cbn. intros. by apply HQ.
Qed.

Lemma frames_preserves {A} (m : Call A) : frames m → preserves staking_wf m.
Proof.
  intros Hm. apply preserves_wp. intros s [Hs Hu].
  apply frames_wp; [done|]. intros _ s' Hc. by eapply staking_wf_core.
Qed.

Ltac frame_auto := intros core_val; keeps_auto; try done.

Lemma frames_deposit_event e : frames (deposit_event e).
Proof. unfold deposit_event. frame_auto. Qed.

Lemma frames_update_voter st : frames (update_voter st).
Proof. unfold update_voter. frame_auto. Qed.

Lemma frames_clear_stash_metadata st n : frames (clear_stash_metadata st n).
Proof. unfold clear_stash_metadata. frame_auto. Qed.

Lemma do_remove_validator_wp st s Q :
  (∀ b s', core s' = (bonded s, ledger s, delete st (validators_map s), nominators s,
                      unapplied_slashes_map s) → Q (Ok b) s') →
  wp (do_remove_validator st) s Q.
Proof.
  intros HQ. unfold do_remove_validator. wp_auto; apply HQ; [done|].
  unfold core. by rewrite delete_id.
Qed.

Lemma do_remove_nominator_wp st s Q :
  (∀ b s', core s' = (bonded s, ledger s, validators_map s, delete st (nominators s),
                      unapplied_slashes_map s) → Q (Ok b) s') →
  wp (do_remove_nominator st) s Q.
Proof.
  intros HQ. unfold do_remove_nominator. wp_auto; apply HQ; [done|].
  unfold core. by rewrite delete_id.
Qed.

Lemma do_add_validator_wp st p s Q :
  (∀ s', core s' = (bonded s, ledger s, <[st:=p]> (validators_map s), nominators s,
                    unapplied_slashes_map s) → Q (Ok tt) s') →
  wp (do_add_validator st p) s Q.
Proof. intros HQ. unfold do_add_validator. wp_auto; by apply HQ. Qed.

Lemma do_add_nominator_wp st n s Q :
  (∀ s', core s' = (bonded s, ledger s, validators_map s, <[st:=n]> (nominators s),
                    unapplied_slashes_map s) → Q (Ok tt) s') →
  wp (do_add_nominator st n) s Q.
Proof. intros HQ. unfold do_add_nominator. wp_auto; by apply HQ. Qed.

Lemma chill_stash_wp st s Q :
  (∀ s', core s' = (bonded s, ledger s, delete st (validators_map s),
                    delete st (nominators s), unapplied_slashes_map s) → Q (Ok tt) s') →
  wp (chill_stash st) s Q.
Proof.
  intros HQ. unfold chill_stash. wp_step.
  apply do_remove_validator_wp. intros b1 s1 [= Hb1 Hl1 Hv1 Hn1 Hu1]. wp_step.
  apply do_remove_nominator_wp. intros b2 s2 Hs2. unfold deposit_event.
  wp_auto; apply HQ; unfold core in *; cbn; by rewrite Hs2, Hb1, Hl1, Hv1, Hn1, Hu1.
Qed.

(** * Every call keeps it *)

Lemma update_ledger_wp c l s Q :
  (∀ s', core s' = (bonded s, <[c:=l]> (ledger s), validators_map s, nominators s,
                    unapplied_slashes_map s) → Q (Ok tt) s') →
  wp (update_ledger c l) s Q.
Proof. intros HQ. unfold update_ledger. wp_auto. by apply HQ. Qed.

(** Update a ledger that is there, then do things that do not touch the core. *)
Lemma update_then_frame {A} c l l' (k : Call A) s :
  staking_wf s → ledger s !! c = Some l → stash l' = stash l → ledger_ok l' →
  frames k → wp (update_ledger c l' ≫= λ _, k) s (λ _, staking_wf).
Proof.
  intros [Hs Hu] Hc Hst Hok Hk. wp_step. apply update_ledger_wp. intros s1 Hs1.
  apply frames_wp; [done|]. intros _ s2 Hs2. rewrite Hs1 in Hs2.
  eapply staking_wf_core; [exact Hs2| |done]. by eapply stake_wf_update.
Qed.

Lemma frames_bind {A B} (m : Call A) (k : A → Call B) :
  frames m → (∀ a, frames (k a)) → frames (m ≫= k).
Proof. intros Hm Hk p. apply preserves_keeps_bind; [apply Hm|]. intros a. apply Hk. Qed.

Lemma ledger_ok_bond st v e n :
  u128 v → ledger_ok {| stash := st; total := v; active := v; unlocking := [];
                        claimed_rewards := seqZ e n |}.
Proof.
  intros Hv. split.
  - split; cbn; [unfold unlocking_sum; cbn; lia | done | ulia | constructor].
  - cbn. apply sorted_by_seqZ.
Qed.

Lemma keeps_bond o c v p : 0 ≤ v → preserves staking_wf (bond o c v p).
Proof.
  intros Hv. apply preserves_wp. intros s [Hs Hu]. unfold bond, ensure_signed, deposit_event, update_ledger.
  destruct o as [|who|]; wp_auto; try done. split; [|done]. cbn.
  apply stake_wf_bond; try done. apply ledger_ok_bond.
  pose proof (free_range who (currency s)). ulia.
Qed.

Lemma ledger_ok_add l v t :
  ledger_ok l → 0 ≤ v → total l + v < 2 ^ 128 →
  ledger_ok (l <| total ::= λ t, wadd 128 t v |> <| active ::= λ a, wadd 128 a v |>
               <| claimed_rewards := t |>) ↔ sorted_by id t.
Proof.
  intros [[Htot Hr Ha Hc] Hcl] Hv Hb. pose proof (unlocking_sum_nonneg _ Hc).
  split; [by intros [_ ?]|]. intros Ht. split; [|done].
  unfold unlocking_sum in *.
  split; cbn; rewrite ?wadd_small by ulia; try done; ulia.
Qed.

(** The prefix of the calls of a controller. *)
Lemma controller_call_wp {A} o s (k : AccountId → Store → StakingLedger → Call A) :
  staking_wf s →
  (∀ c l, ledger s !! c = Some l → bonded s !! stash l = Some c → ledger_ok l →
     wp (k c s l) s (λ _, staking_wf)) →
  wp (c ← ensure_signed o; s ← gets id; l ← ok_or (ledger s !! c) NotController; k c s l)
    s (λ _, staking_wf).
Proof.
  intros Hs Hk. destruct o as [|c|]; [done| |done].
  apply wp_bind, wp_ret, wp_get, wp_bind, wp_ok_or; [intros l Hl|done].
  destruct (wf_ledger _ _ _ _ (proj1 Hs) _ _ Hl). by apply Hk.
Qed.

Lemma keeps_bond_extra o v : 0 ≤ v → preserves staking_wf (bond_extra o v).
Proof.
  intros Hv. apply preserves_wp. intros s Hs. unfold bond_extra.
  destruct o as [|st|]; [done| |done].
  apply wp_bind, wp_ret, wp_get, wp_bind, wp_ok_or; [intros c Hc|done].
  apply wp_bind, wp_ok_or; [intros l Hl|done].
  destruct (checked_sub _ _) as [extra|] eqn:He; [|done].
  apply checked_sub_Some in He as [Hle ->]. apply wp_bind, wp_ensure; [intros _|done].
  destruct (wf_ledger _ _ _ _ (proj1 Hs) _ _ Hl) as [_ Hok].
  pose proof (free_range st (currency s)).
  eapply update_then_frame; try done.
  - apply (ledger_ok_add _ _ (claimed_rewards l)); [done | lia | ulia | apply Hok].
  - apply frames_bind; [apply frames_update_voter | intros _; apply frames_deposit_event].
Qed.

(** ** Unbonding *)

Lemma push_chunk_spec chunks v e chunks' :
  push_chunk chunks v e = Some chunks' → 0 ≤ v → unlocking_sum chunks + v < 2 ^ 128 →
  Forall (λ c, 0 ≤ value c) chunks →
  unlocking_sum chunks' = unlocking_sum chunks + v ∧ Forall (λ c, 0 ≤ value c) chunks'.
Proof.
  intros Hp Hv Hb Hc.
  assert (∀ c', chunks ++ [ {| value := v; era := e |} ] = c' →
    unlocking_sum c' = unlocking_sum chunks + v ∧ Forall (λ c, 0 ≤ value c) c') as Hpush.
  { intros c' <-. unfold unlocking_sum. rewrite zsum_app. cbn [zsum value]. split; [lia|].
    apply Forall_app. by repeat constructor. }
  unfold push_chunk in Hp. destruct (last chunks) as [c|] eqn:Hlast.
  2:{ destruct (decide _); [injection Hp as <-; by apply Hpush | done]. }
  destruct (decide (era c = e)).
  2:{ destruct (decide _); [injection Hp as <-; by apply Hpush | done]. }
  injection Hp as <-. apply last_Some in Hlast as [init ->].
  rewrite removelast_last. unfold unlocking_sum in *. rewrite !zsum_app in *. cbn [zsum value] in *.
  apply Forall_app in Hc as [Hi Hc]. apply Forall_cons in Hc as [Hc _]. pose proof (zsum_nonneg value _ Hi).
  rewrite sat_add_exact by ulia. split; [lia|]. apply Forall_app. split; [done|].
  constructor; [cbn; lia | done].
Qed.

Lemma keeps_unbond o v : 0 ≤ v → preserves staking_wf (unbond o v).
Proof.
  intros Hv. apply preserves_wp. intros s Hs. unfold unbond.
  apply controller_call_wp; [done|]. intros c l Hl Hb [[Htot Hr Ha Hc] Hcl].
  pose proof (unlocking_sum_nonneg _ Hc).
  apply wp_bind, wp_ensure; [intros _|done]. cbn zeta.
  set (v1 := Z.min v (active l)). apply wp_when; [intros Hv1|done].
  rewrite (wsub_small _ (active l)) by ulia.
  destruct (if decide _ then _ else _) as [v' act'] eqn:Hv'.
  assert (act' + v' = active l ∧ 0 ≤ act' ∧ 0 ≤ v') as (Hsum & Hact' & Hv'').
  { destruct (decide _); injection Hv' as <- <-; [|lia]. rewrite wadd_small by ulia. lia. }
  apply wp_bind, wp_ensure; [intros _|done].
  apply wp_bind, wp_ok_or; [intros chunks Hch|done].
  apply push_chunk_spec in Hch as [Hsum' Hch]; [|done|ulia|done].
  eapply update_then_frame; try done.
  - split; [|done]. split; cbn; try done. unfold unlocking_sum in *. lia.
  - apply frames_bind; [apply frames_update_voter | intros _; apply frames_deposit_event].
Qed.

Lemma kill_stash_wp st n s (Q : result Error unit → Store → Prop) :
  staking_wf s →
  (∀ r s', staking_wf s' → Q r s') → wp (kill_stash st n) s Q.
Proof.
  intros [Hs Hu] HQ. unfold kill_stash.
  apply wp_get, wp_bind, wp_ok_or; [intros c Hc | intros _; apply HQ; by split].
  apply wp_bind, frames_wp; [apply frames_clear_stash_metadata|].
  intros [[]|e] s1 Hs1; [|apply HQ; by eapply staking_wf_core].
  apply wp_bind, wp_modify, wp_bind, do_remove_validator_wp. intros b1 s2 Hs2.
  apply wp_bind, do_remove_nominator_wp. intros b2 s3 Hs3. apply wp_modify, HQ.
  unfold core in Hs1. injection Hs1 as Hb1 Hl1 Hv1 Hn1 Hu1.
  injection Hs2 as Hb2 Hl2 Hv2 Hn2 Hu2. cbn in *.
  eapply staking_wf_core; [exact Hs3 | | by rewrite Hu2, Hu1].
  rewrite Hb2, Hl2, Hv2, Hn2, Hb1, Hl1, Hv1, Hn1. by apply stake_wf_kill.
Qed.

Lemma keeps_withdraw_unbonded o n : preserves staking_wf (withdraw_unbonded o n).
Proof.
  apply preserves_wp. intros s Hs. unfold withdraw_unbonded.
  apply controller_call_wp; [done|]. intros c l Hl Hb Hok. cbn zeta.
  set (l' := match current_era s with Some ce => _ | None => _ end).
  assert (ledger_ok l' ∧ stash l' = stash l) as [Hok' Hst].
  { unfold l'. destruct (current_era s) as [ce|]; [|done]. destruct Hok as [Hwf Hcl].
    rewrite consolidate_unlocked_eq by done. split; [|done]. split; [|done].
    rewrite <- consolidate_unlocked_eq by done. by apply consolidate_unlocked_wf. }
  assert (∀ s1, staking_wf s1 → wp (when (total l' < total l)
    (deposit_event (Withdrawn (stash l) (wsub 128 (total l) (total l'))))) s1
    (λ _, staking_wf)) as Hev.
  { intros s1 Hs1. apply wp_when; intros _; [|done].
    by apply wp_preserves, Hs1; apply frames_preserves, frames_deposit_event. }
  destruct (decide _); apply wp_bind.
  - apply wp_bind, kill_stash_wp; [done|]. intros [[]|e] s1 Hs1; [|done].
    apply wp_modify, Hev, Hs1.
  - apply update_ledger_wp. intros s1 Hs1. apply Hev. destruct Hs as [Hs Hu].
    eapply staking_wf_core; [exact Hs1 | | done]. by eapply stake_wf_update.
Qed.

Lemma keeps_rebond o v : u128 v → preserves staking_wf (rebond o v).
Proof.
  intros Hv. apply preserves_wp. intros s Hs. unfold rebond.
  apply controller_call_wp; [done|]. intros c l Hl Hb [Hwf Hcl].
  destruct (rebond_spec l v Hwf Hv) as (l' & Heq & Hwf' & Hst & _ & Hcl' & _).
  rewrite Heq.
  apply wp_bind, wp_ensure; [intros _|done].
  apply wp_bind, wp_ret, wp_bind, wp_ensure; [intros _|done].
  apply wp_bind, frames_wp; [apply frames_deposit_event|]. intros [[]|] s1 Hs1; [|by
    eapply staking_wf_core; [exact Hs1|apply Hs..]].
  assert (staking_wf s1) as Hwf1 by (eapply staking_wf_core; [exact Hs1|apply Hs..]).
  injection Hs1 as _ Hl1 _ _ _.
  eapply update_then_frame; [done | by rewrite Hl1 | done | | apply frames_update_voter].
  split; [done|]. by rewrite Hcl'.
Qed.

(** ** Roles *)

Lemma keeps_validate o p : preserves staking_wf (validate o p).
Proof.
  apply preserves_wp. intros s Hs. unfold validate.
  apply controller_call_wp; [done|]. intros c l Hl Hb _.
  apply wp_bind, wp_ensure; [intros _|done]. apply wp_bind, wp_ensure; [intros _|done].
  apply wp_bind, wp_mono with (λ _ s', s' = s).
  { apply wp_when; intros _; [|done]. destruct (max_validators_count s); [|done].
    by apply wp_ensure. }
  intros [[]|e] s0 ->; [|done].
  apply wp_bind, do_remove_nominator_wp. intros b1 s1 [= Hb1 Hl1 Hv1 Hn1 Hu1].
  apply wp_bind, do_add_validator_wp. intros s2 Hs2.
  apply frames_wp; [apply frames_deposit_event|]. intros _ s3 Hs3. rewrite Hs2 in Hs3.
  destruct Hs as [Hs Hu]. eapply staking_wf_core; [exact Hs3| |by rewrite Hu1].
  rewrite Hb1, Hl1, Hv1, Hn1. apply stake_wf_validate; [done|]. by rewrite Hb.
Qed.

Lemma keeps_nominate o ts : preserves staking_wf (nominate o ts).
Proof.
  apply preserves_wp. intros s Hs. unfold nominate.
  apply controller_call_wp; [done|]. intros c l Hl Hb _.
  apply wp_bind, wp_ensure; [intros _|done].
  apply wp_bind, wp_mono with (λ _ s', s' = s).
  { apply wp_when; intros _; [|done]. destruct (max_nominators_count s); [|done].
    by apply wp_ensure. }
  intros [[]|e] s0 ->; [|done].
  apply wp_bind, wp_ensure; [intros _|done]. apply wp_bind, wp_ensure; [intros _|done].
  apply wp_bind, wp_of_result; [intros ns _|done]. apply wp_bind, wp_ensure; [intros _|done].
  apply wp_bind, do_remove_validator_wp. intros b1 s1 [= Hb1 Hl1 Hv1 Hn1 Hu1].
  apply do_add_nominator_wp. intros s2 Hs2.
  destruct Hs as [Hs Hu]. eapply staking_wf_core; [exact Hs2| |by rewrite Hu1].
  rewrite Hb1, Hl1, Hv1, Hn1. apply stake_wf_nominate; [done|]. by rewrite Hb.
Qed.

Lemma keeps_chill_stash_wf st : preserves staking_wf (chill_stash st).
Proof.
  apply preserves_wp. intros s [Hs Hu]. apply chill_stash_wp. intros s' Hs'.
  eapply staking_wf_core; [exact Hs'| |done]. by apply stake_wf_chill.
Qed.

Lemma keeps_chill o : preserves staking_wf (chill o).
Proof.
  apply preserves_wp. intros s Hs. unfold chill.
  apply controller_call_wp; [done|]. intros. by apply wp_preserves, Hs; apply keeps_chill_stash_wf.
Qed.

Lemma frames_set_payee o p : frames (set_payee o p).
Proof. unfold set_payee, ensure_signed. frame_auto. Qed.

Lemma keeps_set_controller o c : preserves staking_wf (set_controller o c).
Proof.
  apply preserves_wp. intros s Hs. unfold set_controller.
  destruct o as [|st|]; [done| |done].
  apply wp_bind, wp_ret, wp_get, wp_bind, wp_ok_or; [intros old Hold|done].
  apply wp_bind, wp_ok_or; [intros c' Hc'|done]. apply wp_bind, wp_ensure; [intros Hnew|done].
  apply wp_when; [intros Hne|done]. apply wp_bind, wp_modify.
  destruct Hs as [Hs Hu]. destruct (wf_bonded _ _ _ _ Hs _ _ Hold) as (l & Hl & Hst).
  rewrite Hl. apply wp_modify. split; [|done]. cbn. by eapply stake_wf_move.
Qed.

Lemma keeps_kick_one st nom : preserves staking_wf (kick_one st nom).
Proof.
  apply preserves_wp. intros s [Hs Hu]. unfold kick_one. apply wp_get.
  destruct (nominators s !! nom) as [n|] eqn:Hn; [|done].
  destruct (position _ _); [|done]. apply wp_bind, wp_modify.
  apply frames_wp; [apply frames_deposit_event|]. intros _ s' Hs'.
  eapply staking_wf_core; [exact Hs'| |done]. cbn.
  apply stake_wf_nominator_update; [done|]. by rewrite Hn.
Qed.

Lemma keeps_kick o whos : preserves staking_wf (kick o whos).
Proof.
  apply preserves_wp. intros s Hs. unfold kick.
  apply controller_call_wp; [done|]. intros c l Hl Hb _.
  apply wp_bind, wp_ok_or; [intros noms _|done].
  apply wp_preserves, Hs. apply keeps_for_each. intros nom _. apply keeps_kick_one.
Qed.

Lemma keeps_chill_other o c : preserves staking_wf (chill_other o c).
Proof.
  unfold chill_other, ensure_signed. keeps_auto; apply keeps_chill_stash_wf.
Qed.

Lemma keeps_force_apply_min_commission o v :
  preserves staking_wf (force_apply_min_commission o v).
Proof.
  apply preserves_wp. intros s Hs. unfold force_apply_min_commission.
  destruct o as [|st|]; [done| |done]. apply wp_bind, wp_ret, wp_get.
  destruct (validators_map s !! v) as [p|] eqn:Hv; [|done].
  apply wp_when; intros _; [|done]. apply wp_modify. destruct Hs as [Hs Hu]. split; [|done].
  cbn. apply stake_wf_validator_update; [done|]. by rewrite Hv.
Qed.

(** ** Governance *)

Lemma frames_root o (f : Store → Store) :
  (∀ s, core (f s) = core s) → frames (ensure_root o ≫= λ _, modify f).
Proof.
  intros Hf p. unfold ensure_root. keeps_auto. cbn. by rewrite Hf.
Qed.

Lemma keeps_kill_stash st n : preserves staking_wf (kill_stash st n).
Proof. apply preserves_wp. intros s Hs. by apply kill_stash_wp. Qed.

Lemma keeps_kill_then_unlock st n :
  preserves staking_wf
    (kill_stash st n ≫= λ _, modify (λ s, s <| currency ::= remove_lock st |>)).
Proof.
  apply preserves_keeps_bind; [apply keeps_kill_stash|]. intros _. by keeps_auto.
Qed.

Lemma keeps_force_unstake o st n : preserves staking_wf (force_unstake o st n).
Proof.
  unfold force_unstake, ensure_root. apply preserves_keeps_bind; [by keeps_auto|].
  intros _. apply keeps_kill_then_unlock.
Qed.

Lemma keeps_reap_stash o st n : preserves staking_wf (reap_stash o st n).
Proof.
  unfold reap_stash, ensure_signed. apply preserves_keeps_bind; [by keeps_auto|].
  intros _. unfold preserves. keeps_step. keeps_step; [by keeps_auto|]. keeps_step.
  apply keeps_kill_then_unlock.
Qed.

Lemma remove_indices_sub {A} (P : A → Prop) removed idxs (l : list A) :
  Forall P l → Forall P (remove_indices removed idxs l).
Proof.
  revert removed l. induction idxs as [|i idxs IH]; intros removed l Hl; [done|].
  cbn. apply IH. unfold vec_remove. apply Forall_app.
  split; [by apply Forall_take | by apply Forall_drop].
Qed.

Lemma unapplied_wf_get s e : staking_wf s → Forall us_wf (unapplied_slashes s e).
Proof.
  intros [_ Hu]. unfold unapplied_slashes.
  destruct (unapplied_slashes_map s !! e) eqn:He; [by apply (Hu e) | constructor].
Qed.

Lemma keeps_cancel_deferred_slash o e idxs : preserves staking_wf (cancel_deferred_slash o e idxs).
Proof.
  apply preserves_wp. intros s Hs. unfold cancel_deferred_slash. cbn zeta.
  do 3 (apply wp_bind, wp_ensure; [intros _|done]). apply wp_get, wp_bind, wp_ensure; [intros _|done].
  apply wp_modify. pose proof (unapplied_wf_get s e Hs). destruct Hs as [Hs Hu]. split; [done|].
  cbn. apply map_Forall_insert_2; [|done]. by apply remove_indices_sub.
Qed.

(** * Slashing keeps it *)

Lemma frames_add_offending_validator a b : frames (add_offending_validator a b).
Proof. unfold add_offending_validator, ensure_new_era. frame_auto; by case_match. Qed.

Lemma frames_drop_spans i : frames (drop_spans i).
Proof. unfold drop_spans. frame_auto. Qed.

Lemma keeps_of_frames {A} (m : Call A) (Q : A → Prop) :
  frames m → (∀ s a s', m s = (Ok a, s') → Q a) → keeps staking_wf m Q.
Proof.
  intros Hm HQ s Hs. split; [by apply (frames_preserves m Hm s Hs)|]. intros a s'. apply HQ.
Qed.

Lemma frames_fetch_spans a ws p sl rp : frames (fetch_spans a ws p sl rp).
Proof. unfold fetch_spans. frame_auto. Qed.

Lemma fetch_spans_slash_of a ws p sl rp s i s' :
  fetch_spans a ws p sl rp s = (Ok i, s') → slash_of i = sl.
Proof.
  unfold fetch_spans. rewrite (bind_step _ _ s s s) by done.
  destruct (slashing_spans s !! a); by intros [= <- _].
Qed.

Lemma frames_compare_and_update i e v : frames (compare_and_update_span_slash i e v).
Proof. unfold compare_and_update_span_slash. frame_auto. Qed.

Lemma compare_and_update_slash_of i e v s i' r s' :
  compare_and_update_span_slash i e v s = (Ok (i', r), s') → 0 ≤ slash_of i → 0 ≤ slash_of i'.
Proof.
  unfold compare_and_update_span_slash. destruct (era_span (spans i) e) as [sp|];
    [|by intros [= <- _ _]].
  rewrite (bind_step _ _ s s s) by done.
  destruct (span_slash_step _ _ _ _) as [[[rec reward] j] changed] eqn:Hstep.
  apply span_slash_step_spec in Hstep as (_ & _ & Hof & _). intros Heq Hi.
  assert (slash_of i' = slash_of j) as ->.
  { destruct (decide (reward = 0)); [destruct changed|]; by injection Heq as <-. }
  rewrite Hof. destruct (decide _); [|done]. apply wadd_range. lia.
Qed.

Lemma is_end_span_slash_of i now : slash_of (is_end_span i now) = slash_of i.
Proof. unfold is_end_span. by destruct (end_span _ _). Qed.

Lemma keeps_spans_slash (i : InspectingSpans) e v :
  0 ≤ slash_of i →
  keeps staking_wf (compare_and_update_span_slash i e v) (λ r, 0 ≤ slash_of r.1).
Proof.
  intros Hi. apply keeps_of_frames; [apply frames_compare_and_update|].
  intros s [i' r] s' Heq. by eapply compare_and_update_slash_of.
Qed.

Lemma keeps_fetch_slash a ws p rp :
  keeps staking_wf (fetch_spans a ws p 0 rp) (λ i, 0 ≤ slash_of i).
Proof.
  apply keeps_of_frames; [apply frames_fetch_spans|].
  intros s i s' ->%fetch_spans_slash_of. lia.
Qed.

Lemma keeps_drop_then {A} i (a : A) (Q : A → Prop) :
  Q a → keeps staking_wf (drop_spans i ≫= λ _, mret a) Q.
Proof.
  intros Ha. eapply keeps_bind; [apply frames_preserves, frames_drop_spans|].
  intros _ _. by apply keeps_ret.
Qed.

Lemma keeps_slash_validator p v :
  keeps staking_wf (slash_validator p v) (λ r, 0 ≤ r.2).
Proof.
  unfold slash_validator. eapply keeps_bind; [apply keeps_fetch_slash|]. intros i Hi.
  eapply keeps_bind; [by apply keeps_spans_slash|]. intros [i' t] Hi'. cbn in Hi'.
  eapply (keeps_bind _ _ _ (λ j, 0 ≤ slash_of j)).
  - destruct (decide _); [|by apply keeps_ret].
    eapply keeps_bind; [apply keeps_chill_stash_wf|]. intros _ _. apply keeps_ret.
    by rewrite is_end_span_slash_of.
  - intros j Hj. by apply keeps_drop_then.
Qed.

Lemma keeps_slash_nominator p pr rew nom :
  keeps staking_wf (slash_nominator p pr rew nom) (λ r, 0 ≤ r.2).
Proof.
  unfold slash_nominator. keeps_step. keeps_step; [by keeps_step|].
  eapply keeps_bind; [apply keeps_fetch_slash|]. intros i Hi.
  eapply keeps_bind; [by apply keeps_spans_slash|]. intros [i' t] Hi'. cbn in Hi'.
  apply keeps_drop_then. cbn. destruct (decide _); [by rewrite is_end_span_slash_of|done].
Qed.

Lemma keeps_slash_nominators_loop p pr noms : ∀ rew acc,
  Forall (λ nv : AccountId * Z, 0 ≤ nv.2) acc →
  keeps staking_wf (slash_nominators_loop p pr rew acc noms)
    (λ r, Forall (λ nv : AccountId * Z, 0 ≤ nv.2) r.2).
Proof.
  induction noms as [|n noms IH]; intros rew acc Hacc; cbn; [by apply keeps_ret|].
  eapply keeps_bind; [apply keeps_slash_nominator|]. intros [r v] Hv. apply IH.
  apply Forall_app. by repeat constructor.
Qed.

Lemma keeps_compute_slash_wf p :
  keeps staking_wf (compute_slash p) (λ r, ∀ u, r = Some u → us_wf u).
Proof.
  unfold compute_slash. destruct (decide _).
  - keeps_step; [|by apply keeps_ret]. unfold kick_out_if_recent.
    keeps_step; [apply frames_preserves, frames_fetch_spans|].
    keeps_step; [destruct (decide _); [|by apply keeps_ret]|].
    { keeps_step; [apply keeps_chill_stash_wf | by apply keeps_ret]. }
    keeps_step; [apply frames_preserves, frames_add_offending_validator|].
    apply frames_preserves, frames_drop_spans.
  - keeps_step. destruct (default _ _) as [pr ?]. destruct (decide _); [|by apply keeps_ret].
    keeps_step; [by keeps_step|].
    eapply keeps_bind; [apply keeps_slash_validator|]. intros [rew val] Hval.
    keeps_step; [apply frames_preserves, frames_add_offending_validator|].
    eapply keeps_bind; [apply keeps_slash_nominators_loop; constructor|].
    intros [rew' noms] Hnoms. apply keeps_ret. intros u [= <-]. split_and!; [done..|].
    apply wadd_range. lia.
Qed.

Lemma keeps_do_slash a v r si e : 0 ≤ v → preserves staking_wf (do_slash a v r si e).
Proof.
  intros Hv. apply preserves_wp. intros s Hs. unfold do_slash. apply wp_get.
  destruct (bonded s !! a) as [c|] eqn:Hb; [|done].
  destruct (ledger s !! c) as [l|] eqn:Hl; [|done].
  destruct (wf_ledger _ _ _ _ (proj1 Hs) _ _ Hl) as [_ [Hwf Hcl]].
  destruct (slash _ l v _ e) as [[l' v'] hook] eqn:Hsl.
  destruct (slash_spec _ _ _ _ _ _ _ _ Hwf Hv Hsl) as (Hwf' & Hst & Hcl' & _).
  apply wp_bind, wp_modify. destruct (decide (v' = 0)); [done|].
  destruct (slash_currency _ _ _) as [[imb miss] c']. apply wp_bind, wp_modify.
  eapply update_then_frame; [done | done | done | by split; [|rewrite Hcl'] |].
  apply frames_bind; [apply frames_deposit_event|]. intros _ q. by apply keeps_ret.
Qed.

Lemma keeps_apply_slash u e : us_wf u → preserves staking_wf (apply_slash u e).
Proof.
  intros (Hown & Hoth & _). unfold apply_slash.
  apply preserves_keeps_bind; [by apply keeps_do_slash|]. intros [r si].
  apply preserves_keeps_bind.
  { revert r si. induction Hoth as [|[n v] noms Hv Hoth IH]; intros r si; cbn.
    - by apply keeps_ret.
    - apply preserves_keeps_bind; [by apply keeps_do_slash|]. intros []. apply IH. }
  intros [r' si']. unfold pay_reporters. keeps_auto; try done.
  by destruct (pay_each_reporter _ _ _ _).
Qed.

Lemma keeps_apply_unapplied e : preserves staking_wf (apply_unapplied_slashes e).
Proof.
  unfold apply_unapplied_slashes. unfold preserves. keeps_step. destruct (earliest_unapplied_slash _).
  2:{ by apply keeps_ret. }
  keeps_step; [|by keeps_step]. apply keeps_for_each. intros e' _.
  unfold apply_era_slashes. apply (preserves_wp staking_wf). intros s Hs. apply wp_get, wp_bind, wp_modify.
  pose proof (unapplied_wf_get s e' Hs) as Hus. destruct Hs as [Hs Hu].
  apply wp_preserves.
  - apply keeps_for_each. intros u Hin. apply keeps_apply_slash.
    rewrite Forall_forall in Hus. by apply Hus.
  - split; [done|]. by apply map_Forall_delete.
Qed.

Lemma keeps_on_offence offs fr ss ds : preserves staking_wf (on_offence offs fr ss ds).
Proof.
  unfold on_offence, preserves. keeps_step. destruct (active_era _) as [ai|]; [|by apply keeps_ret].
  destruct (offence_era _ _ _) as [e|]; [|by apply keeps_ret].
  keeps_step; [keeps_step; by destruct (earliest_unapplied_slash _)|].
  apply keeps_for_each. intros [d f] _. unfold on_offence_one.
  destruct (offender d) as [w ex]. destruct (decide _); [by apply keeps_ret|].
  eapply keeps_bind; [apply keeps_compute_slash_wf|]. intros [u|] Hu; [|by apply keeps_ret].
  destruct (Hu u eq_refl) as (Hown & Hoth & Hpay).
  destruct (decide _); [by apply keeps_apply_slash|].
  apply keeps_modify; [done|]. intros s Hs. pose proof (unapplied_wf_get s (ae_index ai) Hs).
  destruct Hs as [Hs Hun]. split; [done|]. apply map_Forall_insert_2; [|done].
  apply Forall_app. split; [done|]. by repeat constructor.
Qed.

(** * Sessions and eras keep it *)

Lemma frames_clear_era_information e : frames (clear_era_information e).
Proof. unfold clear_era_information. frame_auto. Qed.

Lemma frames_for_each {A} (l : list A) (f : A → Call unit) :
  (∀ a, frames (f a)) → frames (for_each l f).
Proof. intros Hf p. apply keeps_for_each. intros a _. apply Hf. Qed.

Lemma frames_set_history_depth o d : frames (set_history_depth o d).
Proof.
  unfold set_history_depth, ensure_root. by frame_auto.
Qed.

Lemma frames_store_stakers_info exps e : frames (store_stakers_info exps e).
Proof. unfold store_stakers_info. frame_auto. Qed.

Lemma frames_trigger_new_era st exps : frames (trigger_new_era st exps).
Proof.
  unfold trigger_new_era. intros p. unfold preserves. keeps_step. cbn zeta.
  apply preserves_keeps_bind; [by apply keeps_modify|]. intros _.
  apply preserves_keeps_bind; [|intros _; apply frames_store_stakers_info].
  destruct (checked_sub _ _); [apply frames_clear_era_information | by apply keeps_ret].
Qed.

Lemma frames_try_trigger_new_era elect st g : frames (try_trigger_new_era elect st g).
Proof.
  unfold try_trigger_new_era. intros p. unfold preserves. keeps_step. destruct (elect _ _) as [sup|].
  - destruct (decide _).
    + keeps_step; [keeps_step; by keeps_auto|]. keeps_step; [apply frames_deposit_event|].
      by apply keeps_ret.
    + keeps_step; [apply frames_deposit_event|]. keeps_step; [apply frames_trigger_new_era|].
      by apply keeps_ret.
  - keeps_step; [apply frames_deposit_event | by apply keeps_ret].
Qed.

Lemma frames_sm_new_session elect g i : frames (sm_new_session elect g i).
Proof.
  unfold sm_new_session, new_session. intros p. unfold preserves. keeps_step; [by keeps_step|]. keeps_step.
  destruct (current_era _); [|apply frames_try_trigger_new_era].
  match goal with |- keeps _ (if ?b then _ else _) _ => destruct b end; [|by apply keeps_ret].
  keeps_step; [apply frames_try_trigger_new_era|]. by keeps_auto.
Qed.

Lemma keeps_start_era i : preserves staking_wf (start_era i).
Proof.
  unfold start_era, preserves. keeps_step. keeps_step; [by keeps_step|].
  destruct (prune_bonded _ _ _) as [kept pruned].
  keeps_step; [unfold clear_era_metadata; by keeps_auto|].
  keeps_step; [by keeps_auto|]. keeps_step; [by keeps_step|]. apply keeps_apply_unapplied.
Qed.

Lemma keeps_start_session i : preserves staking_wf (start_session i).
Proof.
  unfold start_session, preserves. keeps_step. keeps_step.
  - destruct (eras_start_session_index _ !! _); [|by apply keeps_ret].
    apply keeps_when; [intros _; apply keeps_start_era | done].
  - by keeps_auto.
Qed.

Lemma frames_end_session i : frames (end_session i).
Proof. unfold end_session, end_era, deposit_event. frame_auto. Qed.

Lemma frames_reward_by_ids l : frames (reward_by_ids l).
Proof. unfold reward_by_ids. frame_auto. Qed.

Lemma frames_on_finalize now : frames (on_finalize now).
Proof.
  unfold on_finalize. intros p. apply keeps_modify; [done|]. intros s <-.
  destruct (active_era s) as [ae|]; [|done]. by destruct (ae_start ae).
Qed.

(** * Payouts keep it while the totals do not overflow

    [room b]: every ledger can grow by [b].  The release profile has no
    overflow check on [l.total += amount]. *)

Definition room (b : Z) (s : Store) : Prop :=
  ∀ c l, ledger s !! c = Some l → total l + b < 2 ^ 128.

Definition staking_room (b : Z) (s : Store) : Prop := staking_wf s ∧ room b s.

Lemma frames_room {A} b (m : Call A) : frames m → preserves (staking_room b) m.
Proof.
  intros Hm. apply preserves_wp. intros s [[Hs Hu] Hr].
  apply frames_wp; [done|]. intros _ s' Hc. split; [by eapply staking_wf_core|].
  injection Hc as _ Hl _ _ _. intros c l. rewrite Hl. apply Hr.
Qed.

Lemma room_weaken b b' s : b' ≤ b → staking_room b s → staking_room b' s.
Proof. intros Hb [Hs Hr]. split; [done|]. intros c l Hl. specialize (Hr c l Hl). lia. Qed.

Lemma make_payout_wp st v b s Q :
  0 ≤ v → staking_room (v + b) s → 0 ≤ b →
  (∀ r s', staking_room b s' → Q r s') → wp (make_payout st v) s Q.
Proof.
  intros Hv Hs Hb HQ. unfold make_payout. apply wp_get.
  assert (∀ c, staking_room b (s <| currency := c |>)) as Hcur.
  { intros c. apply (room_weaken (v + b)); [lia | exact Hs]. }
  assert (staking_room b s) as Hs' by (apply (room_weaken (v + b)); [lia | exact Hs]).
  destruct (payee s st) as [| | |dest|]; [| | | |by apply HQ].
  - destruct (bonded s !! st) as [c|] eqn:Hbd; [|by apply HQ].
    destruct (ledger s !! c) as [l|] eqn:Hl; [|by apply HQ].
    destruct (deposit_into_existing _ _ _) as [r c'].
    apply wp_bind, wp_modify, wp_bind, update_ledger_wp. intros s1 [= Hb1 Hl1 Hv1 Hn1 Hu1].
    apply wp_ret, HQ. destruct Hs as [[Hs Hu] Hr]. pose proof (Hr c l Hl).
    destruct (wf_ledger _ _ _ _ Hs _ _ Hl) as [_ Hok]. pose proof Hok as [[Htot Hr' Ha Hc] _].
    pose proof (unlocking_sum_nonneg _ Hc).
    assert (ledger_ok (l <| active ::= λ a, wadd 128 a v |> <| total ::= λ t, wadd 128 t v |>)) as Hok'.
    { apply (ledger_ok_add l v (claimed_rewards l)); [done | done | lia | apply Hok]. }
    split; [split|].
    + rewrite Hb1, Hl1, Hv1, Hn1. cbn. by eapply stake_wf_update.
    + by rewrite Hu1.
    + intros c0 l0. rewrite Hl1. cbn.
      intros [[<- <-]|[Hne Hl0]]%lookup_insert_Some; cbn; [|apply (Hr c0 l0) in Hl0; lia].
      rewrite wadd_small by ulia. lia.
  - destruct (deposit_into_existing _ _ _) as [r c']. apply wp_bind, wp_modify, wp_ret, HQ, Hcur.
  - destruct (bonded s !! st) as [c|]; [|by apply HQ].
    destruct (deposit_creating _ _ _) as [r c']. apply wp_bind, wp_modify, wp_ret, HQ, Hcur.
  - destruct (deposit_creating _ _ _) as [r c']. apply wp_bind, wp_modify, wp_ret, HQ, Hcur.
Qed.

Lemma payout_one_wp st v t b s Q :
  0 ≤ v → staking_room (v + b) s → 0 ≤ b →
  (∀ r s', staking_room b s' → Q r s') → wp (payout_one st v t) s Q.
Proof.
  intros Hv Hs Hb HQ. unfold payout_one. apply wp_bind. eapply make_payout_wp; [done..|].
  intros [[imb|]|e] s1 Hs1; [|by apply HQ|by apply HQ].
  apply wp_bind. eapply wp_mono; [by apply wp_preserves, Hs1; apply frames_room, frames_deposit_event|].
  cbn. intros [[]|e] s2 Hs2; by apply HQ.
Qed.

Lemma validator_payouts_bound s v e ex pts total_pts ep a b :
  validator_payouts s v e ex pts total_pts ep = (a, b) → u128 ep →
  is_perbill (commission (eras_validator_prefs s e v)) →
  0 ≤ a ≤ ep ∧ 0 ≤ b ≤ ep.
Proof.
  unfold validator_payouts. set (t := perbill_mul _ ep). set (cm := perbill_mul _ t).
  intros [= <- <-] Hep Hcomm.
  assert (0 ≤ t ≤ ep) as Ht by (apply perbill_mul_range; [apply perbill_from_rational_range | ulia]).
  assert (0 ≤ cm ≤ t) as Hcm by (apply perbill_mul_range; [done | lia]).
  rewrite (wsub_small _ t cm) by ulia.
  assert (0 ≤ perbill_mul (perbill_from_rational (own ex) (exp_total ex)) (t - cm) ≤ t - cm)
    by (apply perbill_mul_range; [apply perbill_from_rational_range | lia]).
  rewrite wadd_small by ulia. lia.
Qed.

Lemma payout_nominators_wp noms : ∀ et left ep t s Q,
  0 ≤ left ≤ ep → staking_room (Z.of_nat (length noms) * ep) s →
  (∀ r s', staking_wf s' → Q r s') → wp (payout_nominators et left noms t) s Q.
Proof.
  induction noms as [|n noms IH]; intros et left ep t s Q Hl Hs HQ; cbn [payout_nominators].
  { apply wp_ret, HQ, Hs. }
  assert (0 ≤ perbill_mul (perbill_from_rational (ie_value n) et) left ≤ left)
    by (apply perbill_mul_range; [apply perbill_from_rational_range | lia]).
  rewrite length_cons in Hs. apply wp_bind.
  apply (payout_one_wp _ _ _ (Z.of_nat (length noms) * ep)); [lia | | nia |].
  - eapply room_weaken; [|exact Hs]. lia.
  - intros [t'|err] s' Hs'; [|apply HQ, Hs']. by apply (IH et left ep).
Qed.

(** The commission is a [Perbill], the reward a balance, and every ledger has
    room for one reward per staker that is paid. *)
Definition payout_room (s : Store) (v : AccountId) (e : EraIndex) : Prop :=
  is_perbill (commission (eras_validator_prefs s e v)) ∧
  ∀ r, eras_validator_reward s !! e = Some r →
    u128 r ∧ room (Z.of_nat (S (length (others (eras_stakers_clipped s e v)))) * r) s.

Lemma claim_era_spec s v e c l ep :
  staking_wf s → claim_era s v e = Ok (c, l, ep) →
  ∃ l0, bonded s !! v = Some c ∧ ledger s !! c = Some l0 ∧ eras_validator_reward s !! e = Some ep
    ∧ stash l = v ∧ stash l0 = v ∧ ledger_ok l ∧ total l = total l0 ∧ e ∈ claimed_rewards l.
Proof.
  intros [Hs Hu]. unfold claim_era. destruct (current_era s) as [ce|]; [|done].
  destruct (decide _); [|done]. destruct (eras_validator_reward s !! e) as [r|]; [|done].
  destruct (bonded s !! v) as [c0|] eqn:Hb; [|done].
  destruct (ledger s !! c0) as [l0|] eqn:Hl; [|done].
  destruct (binary_search_by_key _ _ _) as [|i] eqn:Hbs; [done|]. intros [= -> <- ->].
  destruct (wf_bonded _ _ _ _ Hs _ _ Hb) as (l1 & Hl1 & Hst). assert (l1 = l0) as -> by congruence.
  destruct (wf_ledger _ _ _ _ Hs _ _ Hl) as [_ [Hwf Hcl]].
  exists l0. split_and!; try done.
  - split; [by destruct Hwf|]. cbn. apply sorted_by_binary_insert; [by apply sorted_by_filter | done].
  - cbn. apply elem_of_vec_insert. by left.
Qed.

Lemma payout_stakers_wp o v e s :
  staking_wf s → payout_room s v e → wp (payout_stakers o v e) s (λ _, staking_wf).
Proof.
  intros Hs [Hcomm Hroom]. unfold payout_stakers. destruct o as [|w|]; [done| |done].
  apply wp_bind, wp_ret. unfold do_payout_stakers.
  apply wp_get, wp_bind, wp_of_result; [|done]. intros [[c l] ep] Hclaim.
  destruct (claim_era_spec _ _ _ _ _ _ Hs Hclaim) as (l0 & Hb & Hl & Hrew & Hst & Hst0 & Hok & Htot & _).
  destruct (Hroom ep Hrew) as [Hep Hr]. rewrite Hst. cbn zeta.
  set (ex := eras_stakers_clipped s e v) in *.
  apply wp_bind, wp_modify.
  assert (staking_room (Z.of_nat (S (length (others ex))) * ep) (s <| ledger ::= insert c l |>)) as Hs1.
  { destruct Hs as [Hs Hu]. split; [split; [|done]|].
    - cbn. eapply stake_wf_update; [done | exact Hl | by rewrite Hst, Hst0 | done].
    - intros c' l'. cbn. intros [[<- <-]|[Hne Hl']]%lookup_insert_Some.
      + rewrite Htot. by apply (Hr c).
      + by apply (Hr c'). }
  destruct (decide _); [apply Hs1|].
  destruct (validator_payouts _ _ _ _ _ _ _) as [a b] eqn:Hpay.
  destruct (validator_payouts_bound _ _ _ _ _ _ _ _ _ Hpay Hep Hcomm) as [Ha Hb'].
  apply wp_bind. eapply wp_mono; [by apply wp_preserves, Hs1; apply frames_room, frames_deposit_event|].
  cbn beta. intros [[]|] s2 Hs2; [|apply Hs2]. apply wp_bind.
  apply (payout_one_wp _ _ _ (Z.of_nat (length (others ex)) * ep)); [lia | | unfold in_u in Hep; nia |].
  { eapply room_weaken; [|exact Hs2]. lia. }
  intros [t|] s3 Hs3; [|apply Hs3]. apply wp_bind.
  apply (payout_nominators_wp _ _ _ ep); [lia | exact Hs3 |].
  intros [val|] s4 Hs4; [|done].
  apply wp_preserves; [|done].
  unfold settle_payouts, update_not_claimed_reward, preserves. keeps_step.
  - keeps_step. destruct (settle _ _ _ _); [by keeps_step|]. keeps_step; [by keeps_step|].
    apply keeps_throw.
  - keeps_step. by case_match.
Qed.

(** * Reachable states *)

(** The calls of the pallet but [payout_stakers], whose payouts need room. *)
Inductive StakingCall :=
  | CBond (c : Z) (v : Z) (p : RewardDestination)
  | CBondExtra (v : Z)
  | CUnbond (v : Z)
  | CWithdrawUnbonded (n : Z)
  | CRebond (v : Z)
  | CValidate (p : ValidatorPrefs)
  | CNominate (ts : list Z)
  | CChill
  | CSetPayee (p : RewardDestination)
  | CSetController (c : Z)
  | CKick (whos : list Z)
  | CChillOther (c : AccountId)
  | CForceApplyMinCommission (v : AccountId)
  | CSetValidatorCount (n : Z)
  | CIncreaseValidatorCount (n : Z)
  | CScaleValidatorCount (f : Z)
  | CForceNoEras
  | CForceNewEra
  | CForceNewEraAlways
  | CSetInvulnerables (l : list AccountId)
  | CForceUnstake (st : AccountId) (n : Z)
  | CCancelDeferredSlash (e : EraIndex) (idxs : list Z)
  | CSetHistoryDepth (d : Z)
  | CReapStash (st : AccountId) (n : Z)
  | CSetStakingConfigs (a b c d e f : ConfigOp Z).

Definition dispatch (o : Origin) (c : StakingCall) : Call unit :=
  match c with
  | CBond c v p => bond o c v p
  | CBondExtra v => bond_extra o v
  | CUnbond v => unbond o v
  | CWithdrawUnbonded n => withdraw_unbonded o n
  | CRebond v => rebond o v
  | CValidate p => validate o p
  | CNominate ts => nominate o ts
  | CChill => chill o
  | CSetPayee p => set_payee o p
  | CSetController c => set_controller o c
  | CKick whos => kick o whos
  | CChillOther c => chill_other o c
  | CForceApplyMinCommission v => force_apply_min_commission o v
  | CSetValidatorCount n => set_validator_count o n
  | CIncreaseValidatorCount n => increase_validator_count o n
  | CScaleValidatorCount f => scale_validator_count o f
  | CForceNoEras => force_no_eras o
  | CForceNewEra => force_new_era o
  | CForceNewEraAlways => force_new_era_always o
  | CSetInvulnerables l => set_invulnerables o l
  | CForceUnstake st n => force_unstake o st n
  | CCancelDeferredSlash e idxs => cancel_deferred_slash o e idxs
  | CSetHistoryDepth d => set_history_depth o d
  | CReapStash st n => reap_stash o st n
  | CSetStakingConfigs a b c d e f => set_staking_configs o a b c d e f
  end.

(** The balances of a call are [u128], and the indices [u32]. *)
Definition call_ok (c : StakingCall) : Prop :=
  match c with
  | CBond _ v _ | CBondExtra v | CUnbond v | CRebond v => u128 v
  | CCancelDeferredSlash _ idxs => Forall (in_u 32) idxs
  | _ => True
  end.

Lemma preserves_dispatch o c : call_ok c → preserves staking_wf (dispatch o c).
Proof.
  intros Hc. destruct c; cbn [dispatch]; cbn [call_ok] in Hc.
  - apply keeps_bond. ulia.
  - apply keeps_bond_extra. ulia.
  - apply keeps_unbond. ulia.
  - apply keeps_withdraw_unbonded.
  - by apply keeps_rebond.
  - apply keeps_validate.
  - apply keeps_nominate.
  - apply keeps_chill.
  - apply frames_preserves, frames_set_payee.
  - apply keeps_set_controller.
  - apply keeps_kick.
  - apply keeps_chill_other.
  - apply keeps_force_apply_min_commission.
  - by apply frames_preserves, frames_root.
  - by apply frames_preserves, frames_root.
  - by apply frames_preserves, frames_root.
  - by apply frames_preserves, frames_root.
  - by apply frames_preserves, frames_root.
  - by apply frames_preserves, frames_root.
  - by apply frames_preserves, frames_root.
  - apply keeps_force_unstake.
  - apply keeps_cancel_deferred_slash.
  - apply frames_preserves, frames_set_history_depth.
  - apply keeps_reap_stash.
  - by apply frames_preserves, frames_root.
Qed.

(** One step of the chain, as far as the staking pallet is concerned; the
    result of a step does not matter. *)
Inductive step (elect : bool → Store → option (list (AccountId * list (AccountId * Z)))) :
    Store → Store → Prop :=
  | step_call o c s : call_ok c → step elect s (run (dispatch o c) s)
  | step_payout o v e s : payout_room s v e → step elect s (run (payout_stakers o v e) s)
  | step_offence offs fr ss ds s : step elect s (run (on_offence offs fr ss ds) s)
  | step_new_session g i s : step elect s (run (sm_new_session elect g i) s)
  | step_start_session i s : step elect s (run (start_session i) s)
  | step_end_session i s : step elect s (run (end_session i) s)
  | step_reward l s : step elect s (run (reward_by_ids l) s)
  | step_finalize now s : step elect s (run (on_finalize now) s)
  | step_currency (f : cur → cur) s : step elect s (s <| currency ::= f |>).

Lemma step_staking_wf elect s s' : step elect s s' → staking_wf s → staking_wf s'.
Proof.
  intros Hstep Hs. destruct Hstep; [..| |done].
  - by apply (preserves_run staking_wf); [apply preserves_dispatch|].
  - by apply payout_stakers_wp.
  - by apply (preserves_run staking_wf); [apply keeps_on_offence|].
  - by apply (preserves_run staking_wf); [apply frames_preserves, frames_sm_new_session|].
  - by apply (preserves_run staking_wf); [apply keeps_start_session|].
  - by apply (preserves_run staking_wf); [apply frames_preserves, frames_end_session|].
  - by apply (preserves_run staking_wf); [apply frames_preserves, frames_reward_by_ids|].
  - by apply (preserves_run staking_wf); [apply frames_preserves, frames_on_finalize|].
Qed.

(** * Genesis *)

Lemma staking_wf_default c vl ss sy : staking_wf (store_default c vl ss sy).
Proof. split; [by split|]. apply map_Forall_empty. Qed.

Lemma assert_ok_wf (m : Call unit) s s' :
  preserves staking_wf m → assert_ok m s = Some s' → staking_wf s → staking_wf s'.
Proof.
  unfold assert_ok. intros Hm Heq Hs. destruct (m s) as [[[]|e] s1] eqn:Hr; [|done].
  injection Heq as <-. by eapply preserves_result.
Qed.

Definition stakers_ok (l : list (AccountId * AccountId * Z * StakerStatus)) : Prop :=
  Forall (λ st, u128 st.1.2) l.

Lemma genesis_stakers_wf l : ∀ s s',
  stakers_ok l → staking_wf s → genesis_stakers s l = Some s' → staking_wf s'.
Proof.
  induction l as [|[[[st c] v] status] l IH]; intros s s' Hl Hs Heq; cbn [genesis_stakers] in Heq.
  { by injection Heq as <-. }
  apply Forall_cons in Hl as [Hv Hl]. cbn in Hv.
  apply bind_Some in Heq as (s1 & H1' & Heq). apply (IH s1 s' Hl); [|done].
  unfold genesis_staker in H1'. destruct (decide _); [|done].
  apply bind_Some in H1' as (s2 & Hb & H2').
  assert (preserves staking_wf (bond (Signed st) (unlookup c) v Staked)) by (apply keeps_bond; ulia).
  assert (staking_wf s2) by (by eapply assert_ok_wf).
  destruct status; [by injection H2' as <- | |].
  - eapply assert_ok_wf; [apply keeps_validate | done | done].
  - eapply assert_ok_wf; [apply keeps_nominate | done | done].
Qed.

Lemma genesis_wf g c vl ss sy s :
  stakers_ok (g_stakers g) → genesis_build g (store_default c vl ss sy) = Some s → staking_wf s.
Proof.
  intros Hg Heq. unfold genesis_build in Heq. apply bind_Some in Heq as (s1 & Hst & Heq).
  destruct (decide _); [|done]. injection Heq as <-.
  eapply genesis_stakers_wf; [done | | exact Hst].
  apply (staking_wf_default c vl ss sy).
Qed.

(** C1: From genesis, whatever calls, offences, sessions, rewards and changes
    of balances follow, failing or not, stash and controller accounts stay
    paired one to one, every ledger keeps [total = active + unlocking] with
    its claimed eras sorted, and a stash is validator or nominator but not
    both, and only while it is bonded.  (A payout needs room below [2^128] in
    the ledgers it may pay.) *)
Theorem reachable_staking_wf elect g c vl ss sy s0 s
    (Hg : stakers_ok (g_stakers g))
    (Hbuild : genesis_build g (store_default c vl ss sy) = Some s0)
    (Hreach : rtc (step elect) s0 s) :
  staking_wf s.
Proof.
  assert (staking_wf s0) as Hs0 by (by eapply genesis_wf).
  clear Hbuild Hg. induction Hreach as [|s1 s2 s3 Hstep _ IH]; [done|].
  apply IH. by eapply step_staking_wf.
Qed.
End Invariant.

(** * A concrete run *)

Section Examples.
#[local] Existing Instances TestPerThing TestPerThing_laws TestCurrency TestCurrency_laws.
#[local] Instance inv_config : StakingConfig := TestStaking 0 64.

Definition inv_cur : test_cur := TestCur {[ 11 := 5000; 101 := 3000; 10 := 5; 100 := 5 ]} 9000 ∅.
Definition inv_genesis : GenesisConfig := {|
  g_history_depth := 84; g_validator_count := 2; g_minimum_validator_count := 1;
  g_invulnerables := []; g_force_era := NotForcing; g_slash_reward_fraction := 100000000;
  g_canceled_payout := 0;
  g_stakers := [ (11, 10, 1000, StatusValidator); (101, 100, 500, StatusNominator [11]) ];
  g_min_nominator_bond := 0; g_min_validator_bond := 0; g_max_validator_count := None;
  g_max_nominator_count := None |}.

(** The election that elects 11, supported by 101. *)
Definition inv_elect (_ : bool) (_ : Store) : option (list (AccountId * list (AccountId * Z))) :=
  Some [(11, [(11, 1000); (101, 500)])].

Definition inv_start : Store :=
  default (test_store 0 64 inv_cur [])
    (genesis_build inv_genesis (test_store 0 64 inv_cur [])).

Lemma genesis_builds : genesis_build inv_genesis (test_store 0 64 inv_cur []) = Some inv_start.
Proof.
  unfold inv_start.
  assert (match genesis_build inv_genesis (test_store 0 64 inv_cur []) with
          | Some _ => true | None => false end = true) as Hb by (vm_compute; reflexivity).
  destruct (genesis_build _ _); [reflexivity | discriminate].
Qed.

Lemma inv_start_wf : staking_wf inv_start.
Proof.
  apply (@genesis_wf TestCurrency TestCurrency_laws inv_config inv_genesis inv_cur [] ([], []) ∅); [|exact genesis_builds].
  apply Forall_cons; split; [vm_compute; split; congruence|].
  apply Forall_cons; split; [vm_compute; split; congruence | by apply Forall_nil].
Qed.

Example genesis_bonds :
  map fst (map_to_list (validators_map inv_start)) = [11]
  ∧ (active <$> ledger inv_start !! 100) = Some 500
  ∧ voter_list inv_start = [11; 101].
Proof. repeat split; vm_compute; reflexivity. Qed.

Definition inv_mid1 : Store := run (sm_new_session inv_elect true 0) inv_start.
Definition inv_mid2 : Store := run (dispatch (Signed 100) (CUnbond 200)) inv_mid1.
Definition inv_end : Store := run (dispatch (Signed 10) CChill) inv_mid2.

Lemma reachable_staking_wf_witness :
  staking_wf inv_end ∧ (active <$> ledger inv_end !! 100) = Some 300
  ∧ validators_map inv_end = ∅.
Proof.
  split; [|vm_compute; split; reflexivity].
  apply (reachable_staking_wf inv_elect inv_genesis inv_cur [] ([], []) ∅ inv_start).
  - apply Forall_cons; split; [vm_compute; split; congruence|].
    apply Forall_cons; split; [vm_compute; split; congruence | apply Forall_nil; exact Logic.I].
  - exact genesis_builds.
  - apply (rtc_l _ _ inv_mid1); [exact (step_new_session inv_elect true 0 inv_start)|].
    apply (rtc_l _ _ inv_mid2).
    { refine (step_call inv_elect (Signed 100) (CUnbond 200) inv_mid1 _).
      vm_compute. split; congruence. }
    apply (rtc_l _ _ inv_end); [|apply rtc_refl].
    exact (step_call inv_elect (Signed 10) CChill inv_mid2 Logic.I).
Defined.
End Examples.
