(* ===== verification/EraView.v ===== *)
(** What the histories of the chain leave unchanged: a view of the storage of
    the staking pallet (eras, waiting slashes, clipped exposures, rewards and
    the payouts made) and what is said of the eras claimed in the ledgers.
    Most operations keep both; the invariants of [SlashTiming] and
    [PayoutHistory] rest on it. *)

From Stdlib Require Import ZArith Lia.
From stdpp Require Import base option list gmap fin_maps fin_sets.
From S2P Require Import Prelude Interfaces StakingLedger SlashingSpans StakingState Slashing.
From S2P Require Import Bonding Governance Payout Eras StakingInvariant.
#[local] Open Scope Z_scope.

(** * Ledgers keep their stash and the claimed eras *)

Lemma consolidate_claims l e :
  stash (consolidate_unlocked l e) = stash l
  ∧ claimed_rewards (consolidate_unlocked l e) = claimed_rewards l.
Proof. unfold consolidate_unlocked. by destruct (consolidate_chunks _ _ _). Qed.

Lemma rebond_claims l v l' w :
  ledger_rebond l v = Some (l', w) → stash l' = stash l ∧ claimed_rewards l' = claimed_rewards l.
Proof.
  unfold ledger_rebond. destruct (rebond_loop _ _ _ _ _) as [[[a u] chunks]|]; [|done].
  by intros [= <- _].
Qed.

Lemma slash_claims `{PerThing} bd l v mb e l' w hook :
  slash bd l v mb e = (l', w, hook) → stash l' = stash l ∧ claimed_rewards l' = claimed_rewards l.
Proof.
  unfold slash. case_decide; [by intros [= <- _ _]|].
  destruct (slash_targets _ _). destruct (slash_out_of _ _ _ _ _ _) as [[? ?] ?].
  destruct (slash_chunks _ _ _ _ _ _ _ _) as [[[? ?] ?] ?]. by intros [= <- _ _].
Qed.

(** * The view *)

Create HintDb quiet.

Section EraView.
Context `{PerThingLaws} `{CurrencyLaws} `{!StakingConfig}.
Implicit Types (s : Store) (l : StakingLedger) (L : AccountId → list EraIndex → Prop).

(** The payouts that were made, oldest first. *)
Definition payouts_in (evs : list Event) : list (EraIndex * AccountId) :=
  omap (λ ev, match ev with PayoutStarted e v => Some (e, v) | _ => None end) evs.

(** What the events say of rounding: the rewards of the eras, and for every
    payout the reward of its era and a whole unit. *)
Definition rounding_step (acc : gmap EraIndex Z * Z) (ev : Event) : gmap EraIndex Z * Z :=
  match ev with
  | EraPaid e reward => (<[e := reward]> acc.1, acc.2)
  | PayoutStarted e _ => (acc.1, acc.2 + (default 0 (acc.1 !! e) + perbill_one))
  | _ => acc
  end.
Definition rounding (evs : list Event) : gmap EraIndex Z * Z := foldl rounding_step (∅, 0) evs.

Lemma payouts_snoc evs e : payouts_in (evs ++ [e]) = payouts_in evs ++ payouts_in [e].
Proof. apply omap_app. Qed.
Lemma rounding_snoc evs e : rounding (evs ++ [e]) = rounding_step (rounding evs) e.
Proof. unfold rounding. by rewrite foldl_app. Qed.

(** The events that these two look at. *)
Definition era_event (ev : Event) : bool :=
  match ev with EraPaid _ _ | PayoutStarted _ _ => true | _ => false end.

Lemma other_event evs e :
  era_event e = false →
  payouts_in (evs ++ [e]) = payouts_in evs ∧ rounding (evs ++ [e]) = rounding evs.
Proof.
  rewrite payouts_snoc, rounding_snoc. destruct e; try done; intros _; by rewrite app_nil_r.
Qed.

Record EraView := {
  v_active : option EraIndex;
  v_earliest : option EraIndex;
  v_unapplied : gset EraIndex;
  v_clipped : gmap (EraIndex * AccountId) Exposure;
  v_rewards : gmap EraIndex Z;
  v_unclaimed : gmap EraIndex Z;
  v_points : gmap EraIndex EraRewardPoints;
  v_paid : list (EraIndex * AccountId);
  v_rounding : gmap EraIndex Z * Z;
}.

Definition view_of s : EraView := {|
  v_active := ae_index <$> active_era s;
  v_earliest := earliest_unapplied_slash s;
  v_unapplied := dom (unapplied_slashes_map s);
  v_clipped := eras_stakers_clipped_map s;
  v_rewards := eras_validator_reward s;
  v_unclaimed := eras_not_claimed_reward_map s;
  v_points := eras_reward_points_map s;
  v_paid := payouts_in (events s);
  v_rounding := rounding (events s);
|}.

(** The eras with a reward and the eras with one that is not all claimed. *)
Definition v_rewarded (v : EraView) : gset EraIndex := dom (v_rewards v).
Definition v_pending (v : EraView) : gset EraIndex := dom (v_unclaimed v).

(** [L] holds of the stash and the claimed eras of every ledger. *)
Definition claims L s : Prop := map_Forall (λ _ l, L (stash l) (claimed_rewards l)) (ledger s).

Definition calm L (v : EraView) s : Prop := view_of s = v ∧ claims L s.
Definition quiet {A} (m : Call A) : Prop := ∀ L v, preserves (calm L v) m.

Lemma claims_update L s c l l' cu :
  claims L s → L (stash l) (claimed_rewards l) →
  stash l' = stash l → claimed_rewards l' = claimed_rewards l →
  claims L (s <| currency ::= cu |> <| ledger ::= insert c l' |>).
Proof. intros Hs Hl Hst Hcl. apply map_Forall_insert_2; [by rewrite Hst, Hcl | done]. Qed.

Lemma claims_lookup L s c l : claims L s → ledger s !! c = Some l → L (stash l) (claimed_rewards l).
Proof. intros Hs Hl. exact (Hs c l Hl). Qed.

Lemma calm_event L v s e : era_event e = false → calm L v s → calm L v (s <| events ::= λ evs, evs ++ [e] |>).
Proof.
  intros He [<- Hs]. split; [|done]. destruct (other_event (events s) e He) as [Hp Hr].
  unfold view_of. f_equal; [exact Hp | exact Hr].
Qed.

Lemma quiet_keeps {A} (m : Call A) L v (Q : A → Prop) :
  quiet m → (∀ a, Q a) → keeps (calm L v) m Q.
Proof. intros Hm HQ. eapply keeps_weaken; [apply Hm|]. intros a _. apply HQ. Qed.

End EraView.

#[export] Hint Extern 2 (keeps (calm _ _) _ _) =>
  apply quiet_keeps; [solve [eauto with quiet] | done] : keeps.
Ltac quiet_auto := intros L vw; keeps_auto; try done; try (by apply calm_event).

(** * Quiet operations *)

Section Quiet.
Context `{PerThingLaws} `{CurrencyLaws} `{!StakingConfig}.
Implicit Types (s : Store) (l : StakingLedger) (L : AccountId → list EraIndex → Prop).

Lemma quiet_deposit_event e : era_event e = false → quiet (deposit_event e).
Proof. intros He. unfold deposit_event. quiet_auto. Qed.
#[local] Hint Extern 1 (quiet (deposit_event _)) => by apply quiet_deposit_event : quiet.

(** The update of a ledger that was read before. *)
Lemma calm_update_ledger L v c l l' s0 c0 :
  calm L v s0 → ledger s0 !! c0 = Some l → stash l' = stash l → claimed_rewards l' = claimed_rewards l →
  preserves (calm L v) (update_ledger c l').
Proof.
  intros [_ Hs0] Hl Hst Hcl. unfold update_ledger. apply keeps_modify; [done|]. intros s [<- Hs].
  split; [done|]. apply (claims_update L s c l); [done | exact (claims_lookup L s0 c0 l Hs0 Hl) | done | done].
Qed.

Lemma quiet_update_voter st : quiet (update_voter st).
Proof. unfold update_voter. quiet_auto. Qed.
Lemma quiet_clear_stash st n : quiet (clear_stash_metadata st n).
Proof. unfold clear_stash_metadata. quiet_auto. Qed.
Lemma quiet_remove_validator st : quiet (do_remove_validator st).
Proof. unfold do_remove_validator. quiet_auto. Qed.
Lemma quiet_remove_nominator st : quiet (do_remove_nominator st).
Proof. unfold do_remove_nominator. quiet_auto. Qed.
Lemma quiet_add_validator st p : quiet (do_add_validator st p).
Proof. unfold do_add_validator. quiet_auto. Qed.
Lemma quiet_add_nominator st n : quiet (do_add_nominator st n).
Proof. unfold do_add_nominator. quiet_auto. Qed.
#[local] Hint Resolve quiet_update_voter quiet_clear_stash quiet_remove_validator
  quiet_remove_nominator quiet_add_validator quiet_add_nominator : quiet.

Lemma quiet_chill_stash st : quiet (chill_stash st).
Proof. unfold chill_stash. quiet_auto. Qed.
Lemma calm_kill L v s b c p :
  calm L v s → calm L v (s <| bonded ::= b |> <| ledger ::= delete c |> <| payee_map ::= p |>).
Proof. intros [<- Hs]. split; [done|]. by apply map_Forall_delete. Qed.

Lemma quiet_kill_stash st n : quiet (kill_stash st n).
Proof. unfold kill_stash. quiet_auto. by apply calm_kill. Qed.
#[local] Hint Resolve quiet_chill_stash quiet_kill_stash : quiet.

(** ** The calls *)

Ltac calm_ledger := solve [eapply calm_update_ledger; [eassumption | eassumption | done | done]].

Lemma quiet_bond_extra o v : quiet (bond_extra o v).
Proof. unfold bond_extra, ensure_signed. quiet_auto; calm_ledger. Qed.

Lemma quiet_unbond o v : quiet (unbond o v).
Proof. unfold unbond, ensure_signed. quiet_auto; calm_ledger. Qed.

Lemma quiet_withdraw_unbonded o n : quiet (withdraw_unbonded o n).
Proof.
  unfold withdraw_unbonded, ensure_signed. quiet_auto;
    (eapply calm_update_ledger; [eassumption | eassumption | ..];
     destruct (current_era _); [by apply consolidate_claims | done | by apply consolidate_claims | done]).
Qed.

Lemma quiet_rebond o v : quiet (rebond o v).
Proof.
  unfold rebond, ensure_signed. quiet_auto.
  eapply calm_update_ledger; [eassumption | eassumption | by eapply rebond_claims..].
Qed.

Lemma calm_move L v s0 s c c' l :
  calm L v s0 → ledger s0 !! c = Some l → calm L v s →
  calm L v (s <| ledger ::= λ m, insert c' l (delete c m) |>).
Proof.
  intros [_ Hs0] Hl [<- Hs]. split; [done|].
  apply map_Forall_insert_2; [exact (Hs0 c l Hl)|]. by apply map_Forall_delete.
Qed.

Lemma quiet_set_controller o c : quiet (set_controller o c).
Proof. unfold set_controller, ensure_signed. quiet_auto. eapply calm_move; [|eassumption|done]; done. Qed.

(** Cancelling changes an entry that is there. *)
Lemma quiet_cancel o e idxs : Forall (in_u 32) idxs → quiet (cancel_deferred_slash o e idxs).
Proof.
  intros Hidx L v. unfold cancel_deferred_slash. apply preserves_wp. intros s [Hv Hs]. cbn zeta.
  apply wp_bind, wp_ensure; [intros _|done]. apply wp_bind, wp_ensure; [intros Hne|done].
  apply wp_bind, wp_ensure; [intros _|done]. apply wp_get, wp_bind, wp_ensure; [intros Hlast|done].
  apply wp_modify. split; [|done]. rewrite <- Hv. unfold view_of. cbn. f_equal.
  apply dom_insert_lookup_L.
  unfold unapplied_slashes in Hlast. cbn [id] in Hlast.
  destruct (unapplied_slashes_map s !! e) as [us|] eqn:He; [done|]. cbn in Hlast. exfalso.
  destruct (last idxs) as [i|] eqn:Hi; [|cbn in Hlast; lia].
  apply last_Some in Hi as [init ->]. apply Forall_app in Hidx as [_ Hi].
  apply Forall_cons in Hi as [Hi _]. change (i < 0) in Hlast. ulia.
Qed.
#[local] Hint Resolve quiet_bond_extra quiet_unbond quiet_withdraw_unbonded quiet_rebond
  quiet_set_controller quiet_cancel : quiet.

(** The calls that add no ledger and keep the length of the history. *)
Definition quiet_call (c : StakingCall) : Prop :=
  call_ok c ∧ match c with CBond _ _ _ | CSetHistoryDepth _ => False | _ => True end.

Lemma call_cases c :
  call_ok c → quiet_call c ∨ (∃ a b p, c = CBond a b p) ∨ ∃ n, c = CSetHistoryDepth n.
Proof. unfold quiet_call. destruct c; eauto 10. Qed.

Lemma quiet_dispatch o c : quiet_call c → quiet (dispatch o c).
Proof.
  destruct c; cbn [dispatch quiet_call call_ok]; intros [Hc Hq]; try done;
    try solve [eauto with quiet];
    unfold validate, nominate, chill, set_payee, kick, kick_one, chill_other,
      force_apply_min_commission, set_validator_count, increase_validator_count,
      scale_validator_count, force_no_eras, force_new_era, force_new_era_always,
      set_invulnerables, force_unstake, reap_stash, set_staking_configs, ensure_signed, ensure_root;
    quiet_auto.
Qed.

(** A new ledger comes with the eras before the planned one as claimed. *)
Definition bond_claims s : list EraIndex :=
  let ce := default 0 (current_era s) in
  let first := sat_sub ce (history_depth s) in seqZ first (ce - first).

Lemma calm_bond L v o c b p s :
  (∀ st, L st (bond_claims s)) → calm L v s → calm L v (run (bond o c b p) s).
Proof.
  intros HL [Hv Hs]. change (wp (bond o c b p) s (λ _, calm L v)).
  unfold bond, ensure_signed, deposit_event, update_ledger. destruct o as [|who|]; wp_auto; try done.
  split.
  - rewrite <- Hv. match goal with |- context [[Bonded ?a ?w]] =>
      destruct (other_event (events s) (Bonded a w) eq_refl) as [Hp Hr] end.
    unfold view_of. f_equal; [exact Hp | exact Hr].
  - cbn. apply map_Forall_insert_2; [apply HL | done].
Qed.

(** ** Payments, sessions and reward points *)

Lemma quiet_make_payout st a : quiet (make_payout st a).
Proof.
  unfold make_payout. quiet_auto; calm_ledger.
Qed.
#[local] Hint Resolve quiet_make_payout : quiet.

Lemma quiet_payout_one w a t : quiet (payout_one w a t).
Proof. unfold payout_one. quiet_auto. Qed.
#[local] Hint Resolve quiet_payout_one : quiet.

Lemma quiet_payout_nominators et left noms : ∀ t, quiet (payout_nominators et left noms t).
Proof.
  induction noms as [|n noms IH]; intros total L v; cbn; [by apply keeps_ret|].
  apply preserves_keeps_bind; [apply quiet_payout_one|]. intros total'. apply IH.
Qed.

Lemma quiet_settle_payouts w : quiet (settle_payouts w).
Proof. unfold settle_payouts. quiet_auto. Qed.

Lemma quiet_on_finalize now : quiet (on_finalize now).
Proof.
  intros L v. unfold on_finalize. apply keeps_modify; [done|]. intros s [<- Hs].
  split; [|by destruct (active_era s) as [ae|]; [destruct (ae_start ae)|]].
  unfold view_of. destruct (active_era s) as [ae|] eqn:Hae; [|by rewrite Hae].
  destruct (ae_start ae); [by rewrite Hae | done].
Qed.

(** ** Slashes *)

Lemma quiet_do_slash a w r si e : quiet (do_slash a w r si e).
Proof.
  unfold do_slash. quiet_auto.
  eapply calm_update_ledger; [eassumption | eassumption | by eapply slash_claims..].
Qed.
#[local] Hint Resolve quiet_do_slash : quiet.

Lemma quiet_do_slash_others noms : ∀ r si e, quiet (do_slash_others noms r si e).
Proof.
  induction noms as [|[n w] noms IH]; intros r si e L v; cbn; [by apply keeps_ret|].
  apply preserves_keeps_bind; [apply quiet_do_slash|]. intros []. apply IH.
Qed.
#[local] Hint Resolve quiet_do_slash_others : quiet.

Lemma quiet_pay_reporters rp si reps : quiet (pay_reporters rp si reps).
Proof. unfold pay_reporters. quiet_auto. by destruct (pay_each_reporter _ _ _ _). Qed.
#[local] Hint Resolve quiet_pay_reporters : quiet.

Lemma quiet_apply_slash u e : quiet (apply_slash u e).
Proof. unfold apply_slash. quiet_auto. Qed.

Lemma quiet_add_offending_validator a b : quiet (add_offending_validator a b).
Proof. unfold add_offending_validator, ensure_new_era. quiet_auto; by case_match. Qed.
Lemma quiet_fetch_spans a ws p sl rp : quiet (fetch_spans a ws p sl rp).
Proof. unfold fetch_spans. quiet_auto. Qed.
Lemma quiet_drop_spans i : quiet (drop_spans i).
Proof. unfold drop_spans. quiet_auto. Qed.
Lemma quiet_compare_and_update i e w : quiet (compare_and_update_span_slash i e w).
Proof. unfold compare_and_update_span_slash. quiet_auto. Qed.
#[local] Hint Resolve quiet_add_offending_validator quiet_fetch_spans quiet_drop_spans
  quiet_compare_and_update : quiet.

Lemma quiet_slash_nominators_loop p pr noms : ∀ rew acc,
  quiet (slash_nominators_loop p pr rew acc noms).
Proof.
  induction noms as [|n noms IH]; intros rew acc L v; cbn; [by apply keeps_ret|].
  apply preserves_keeps_bind; [unfold slash_nominator; keeps_auto; done|].
  intros [r w]. apply IH.
Qed.
#[local] Hint Resolve quiet_slash_nominators_loop : quiet.

Lemma quiet_compute_slash p : quiet (compute_slash p).
Proof. unfold compute_slash, kick_out_if_recent, slash_validator, slash_nominators. quiet_auto. Qed.

(** ** What follows of quiet operations *)

Lemma quiet_frame {A} (m : Call A) (I : EraView → Prop) L :
  quiet m → preserves (λ s, I (view_of s) ∧ claims L s) m.
Proof.
  intros Hm. apply preserves_wp. intros s [HI Hs].
  eapply wp_mono; [apply (wp_preserves (calm L (view_of s))); [apply Hm | done]|].
  cbn. by intros _ s' [-> ?].
Qed.

Lemma quiet_view {A} (m : Call A) (I : EraView → Prop) :
  quiet m → preserves (λ s, I (view_of s)) m.
Proof.
  intros Hm. apply preserves_wp. intros s HI.
  eapply wp_mono; [apply (wp_preserves (λ s, I (view_of s) ∧ claims (λ _ _, True) s));
    [by apply quiet_frame | split; [done | by intros ???]]|].
  cbn. by intros _ s' [? _].
Qed.

Lemma bond_view o c b p s : view_of (run (bond o c b p) s) = view_of s.
Proof. by apply (calm_bond (λ _ _, True)); [|split; [|intros ???]]. Qed.

Lemma quiet_run {A} (m : Call A) s : quiet m → view_of (run m s) = view_of s.
Proof. intros Hm. exact (preserves_run _ m s (quiet_view m (λ v, v = view_of s) Hm) eq_refl). Qed.

(** Something that cannot fail and is quiet can be skipped. *)
Lemma wp_quiet {A B} (m : Call A) (k : A → Call B) v s (Q : result Error B → Store → Prop) :
  quiet m → always_ok m → view_of s = v →
  (∀ a s', view_of s' = v → wp (k a) s' Q) → wp (m ≫= k) s Q.
Proof.
  intros Hm Hok <- Hk. destruct (Hok s) as (a & s' & Heq).
  apply wp_bind, (wp_run _ _ _ _ _ Heq), Hk.
  pose proof (quiet_run m s Hm) as Hv. unfold run in Hv. by rewrite Heq in Hv.
Qed.

(** ** Genesis *)

Lemma assert_ok_run m s s' : assert_ok m s = Some s' → s' = run m s.
Proof. unfold assert_ok, run. destruct (m s) as [[[]|e] s1]; [by intros [= <-] | done]. Qed.

Lemma genesis_staker_view s s' x : genesis_staker s x = Some s' → view_of s' = view_of s.
Proof.
  destruct x as [[[st c] w] status]. intros Hone. unfold genesis_staker in Hone.
  destruct (decide _); [|done]. apply bind_Some in Hone as (s2 & Hb & Hone).
  rewrite <- (bond_view (Signed st) (unlookup c) w Staked s), <- (assert_ok_run _ _ _ Hb). clear Hb.
  destruct status; [by injection Hone as <- | |]; apply assert_ok_run in Hone as ->.
  - exact (quiet_run _ s2 (quiet_dispatch (Signed c) (CValidate ValidatorPrefs_default) (conj I I))).
  - exact (quiet_run _ s2 (quiet_dispatch (Signed c) (CNominate _) (conj I I))).
Qed.

Lemma genesis_stakers_view ss : ∀ s s', genesis_stakers s ss = Some s' → view_of s' = view_of s.
Proof.
  induction ss as [|x ss IH]; intros s s' Heq; cbn in Heq; [by injection Heq as <-|].
  apply bind_Some in Heq as (s1 & Hone & Heq).
  rewrite (IH s1 s' Heq). by eapply genesis_staker_view.
Qed.

Definition first_view : EraView :=
  {| v_active := None; v_earliest := None; v_unapplied := ∅; v_clipped := ∅; v_rewards := ∅;
     v_unclaimed := ∅; v_points := ∅; v_paid := []; v_rounding := (∅, 0) |}.

Lemma genesis_view g c vl ss sy s0 :
  genesis_build g (store_default c vl ss sy) = Some s0 → view_of s0 = first_view.
Proof.
  unfold genesis_build. intros (s1 & Hs1 & Heq)%bind_Some.
  destruct (decide _); [|done]. injection Heq as <-.
  rewrite (genesis_stakers_view _ _ _ Hs1). unfold view_of. cbn. by rewrite !dom_empty_L.
Qed.
End Quiet.


#[export] Hint Resolve quiet_apply_slash quiet_compute_slash quiet_add_offending_validator
  quiet_payout_nominators quiet_payout_one quiet_settle_payouts quiet_on_finalize quiet_dispatch : quiet.
#[export] Hint Extern 1 (quiet (deposit_event _)) => by apply quiet_deposit_event : quiet.
