(* ===== verification/StakingCorrect.v ===== *)
(** What the calls of the staking pallet do: they verify first and write last,
    unbonding moves stake into the unlocking queue, a removed stash leaves no
    trace, nominations name willing validators, and cancelling a deferred
    slash removes exactly the chosen ones. *)

From Stdlib Require Import ZArith Lia Sorted.
From stdpp Require Import base option list gmap fin_maps fin_sets strings.
From S2P Require Import Prelude Interfaces StakingLedger SlashingSpans StakingState Slashing.
From S2P Require Import Bonding Governance Payout Eras StakingInvariant.
#[local] Open Scope Z_scope.

(** * Verify first, write last *)

Section VerifyFirst.
Context `{PerThing} `{StakingConfig}.

Lemma total_update_ledger c l : always_ok (update_ledger c l).
Proof. unfold update_ledger. total_auto. Qed.
Lemma total_update_voter st : always_ok (update_voter st).
Proof. unfold update_voter. total_auto. Qed.
Lemma total_deposit_event e : always_ok (deposit_event e).
Proof. unfold deposit_event. total_auto. Qed.
Lemma total_do_remove_validator st : always_ok (do_remove_validator st).
Proof. unfold do_remove_validator. total_auto. Qed.
Lemma total_do_remove_nominator st : always_ok (do_remove_nominator st).
Proof. unfold do_remove_nominator. total_auto. Qed.
Lemma total_do_add_validator st p : always_ok (do_add_validator st p).
Proof. unfold do_add_validator. total_auto. Qed.
Lemma total_do_add_nominator st n : always_ok (do_add_nominator st n).
Proof. unfold do_add_nominator. total_auto. Qed.
Lemma total_clear_era_information e : always_ok (clear_era_information e).
Proof. unfold clear_era_information. total_auto. Qed.
Lemma total_kick_one st n : always_ok (kick_one st n).
Proof. unfold kick_one, deposit_event. total_auto. Qed.

#[local] Hint Resolve total_update_ledger total_update_voter total_deposit_event
  total_do_remove_validator total_do_remove_nominator total_do_add_validator
  total_do_add_nominator total_clear_era_information total_kick_one : total.

Lemma reads_ensure_signed o : reads (ensure_signed o).
Proof. unfold ensure_signed. solve_reads. Qed.
Lemma reads_ensure_root o : reads (ensure_root o).
Proof. unfold ensure_root. solve_reads. Qed.

Lemma verify_clear_stash_metadata st n : verify_first (clear_stash_metadata st n).
Proof. unfold clear_stash_metadata. verify_auto. Qed.

Lemma verify_kill_stash st n : verify_first (kill_stash st n).
Proof.
  unfold kill_stash. do 2 verify_step.
  apply verify_first_write_bind; [apply verify_clear_stash_metadata|].
  intros _. total_auto.
Qed.

Lemma verify_kill_then {A} st n (k : Call A) :
  always_ok k → verify_first (kill_stash st n ≫= λ _, k).
Proof. intros Hk. apply verify_first_write_bind; [apply verify_kill_stash | done]. Qed.

(** Open the origin check, then peel. *)
Ltac verify_call :=
  first [ apply verify_first_read_bind; [apply reads_ensure_signed | intros ?]
        | apply verify_first_read_bind; [apply reads_ensure_root | intros ?]
        | idtac ];
  verify_auto.

Lemma verify_withdraw_unbonded o n : verify_first (withdraw_unbonded o n).
Proof.
  unfold withdraw_unbonded. apply verify_first_read_bind; [apply reads_ensure_signed|].
  intros c. do 2 verify_step. cbn zeta.
  apply verify_first_write_bind; [|intros _; total_auto].
  destruct (decide _); [apply verify_kill_then; total_auto | verify_auto].
Qed.

Lemma verify_dispatch o c : verify_first (dispatch o c).
Proof.
  destruct c; cbn [dispatch].
  all: unfold bond, bond_extra, unbond, rebond, validate, nominate, chill, set_payee,
    set_controller, kick, chill_other, force_apply_min_commission, set_validator_count,
    increase_validator_count, scale_validator_count, force_no_eras, force_new_era,
    force_new_era_always, set_invulnerables, cancel_deferred_slash, set_history_depth,
    set_staking_configs.
  all: try by verify_call.
  - apply verify_withdraw_unbonded.
  - unfold force_unstake. apply verify_first_read_bind; [apply reads_ensure_root|].
    intros _. apply verify_kill_then. total_auto.
  - unfold reap_stash. apply verify_first_read_bind; [apply reads_ensure_signed|]. intros _.
    do 3 verify_step. apply verify_kill_then. total_auto.
Qed.

(** A computation that leaves a trace only with the errors of [Q]. *)
Definition traces_only (Q : Error → Prop) {A} (m : Call A) : Prop :=
  ∀ s e s', m s = (Err e, s') → s' = s ∨ Q e.

Lemma traces_read_bind Q {A B} (m : Call A) (k : A → Call B) :
  reads m → (∀ a, traces_only Q (k a)) → traces_only Q (m ≫= k).
Proof.
  intros Hm Hk s e s' Heq. specialize (Hm s). unfold mbind, M_bind in Heq.
  destruct (m s) as [[a|e'] s1]; cbn in Hm; subst s1.
  - by apply (Hk a).
  - injection Heq as <- <-. by left.
Qed.

Definition fails_only (Q : Error → Prop) {A} (m : Call A) : Prop :=
  ∀ s e s', m s = (Err e, s') → Q e.

Lemma fails_only_bind Q {A B} (m : Call A) (k : A → Call B) :
  always_ok m → (∀ a, fails_only Q (k a)) → fails_only Q (m ≫= k).
Proof.
  intros Hm Hk s e s' Heq. destruct (Hm s) as (a & s1 & Hs1).
  rewrite (bind_step _ _ _ _ _ Hs1) in Heq. by eapply Hk.
Qed.

Lemma total_make_payout a v : always_ok (make_payout a v).
Proof. unfold make_payout. total_auto. Qed.
#[local] Hint Resolve total_make_payout : total.
Lemma total_payout_one a v t : always_ok (payout_one a v t).
Proof. unfold payout_one. total_auto. Qed.
#[local] Hint Resolve total_payout_one : total.
Lemma total_payout_nominators x l noms : ∀ t, always_ok (payout_nominators x l noms t).
Proof. induction noms as [|n noms IH]; intros t; cbn; total_auto. Qed.
#[local] Hint Resolve total_payout_nominators : total.


Lemma settle_payouts_fails v e :
  fails_only (λ e, e = CannotPayout) (settle_payouts v ≫= λ _, update_not_claimed_reward e v).
Proof.
  intros s er s'. unfold settle_payouts, mbind, M_bind, gets, id; cbn.
  destruct (settle fund_account_id v KeepAlive (currency s)); by intros [= <- _].
Qed.

(** Before its first write a payout fails with any error, after it only with
    [CannotPayout]. *)
Lemma payout_traces o v er : traces_only (λ e, e = CannotPayout) (payout_stakers o v er).
Proof.
  unfold payout_stakers. apply traces_read_bind; [apply reads_ensure_signed|]. intros _.
  unfold do_payout_stakers. apply traces_read_bind; [solve_reads|]. intros s0.
  apply traces_read_bind; [solve_reads|]. intros [[c l] pay]. cbv zeta.
  intros s e s' Heq. right. revert s e s' Heq.
  apply fails_only_bind; [total_auto|]. intros _. case_decide; [by intros s e s' [=]|].
  destruct (validator_payouts _ _ _ _ _ _ _) as [vp lv].
  do 3 (apply fails_only_bind; [total_auto|]; intros ?). apply settle_payouts_fails.
Qed.

(** C2: No call of the pallet leaves a trace when it fails: whatever the error,
    the storage is exactly what it was, although nothing rolls it back; the one
    exception is [payout_stakers], which leaves none with any error but
    [CannotPayout]. *)
Theorem dispatch_verify_first :
  (∀ o c s e s', dispatch o c s = (Err e, s') → s' = s) ∧
  (∀ o v er s e s', payout_stakers o v er s = (Err e, s') → s' = s ∨ e = CannotPayout).
Proof. split; [intros o c; apply verify_dispatch | intros o v er; apply payout_traces]. Qed.
End VerifyFirst.

(** * Unbonding *)

Section Unbond.
Context `{PerThingLaws} `{CurrencyLaws} `{!StakingConfig}.
Implicit Types s : Store.

(** What [unbond] moves: all of the active stake if less than the minimum
    balance would stay. *)
Definition unbond_amount (v : Z) (l : StakingLedger) : Z :=
  let v := Z.min v (active l) in
  if decide (active l - v < minimum_balance) then active l else v.

Lemma last_push_chunk chunks v e chunks' :
  push_chunk chunks v e = Some chunks' →
  (era <$> last chunks') = Some e ∧ (length chunks' ≤ S (length chunks))%nat.
Proof.
  assert ((era <$> last (chunks ++ [ {| value := v; era := e |} ])) = Some e
    ∧ (length (chunks ++ [ {| value := v; era := e |} ]) ≤ S (length chunks))%nat) as Hpush.
  { rewrite last_snoc, length_app. cbn. split; [done | lia]. }
  unfold push_chunk. destruct (last chunks) as [c|] eqn:Hlast.
  2:{ destruct (decide _); [by intros [= <-] | done]. }
  destruct (decide (era c = e)).
  2:{ destruct (decide _); [by intros [= <-] | done]. }
  intros [= <-]. rewrite last_snoc, length_app. cbn. split; [done|].
  apply last_Some in Hlast as [init ->]. rewrite removelast_last, length_app. cbn. lia.
Qed.

Lemma push_chunk_room chunks v e :
  (length chunks < MaxUnlockingChunks)%nat → is_Some (push_chunk chunks v e).
Proof.
  intros Hl. unfold push_chunk. rewrite (decide_True _ _ Hl).
  destruct (last chunks) as [c|]; [destruct (decide _)|]; by eexists.
Qed.

Lemma unbond_spec s c l v
    (Hs : staking_wf s) (Hl : ledger s !! c = Some l) (Hv : u128 v)
    (Hroom : (length (unlocking l) < MaxUnlockingChunks)%nat)
    (Hnz : Z.min v (active l) ≠ 0) :
  let moved := unbond_amount v l in
  if decide (active l - moved >= min_active_bond s (stash l)) then
    ∃ s' l', unbond (Signed c) v s = (Ok tt, s') ∧ ledger s' !! c = Some l'
      ∧ active l' = active l - moved ∧ total l' = total l
      ∧ unlocking_sum (unlocking l') = unlocking_sum (unlocking l) + moved
      ∧ (era <$> last (unlocking l')) =
          Some (wadd 32 (default 0 (current_era s)) BondingDuration)
      ∧ stash l' = stash l ∧ (∀ c', c' ≠ c → ledger s' !! c' = ledger s !! c')
      ∧ push_chunk (unlocking l) moved (wadd 32 (default 0 (current_era s)) BondingDuration)
          = Some (unlocking l')
  else unbond (Signed c) v s = (Err InsufficientBond, s).
Proof.
  destruct (wf_ledger _ _ _ _ (proj1 Hs) _ _ Hl) as [_ [[Htot Hr Ha Hc] _]].
  pose proof (unlocking_sum_nonneg _ Hc). intros moved.
  unfold unbond, ensure_signed. rewrite (bind_step _ _ c s s) by done.
  rewrite (bind_step _ _ s s s) by done. cbn [id].
  rewrite (bind_step _ _ l s s) by (cbn; by rewrite Hl).
  rewrite (bind_step _ _ tt s s) by (by apply ensure_true). cbn zeta.
  unfold when. rewrite !(decide_True _ _ Hnz).
  set (v1 := Z.min v (active l)) in *. rewrite (wsub_small _ (active l)) by ulia.
  assert ((if decide (active l - v1 < minimum_balance) then (wadd 128 v1 (active l - v1), 0)
           else (v1, active l - v1)) = (moved, active l - moved)) as ->.
  { unfold moved, unbond_amount. fold v1.
    destruct (decide _); [rewrite wadd_small by ulia|]; tuple_lia. }
  assert (0 ≤ moved ≤ active l).
  { unfold moved, unbond_amount. fold v1. destruct (decide _); ulia. }
  destruct (decide (active l - moved >= _)) as [Hmin|Hmin].
  2:{ by rewrite (bind_err _ _ InsufficientBond s s) by by apply ensure_false. }
  rewrite (bind_step _ _ tt s s) by (by apply ensure_true).
  set (e := wadd 32 _ BondingDuration).
  destruct (push_chunk_room (unlocking l) moved e Hroom) as [chunks Hch].
  rewrite (bind_step _ _ chunks s s) by (by rewrite Hch).
  destruct (last_push_chunk _ _ _ _ Hch) as [Hlast _].
  pose proof (push_chunk_spec _ _ _ _ Hch) as Hsum. destruct Hsum as [Hsum _]; [lia|ulia|done|].
  set (l' := l <| active := active l - moved |> <| unlocking := chunks |>).
  assert (always_ok (update_voter (stash l) ≫= λ _, deposit_event (Unbonded (stash l) moved))) as Hok.
  { apply always_ok_bind; [apply total_update_voter | intros _; apply total_deposit_event]. }
  assert (frames (update_voter (stash l) ≫= λ _, deposit_event (Unbonded (stash l) moved))) as Hfr.
  { apply frames_bind; [apply frames_update_voter | intros _; apply frames_deposit_event]. }
  destruct (update_ledger c l' s) as [[[]|] s1] eqn:Hu; [|done].
  rewrite (bind_step _ _ tt s s1) by done.
  destruct (Hok s1) as ([] & s2 & Heq). exists s2, l'. split; [done|].
  assert (ledger s2 = <[c := l']> (ledger s)) as Hl2.
  { pose proof (preserves_result _ _ _ _ _ (Hfr (core s1)) Heq eq_refl) as Hcore.
    injection Hcore as _ -> _ _ _. injection Hu as <-. done. }
  rewrite Hl2, lookup_insert_eq. split_and!; try done. intros c' Hc'. by rewrite lookup_insert_ne.
Qed.
(** C25: With room in the queue, [unbond] of a controller moves the chosen part
    of its active stake (rounded up to all of it when dust would stay) into
    the chunk that unlocks one bonding duration after the current era, and
    keeps the total, if the rest is enough for the role of the stash;
    otherwise it fails with [InsufficientBond]. *)
Theorem unbond_correct s c l v
    (Hs : staking_wf s) (Hl : ledger s !! c = Some l) (Hv : u128 v)
    (Hroom : (length (unlocking l) < MaxUnlockingChunks)%nat)
    (Hnz : Z.min v (active l) ≠ 0) :
  let moved := unbond_amount v l in
  if decide (active l - moved >= min_active_bond s (stash l)) then
    ∃ s' l', unbond (Signed c) v s = (Ok tt, s') ∧ ledger s' !! c = Some l'
      ∧ active l' = active l - moved ∧ total l' = total l
      ∧ unlocking_sum (unlocking l') = unlocking_sum (unlocking l) + moved
      ∧ (era <$> last (unlocking l')) =
          Some (wadd 32 (default 0 (current_era s)) BondingDuration)
      ∧ stash l' = stash l ∧ (∀ c', c' ≠ c → ledger s' !! c' = ledger s !! c')
      ∧ push_chunk (unlocking l) moved (wadd 32 (default 0 (current_era s)) BondingDuration)
          = Some (unlocking l')
  else unbond (Signed c) v s = (Err InsufficientBond, s).
Proof. by apply unbond_spec. Qed.
End Unbond.

(** * Removing a stash *)

Section KillStash.
Context `{PerThingLaws} `{CurrencyLaws} `{!StakingConfig}.
Implicit Types s : Store.

(** What the staking pallet knows of a stash. *)
Definition stash_data s (st : AccountId) :=
  (bonded s !! st, payee_map s !! st, validators_map s !! st, nominators s !! st,
   slashing_spans s !! st).

Lemma clear_stash_metadata_Ok st n s s' u :
  clear_stash_metadata st n s = (Ok u, s') →
  core s' = core s ∧ payee_map s' = payee_map s ∧ slashing_spans s' = delete st (slashing_spans s).
Proof.
  intros Heq. unfold clear_stash_metadata in Heq. rewrite (bind_step _ _ s s s) in Heq by done.
  destruct (slashing_spans s !! st) as [sps|] eqn:Hsp.
  2:{ injection Heq as _ <-. by rewrite delete_id. }
  apply bind_Ok in Heq as ([] & s1 & He & Heq). apply ensure_Ok in He as [_ ->].
  apply bind_Ok in Heq as ([] & s1 & He & Heq). injection He as <-.
  set (I := λ s1 : Store, core s1 = core s ∧ payee_map s1 = payee_map s
    ∧ slashing_spans s1 = delete st (slashing_spans s)).
  change (I s'). eapply (preserves_result I); [|exact Heq|done].
  apply keeps_for_each. intros span _. by apply keeps_modify.
Qed.

Lemma kill_stash_spec s st n (Hs : staking_wf s) :
  match bonded s !! st with
  | None => kill_stash st n s = (Err NotStash, s)
  | Some c =>
      let announced := match slashing_spans s !! st with
                       | Some sps => Z.of_nat (length (iter sps)) <=? n
                       | None => true end in
      if announced then
        ∃ s', kill_stash st n s = (Ok tt, s')
          ∧ stash_data s' st = (None, None, None, None, None)
          ∧ ledger s' = delete c (ledger s)
          ∧ ∀ st', st' ≠ st → stash_data s' st' = stash_data s st'
      else kill_stash st n s = (Err IncorrectSlashingSpans, s)
  end.
Proof.
  unfold kill_stash. rewrite (bind_step _ _ s s s) by done.
  destruct (bonded s !! st) as [c|] eqn:Hb;
    [|done].
  rewrite (bind_step _ _ c s s) by done. cbn zeta.
  set (announced := match slashing_spans s !! st with Some _ => _ | None => _ end).
  assert (if announced then ∃ s1, clear_stash_metadata st n s = (Ok tt, s1)
          else clear_stash_metadata st n s = (Err IncorrectSlashingSpans, s)) as Hclear.
  { unfold announced, clear_stash_metadata. rewrite (bind_step _ _ s s s) by done.
    destruct (slashing_spans s !! st) as [sps|]; [|by exists s].
    destruct (Z.leb_spec (Z.of_nat (length (iter sps))) n).
    - rewrite (bind_step _ _ tt s s) by by apply ensure_true.
      match goal with |- ∃ s1, ?m s = _ => assert (always_ok m) as Hok by total_auto end.
      destruct (Hok s) as ([] & s1 & Hr). by exists s1.
    - by rewrite (bind_err _ _ IncorrectSlashingSpans s s) by (apply ensure_false; lia). }
  destruct announced; [|by rewrite (bind_err _ _ IncorrectSlashingSpans s s)].
  destruct Hclear as [s1 Hs1]. rewrite (bind_step _ _ tt s s1) by done.
  destruct (clear_stash_metadata_Ok _ _ _ _ _ Hs1) as (Hc1 & Hp1 & Hsp1).
  injection Hc1 as Hb1 Hl1 Hv1 Hn1 Hu1.
  match goal with |- context [(modify ?f ≫= ?k) s1] =>
    destruct ((modify f ≫= k) s1) as [r s2] eqn:Heq; set (m := modify f ≫= k) in * end.
  set (Q := λ (r : result Error unit) (s2 : Store),
    r = Ok tt ∧ bonded s2 = delete st (bonded s) ∧ ledger s2 = delete c (ledger s)
    ∧ payee_map s2 = delete st (payee_map s) ∧ validators_map s2 = delete st (validators_map s)
    ∧ nominators s2 = delete st (nominators s)
    ∧ slashing_spans s2 = delete st (slashing_spans s)).
  assert (Q r s2) as (-> & Hb2 & Hl2 & Hp2 & Hv2 & Hn2 & Hsp2).
  { apply (wp_elim m s1 r s2 Q); [|exact Heq]. unfold m, Q.
    unfold do_remove_validator, do_remove_nominator.
    wp_auto; cbn in *; rewrite ?Hb1, ?Hl1, ?Hv1, ?Hn1, ?Hp1, ?Hsp1 in *;
      split_and!; try done; by rewrite delete_id. }
  exists s2. split; [done|]. unfold stash_data.
  rewrite Hb2, Hp2, Hv2, Hn2, Hsp2, Hl2, !lookup_delete_eq. split_and!; try done.
  intros st' Hne. by rewrite !lookup_delete_ne.
Qed.
(** Removing a stash that the pallet finds removable deletes all it knows
    of it: the bond, the ledger of its controller, the reward destination,
    both roles and the slashing spans; and it changes nothing of any other
    stash or ledger.  It fails, changing nothing, exactly when the stash is not
    bonded or more spans would be removed than announced. *)
Theorem kill_stash_correct s st n (Hs : staking_wf s) :
  match bonded s !! st with
  | None => kill_stash st n s = (Err NotStash, s)
  | Some c =>
      let announced := match slashing_spans s !! st with
                       | Some sps => Z.of_nat (length (iter sps)) <=? n
                       | None => true end in
      if announced then
        ∃ s', kill_stash st n s = (Ok tt, s')
          ∧ stash_data s' st = (None, None, None, None, None)
          ∧ ledger s' = delete c (ledger s)
          ∧ ∀ st', st' ≠ st → stash_data s' st' = stash_data s st'
      else kill_stash st n s = (Err IncorrectSlashingSpans, s)
  end.
Proof. exact (kill_stash_spec s st n Hs). Qed.
End KillStash.

(** * Cancelling deferred slashes *)

Section CancelSlash.
Context `{PerThing} `{StakingConfig}.

(** The items of a list, numbered from [o], that are not in [idxs]. *)
Fixpoint keep_unlisted {A} (o : Z) (idxs : list Z) (l : list A) : list A :=
  match l with
  | [] => []
  | x :: l' =>
      if decide (o ∈ idxs) then keep_unlisted (o + 1) idxs l'
      else x :: keep_unlisted (o + 1) idxs l'
  end.

Lemma keep_unlisted_app {A} idxs (l1 l2 : list A) : ∀ o,
  keep_unlisted o idxs (l1 ++ l2) =
  keep_unlisted o idxs l1 ++ keep_unlisted (o + Z.of_nat (length l1)) idxs l2.
Proof.
  induction l1 as [|x l1 IH]; intros o; cbn [app keep_unlisted length].
  { by rewrite Z.add_0_r. }
  rewrite IH. replace (o + 1 + Z.of_nat (length l1)) with (o + Z.of_nat (S (length l1))) by lia.
  by destruct (decide _).
Qed.

Lemma keep_unlisted_ext {A} idxs idxs' (l : list A) : ∀ o,
  (∀ j, o ≤ j → j ∈ idxs ↔ j ∈ idxs') → keep_unlisted o idxs l = keep_unlisted o idxs' l.
Proof.
  induction l as [|x l IH]; intros o Hext; cbn; [done|].
  rewrite (IH (o + 1)) by (intros; apply Hext; lia).
  destruct (decide (o ∈ idxs)) as [Hin|Hin]; rewrite (Hext o) in Hin by lia;
    [by rewrite decide_True | by rewrite decide_False].
Qed.

Lemma keep_unlisted_none {A} idxs (l : list A) : ∀ o,
  Forall (λ i, o + Z.of_nat (length l) ≤ i) idxs → keep_unlisted o idxs l = l.
Proof.
  induction l as [|x l IH]; intros o Hall; cbn [keep_unlisted]; [done|]. rewrite length_cons in Hall.
  rewrite decide_False.
  - rewrite IH; [done|]. eapply Forall_impl; [exact Hall|]. cbn. lia.
  - intros Hin. rewrite Forall_forall in Hall. specialize (Hall _ Hin). lia.
Qed.

Lemma remove_indices_spec {A} idxs : ∀ r (pre l : list A),
  StronglySorted Z.lt idxs →
  Forall (λ i, r + Z.of_nat (length pre) ≤ i < r + Z.of_nat (length pre) + Z.of_nat (length l)) idxs →
  remove_indices r idxs (pre ++ l) = pre ++ keep_unlisted (r + Z.of_nat (length pre)) idxs l.
Proof.
  induction idxs as [|i idxs IH]; intros r pre l Hs Hr; cbn [remove_indices].
  { rewrite keep_unlisted_none; [done | constructor]. }
  apply StronglySorted_inv in Hs as [Hs Hi]. apply Forall_cons in Hr as [Hir Hr].
  set (o := r + Z.of_nat (length pre)) in *.
  destruct (lookup_lt_is_Some_2 l (Z.to_nat (i - o))) as [x Hx]; [lia|].
  rewrite <- (take_drop_middle l _ _ Hx) at 1 2.
  set (l1 := take _ l). set (l2 := drop _ l).
  assert (length l1 = Z.to_nat (i - o)) as Hl1 by (unfold l1; rewrite length_take; lia).
  assert (length l2 = (length l - S (Z.to_nat (i - o)))%nat) as Hl2 by (unfold l2; by rewrite length_drop).
  assert (vec_remove (Z.to_nat (i - r)) (pre ++ l1 ++ x :: l2) = (pre ++ l1) ++ l2) as ->.
  { unfold vec_remove. rewrite app_assoc.
    rewrite take_app_length' by (rewrite length_app; lia).
    f_equal. change (x :: l2) with ([x] ++ l2). rewrite app_assoc.
    apply drop_app_length'. rewrite !length_app. cbn. lia. }
  rewrite IH; [|done|].
  - rewrite <- app_assoc. f_equal. rewrite length_app, Hl1.
    rewrite keep_unlisted_app. f_equal.
    + symmetry. apply keep_unlisted_none. constructor; [lia|].
      eapply Forall_impl; [exact Hi|]. cbn. lia.
    + rewrite Hl1. replace (o + Z.of_nat (Z.to_nat (i - o))) with i by lia.
      cbn [keep_unlisted]. rewrite decide_True by set_solver.
      replace (r + 1 + Z.of_nat (length pre + Z.to_nat (i - o))) with (i + 1) by lia.
      apply keep_unlisted_ext. intros j Hj. rewrite elem_of_cons. split; [by right|].
      intros [->|?]; [lia|done].
  - rewrite length_app, Hl1, Hl2. rewrite Forall_forall in *. intros j Hj.
    specialize (Hi j Hj). specialize (Hr j Hj). lia.
Qed.

Lemma is_sorted_and_unique_spec l :
  is_sorted_and_unique l = true → StronglySorted Z.lt l ∧ ∀ x, last l = Some x → Forall (λ i, i ≤ x) l.
Proof.
  induction l as [|a [|b l] IH]; intros Hs.
  - split; [constructor | constructor].
  - split; [by repeat constructor|]. intros x [= <-]. repeat constructor. lia.
  - change (is_sorted_and_unique (a :: b :: l)) with ((a <? b) && is_sorted_and_unique (b :: l)) in Hs.
    apply andb_true_iff in Hs as [Hab%Z.ltb_lt Hs].
    destruct (IH Hs) as [Hsort Hlast]. apply StronglySorted_inv in Hsort as [Hsort Hb].
    split.
    + constructor; [by constructor|]. constructor; [done|].
      eapply Forall_impl; [exact Hb|]. cbn. lia.
    + intros x Hx. rewrite last_cons_cons in Hx. specialize (Hlast x Hx).
      constructor; [|done]. apply Forall_cons in Hlast as [? _]. lia.
Qed.

(** Cancelling deferred slashes removes exactly the slashes at the given
    positions of the era, in one go although removing shifts the positions,
    and keeps the order of the others and the slashes of other eras; it does
    so only for a non-empty, strictly increasing list of valid positions. *)
Theorem cancel_deferred_slash_correct s o e idxs
    (Ho : slash_cancel_origin o = true) (Hidx : Forall (λ i, 0 ≤ i) idxs) :
  cancel_deferred_slash o e idxs s =
    if decide (idxs = []) then (Err EmptyTargets, s)
    else if negb (is_sorted_and_unique idxs) then (Err NotSortedAndUnique, s)
    else if decide (default 0 (last idxs) < Z.of_nat (length (unapplied_slashes s e))) then
      (Ok tt, s <| unapplied_slashes_map ::=
                insert e (keep_unlisted 0 idxs (unapplied_slashes s e)) |>)
    else (Err InvalidSlashIndex, s).
Proof.
  unfold cancel_deferred_slash.
  rewrite (bind_step _ _ tt s s) by by apply ensure_true.
  destruct (decide (idxs = [])) as [He|He].
  { by rewrite (bind_err _ _ EmptyTargets s s) by (apply ensure_false; tauto). }
  rewrite (bind_step _ _ tt s s) by by apply ensure_true.
  destruct (is_sorted_and_unique idxs) eqn:Hs; cbn [negb].
  2:{ by rewrite (bind_err _ _ NotSortedAndUnique s s) by by apply ensure_false. }
  rewrite (bind_step _ _ tt s s) by by apply ensure_true.
  rewrite (bind_step _ _ s s s) by done. cbn zeta.
  destruct (decide (_ < _)) as [Hl|Hl].
  2:{ by rewrite (bind_err _ _ InvalidSlashIndex s s) by by apply ensure_false. }
  rewrite (bind_step _ _ tt s s) by by apply ensure_true. unfold modify.
  destruct (is_sorted_and_unique_spec _ Hs) as [Hsort Hlast].
  pose proof (remove_indices_spec idxs 0 [] (unapplied_slashes s e) Hsort) as Hspec.
  cbn [app length] in Hspec. rewrite Hspec; [done|].
  destruct (last idxs) as [x|] eqn:Hx; [|by apply last_None in Hx].
  specialize (Hlast x eq_refl). rewrite ?Hx in Hl. cbn in Hl. rewrite Forall_forall in *. intros i Hi.
  specialize (Hidx i Hi). specialize (Hlast i Hi). cbn in Hlast. lia.
Qed.
End CancelSlash.

(** * Nominating and chilling *)

Section Roles.
Context `{PerThingLaws} `{CurrencyLaws} `{!StakingConfig}.
Implicit Types s : Store.

Lemma check_targets_spec s old ts ns :
  check_targets s old ts = Ok ns →
  mapM lookup ts = Some ns ∧ Forall (λ n, n ∈ old ∨ blocked (validators s n) = false) ns.
Proof.
  revert ns. induction ts as [|t ts IH]; intros ns; cbn; [by intros [= <-]|].
  destruct (lookup t) as [n|]; cbn; [|done]. destruct (decide _) as [Hn|]; [|done].
  destruct (check_targets s old ts) as [ns'|]; [|done]. intros [= <-].
  destruct (IH ns' eq_refl) as [-> ?]. split; [done|]. by constructor.
Qed.

Lemma count_insert_le {V} (m : gmap AccountId V) k v :
  count (<[k:=v]> m) ≤ count m + (if decide (m !! k = None) then 1 else 0).
Proof.
  unfold count. rewrite map_size_insert.
  destruct (m !! k); [rewrite decide_False by done | rewrite decide_True by done]; unfold id; lia.
Qed.

(** A nomination that goes through names between one and [MaxNominations]
    accounts, the ones the sources stand for; each was nominated before or
    does not block nominations.  The stash becomes a nominator (and no
    validator) with its targets dated to the current era, nobody else is
    affected, and a limit on nominators that held still holds. *)
Theorem nominate_correct s c l ts s'
    (Hl : ledger s !! c = Some l) (Hok : nominate (Signed c) ts s = (Ok tt, s')) :
  ∃ ns, mapM lookup ts = Some ns ∧ (0 < length ns ≤ MaxNominations)%nat
    ∧ active l >= min_nominator_bond s
    ∧ (∀ n, n ∈ ns → n ∈ default [] (targets <$> nominators s !! stash l)
         ∨ blocked (validators s n) = false)
    ∧ nominators s' = <[stash l := {| targets := ns; submitted_in := default 0 (current_era s);
                                      suppressed := false |}]> (nominators s)
    ∧ validators_map s' = delete (stash l) (validators_map s)
    ∧ ledger s' = ledger s ∧ bonded s' = bonded s
    ∧ ∀ m, max_nominators_count s = Some m → count (nominators s) ≤ m →
        count (nominators s') ≤ m.
Proof.
  unfold nominate, ensure_signed in Hok.
  rewrite (bind_step _ _ c s s) in Hok by done.
  rewrite (bind_step _ _ s s s) in Hok by done.
  rewrite (bind_step _ _ l s s) in Hok by (by rewrite Hl).
  apply bind_Ok in Hok as ([] & s1 & Hmin & Hok). apply ensure_Ok in Hmin as [Hmin ->].
  apply bind_Ok in Hok as ([] & s1 & Hlim & Hok).
  assert (s1 = s ∧ (nominators s !! stash l = None → ∀ m, max_nominators_count s = Some m →
            count (nominators s) < m)) as [-> Hlimit].
  { unfold when in Hlim. destruct (decide _) as [Hn|Hn].
    - destruct (max_nominators_count s) as [m|].
      + apply ensure_Ok in Hlim as [Hlt ->]. split; [done|]. by intros _ m' [= <-].
      + injection Hlim as <-. done.
    - injection Hlim as <-. split; [done|]. intros. tauto. }
  apply bind_Ok in Hok as ([] & s1 & He & Hok). apply ensure_Ok in He as [Hne ->].
  apply bind_Ok in Hok as ([] & s1 & He & Hok). apply ensure_Ok in He as [Hmax ->].
  cbn zeta in Hok. apply bind_Ok in Hok as (ns & s1 & He & Hok).
  destruct (check_targets s _ ts) as [ns'|] eqn:Hcheck; [|done]. injection He as -> <-.
  apply check_targets_spec in Hcheck as [Hlook Hns]. rewrite Forall_forall in Hns.
  apply bind_Ok in Hok as ([] & s1 & He & Hok). apply ensure_Ok in He as [Hmax' ->].
  assert (length ns = length ts) as Hlen by (symmetry; by eapply length_mapM).
  set (nom := {| targets := ns; submitted_in := _; suppressed := _ |}) in *.
  assert (core s' = (bonded s, ledger s, delete (stash l) (validators_map s),
                     <[stash l := nom]> (nominators s), unapplied_slashes_map s)) as Hcore.
  { refine (wp_elim _ s (Ok tt) s' (λ _ s', core s' = _) _ Hok).
    apply wp_bind, do_remove_validator_wp. intros b s1 [= Hb1 Hl1 Hv1 Hn1 Hu1].
    apply do_add_nominator_wp. intros s2 ->. by rewrite Hb1, Hl1, Hv1, Hn1, Hu1. }
  injection Hcore as Hb' Hl' Hv' Hn' _. exists ns. split_and!; try done.
  - destruct ts; [done|]. cbn in Hlen. lia.
  - intros m Hm Hcount. rewrite Hn'. pose proof (count_insert_le (nominators s) (stash l) nom) as Hle.
    destruct (decide (nominators s !! stash l = None)) as [Hnone|]; [|lia].
    specialize (Hlimit Hnone m Hm). lia.
Qed.

(** When anybody may chill the stash of a ledger. *)
Definition may_be_chilled s (l : StakingLedger) : Prop :=
  ∃ threshold, chill_threshold s = Some threshold ∧
  if decide (nominators s !! stash l ≠ None) then
    active l < min_nominator_bond s ∧
    ∃ m, max_nominators_count s = Some m ∧ percent_mul threshold m < count (nominators s)
  else validators_map s !! stash l ≠ None ∧ active l < min_validator_bond s ∧
    ∃ m, max_validators_count s = Some m ∧ percent_mul threshold m < count (validators_map s).

(** [chill_other] takes the roles of a stash away exactly when its own
    controller asks, or when the stash bonds less than its role requires and
    the role is filled beyond the threshold; in every other case it fails with
    [CannotChillOther] and changes nothing. *)
Theorem chill_other_correct s c l caller
    (Hs : staking_wf s) (Hl : ledger s !! c = Some l) :
  (caller = c ∨ may_be_chilled s l →
     ∃ s', chill_other (Signed caller) c s = (Ok tt, s')
       ∧ nominators s' = delete (stash l) (nominators s)
       ∧ validators_map s' = delete (stash l) (validators_map s)
       ∧ ledger s' = ledger s)
  ∧ (¬ (caller = c ∨ may_be_chilled s l) →
     chill_other (Signed caller) c s = (Err CannotChillOther, s)).
Proof.
  destruct (wf_ledger _ _ _ _ (proj1 Hs) _ _ Hl) as [_ [[_ _ Ha _] _]].
  unfold chill_other, ensure_signed.
  rewrite (bind_step _ _ caller s s) by done. rewrite (bind_step _ _ s s s) by done.
  rewrite (bind_step _ _ l s s) by (by rewrite Hl). cbn zeta.
  match goal with |- context [(when ?P ?m ≫= ?k) s] => set (checks := m); set (tail := k) end.
  assert (∃ s', tail tt s = (Ok tt, s') ∧ nominators s' = delete (stash l) (nominators s)
     ∧ validators_map s' = delete (stash l) (validators_map s) ∧ ledger s' = ledger s) as Htail.
  { destruct (total_chill_stash (stash l) s) as ([] & s' & Heq). exists s'. split; [done|].
    refine (wp_elim _ s (Ok tt) s' (λ _ s', _ ∧ _ ∧ _) _ Heq).
    apply chill_stash_wp. by intros s1 [= _ -> -> -> _]. }
  assert ((may_be_chilled s l → checks s = (Ok tt, s)) ∧
          (¬ may_be_chilled s l → checks s = (Err CannotChillOther, s))) as [Hyes Hno].
  { unfold checks, may_be_chilled. destruct (chill_threshold s) as [t|].
    2:{ split; [by intros (? & [=] & _) | done]. }
    rewrite (bind_step _ _ t s s) by done.
    unfold ensure, ok_or. split.
    - intros (t' & [= <-] & Hc). revert Hc. destruct (decide (nominators s !! stash l ≠ None)); intros Hc.
      + destruct Hc as (Hact & m & -> & Hpct). unfold mbind, M_bind, mret, M_ret.
        rewrite (decide_True _ _ Hpct). by rewrite decide_True.
      + destruct Hc as (Hv & Hact & m & -> & Hpct). rewrite (decide_True _ _ Hv).
        unfold mbind, M_bind, mret, M_ret. rewrite (decide_True _ _ Hpct). by rewrite decide_True.
    - destruct (decide (nominators s !! stash l ≠ None)); intros Hn.
      + destruct (max_nominators_count s) as [m|]; [|done]. unfold mbind, M_bind, mret, M_ret.
        destruct (decide (_ < count _)); [|done]. destruct (decide (active l < _)); [|done].
        exfalso. apply Hn. exists t. split; [done|]. split; [done|]. by exists m.
      + destruct (decide (validators_map s !! stash l ≠ None)).
        * destruct (max_validators_count s) as [m|]; [|done]. unfold mbind, M_bind, mret, M_ret.
          destruct (decide (_ < count _)); [|done]. destruct (decide (active l < _)); [|done].
          exfalso. apply Hn. exists t. split; [done|]. do 2 (split; [done|]). by exists m.
        * unfold mbind, M_bind, mret, M_ret. rewrite decide_False by lia. done. }
  split.
  - intros Hc. rewrite (bind_step _ _ tt s s); [done|]. unfold when.
    destruct (decide (caller ≠ c)); [|done]. apply Hyes. tauto.
  - intros Hc. rewrite (bind_err _ _ CannotChillOther s s); [done|]. unfold when.
    rewrite decide_True by tauto. apply Hno. tauto.
Qed.
End Roles.

(** * Concrete inputs *)

Section Examples.
#[local] Existing Instances TestPerThing TestPerThing_laws TestCurrency TestCurrency_laws inv_config.

(** A payout for the validator 11, with nothing in the reward fund. *)
Definition unfunded : Store :=
  inv_start <| current_era := Some 1 |>
    <| eras_validator_reward := {[ 0 := 900 ]} |>
    <| eras_reward_points_map := {[ 0 := {| rp_total := 20; individual := {[ 11 := 20 ]} |} ]} |>
    <| eras_stakers_clipped_map := {[ (0, 11) := {| exp_total := 1000; own := 1000; others := [] |} ]} |>.

Lemma dispatch_verify_first_witness :
  (∃ s', dispatch (Signed 999) CChill inv_start = (Err NotController, s') ∧ s' = inv_start) ∧
  (∃ s', payout_stakers (Signed 5) 11 7 unfunded = (Err InvalidEraToReward, s') ∧ s' = unfunded) ∧
  let r := payout_stakers (Signed 5) 11 0 unfunded in
  fst r = Err CannotPayout ∧
  claimed_rewards <$> (ledger unfunded !! 10) = Some [] ∧
  claimed_rewards <$> (ledger (snd r) !! 10) = Some [0].
Proof.
  destruct dispatch_verify_first as [Hcalls Hpay]. split; [|split].
  - exists inv_start. split; [reflexivity|].
    apply (Hcalls (Signed 999) CChill inv_start NotController inv_start). reflexivity.
  - exists unfunded. assert (payout_stakers (Signed 5) 11 7 unfunded = (Err InvalidEraToReward, unfunded))
      as Heq by reflexivity.
    split; [exact Heq|].
    destruct (Hpay (Signed 5) 11 7 unfunded InvalidEraToReward unfunded Heq) as [Hs|Hc];
      [exact Hs | discriminate].
  - cbv zeta. split; [vm_compute; reflexivity|]. split; vm_compute; reflexivity.
Defined.

Definition ledger_101 : StakingLedger :=
  {| stash := 101; total := 500; active := 500; unlocking := []; claimed_rewards := [] |}.

Lemma unbond_correct_witness :
  ∃ s' l', unbond (Signed 100) 200 inv_start = (Ok tt, s') ∧ ledger s' !! 100 = Some l'
    ∧ active l' = 300 ∧ total l' = 500.
Proof.
  pose proof (unbond_correct inv_start 100 ledger_101 200 inv_start_wf) as Hc.
  destruct Hc as (s' & l' & Heq & Hl & Ha & Ht & _).
  - vm_compute. reflexivity.
  - vm_compute. split; congruence.
  - vm_compute. lia.
  - vm_compute. discriminate.
  - exists s', l'. split; [exact Heq|]. split; [exact Hl|]. split; [exact Ha | exact Ht].
Defined.

Lemma kill_stash_correct_witness :
  ∃ s', kill_stash 11 0 inv_start = (Ok tt, s')
    ∧ stash_data s' 11 = (None, None, None, None, None)
    ∧ stash_data s' 101 = stash_data inv_start 101.
Proof.
  destruct (kill_stash_correct inv_start 11 0 inv_start_wf) as (s' & Heq & Hnone & _ & Hoth).
  exists s'. split; [exact Heq|]. split; [exact Hnone|]. apply Hoth. discriminate.
Defined.

Definition slash_ex (v : Z) : UnappliedSlash :=
  {| us_validator := 11; us_own := v; us_others := []; us_reporters := []; us_payout := 0 |}.
Definition cancel_ex : Store :=
  inv_start <| unapplied_slashes_map := {[ 4 := [slash_ex 1; slash_ex 2; slash_ex 3; slash_ex 4] ]} |>.

Lemma cancel_deferred_slash_correct_witness :
  ∃ s', cancel_deferred_slash Root 4 [0; 2] cancel_ex = (Ok tt, s')
    ∧ unapplied_slashes s' 4 = [slash_ex 2; slash_ex 4].
Proof.
  eexists. split.
  - rewrite (cancel_deferred_slash_correct cancel_ex Root 4 [0; 2]); [reflexivity|reflexivity|].
    apply Forall_cons; split; [discriminate|]. apply Forall_cons; split; [discriminate|].
    apply Forall_nil. exact Logic.I.
  - vm_compute. reflexivity.
Defined.

Lemma nominate_correct_witness :
  ∃ s', nominate (Signed 10) [101; 11] inv_start = (Ok tt, s')
    ∧ targets <$> nominators s' !! 11 = Some [101; 11] ∧ validators_map s' !! 11 = None.
Proof.
  assert (nominate (Signed 10) [101; 11] inv_start
          = (Ok tt, run (nominate (Signed 10) [101; 11]) inv_start)) as Hok
    by (apply run_result; vm_compute; reflexivity).
  eexists. split; [exact Hok|].
  edestruct (nominate_correct inv_start 10
    {| stash := 11; total := 1000; active := 1000; unlocking := []; claimed_rewards := [] |} [101; 11])
    as (ns & Hns & _ & _ & _ & Hnom & Hval & _); [vm_compute; reflexivity | exact Hok |].
  injection Hns as <-. split; [rewrite Hnom; reflexivity | rewrite Hval; reflexivity].
Defined.

Lemma chill_other_correct_witness :
  chill_other (Signed 5) 100 inv_start = (Err CannotChillOther, inv_start)
  ∧ ∃ s', chill_other (Signed 100) 100 inv_start = (Ok tt, s') ∧ nominators s' !! 101 = None.
Proof.
  destruct (chill_other_correct inv_start 100 ledger_101 5 inv_start_wf) as [_ Hno];
    [vm_compute; reflexivity|].
  destruct (chill_other_correct inv_start 100 ledger_101 100 inv_start_wf) as [Hyes _];
    [vm_compute; reflexivity|].
  split.
  - apply Hno. intros [Hc | (t & Ht & _)]; [discriminate | vm_compute in Ht; discriminate].
  - destruct Hyes as (s' & Heq & Hn & _); [left; reflexivity|].
    exists s'. split; [exact Heq|]. rewrite Hn. reflexivity.
Defined.
End Examples.
