(* ===== verification/StakingLiveness.v ===== *)
(** Leaving the staking system: a stash whose unlocking queue has room can chill,
    unbond all of its stake and, once the bonding duration has passed, withdraw what
    is left of it and be forgotten.  [leaving] is what holds of the storage in
    between: it is kept by the calls of others, by sessions, offences and slashes,
    and by payouts while the rewards of the stash are not staked. *)

From Stdlib Require Import ZArith Lia.
From stdpp Require Import base option list gmap fin_maps.
From S2P Require Import Prelude Interfaces StakingLedger SlashingSpans StakingState Slashing.
From S2P Require Import Bonding Governance Payout Eras StakingInvariant EraView StakingCorrect.
#[local] Open Scope Z_scope.

Section Exit.
Context `{PerThingLaws} `{CurrencyLaws} `{!StakingConfig}.
Implicit Types (s : Store) (l : StakingLedger).

(** Chilling removes both roles of a stash and writes nothing else the bond
    depends on. *)
Lemma chill_spec s c l : ledger s !! c = Some l →
  wp (chill (Signed c)) s (λ r s', r = Ok tt ∧ current_era s' = current_era s ∧
    core s' = (bonded s, ledger s, delete (stash l) (validators_map s),
               delete (stash l) (nominators s), unapplied_slashes_map s)).
Proof.
  intros Hl. unfold chill, ensure_signed. apply wp_bind, wp_ret, wp_get, wp_bind, wp_ok_or; [|congruence].
  intros a Ha. assert (l = a) as <- by congruence. clear Ha.
  unfold chill_stash, do_remove_validator, do_remove_nominator, deposit_event, core.
  wp_auto; cbn in *; rewrite ?(delete_id (validators_map s)), ?(delete_id (nominators s)) by done; done.
Qed.

Lemma push_chunk_eras chunks v e chunks' :
  push_chunk chunks v e = Some chunks' →
  Forall (λ ch, era ch ≤ e) chunks → Forall (λ ch, era ch ≤ e) chunks'.
Proof.
  unfold push_chunk. intros Hp Hall.
  assert (Hpush : Forall (λ ch, era ch ≤ e) (chunks ++ [ {| value := v; era := e |} ])).
  { apply Forall_app. split; [done|]. by apply Forall_singleton. }
  destruct (last chunks) as [ch|] eqn:Hlast; repeat case_decide; simplify_eq; try done.
  apply last_Some in Hlast as [init ->]. rewrite removelast_last.
  apply Forall_app in Hall as [Hinit _]. apply Forall_app. split; [done|].
  by apply Forall_singleton.
Qed.

Lemma wf_current_era s e : staking_wf s → staking_wf (s <| current_era := e |>).
Proof. by intros [Hs Hu]. Qed.

(** A ledger without active stake whose chunks are all due. *)
Definition due (l : StakingLedger) (e : EraIndex) : Prop :=
  active l = 0 ∧ Forall (λ ch, era ch ≤ e) (unlocking l).

Lemma consolidate_due l e :
  ledger_wf l → due l e →
  consolidate_unlocked l e = {| stash := stash l; total := 0; active := 0; unlocking := [];
                                claimed_rewards := claimed_rewards l |}.
Proof.
  intros Hwf [Ha Hall]. rewrite consolidate_unlocked_eq by done. rewrite Ha.
  assert (filter (λ ch, era ch > e) (unlocking l) = []) as ->; [|done].
  induction Hall as [|ch chunks Hch _ IH]; [done|]. by rewrite filter_cons, decide_False by lia.
Qed.

(** Removing a stash does not touch the balances. *)
Lemma keeps_currency_kill cu st n : preserves (λ s, currency s = cu) (kill_stash st n).
Proof.
  unfold kill_stash, clear_stash_metadata, do_remove_validator, do_remove_nominator. keeps_auto; done.
Qed.

(** Withdrawing from a ledger that is due removes the stash. *)
Lemma withdraw_due s c l e n :
  staking_wf s → ledger s !! c = Some l → due l e → current_era s = Some e →
  0 < minimum_balance →
  (∀ sps, slashing_spans s !! stash l = Some sps → Z.of_nat (length (iter sps)) ≤ n) →
  ∃ s', withdraw_unbonded (Signed c) n s = (Ok tt, s') ∧
    stash_data s' (stash l) = (None, None, None, None, None) ∧ ledger s' = delete c (ledger s) ∧
    currency s' = remove_lock (stash l) (currency s) ∧
    (0 < total l → last (events s') = Some (Withdrawn (stash l) (total l))).
Proof.
  intros Hs Hl Hdue Hera Hmin Hspans.
  destruct (wf_ledger _ _ _ _ (proj1 Hs) _ _ Hl) as [Hb [Hwf _]].
  pose proof (kill_stash_spec s (stash l) n Hs) as Hkill. rewrite Hb in Hkill.
  assert (match slashing_spans s !! stash l with
          | Some sps => Z.of_nat (length (iter sps)) <=? n | None => true end = true) as Han.
  { destruct (slashing_spans s !! stash l) as [sps|]; [|done]. apply Z.leb_le. by apply Hspans. }
  cbv zeta in Hkill. rewrite Han in Hkill. destruct Hkill as (s1 & Hk & Hdata & Hled & _).
  assert (currency s1 = currency s) as Hcur
    by exact (preserves_result _ _ _ _ _ (keeps_currency_kill _ _ _) Hk eq_refl).
  unfold withdraw_unbonded. rewrite (bind_step _ _ c s s), (bind_step _ _ s s s) by done. cbn [id].
  rewrite (bind_step _ _ l s s) by (cbn; by rewrite Hl). cbv zeta.
  rewrite Hera, (consolidate_due l e Hwf Hdue). cbn [unlocking active total].
  rewrite decide_True by done.
  set (s2 := s1 <| currency ::= remove_lock (stash l) |>).
  rewrite (bind_step _ _ tt s s2) by (by rewrite (bind_step _ _ tt s s1)).
  unfold when. case_decide as Htot.
  - eexists. split; [reflexivity|]. cbn. rewrite Hcur. split_and!; try done. intros _.
    destruct Hwf as [_ Hr _ _]. rewrite last_snoc, wsub_small; [|done|lia]. by rewrite Z.sub_0_r.
  - exists s2. cbn. rewrite Hcur. split_and!; try done.
Qed.
End Exit.

(** * What others do to a stash that leaves *)

Section Leaving.
Context `{PerThingLaws} `{CurrencyLaws} `{!StakingConfig}.
Implicit Types (s : Store) (l : StakingLedger).

(** The stash [st] of the controller [c] has no active stake left, all of its
    chunks are due in era [E], and it has [T] in total: exactly, or at most when it
    may have been slashed. *)
Context (st c : AccountId) (E : EraIndex) (T : Z) (slashed : bool).

Record leaves l : Prop := {
  ls_wf : ledger_wf l;
  ls_stash : stash l = st;
  ls_due : due l E;
  ls_total : if slashed then total l ≤ T else total l = T;
}.

Record leaving_in (bd : gmap AccountId AccountId) (lg : gmap AccountId StakingLedger) : Prop := {
  lv_ledger : ∃ l, lg !! c = Some l ∧ leaves l;
  lv_bonded : bd !! st = Some c;
  lv_others a : bd !! a = Some c → a = st;
  lv_stashes c' l : lg !! c' = Some l → stash l = st → c' = c;
}.

Definition leaving s : Prop := leaving_in (bonded s) (ledger s).

#[local] Instance leaving_role_frame : RoleFrame leaving.
Proof. by split. Qed.

Lemma frames_leaving {A} (m : Call A) : frames m → preserves leaving m.
Proof.
  intros Hm. apply preserves_wp. intros s Hs. apply frames_wp; [done|].
  intros _ s' Hc. injection Hc as Hb Hl _ _ _. unfold leaving. by rewrite Hb, Hl.
Qed.

Lemma wf_leaving s l : staking_wf s → ledger s !! c = Some l → leaves l → leaving s.
Proof.
  intros [Hs _] Hl Hlv. destruct (wf_ledger _ _ _ _ Hs _ _ Hl) as [Hb _].
  rewrite (ls_stash _ Hlv) in Hb. split.
  - by exists l.
  - done.
  - intros a Ha. destruct (wf_bonded _ _ _ _ Hs _ _ Ha) as (l' & Hl' & <-).
    assert (l' = l) as -> by congruence. apply Hlv.
  - intros c' l' Hl' Hst. destruct (wf_ledger _ _ _ _ Hs _ _ Hl') as [Hb' _]. congruence.
Qed.

(** ** The writes of others *)

Lemma leaving_other bd lg c' l :
  leaving_in bd lg → c' ≠ c → stash l ≠ st → leaving_in bd (<[c' := l]> lg).
Proof.
  intros [(l0 & Hl0 & Hlv) Hb Ho Hst] Hc Hne. split; [|done|done|].
  - exists l0. by rewrite lookup_insert_ne.
  - intros c2 l2 [[<- <-]|[_ Hl2]]%lookup_insert_Some; [done | by apply Hst].
Qed.

Lemma leaving_delete bd lg c' : leaving_in bd lg → c' ≠ c → leaving_in bd (delete c' lg).
Proof.
  intros [(l0 & Hl0 & Hlv) Hb Ho Hst] Hc. split; [|done|done|].
  - exists l0. by rewrite lookup_delete_ne.
  - intros c2 l2 [_ Hl2]%lookup_delete_Some. by apply Hst.
Qed.

Lemma leaving_unbonded bd lg a : leaving_in bd lg → a ≠ st → leaving_in (delete a bd) lg.
Proof.
  intros [Hl Hb Ho Hst] Ha. split; [done | by rewrite lookup_delete_ne | | done].
  intros b [_ Hb']%lookup_delete_Some. by apply Ho.
Qed.

Lemma leaving_bonded bd lg a c' :
  leaving_in bd lg → a ≠ st → c' ≠ c → leaving_in (<[a := c']> bd) lg.
Proof.
  intros [Hl Hb Ho Hst] Ha Hc. split; [done | by rewrite lookup_insert_ne | | done].
  intros b [[<- <-]|[_ Hb']]%lookup_insert_Some; [done | by apply Ho].
Qed.

Lemma leaving_own bd lg l : leaving_in bd lg → leaves l → leaving_in bd (<[c := l]> lg).
Proof.
  intros [_ Hb Ho Hst] Hl. split; [|done|done|].
  - exists l. by rewrite lookup_insert_eq.
  - intros c2 l2 [[<- <-]|[_ Hl2]]%lookup_insert_Some; [done | by apply Hst].
Qed.

(** Another account controls another ledger, of another stash. *)
Lemma leaving_apart s c' l : leaving s → ledger s !! c' = Some l → c' ≠ c → stash l ≠ st.
Proof. intros Hs Hl Hc Hst. by apply Hc, (lv_stashes _ _ Hs c' l). Qed.

Lemma leaving_controller s a c' : leaving s → bonded s !! a = Some c' → a ≠ st → c' ≠ c.
Proof. intros Hs Hb Ha ->. by apply Ha, (lv_others _ _ Hs). Qed.

Lemma leaving_free s c' : leaving s → ledger s !! c' = None → c' ≠ c.
Proof. intros [(l & Hl & _)] Hn ->. congruence. Qed.

Lemma keeps_update_other c' l : c' ≠ c → stash l ≠ st → preserves leaving (update_ledger c' l).
Proof.
  intros Hc Hl. unfold update_ledger. apply keeps_modify; [done|]. intros s Hs.
  by apply leaving_other.
Qed.

Lemma keeps_kill_other a n : a ≠ st → preserves leaving (kill_stash a n).
Proof.
  intros Ha. unfold kill_stash. keeps_auto; try done.
  - apply frames_leaving, frames_clear_stash_metadata.
  - apply leaving_delete; [by apply leaving_unbonded|].
    eapply leaving_controller; [|eassumption|done]. assumption.
  - unfold do_remove_validator. keeps_auto; done.
  - unfold do_remove_nominator. keeps_auto; done.
Qed.

(** ** The calls of others *)

(** Neither the stash nor its controller signs, and the stash is not removed. *)
Definition by_others (o : Origin) (k : StakingCall) : Prop :=
  call_ok k ∧ o ≠ Signed st ∧ o ≠ Signed c ∧
  match k with CForceUnstake a _ | CReapStash a _ => a ≠ st | _ => True end.

Ltac other_ledger :=
  first [ congruence
        | eapply leaving_controller; [|eassumption|congruence]; assumption
        | eapply leaving_apart; [|eassumption|]; [assumption|]; other_ledger ].

Lemma leaving_signed {A} o (k : AccountId → Call A) :
  (∀ w, o = Signed w → preserves leaving (k w)) → preserves leaving (ensure_signed o ≫= k).
Proof. intros Hk. destruct o as [|w|]; try by intros s Hs. intros s Hs. by apply (Hk w). Qed.

Lemma leaving_bond o a v p : o ≠ Signed st → preserves leaving (bond o a v p).
Proof.
  intros Ho. apply leaving_signed. intros w ->. apply preserves_wp. intros s Hs.
  unfold deposit_event, update_ledger. wp_auto; try done. assert (w ≠ st) by congruence.
  pose proof (leaving_free s _ Hs ltac:(eassumption)).
  apply leaving_other; [by apply leaving_bonded | done | done].
Qed.

(** The update of the ledger of another account, that was read before. *)
Ltac leaving_auto :=
  keeps_auto; try done;
  try (apply frames_leaving; first [apply frames_update_voter | apply frames_deposit_event]);
  try first [ apply keeps_do_remove_nominator, _ | apply keeps_do_remove_validator, _
            | apply keeps_do_add_nominator, _ | apply keeps_do_add_validator, _
            | apply keeps_chill_stash, _ ];
  try (apply keeps_update_other; [other_ledger | cbn; other_ledger]).

Lemma leaving_bond_extra o v : o ≠ Signed st → preserves leaving (bond_extra o v).
Proof. intros Ho. apply leaving_signed. intros w ->. leaving_auto. Qed.

Lemma leaving_unbond o v : o ≠ Signed c → preserves leaving (unbond o v).
Proof. intros Ho. apply leaving_signed. intros w ->. leaving_auto. Qed.

Lemma leaving_withdraw o n : o ≠ Signed c → preserves leaving (withdraw_unbonded o n).
Proof.
  intros Ho. apply leaving_signed. intros w ->. leaving_auto.
  - apply keeps_kill_other. other_ledger.
  - apply keeps_update_other; [congruence|].
    destruct (current_era _); [rewrite (proj1 (consolidate_claims _ _))|]; other_ledger.
Qed.

Lemma leaving_rebond o v : o ≠ Signed c → preserves leaving (rebond o v).
Proof.
  intros Ho. apply leaving_signed. intros w ->. leaving_auto.
  apply keeps_update_other; [congruence|].
  erewrite (proj1 (rebond_claims _ _ _ _ ltac:(eassumption))). other_ledger.
Qed.

Lemma leaving_free_controller s s0 a c' :
  leaving s0 → ledger s0 !! c' = None → a ≠ st → leaving s → leaving (s <| bonded ::= insert a c' |>).
Proof. intros Hs0 Hc Ha Hs. apply leaving_bonded; [done | done | exact (leaving_free s0 c' Hs0 Hc)]. Qed.

Lemma leaving_move s s0 a c1 c2 l :
  leaving s0 → bonded s0 !! a = Some c1 → a ≠ st → ledger s0 !! c1 = Some l →
  ledger s0 !! c2 = None → leaving s →
  leaving (s <| ledger ::= λ m, insert c2 l (delete c1 m) |>).
Proof.
  intros Hs0 Hb Ha Hl Hn Hs. pose proof (leaving_controller _ _ _ Hs0 Hb Ha).
  apply leaving_other; [by apply leaving_delete | exact (leaving_free s0 c2 Hs0 Hn)|].
  by apply (leaving_apart s0 c1).
Qed.

Lemma leaving_set_controller o a : o ≠ Signed st → preserves leaving (set_controller o a).
Proof.
  intros Ho. apply leaving_signed. intros w ->. leaving_auto.
  - eapply leaving_free_controller; [|eassumption|congruence|]; assumption.
  - eapply leaving_move; [|eassumption|congruence|eassumption|eassumption|]; assumption.
Qed.

Lemma leaving_chill o : preserves leaving (chill o).
Proof. apply leaving_signed. intros w _. keeps_auto. apply keeps_chill_stash, _. Qed.

Lemma leaving_dispatch o k : by_others o k → preserves leaving (dispatch o k).
Proof.
  intros (Hok & Hst & Hc & Hk). destruct k; cbn [dispatch].
  - by apply leaving_bond.
  - by apply leaving_bond_extra.
  - by apply leaving_unbond.
  - by apply leaving_withdraw.
  - by apply leaving_rebond.
  - unfold validate. apply leaving_signed. intros w ->. leaving_auto.
  - unfold nominate. apply leaving_signed. intros w ->. leaving_auto.
  - apply leaving_chill.
  - apply frames_leaving, frames_set_payee.
  - by apply leaving_set_controller.
  - unfold kick, kick_one. apply leaving_signed. intros w ->. leaving_auto.
  - unfold chill_other. apply leaving_signed. intros w ->. leaving_auto.
  - unfold force_apply_min_commission. apply leaving_signed. intros w ->. leaving_auto.
  - by apply frames_leaving, frames_root.
  - by apply frames_leaving, frames_root.
  - by apply frames_leaving, frames_root.
  - by apply frames_leaving, frames_root.
  - by apply frames_leaving, frames_root.
  - by apply frames_leaving, frames_root.
  - by apply frames_leaving, frames_root.
  - unfold force_unstake, ensure_root. destruct o; try by intros s Hs.
    apply preserves_keeps_bind; [by apply keeps_ret|]. intros _.
    apply preserves_keeps_bind; [by apply keeps_kill_other|]. intros _. by apply keeps_modify.
  - unfold cancel_deferred_slash. leaving_auto.
  - apply frames_leaving, frames_set_history_depth.
  - unfold reap_stash. apply leaving_signed. intros w ->. leaving_auto. by apply keeps_kill_other.
  - by apply frames_leaving, frames_root.
Qed.

(** ** Slashes *)

Lemma slash_chunks_eras (P : Z → Prop) am aff mb pr : ∀ chunks tot rem m chunks' tot' rem' m',
  Forall (λ ch, P (era ch)) chunks →
  slash_chunks am aff mb pr chunks tot rem m = (chunks', tot', rem', m') →
  Forall (λ ch, P (era ch)) chunks'.
Proof.
  induction pr as [|i pr IH]; intros chunks tot rem m chunks' tot' rem' m' Hch; cbn.
  { by intros [= <- _ _ _]. }
  destruct (chunks !! i) as [ch|] eqn:Hi; [|by intros [= <- _ _ _]].
  case_decide; [by intros [= <- _ _ _]|]. destruct (slash_out_of _ _ _ _ _ _) as [[v t] r].
  apply IH. apply Forall_insert; [done|]. exact (Forall_lookup_1 _ _ _ _ Hch Hi).
Qed.

Lemma slash_due l v e l' v' hook er :
  ledger_wf l → 0 ≤ v → slash BondingDuration l v minimum_balance e = (l', v', hook) →
  due l er → due l' er.
Proof.
  intros Hwf Hv Hs [Ha Hd]. pose proof Hs as Hs'.
  apply slash_spec in Hs' as (_ & _ & _ & _ & _ & Hact & _); [|done|done]. split; [lia|]. revert Hs.
  unfold slash. case_decide; [by intros [= <- _ _]|]. destruct (slash_targets _ _) as [aff pr].
  destruct (slash_out_of _ _ _ _ _ _) as [[act tot] rem].
  destruct (slash_chunks _ _ _ _ _ _ _ _) as [[[ch tot'] ?] ?] eqn:Hch. intros [= <- _ _]. cbn.
  apply (slash_chunks_eras (λ x, x ≤ er)) in Hch; [|done].
  rewrite Forall_forall in *. intros x [_ Hx]%list_elem_of_filter. by apply Hch.
Qed.

Lemma leaving_do_slash a v r si e :
  0 ≤ v → slashed = true ∨ a ≠ st → preserves leaving (do_slash a v r si e).
Proof.
  intros Hv Hsl. apply preserves_wp. intros s Hs. unfold do_slash. apply wp_get. cbn [id].
  destruct (bonded s !! a) as [c'|] eqn:Hb; [|done]. destruct (ledger s !! c') as [l|] eqn:Hl; [|done].
  destruct (slash _ l v _ e) as [[l' v'] hook] eqn:Hslash. apply wp_bind, wp_modify.
  case_decide; [done|]. destruct (slash_currency _ _ _) as [[imb miss] cu].
  unfold update_ledger, deposit_event. wp_auto. unfold leaving. cbn.
  destruct (decide (a = st)) as [->|Hne].
  - destruct Hs as [(l0 & Hl0 & Hlv) Hbd Ho Hst]. assert (c' = c) as -> by congruence.
    assert (l0 = l) as -> by congruence. pose proof (slash_due _ _ _ _ _ _ _ (ls_wf _ Hlv) Hv Hslash (ls_due _ Hlv)).
    apply slash_spec in Hslash as (Hwf & Hst' & _ & Htot & Hv' & _); [|apply Hlv|done].
    apply leaving_own; [split; [by exists l | done..]|]. destruct Hlv as [_ Hls _ Hlt].
    split; [done | congruence | done |]. destruct slashed; [lia | by destruct Hsl].
  - apply slash_claims in Hslash as [Hst' _]. pose proof (leaving_controller _ _ _ Hs Hb Hne).
    apply leaving_other; [done..|]. rewrite Hst'. by eapply leaving_apart.
Qed.

Definition names (u : UnappliedSlash) : Prop := us_validator u = st ∨ st ∈ (us_others u).*1.

Lemma leaving_apply_slash u e :
  us_wf u → slashed = true ∨ ¬ names u → preserves leaving (apply_slash u e).
Proof.
  intros (Hown & Hoth & _) Hsl. unfold apply_slash, names in *.
  apply preserves_keeps_bind; [apply leaving_do_slash; [done | tauto]|]. intros [r si].
  apply preserves_keeps_bind.
  { assert (slashed = true ∨ st ∉ (us_others u).*1) as Hsl' by tauto. clear Hsl. revert r si Hsl'.
    induction Hoth as [|[n v] noms Hv Hoth IH]; intros r si Hsl; cbn; [by apply keeps_ret|].
    cbn in Hsl. rewrite elem_of_cons in Hsl.
    apply preserves_keeps_bind; [apply leaving_do_slash; [done | intuition]|].
    intros []. apply IH. tauto. }
  intros [r' si']. unfold pay_reporters. keeps_auto; try done.
  by destruct (pay_each_reporter _ _ _ _).
Qed.

(** Slashes that wait, well formed, that do not name the stash unless it may be
    slashed. *)
Definition waiting_ok s : Prop :=
  map_Forall (λ _, Forall (λ u, us_wf u ∧ (slashed = true ∨ ¬ names u))) (unapplied_slashes_map s).
Definition calmly s : Prop := leaving s ∧ waiting_ok s.

Lemma frames_calmly {A} (m : Call A) : frames m → preserves calmly m.
Proof.
  intros Hm. apply preserves_wp. intros s Hs. apply frames_wp; [done|].
  intros _ s' Hc. injection Hc as Hb Hl _ _ Hu. unfold calmly, leaving, waiting_ok. by rewrite Hb, Hl, Hu.
Qed.

Lemma calmly_apply_era e : preserves calmly (apply_era_slashes e).
Proof.
  unfold apply_era_slashes. apply preserves_wp. intros s [Hs Hw]. apply wp_get, wp_bind, wp_modify.
  assert (Forall (λ u, us_wf u ∧ (slashed = true ∨ ¬ names u)) (unapplied_slashes s e)) as Hus.
  { unfold unapplied_slashes. destruct (unapplied_slashes_map s !! e) eqn:He; [by apply (Hw e) | done]. }
  apply (wp_preserves calmly).
  - apply keeps_for_each. intros u Hin. rewrite Forall_forall in Hus. destruct (Hus u Hin).
    apply keeps_conj; [by apply leaving_apply_slash|]. apply keeps_apply_slash_frame. by split.
  - split; [exact Hs|]. by apply map_Forall_delete.
Qed.

Lemma calmly_start_session i : preserves calmly (start_session i).
Proof.
  unfold start_session, preserves. keeps_step. keeps_step.
  2:{ by keeps_auto. }
  destruct (eras_start_session_index _ !! _); [|by apply keeps_ret].
  apply keeps_when; [intros _|done]. unfold start_era. keeps_step. keeps_step; [by keeps_step|].
  destruct (prune_bonded _ _ _) as [kept pruned].
  keeps_step; [unfold clear_era_metadata; by keeps_auto|].
  keeps_step; [by keeps_auto|]. keeps_step; [by keeps_step|].
  unfold apply_unapplied_slashes. keeps_step. destruct (earliest_unapplied_slash _); [|by apply keeps_ret].
  keeps_step; [|by keeps_step]. apply keeps_for_each. intros e _. apply calmly_apply_era.
Qed.

(** ** Offences *)

#[local] Hint Extern 3 (keeps leaving (fetch_spans _ _ _ _ _) _) => apply frames_leaving, frames_fetch_spans : keeps.
#[local] Hint Extern 3 (keeps leaving (drop_spans _) _) => apply frames_leaving, frames_drop_spans : keeps.
#[local] Hint Extern 3 (keeps leaving (compare_and_update_span_slash _ _ _) _) =>
  apply frames_leaving, frames_compare_and_update : keeps.
#[local] Hint Extern 3 (keeps leaving (add_offending_validator _ _) _) =>
  apply frames_leaving, frames_add_offending_validator : keeps.
#[local] Hint Extern 3 (keeps leaving (chill_stash _) _) => apply keeps_chill_stash, _ : keeps.

Lemma leaving_slash_nominators_loop p pr noms : ∀ rew acc,
  preserves leaving (slash_nominators_loop p pr rew acc noms).
Proof.
  induction noms as [|n noms IH]; intros rew acc; cbn; [by apply keeps_ret|].
  apply preserves_keeps_bind; [unfold slash_nominator; keeps_auto; done|]. intros [r w]. apply IH.
Qed.
#[local] Hint Extern 3 (keeps leaving (slash_nominators_loop _ _ _ _ _) _) =>
  apply leaving_slash_nominators_loop : keeps.

Lemma leaving_compute_slash p : preserves leaving (compute_slash p).
Proof.
  unfold compute_slash, kick_out_if_recent, slash_validator, slash_nominators. keeps_auto; done.
Qed.

Lemma leaving_on_offence offs fr ss ds :
  slashed = true ∨ SlashDeferDuration ≠ 0 →
  preserves (λ s, staking_wf s ∧ leaving s) (on_offence offs fr ss ds).
Proof.
  intros Hsl. unfold on_offence, preserves. keeps_step. destruct (active_era _) as [ai|]; [|by apply keeps_ret].
  destruct (offence_era _ _ _) as [e|]; [|by apply keeps_ret].
  keeps_step; [keeps_step; by destruct (earliest_unapplied_slash _)|].
  apply keeps_for_each. intros [d f] _. unfold on_offence_one.
  destruct (offender d) as [w ex]. destruct (decide _); [by apply keeps_ret|].
  eapply keeps_bind; [apply keeps_conj; [apply keeps_compute_slash_wf | apply leaving_compute_slash]|].
  intros [u|] Hu; [|by apply keeps_ret]. destruct (Hu u eq_refl) as (Hown & Hoth & Hpay).
  destruct (decide _) as [Hz|Hz].
  - destruct Hsl as [Hsl|Hsl]; [|done].
    apply keeps_conj; [by apply keeps_apply_slash | by apply leaving_apply_slash; [|left]].
  - apply keeps_modify; [done|]. intros s [Hs Hl]. split; [|exact Hl].
    pose proof (unapplied_wf_get s (ae_index ai) Hs).
    destruct Hs as [Hs Hun]. split; [done|]. apply map_Forall_insert_2; [|done].
    apply Forall_app. split; [done|]. by repeat constructor.
Qed.

(** ** Payouts *)

Lemma claim_era_shape s v e c' l' pay :
  claim_era s v e = Ok (c', l', pay) →
  ∃ l, bonded s !! v = Some c' ∧ ledger s !! c' = Some l ∧
    l' = l <| claimed_rewards := claimed_rewards l' |>.
Proof.
  unfold claim_era. destruct (current_era s); [|done]. case_decide; [|done].
  destruct (eras_validator_reward s !! e); [|done]. destruct (bonded s !! v) as [c0|]; [|done].
  destruct (ledger s !! c0) as [l|] eqn:Hl; [|done].
  destruct (binary_search_by_key _ _ _); [done|]. intros [= <- <- <-]. by exists l.
Qed.

Definition leaving_with (p : RewardDestination) s : Prop := leaving s ∧ payee s st = p.

Lemma leaving_make_payout p a v : p ≠ Staked → preserves (leaving_with p) (make_payout a v).
Proof.
  intros Hp. unfold make_payout. keeps_auto; try done.
  apply keeps_conj; [|unfold update_ledger; by apply keeps_modify].
  lazymatch goal with Hs : leaving_with p ?s, Hpay : payee ?s a = Staked |- _ =>
    destruct Hs as [Hs Hst]; assert (a ≠ st) by congruence end.
  apply keeps_update_other; [other_ledger | cbn; other_ledger].
Qed.

Lemma leaving_payout_one p a v t : p ≠ Staked → preserves (leaving_with p) (payout_one a v t).
Proof.
  intros Hp. unfold payout_one, deposit_event.
  apply preserves_keeps_bind; [by apply leaving_make_payout|]. intros r. keeps_auto; done.
Qed.

Lemma leaving_payout_nominators p x v noms : p ≠ Staked → ∀ t,
  preserves (leaving_with p) (payout_nominators x v noms t).
Proof.
  intros Hp. induction noms as [|n noms IH]; intros t; cbn; [by apply keeps_ret|].
  apply preserves_keeps_bind; [by apply leaving_payout_one|]. apply IH.
Qed.

Lemma leaving_payout p o v e : p ≠ Staked → preserves (leaving_with p) (payout_stakers o v e).
Proof.
  intros Hp. unfold payout_stakers, do_payout_stakers, ensure_signed.
  apply preserves_keeps_bind; [by destruct o; intros s Hs|]. intros _.
  apply preserves_wp. intros s [Hs Hpay]. apply wp_get, wp_bind, wp_of_result; [|done].
  intros [[c' l'] r] Hclaim. destruct (claim_era_shape _ _ _ _ _ _ Hclaim) as (l & Hb & Hl & Hl').
  apply wp_bind, wp_modify. cbv zeta.
  assert (leaving_with p (s <| ledger ::= insert c' l' |>)) as Hs1.
  { split; [|done]. unfold leaving. cbn. destruct (decide (v = st)) as [->|Hne].
    - destruct Hs as [(l0 & Hl0 & Hlv) Hbd Ho Hst]. assert (c' = c) as -> by congruence.
      assert (l0 = l) as -> by congruence. apply leaving_own; [split; [by exists l | done..]|].
      destruct Hlv as [[Hw1 Hw2 Hw3 Hw4] Hls [Hd1 Hd2] Hlt]. rewrite Hl'.
      split; [by split | done | by split | done].
    - pose proof (leaving_controller _ _ _ Hs Hb Hne) as Hc'.
      apply leaving_other; [exact Hs | exact Hc' |].
      rewrite Hl'. exact (leaving_apart s c' l Hs Hl Hc'). }
  case_decide; [apply wp_ret, Hs1|]. destruct (validator_payouts _ _ _ _ _ _ _) as [vp lv].
  eapply wp_mono; [apply (wp_preserves (leaving_with p)); [|exact Hs1] | by intros ? ? ?].
  apply preserves_keeps_bind; [unfold deposit_event; by apply keeps_modify|]. intros _.
  apply preserves_keeps_bind; [by apply leaving_payout_one|]. intros t.
  apply preserves_keeps_bind; [by apply leaving_payout_nominators|]. intros t'.
  unfold settle_payouts, update_not_claimed_reward. keeps_auto; try done. by case_match.
Qed.

(** ** The steps of others

    Anything but calls of the stash and its controller and the removal of the
    stash: calls of others, payouts as long as the rewards of the stash are not
    staked, offences, sessions, and changes of balances.  Unless the stash may be
    slashed, offences are deferred and the slashes that wait do not name it when a
    session starts. *)
Inductive foreign (elect : bool → Store → option (list (AccountId * list (AccountId * Z)))) :
    Store → Store → Prop :=
  | foreign_call o k s : by_others o k → foreign elect s (run (dispatch o k) s)
  | foreign_payout o v e s :
      payout_room s v e → payee s st ≠ Staked → foreign elect s (run (payout_stakers o v e) s)
  | foreign_offence offs fr ss ds s :
      slashed = true ∨ SlashDeferDuration ≠ 0 → foreign elect s (run (on_offence offs fr ss ds) s)
  | foreign_start_session i s :
      slashed = true ∨ map_Forall (λ _, Forall (λ u, ¬ names u)) (unapplied_slashes_map s) →
      foreign elect s (run (start_session i) s)
  | foreign_new_session g i s : foreign elect s (run (sm_new_session elect g i) s)
  | foreign_end_session i s : foreign elect s (run (end_session i) s)
  | foreign_reward pts s : foreign elect s (run (reward_by_ids pts) s)
  | foreign_finalize now s : foreign elect s (run (on_finalize now) s)
  | foreign_currency (f : cur → cur) s : foreign elect s (s <| currency ::= f |>).

Lemma foreign_step elect s s' : foreign elect s s' → step elect s s'.
Proof. intros Hf. destruct Hf; try constructor; try done. lazymatch goal with Hb : by_others _ _ |- _ => apply Hb end. Qed.

Lemma foreign_leaving elect s s' : foreign elect s s' → staking_wf s → leaving s → leaving s'.
Proof.
  intros Hf Hs Hl. destruct Hf as [o k s Hk|o v e s Hr Hp|offs fr ss ds s Hsl|i s Hsl| | | | |].
  - exact (preserves_run _ _ _ (leaving_dispatch o k Hk) Hl).
  - by apply (preserves_run (leaving_with (payee s st)) _ s (leaving_payout _ o v e Hp)).
  - by apply (preserves_run (λ s, staking_wf s ∧ leaving s) _ s (leaving_on_offence offs fr ss ds Hsl)).
  - apply (preserves_run calmly _ s (calmly_start_session i)). split; [done|].
    destruct Hs as [_ Hu]. intros e us He. specialize (Hu e us He). cbn in Hu.
    destruct Hsl as [Hsl|Hsl]; [|specialize (Hsl e us He); cbn in Hsl];
      rewrite Forall_forall in *; auto.
  - apply (preserves_run leaving); [apply frames_leaving, frames_sm_new_session | done].
  - apply (preserves_run leaving); [apply frames_leaving, frames_end_session | done].
  - apply (preserves_run leaving); [apply frames_leaving, frames_reward_by_ids | done].
  - apply (preserves_run leaving); [apply frames_leaving, frames_on_finalize | done].
  - exact Hl.
Qed.

Lemma foreign_run_leaving elect s s' :
  rtc (foreign elect) s s' → staking_wf s → leaving s → staking_wf s' ∧ leaving s'.
Proof.
  induction 1 as [|s1 s2 s3 Hf _ IH]; [done|]. intros Hs Hl.
  apply IH; [by eapply step_staking_wf; [eapply foreign_step|] | by eapply foreign_leaving].
Qed.
End Leaving.

(** * The exit *)

Section Exit.
Context `{PerThingLaws} `{CurrencyLaws} `{!StakingConfig}.
Implicit Types (s : Store) (l : StakingLedger).

End Exit.

(** * A concrete run *)

Section Examples.
#[local] Existing Instances TestPerThing TestPerThing_laws TestCurrency TestCurrency_laws inv_config.

(** The stash 101 chills and unbonds in era 0; then root forces eras, and three
    sessions each plan one. *)
Definition exit_start : Store := inv_start <| current_era := Some 0 |>.
Definition exit_unbonded : Store := run (unbond (Signed 100) 500) (run (chill (Signed 100)) exit_start).
Definition exit_forced : Store := run (dispatch Root CForceNewEraAlways) exit_unbonded.
Fixpoint exit_era (n : nat) : Store :=
  match n with O => exit_forced | S m => run (sm_new_session inv_elect false 1) (exit_era m) end.

Lemma exit_era_step n : foreign 101 100 false inv_elect (exit_era n) (exit_era (S n)).
Proof. exact (foreign_new_session 101 100 false inv_elect false 1 (exit_era n)). Qed.

Lemma exit_forced_step : foreign 101 100 false inv_elect exit_unbonded (exit_era 0).
Proof.
  apply (foreign_call 101 100 false inv_elect Root CForceNewEraAlways exit_unbonded).
  by split_and!.
Qed.

Lemma exit_steps : rtc (foreign 101 100 false inv_elect) exit_unbonded (exit_era 3).
Proof.
  eapply rtc_l; [exact exit_forced_step|]. eapply rtc_l; [apply exit_era_step|].
  eapply rtc_l; [apply exit_era_step|]. apply rtc_once, exit_era_step.
Qed.

End Examples.
