(* ===== verification/SlashDeferral.v ===== *)
(** Deferred slashes and the bonding duration: a slash waits for
    [SlashDeferDuration] eras before it is applied, stake that was unbonded waits
    for [BondingDuration] eras before it can be withdrawn, and the pallet checks
    when it is built that the first is less than the second ([integrity_test] of
    [staking/src/pallet/mod.rs]).  What that check gives: while a slash of an era
    waits, nothing that was unbonded in that era or later can be withdrawn, as
    long as the planned era is not further ahead of the active one than the
    difference of the two durations, less one. *)

From Stdlib Require Import ZArith Lia.
From stdpp Require Import base option list gmap fin_maps.
From S2P Require Import Prelude Interfaces StakingLedger SlashingSpans StakingState Slashing.
From S2P Require Import SlashingCorrect Bonding Governance StakingInvariant.
#[local] Open Scope Z_scope.

Section Integrity.
Context `{StakingConfig}.

(** The assertions of [integrity_test]; the election data provider of the pallet
    sets [MaxVotesPerVoter] to [MaxNominations]. *)
Definition MaxVotesPerVoter : nat := MaxNominations.

Definition integrity_test : bool :=
  bool_decide (MaxNominations = MaxVotesPerVoter) &&
  negb (bool_decide (MaxNominations = 0%nat)) &&
  (bool_decide (SlashDeferDuration < BondingDuration) || bool_decide (BondingDuration = 0)).

Lemma integrity_durations :
  integrity_test = true → BondingDuration ≠ 0 → SlashDeferDuration < BondingDuration.
Proof.
  unfold integrity_test. intros [_ Hor]%andb_prop Hb. apply orb_prop in Hor as [Hd|Hd].
  - by apply bool_decide_eq_true in Hd.
  - by apply bool_decide_eq_true in Hd.
Qed.

(** By how many eras the planned era may run ahead of the active one while the
    stake that a waiting slash concerns is still bonded. *)
Definition deferral_slack : Z := BondingDuration - 1 - SlashDeferDuration.

Lemma deferral_slack_nonneg :
  integrity_test = true → BondingDuration ≠ 0 → 0 ≤ deferral_slack.
Proof.
  intros Hi Hb. pose proof (integrity_durations Hi Hb). unfold deferral_slack. lia.
Qed.
End Integrity.

Section Deferral.
Context `{PerThingLaws} `{CurrencyLaws} `{!StakingConfig}.
Implicit Types (s : Store) (l : StakingLedger).

(** ** What waits

    The start of an active era leaves only slashes whose deferral is not over. *)
Lemma waiting_after_start ae s s1 e0 a us :
  earliest_unapplied_slash s = Some e0 → e0 ≤ a →
  apply_unapplied_slashes ae s = (Ok tt, s1) →
  unapplied_slashes_map s1 !! a = Some us →
  ae - SlashDeferDuration ≤ a.
Proof.
  intros He Hle Happ Hus. unfold apply_unapplied_slashes in Happ.
  rewrite (bind_step _ _ s s s) in Happ by done. cbn [id] in Happ. rewrite He in Happ.
  apply bind_Ok in Happ as ([] & s' & Hf & Hm). injection Hm as <-. cbn in Hus.
  rewrite (for_each_era_slashes _ _ _ _ Hf) in Hus. case_decide as Hin; [done|].
  rewrite elem_of_seqZ in Hin. unfold sat_sub in Hin. lia.
Qed.

(** ** What stays bonded

    Withdrawing leaves a chunk whose era has not come in the ledger. *)
Lemma withdraw_keeps_chunk s c l ch ce n :
  staking_wf s → ledger s !! c = Some l → ch ∈ unlocking l →
  current_era s = Some ce → ce < era ch →
  ∃ s' l', withdraw_unbonded (Signed c) n s = (Ok tt, s') ∧ ledger s' !! c = Some l'
    ∧ ch ∈ unlocking l' ∧ active l' = active l.
Proof.
  intros Hs Hl Hin Hce Hera.
  destruct (wf_ledger _ _ _ _ (proj1 Hs) _ _ Hl) as [_ [Hwf _]].
  assert (ch ∈ unlocking (consolidate_unlocked l ce)) as Hin'.
  { rewrite consolidate_unlocked_eq by done. cbn. apply list_elem_of_filter. split; [lia|done]. }
  assert (active (consolidate_unlocked l ce) = active l) as Hact
    by by rewrite consolidate_unlocked_eq.
  unfold withdraw_unbonded. rewrite (bind_step _ _ c s s), (bind_step _ _ s s s) by done. cbn [id].
  rewrite (bind_step _ _ l s s) by (cbn; by rewrite Hl). cbv zeta. rewrite Hce.
  set (l' := consolidate_unlocked l ce) in *.
  rewrite decide_False by (intros [Hnil _]; rewrite Hnil in Hin'; by apply not_elem_of_nil in Hin').
  set (s1 := run (update_ledger c l') s).
  rewrite (bind_step _ _ tt s s1) by done.
  assert (ledger s1 !! c = Some l') as Hl1 by apply lookup_insert_eq.
  unfold when. case_decide; eexists; exists l'; split_and!; try done.
Qed.

(** The assertion of [integrity_test] on the durations does its job.  Let
    [s1] be the storage after the start of the active era [ae] dealt with the
    deferred slashes, and let a slash of era [a] still wait, because it was
    there and is not due or because it was reported in [ae] itself.  Then in every
    storage of that era, a chunk that was unbonded in era [a] or later survives
    every withdrawal, whoever asks and whatever spans they count, while the
    planned era is at most [deferral_slack] ahead of the active one; and the
    slack is not negative. *)
Theorem deferred_slash_covered s s1 e0 ae a s2 c l ch ce n
  (Hint : integrity_test = true) (Hbond : BondingDuration ≠ 0)
  (Hfirst : earliest_unapplied_slash s = Some e0) (Hlater : e0 ≤ a)
  (Hstart : apply_unapplied_slashes ae s = (Ok tt, s1))
  (Hwaits : is_Some (unapplied_slashes_map s1 !! a) ∨ 0 ≤ SlashDeferDuration ∧ a = ae)
  (Hs : staking_wf s2) (Hl : ledger s2 !! c = Some l)
  (Hch : ch ∈ unlocking l) (Hunbonded : a + BondingDuration ≤ era ch)
  (Hce : current_era s2 = Some ce) (Hahead : ce ≤ ae + deferral_slack) :
  0 ≤ deferral_slack ∧
  ∃ s3 l3, withdraw_unbonded (Signed c) n s2 = (Ok tt, s3) ∧ ledger s3 !! c = Some l3
    ∧ ch ∈ unlocking l3 ∧ active l3 = active l.
Proof.
  split; [by apply deferral_slack_nonneg|].
  assert (ae - SlashDeferDuration ≤ a) as Hwait.
  { destruct Hwaits as [[us Hus] | [Hd ->]]; [|lia]. by eapply waiting_after_start. }
  eapply withdraw_keeps_chunk; try done. unfold deferral_slack in Hahead. lia.
Qed.
End Deferral.

(** * A concrete run

    Bonding for three eras, slashes deferred by two: the slack is zero, as it is
    in the runtime. *)

Section Examples.
#[local] Existing Instances TestPerThing TestPerThing_laws TestCurrency TestCurrency_laws.
#[local] Instance deferral_config : StakingConfig := TestStaking 2 64.

Definition deferral_start : Store :=
  default (test_store 2 64 inv_cur []) (genesis_build inv_genesis (test_store 2 64 inv_cur [])).

Lemma deferral_genesis :
  genesis_build inv_genesis (test_store 2 64 inv_cur []) = Some deferral_start.
Proof.
  unfold deferral_start.
  assert (match genesis_build inv_genesis (test_store 2 64 inv_cur []) with
          | Some _ => true | None => false end = true) as Hb by (vm_compute; reflexivity).
  destruct (genesis_build _ _); [reflexivity | discriminate].
Qed.

Lemma deferral_start_wf : staking_wf deferral_start.
Proof.
  apply (@genesis_wf TestCurrency TestCurrency_laws deferral_config inv_genesis inv_cur [] ([], []) ∅);
    [|exact deferral_genesis].
  apply Forall_cons; split; [vm_compute; split; congruence|].
  apply Forall_cons; split; [vm_compute; split; congruence | by apply Forall_nil].
Qed.

(** In era 0 the validator 11 is reported for half of its stake, and its nominator
    101 unbonds everything. *)
Definition deferral_slash : UnappliedSlash :=
  {| us_validator := 11; us_own := 500; us_others := [(101, 250)]; us_reporters := []; us_payout := 0 |}.

Definition deferral_reported : Store :=
  deferral_start <| unapplied_slashes_map := {[ 0 := [deferral_slash] ]} |>
                 <| earliest_unapplied_slash := Some 0 |>.

Definition deferral_unbonded : Store :=
  run (unbond (Signed 100) 500) (run (chill (Signed 100)) (deferral_reported <| current_era := Some 0 |>)).

(** Era 2 starts, and era [ce] is planned. *)
Definition deferral_era_2 : Store := run (apply_unapplied_slashes 2) deferral_unbonded.
Definition deferral_planned (ce : EraIndex) : Store := deferral_era_2 <| current_era := Some ce |>.

Lemma wf_set_era s e : staking_wf s → staking_wf (s <| current_era := e |>).
Proof. by intros [Hs Hu]. Qed.

Lemma wf_report s m e0 :
  staking_wf s → unapplied_wf m →
  staking_wf (s <| unapplied_slashes_map := m |> <| earliest_unapplied_slash := e0 |>).
Proof. by intros [Hs _] Hm. Qed.

Lemma deferral_era_2_wf : staking_wf deferral_era_2.
Proof.
  apply (keeps_apply_unapplied 2), (keeps_unbond (Signed 100) 500); [done|].
  apply (keeps_chill (Signed 100)), wf_set_era, wf_report; [exact deferral_start_wf|].
  apply map_Forall_singleton, Forall_singleton. split_and!; [done| |done]. by apply Forall_singleton.
Qed.

Lemma deferred_slash_covered_witness :
  ∃ s3 l3, withdraw_unbonded (Signed 100) 10 (deferral_planned 2) = (Ok tt, s3)
    ∧ ledger s3 !! 100 = Some l3 ∧ Build_UnlockChunk 500 3 ∈ unlocking l3 ∧ active l3 = 0.
Proof.
  pose proof (deferred_slash_covered deferral_unbonded deferral_era_2 0 2 0 (deferral_planned 2) 100
    {| stash := 101; total := 500; active := 0; unlocking := [Build_UnlockChunk 500 3];
       claimed_rewards := [] |} (Build_UnlockChunk 500 3) 2 10) as Hc.
  apply Hc; clear Hc.
  - by vm_compute.
  - vm_compute. discriminate.
  - by vm_compute.
  - lia.
  - apply run_result. by vm_compute.
  - left. exists [deferral_slash]. by vm_compute.
  - apply wf_set_era, deferral_era_2_wf.
  - by vm_compute.
  - apply list_elem_of_here.
  - vm_compute. discriminate.
  - done.
  - vm_compute. discriminate.
Defined.

(** Without a slack the bound is exact.  Once era 3 is planned, and before it
    starts, the slash of era 0 still waits, and the nominator withdraws everything;
    when era 3 starts the slash finds no ledger to take from, and the 250 it was to
    lose are lost only if it stays. *)
Lemma deferral_gap :
  unapplied_slashes deferral_era_2 0 = [deferral_slash]
  ∧ fst (withdraw_unbonded (Signed 100) 10 (deferral_planned 3)) = Ok tt
  ∧ (let left := run (withdraw_unbonded (Signed 100) 10) (deferral_planned 3) in
     ledger left !! 100 = None
     ∧ free_balance 101 (currency (run (apply_unapplied_slashes 3) left)) = 3000)
  ∧ free_balance 101 (currency (run (apply_unapplied_slashes 3) (deferral_planned 3))) = 2750.
Proof. vm_compute. tauto. Qed.
End Examples.
