(* ===== verification/Migrations.v ===== *)
(** The storage migrations of the staking pallet
    ([frame/staking/src/migrations.rs]): [v6] removes the items of the offchain
    election, [v7] introduces the counters of validators and nominators, [v8]
    builds the voter list from the nominators and [v9] puts the validators into
    it.  A migration is a function of the storage, with the checks that are made
    around it ([pre_migrate] and [post_upgrade], which stop the node) as
    booleans.  [migrations_complete]: from release 7 on, the migrations end in
    release 9 with every role in the voter list, pass their checks and change
    nothing else, and running the last two of them again changes nothing. *)

From Stdlib Require Import ZArith Lia.
From stdpp Require Import base option list gmap fin_maps.
From S2P Require Import Prelude Interfaces StakingState.
#[local] Open Scope Z_scope.

(** * The voter list *)

(** [SortedListProvider::unsafe_regenerate], and what the documentation of the
    trait promises of it, of [on_insert], which fails for a member only, and of
    [count]. *)
Class VoterListRegenerate `{StakingConfig} :=
  vl_unsafe_regenerate : list AccountId → (AccountId → Z) → vlist.

Class VoterListLaws `{VoterListRegenerate} := {
  vl_insert_contains a w l l' :
    vl_on_insert a w l = Some l' →
    vl_contains a l = false ∧ vl_count l' = S (vl_count l) ∧
    ∀ b, vl_contains b l' = bool_decide (a = b) || vl_contains b l;
  vl_insert_member a w l : vl_on_insert a w l = None → vl_contains a l = true;
  vl_regenerate_spec ids f :
    NoDup ids →
    vl_count (vl_unsafe_regenerate ids f) = length ids ∧
    ∀ b, vl_contains b (vl_unsafe_regenerate ids f) = bool_decide (b ∈ ids);
}.

(** * Releases 6 and 7

    The items these remove and introduce are not storage items of the pallet any
    more: a [storage_alias] is present or not, a counter has a value or not. *)

Record OldItems := {
  snapshot_validators : bool;
  snapshot_nominators : bool;
  queued_elected : bool;
  queued_score : bool;
  era_election_status : bool;
  is_current_session_final : bool;
  counter_for_validators : option Z;
  counter_for_nominators : option Z;
}.

#[export] Instance OldItems_eta : Eta OldItems := λ s, {|
  snapshot_validators := snapshot_validators s; snapshot_nominators := snapshot_nominators s;
  queued_elected := queued_elected s; queued_score := queued_score s;
  era_election_status := era_election_status s;
  is_current_session_final := is_current_session_final s;
  counter_for_validators := counter_for_validators s;
  counter_for_nominators := counter_for_nominators s |}.

Section Migrations.
Context `{VoterListRegenerate}.

Definition v6_pre_migrate (old : OldItems) : bool :=
  is_current_session_final old && era_election_status old.

Definition v6_migrate (old : OldItems) (s : Store) : OldItems * Store :=
  (old <| snapshot_validators := false |> <| snapshot_nominators := false |>
       <| queued_elected := false |> <| queued_score := false |>
       <| era_election_status := false |> <| is_current_session_final := false |>,
   s <| storage_version := V6_0_0 |>).

(** The counter of a counted map is the item the aliases name. *)
Definition counted (c : option Z) : Z := default 0 c.

Definition v7_pre_migrate (old : OldItems) (s : Store) : bool :=
  bool_decide (counter_for_validators old = Some 0) &&
  bool_decide (counter_for_nominators old = Some 0) &&
  bool_decide (counted (counter_for_validators old) = 0) &&
  bool_decide (counted (counter_for_nominators old) = 0) &&
  bool_decide (storage_version s = V6_0_0).

Definition v7_migrate (old : OldItems) (s : Store) : OldItems * Store :=
  let validator_count := Z.of_nat (length (map_to_list (validators_map s))) mod 2 ^ 32 in
  let nominator_count := Z.of_nat (length (map_to_list (nominators s))) mod 2 ^ 32 in
  (old <| counter_for_validators := Some validator_count |>
       <| counter_for_nominators := Some nominator_count |>,
   s <| storage_version := V7_0_0 |>).

(** * Release 8 *)

Definition v8_pre_migrate (s : Store) : bool := bool_decide (storage_version s = V7_0_0).

Definition v8_migrate (s : Store) : Store :=
  if decide (storage_version s = V7_0_0) then
    s <| voter_list := vl_unsafe_regenerate (map_to_list (nominators s)).*1 (weight_of_fn s) |>
      <| storage_version := V8_0_0 |>
  else s.

(** * Release 9 *)

(** A validator the list refuses is logged and skipped. *)
Fixpoint inject_validators (weight_of_cached : AccountId → Z) (vs : list AccountId)
    (l : vlist) : vlist :=
  match vs with
  | [] => l
  | v :: vs' =>
      inject_validators weight_of_cached vs'
        (try_update (vl_on_insert v (weight_of_cached v)) l)
  end.

Definition v9_on_runtime_upgrade (s : Store) : Store :=
  if decide (storage_version s = V8_0_0) then
    s <| voter_list ::= inject_validators (weight_of_fn s) (map_to_list (validators_map s)).*1 |>
      <| storage_version := V9_0_0 |>
  else s.

(** The count before the upgrade is kept in a temporary item. *)
Definition v9_pre_upgrade (s : Store) : option Z :=
  if decide (storage_version s = V8_0_0) then Some (Z.of_nat (vl_count (voter_list s))) else None.

Definition v9_post_upgrade (prev_count : Z) (s : Store) : bool :=
  bool_decide (Z.of_nat (vl_count (voter_list s))
               = wadd 32 prev_count (count (validators_map s))) &&
  bool_decide (storage_version s = V9_0_0).
End Migrations.

(** * Correctness *)
Section MigrationsCorrect.
Context `{VoterListLaws}.
Implicit Types s : Store.

Lemma bool_decide_cons (b v : AccountId) vs :
  bool_decide (b ∈ v :: vs) = bool_decide (v = b) || bool_decide (b ∈ vs).
Proof.
  rewrite <- bool_decide_or. apply bool_decide_ext. rewrite elem_of_cons.
  split; intros [->|?]; auto.
Qed.

Lemma inject_validators_spec w vs : ∀ l,
  (∀ b, vl_contains b (inject_validators w vs l) = bool_decide (b ∈ vs) || vl_contains b l) ∧
  (NoDup vs → (∀ v, v ∈ vs → vl_contains v l = false) →
   vl_count (inject_validators w vs l) = (vl_count l + length vs)%nat).
Proof.
  induction vs as [|v vs IH]; intros l; cbn [inject_validators length].
  { split; [done | intros; lia]. }
  destruct (IH (try_update (vl_on_insert v (w v)) l)) as [IH1 IH2]. unfold try_update in *.
  destruct (vl_on_insert v (w v) l) as [l'|] eqn:Hl; cbn [default from_option id] in *.
  - destruct (vl_insert_contains _ _ _ _ Hl) as (Hv & Hc & Hb). split.
    + intros b. rewrite IH1, Hb, bool_decide_cons.
      by rewrite orb_assoc, (orb_comm (bool_decide (b ∈ vs))).
    + intros [Hnin Hnd]%NoDup_cons Hf.
      rewrite IH2; [rewrite Hc; lia | done |].
      intros x Hx. rewrite Hb, Hf by (by right). rewrite bool_decide_eq_false_2; [done|].
      by intros ->.
  - apply vl_insert_member in Hl. split.
    + intros b. rewrite IH1, bool_decide_cons. destruct (decide (v = b)) as [->|Hne].
      * by rewrite Hl, !orb_true_r.
      * by rewrite (bool_decide_eq_false_2 (v = b)).
    + intros _ Hf. rewrite (Hf v) in Hl by (by left). done.
Qed.

Lemma elem_of_keys {V} (m : gmap AccountId V) a : a ∈ (map_to_list m).*1 ↔ is_Some (m !! a).
Proof.
  rewrite list_elem_of_fmap. split.
  - intros ([k v] & -> & Hkv%elem_of_map_to_list). by exists v.
  - intros [v Hv]. exists (a, v). split; [done|]. by apply elem_of_map_to_list.
Qed.

Lemma length_keys {V} (m : gmap AccountId V) : length (map_to_list m).*1 = size m.
Proof. by rewrite length_fmap, length_map_to_list. Qed.

Lemma late_migrations s (Hv : storage_version s = V7_0_0)
    (Hroles : ∀ a, validators_map s !! a ≠ None → nominators s !! a = None)
    (Hfit : count (nominators s) + count (validators_map s) < 2 ^ 32) :
  let s8 := v8_migrate s in
  let s9 := v9_on_runtime_upgrade s8 in
  (∀ a, vl_contains a (voter_list s9) = true ↔
    is_Some (nominators s !! a) ∨ is_Some (validators_map s !! a)) ∧
  s9 = s <| voter_list := voter_list s9 |> <| storage_version := V9_0_0 |> ∧
  v8_pre_migrate s = true ∧
  (∃ prev, v9_pre_upgrade s8 = Some prev ∧ v9_post_upgrade prev s9 = true) ∧
  v9_on_runtime_upgrade (v8_migrate s9) = s9.
Proof.
  intros s8 s9.
  set (l8 := vl_unsafe_regenerate (map_to_list (nominators s)).*1 (weight_of_fn s)).
  assert (s8 = s <| voter_list := l8 |> <| storage_version := V8_0_0 |>) as E8.
  { subst s8. unfold v8_migrate. by rewrite decide_True. }
  assert (s9 = s <| voter_list := inject_validators (weight_of_fn s) (map_to_list (validators_map s)).*1 l8 |>
                 <| storage_version := V9_0_0 |>) as E9.
  { subst s9. rewrite E8. unfold v9_on_runtime_upgrade. by rewrite decide_True. }
  clearbody s8 s9. subst s8 s9. cbn.
  destruct (vl_regenerate_spec (map_to_list (nominators s)).*1 (weight_of_fn s)) as [Hn8 Hc8];
    [apply NoDup_fst_map_to_list|]. fold l8 in Hn8, Hc8. rewrite length_keys in Hn8.
  destruct (inject_validators_spec (weight_of_fn s) (map_to_list (validators_map s)).*1 l8) as [Hc9 Hn9].
  rewrite length_keys in Hn9. split_and!.
  - intros a. rewrite Hc9, Hc8, orb_true_iff, !bool_decide_eq_true, !elem_of_keys. tauto.
  - done.
  - by apply bool_decide_eq_true.
  - eexists. split; [done|]. unfold v9_post_upgrade. cbn. rewrite Hn9.
    + rewrite bool_decide_eq_true_2; [done|]. unfold count in *. rewrite Hn8, wadd_small; [lia|].
      unfold in_u. lia.
    + apply NoDup_fst_map_to_list.
    + intros v Hvin%elem_of_keys. rewrite Hc8. apply bool_decide_eq_false. rewrite elem_of_keys.
      intros [x Hx]. rewrite Hroles in Hx; [done|]. by apply not_eq_None_Some.
  - done.
Qed.

(** C40: from a storage older than release 6 whose counters are still zero and in
    which nobody both validates and nominates, the four migrations end in release
    9: the items of the offchain election are gone, the counters hold the numbers
    of validators and nominators, and the voter list holds exactly these accounts,
    whatever was in it.  They change nothing else, the checks made before and after
    each of them pass, and running the last two again changes nothing. *)
Theorem migrations_complete (old : OldItems) s
    (Hold : v6_pre_migrate old = true)
    (Hcv : counter_for_validators old = Some 0) (Hcn : counter_for_nominators old = Some 0)
    (Hroles : ∀ a, validators_map s !! a ≠ None → nominators s !! a = None)
    (Hfit : count (nominators s) + count (validators_map s) < 2 ^ 32) :
  let '(old6, s6) := v6_migrate old s in
  let '(old7, s7) := v7_migrate old6 s6 in
  let s8 := v8_migrate s7 in
  let s9 := v9_on_runtime_upgrade s8 in
  old7 = {| snapshot_validators := false; snapshot_nominators := false; queued_elected := false;
            queued_score := false; era_election_status := false;
            is_current_session_final := false;
            counter_for_validators := Some (count (validators_map s));
            counter_for_nominators := Some (count (nominators s)) |} ∧
  (∀ a, vl_contains a (voter_list s9) = true ↔
    is_Some (nominators s !! a) ∨ is_Some (validators_map s !! a)) ∧
  s9 = s <| voter_list := voter_list s9 |> <| storage_version := V9_0_0 |> ∧
  v7_pre_migrate old6 s6 = true ∧ v8_pre_migrate s7 = true ∧
  (∃ prev, v9_pre_upgrade s8 = Some prev ∧ v9_post_upgrade prev s9 = true) ∧
  v9_on_runtime_upgrade (v8_migrate s9) = s9.
Proof.
  unfold v6_migrate, v7_migrate. cbv beta iota.
  assert (storage_version (s <| storage_version := V6_0_0 |>) = V6_0_0) as E6 by done.
  assert (validators_map (s <| storage_version := V6_0_0 |>) = validators_map s) as Ev by done.
  assert (nominators (s <| storage_version := V6_0_0 |>) = nominators s) as En by done.
  rewrite Ev, En.
  set (s7 := s <| storage_version := V6_0_0 |> <| storage_version := V7_0_0 |>).
  assert (storage_version s7 = V7_0_0) as E7 by done.
  assert (validators_map s7 = validators_map s) as Ev7 by done.
  assert (nominators s7 = nominators s) as En7 by done.
  assert (∀ l v, s7 <| voter_list := l |> <| storage_version := v |>
                 = s <| voter_list := l |> <| storage_version := v |>) as Es by done.
  clearbody s7. destruct (late_migrations s7 E7) as (Hc & Hs & H8 & H9 & Hi).
  { intros a. rewrite Ev7, En7. apply Hroles. }
  { by rewrite Ev7, En7. }
  rewrite Es in Hs. rewrite Ev7, En7 in Hc.
  split; [|split; [|split; [|split; [|split; [|split]]]]]; try assumption.
  - unfold count in *. rewrite !length_map_to_list, !Z.mod_small by lia. done.
  - unfold v7_pre_migrate. rewrite E6. cbn. by rewrite Hcv, Hcn.
Qed.
End MigrationsCorrect.

(** * A run *)
Section MigrationsTest.
#[local] Existing Instance TestCurrency.
#[local] Instance ex_staking : StakingConfig := TestStaking 0 64.
#[local] Instance ex_regenerate : VoterListRegenerate := λ ids _, ids.

Lemma ex_voter_list_laws : VoterListLaws.
Proof.
  split; cbn.
  - intros a _ l l'. case_decide as Ha; [done|]. intros [= <-]. split_and!.
    + by apply bool_decide_eq_false.
    + rewrite length_app. cbn. lia.
    + intros b. rewrite <- bool_decide_or. apply bool_decide_ext.
      rewrite elem_of_app, list_elem_of_singleton.
      split; intros [?|?]; subst; auto.
  - intros a _ l. case_decide as Ha; [|done]. intros _. by apply bool_decide_eq_true.
  - intros ids f _. done.
Qed.

Definition ex_old : OldItems := {|
  snapshot_validators := false; snapshot_nominators := true; queued_elected := false;
  queued_score := false; era_election_status := true; is_current_session_final := true;
  counter_for_validators := Some 0; counter_for_nominators := Some 0 |}.

Definition ex_old_store : Store :=
  (test_store 0 64 (TestCur ∅ 0 ∅) []) <| storage_version := V5_0_0 |>
    <| validators_map := {[3 := ValidatorPrefs_default]} |>
    <| nominators := {[4 := {| targets := [3]; submitted_in := 0; suppressed := false |}]} |>.

Lemma migrations_complete_witness :
  let '(old7, s7) := uncurry v7_migrate (v6_migrate ex_old ex_old_store) in
  let s9 := v9_on_runtime_upgrade (v8_migrate s7) in
  voter_list s9 = [4; 3] ∧ v9_on_runtime_upgrade (v8_migrate s9) = s9.
Proof.
  split; [by vm_compute|].
  pose proof (@migrations_complete TestCurrency ex_staking ex_regenerate ex_voter_list_laws
    ex_old ex_old_store eq_refl eq_refl eq_refl) as Hm.
  apply Hm; [|by vm_compute].
  intros a. cbn. rewrite lookup_singleton_None, lookup_singleton. case_decide; [lia | done].
Defined.
End MigrationsTest.
