(* ===== verification/PayoutCorrect.v ===== *)
(** What a payout promises: the reward of a validator for an era is paid at
    most once, and every unit credited to a staker is taken out of the reward
    fund. *)

From Stdlib Require Import ZArith Lia.
From stdpp Require Import base option list gmap fin_maps fin_sets strings.
From S2P Require Import Prelude Interfaces StakingLedger SlashingSpans StakingState Slashing.
From S2P Require Import Bonding Governance Payout Eras StakingInvariant.
#[local] Open Scope Z_scope.

(** * At most one payout *)

Section Once.
Context `{PerThing} `{StakingConfig}.
Implicit Types s : Store.

(** The era is claimed in the ledger of the validator, and what the checks of
    a payout read is as in [s0]. *)
Definition claimed_by (s0 : Store) (v c : AccountId) (e : EraIndex) (s : Store) : Prop :=
  current_era s = current_era s0 ∧ history_depth s = history_depth s0
  ∧ eras_validator_reward s = eras_validator_reward s0
  ∧ bonded s !! v = Some c
  ∧ ∃ l, ledger s !! c = Some l ∧ sorted_by id (claimed_rewards l) ∧ e ∈ claimed_rewards l.

Lemma claimed_update_ledger s0 v c e c' l l' s :
  claimed_by s0 v c e s → ledger s !! c' = Some l → claimed_rewards l' = claimed_rewards l →
  ∀ cu, claimed_by s0 v c e (s <| currency := cu |> <| ledger ::= insert c' l' |>).
Proof.
  intros (Hce & Hhd & Hrw & Hbd & l0 & Hl0 & Hs & Hin) Hl Heq cu. do 4 (split; [done|]). cbn.
  destruct (decide (c' = c)) as [->|Hne].
  - exists l'. rewrite lookup_insert_eq, Heq. by simplify_eq.
  - exists l0. by rewrite lookup_insert_ne.
Qed.

Lemma keeps_claimed_make_payout s0 v c e st amount :
  preserves (claimed_by s0 v c e) (make_payout st amount).
Proof.
  apply preserves_wp. intros s Hs. unfold make_payout. apply wp_get.
  destruct (payee s st).
  - destruct (bonded s !! st) as [c'|]; [|done].
    destruct (ledger s !! c') as [l|] eqn:Hl; [|done].
    destruct (deposit_into_existing _ _ _) as [r cu]. unfold update_ledger. wp_auto.
    by apply (claimed_update_ledger s0 v c e c' l _ s Hs Hl).
  - destruct (deposit_into_existing _ _ _). wp_auto. exact Hs.
  - destruct (bonded s !! st); [|done]. destruct (deposit_creating _ _ _). wp_auto. exact Hs.
  - destruct (deposit_creating _ _ _). wp_auto. exact Hs.
  - exact Hs.
Qed.

Lemma keeps_claimed_payout_one s0 v c e st amount t :
  preserves (claimed_by s0 v c e) (payout_one st amount t).
Proof.
  unfold payout_one, deposit_event. apply preserves_keeps_bind; [apply keeps_claimed_make_payout|].
  intros [imb|]; by keeps_auto.
Qed.

Lemma keeps_claimed_nominators s0 v c e et left noms : ∀ t,
  preserves (claimed_by s0 v c e) (payout_nominators et left noms t).
Proof.
  induction noms as [|n noms IH]; intros t; cbn; [by apply keeps_ret|].
  apply preserves_keeps_bind; [apply keeps_claimed_payout_one|]. intros t'. apply IH.
Qed.

Lemma keeps_claimed_settle s0 v c e w : preserves (claimed_by s0 v c e) (settle_payouts w).
Proof. unfold settle_payouts. by keeps_auto. Qed.

Lemma keeps_claimed_update s0 v c e e' w :
  preserves (claimed_by s0 v c e) (update_not_claimed_reward e' w).
Proof. unfold update_not_claimed_reward. keeps_auto. by case_match. Qed.
End Once.

Section OnceTheorem.
Context `{PerThingLaws} `{CurrencyLaws} `{!StakingConfig}.
Implicit Types s : Store.

Lemma do_payout_claims v e s c l ep :
  staking_wf s → claim_era s v e = Ok (c, l, ep) →
  claimed_by s v c e (run (do_payout_stakers v e) s).
Proof.
  intros Hs Hclaim. destruct (claim_era_spec _ _ _ _ _ _ Hs Hclaim)
    as (l0 & Hb & Hl & Hrew & Hst & Hst0 & [_ Hsort] & Htot & Hin).
  assert (claimed_by s v c e (s <| ledger ::= insert c l |>)) as Hs1.
  { do 4 (split; [done|]). exists l. cbn. by rewrite lookup_insert_eq. }
  change (wp (do_payout_stakers v e) s (λ _, claimed_by s v c e)). unfold do_payout_stakers.
  apply wp_get, wp_bind. rewrite Hclaim. apply wp_ret. cbn zeta.
  apply wp_bind, wp_modify. destruct (decide _); [exact Hs1|].
  destruct (validator_payouts _ _ _ _ _ _ _) as [a b]. apply wp_preserves, Hs1.
  apply preserves_keeps_bind; [unfold deposit_event; by keeps_auto|]. intros _.
  apply preserves_keeps_bind; [apply keeps_claimed_payout_one|]. intros t.
  apply preserves_keeps_bind; [apply keeps_claimed_nominators|]. intros t'.
  apply preserves_keeps_bind; [apply keeps_claimed_settle|]. intros _.
  apply keeps_claimed_update.
Qed.

Lemma claim_era_range v e s c l ep :
  claim_era s v e = Ok (c, l, ep) →
  ∃ ce, current_era s = Some ce ∧ e ≤ ce ∧ e >= sat_sub ce (history_depth s)
    ∧ eras_validator_reward s !! e = Some ep.
Proof.
  unfold claim_era. destruct (current_era s) as [ce|]; [|done].
  destruct (decide _) as [[? ?]|]; [|done]. destruct (eras_validator_reward s !! e) as [r|]; [|done].
  destruct (bonded s !! v); [|done]. destruct (ledger s !! _); [|done].
  destruct (binary_search_by_key _ _ _); [done|]. intros [= _ _ ->]. by exists ce.
Qed.

(** Once a payout of a validator for an era passed its checks, every later
    payout for the same validator and era fails with [AlreadyClaimed] and
    changes nothing, even when the first one could not settle against the
    fund and returned [CannotPayout]. *)
Theorem payout_once s v e c l ep w w'
    (Hs : staking_wf s) (Hclaim : claim_era s v e = Ok (c, l, ep)) :
  let s' := run (payout_stakers (Signed w) v e) s in
  payout_stakers (Signed w') v e s' = (Err AlreadyClaimed, s').
Proof.
  intros s'.
  assert (claimed_by s v c e s') as (Hce & Hhd & Hrew & Hb & l' & Hl' & Hsort & Hin).
  { apply (do_payout_claims v e s c l ep Hs Hclaim). }
  destruct (claim_era_range _ _ _ _ _ _ Hclaim) as (ce & Hcur & Hle & Hge & Hep).
  assert (claim_era s' v e = Err AlreadyClaimed) as Hagain.
  { unfold claim_era. rewrite Hce, Hhd, Hrew, Hcur, Hep, Hb, Hl'. rewrite decide_True by done.
    assert (e ∈ filter (λ x, x >= sat_sub ce (history_depth s)) (claimed_rewards l')) as Hf.
    { by apply list_elem_of_filter. }
    apply list_elem_of_lookup in Hf as [i Hi].
    rewrite (binary_search_find id e _ i e); [done| |done|done].
    by apply sorted_by_filter. }
  unfold payout_stakers, ensure_signed. rewrite (bind_step _ _ w' s' s') by done.
  unfold do_payout_stakers. rewrite (bind_step _ _ s' s' s') by done.
  rewrite Hagain. by rewrite (bind_err _ _ AlreadyClaimed s' s').
Qed.
End OnceTheorem.

(** * Payouts come out of the fund *)

Section Conservation.
Context `{PerThingLaws} `{CurrencyLaws} `{!StakingConfig}.
Implicit Types s : Store.

(** What [payments] credit to an account. *)
Definition credited (payments : list (AccountId * Z)) (a : AccountId) : Z :=
  zsum (λ p, if decide (p.1 = a) then p.2 else 0) payments.

Definition credits s s' (payments : list (AccountId * Z)) : Prop :=
  Forall (λ p, 0 ≤ p.2) payments ∧
  ∀ a, free_balance a (currency s') = free_balance a (currency s) + credited payments a.

Lemma credits_nil s s' : currency s' = currency s → credits s s' [].
Proof. intros Heq. split; [constructor|]. intros a. rewrite Heq. unfold credited. cbn. lia. Qed.

Lemma credits_app s s1 s' p q : credits s s1 p → credits s1 s' q → credits s s' (p ++ q).
Proof.
  intros [Hp Hfp] [Hq Hfq]. split; [by apply Forall_app|]. intros a.
  unfold credited in *. rewrite zsum_app, Hfq, Hfp. lia.
Qed.

Definition paid_total (payments : list (AccountId * Z)) : Z := zsum snd payments.

Lemma make_payout_credits st v s :
  0 ≤ v →
  wp (make_payout st v) s (λ r s', ∃ o ps, r = Ok o ∧ credits s s' ps
    ∧ paid_total ps = default 0 o ∧ 0 ≤ default 0 o ≤ v
    ∧ eras_not_claimed_reward_map s' = eras_not_claimed_reward_map s).
Proof.
  intros Hv.
  assert (∀ a c v' s1, deposit_creating a v (currency s) = (v', c) → currency s1 = c →
    ∃ ps, credits s s1 ps ∧ paid_total ps = v' ∧ 0 ≤ v' ≤ v) as Hcreate.
  { intros a c v' s1 Hd Hs1. destruct (deposit_creating_spec _ _ _ _ _ Hd Hv) as [Hv' Hfree].
    exists [(a, v')]. split_and!; [|cbn; lia|lia..]. split; [by repeat constructor; cbn; lia|].
    intros b. rewrite Hs1, Hfree. unfold credited. cbn. destruct (decide _); lia. }
  assert (∀ a c o s1, deposit_into_existing a v (currency s) = (o, c) →
    (∀ b, free_balance b (currency s1) = free_balance b c) →
    ∃ ps, credits s s1 ps ∧ paid_total ps = default 0 o ∧ 0 ≤ default 0 o ≤ v) as Hexist.
  { intros a c [v'|] s1 Hd Hs1.
    - destruct (deposit_into_existing_spec _ _ _ _ _ Hd Hv) as [-> Hfree].
      exists [(a, v)]. split_and!; [|cbn; lia..]. split; [by repeat constructor; cbn; lia|].
      intros b. rewrite Hs1, Hfree. unfold credited. cbn. destruct (decide _); lia.
    - apply deposit_into_existing_None in Hd as ->. exists []. split_and!; cbn; try lia.
      split; [constructor|]. intros b. rewrite Hs1. unfold credited. cbn. lia. }
  set (Q := λ (r : result Error (option Z)) s', ∃ o ps, r = Ok o ∧ _).
  assert (Q (Ok None) s) as Hnone.
  { exists None, []. split_and!; first [done | by apply credits_nil | cbn; lia]. }
  assert (∀ o s', eras_not_claimed_reward_map s' = eras_not_claimed_reward_map s →
    (∃ ps, credits s s' ps ∧ paid_total ps = default 0 o ∧ 0 ≤ default 0 o ≤ v) → Q (Ok o) s') as Hsome.
  { intros o s' Hm (ps & Hps & Ht & Hr). exists o, ps. split_and!; first [done | lia]. }
  unfold make_payout. apply wp_get. destruct (payee s st) as [| | |dest|].
  - destruct (bonded s !! st) as [c|]; [|done]. destruct (ledger s !! c) as [l|]; [|done].
    destruct (deposit_into_existing _ _ _) as [o cu] eqn:Hd. unfold update_ledger. wp_auto.
    apply Hsome; [done|]. eapply (Hexist st cu); [done|]. intros b. cbn. apply set_lock_free.
  - destruct (deposit_into_existing _ _ _) as [o cu] eqn:Hd. wp_auto.
    apply Hsome; [done|]. by eapply (Hexist st cu).
  - destruct (bonded s !! st) as [c|]; [|done].
    destruct (deposit_creating _ _ _) as [o cu] eqn:Hd. wp_auto.
    apply Hsome; [done|]. by eapply (Hcreate c cu).
  - destruct (deposit_creating _ _ _) as [o cu] eqn:Hd. wp_auto.
    apply Hsome; [done|]. by eapply (Hcreate dest cu).
  - done.
Qed.

(** The postcondition of the steps that pay: the total grows by what they pay,
    at most [b]. *)
Definition paid_up_to (b t : Z) s : result Error Z → Store → Prop := λ r s',
  ∃ t' ps, r = Ok t' ∧ credits s s' ps ∧ t' = t + paid_total ps ∧ 0 ≤ paid_total ps ≤ b
    ∧ eras_not_claimed_reward_map s' = eras_not_claimed_reward_map s.

Lemma payout_one_credits st v t s :
  0 ≤ v → 0 ≤ t → t + v < 2 ^ 128 → wp (payout_one st v t) s (paid_up_to v t s).
Proof.
  intros Hv Ht Hb. unfold payout_one. apply wp_bind.
  eapply wp_mono; [by apply make_payout_credits|]. cbn beta.
  intros r s1 (o & ps & -> & Hps & Htot & Hr & Hmap). unfold deposit_event.
  destruct o as [imb|]; cbn in *; wp_auto.
  - exists (t + imb), ps. rewrite sat_add_exact by lia. split_and!; first [done | lia].
  - exists t, ps. split_and!; first [done | lia].
Qed.

(** What the nominators of an exposure are due. *)
Definition nominator_due (et left : Z) (n : IndividualExposure) : Z :=
  perbill_mul (perbill_from_rational (ie_value n) et) left.
Definition nominators_due (et left : Z) (noms : list IndividualExposure) : Z :=
  zsum (nominator_due et left) noms.

Lemma nominator_due_range et left n : 0 ≤ left → 0 ≤ nominator_due et left n ≤ left.
Proof. intros Hl. apply perbill_mul_range; [apply perbill_from_rational_range | done]. Qed.

Lemma nominators_due_range et left noms :
  0 ≤ left → 0 ≤ nominators_due et left noms ≤ Z.of_nat (length noms) * left.
Proof.
  intros Hl. induction noms as [|n noms IH]; cbn [nominators_due zsum length]; [lia|].
  pose proof (nominator_due_range et left n Hl). unfold nominators_due in IH. lia.
Qed.

Lemma payout_nominators_credits noms : ∀ et left t s,
  0 ≤ left → 0 ≤ t → t + nominators_due et left noms < 2 ^ 128 →
  wp (payout_nominators et left noms t) s (paid_up_to (nominators_due et left noms) t s).
Proof.
  induction noms as [|n noms IH]; intros et left t s Hl Ht Hb; cbn [payout_nominators].
  { apply wp_ret. exists t, []. split_and!; first [done | by apply credits_nil | cbn; lia]. }
  pose proof (nominator_due_range et left n Hl) as Hn.
  pose proof (nominators_due_range et left noms Hl) as Hrest.
  change (nominators_due et left (n :: noms)) with
    (nominator_due et left n + nominators_due et left noms) in *.
  set (due := nominator_due et left n) in *. apply wp_bind.
  fold (nominator_due et left n) due. eapply wp_mono; [apply payout_one_credits; [lia | lia | lia]|].
  intros r s1 (t' & ps & -> & Hps & -> & Hr & Hmap).
  eapply wp_mono; [apply (IH et left); [lia | lia | lia]|].
  intros r s2 (t'' & qs & -> & Hqs & -> & Hr' & Hmap').
  exists (t + paid_total ps + paid_total qs), (ps ++ qs). unfold paid_total in *.
  rewrite zsum_app. split_and!; first [done | by eapply credits_app | by rewrite Hmap' | lia].
Qed.

(** The validator is paid, then its nominators. *)
Lemma pay_all_credits st v et left ex s :
  0 ≤ v → 0 ≤ left → v + nominators_due et left ex < 2 ^ 128 →
  wp (total1 ← payout_one st v 0; payout_nominators et left ex total1) s
    (paid_up_to (v + nominators_due et left ex) 0 s).
Proof.
  intros Hv Hl Hb. pose proof (nominators_due_range et left ex Hl) as Hrest. apply wp_bind.
  eapply wp_mono; [apply payout_one_credits; [lia | lia | lia]|].
  intros r s2 (t1 & ps & -> & Hps & -> & Hr1 & Hm1).
  eapply wp_mono; [apply (payout_nominators_credits _ et left); [lia | lia | lia]|].
  intros r s3 (t2 & qs & -> & Hqs & -> & Hr2 & Hm2).
  exists (0 + paid_total ps + paid_total qs), (ps ++ qs). unfold paid_total in *.
  rewrite zsum_app. split_and!; first [done | by eapply credits_app | by rewrite Hm2 | lia].
Qed.

(** A storage in which [payments] were made out of the fund, for the era [e]. *)
Definition paid_from_fund (e : EraIndex) (payments : list (AccountId * Z)) s s' : Prop :=
  Forall (λ p, 0 ≤ p.2) payments
  ∧ (∀ a, free_balance a (currency s') =
       free_balance a (currency s) + credited payments a
       - (if decide (fund_account_id = a) then paid_total payments else 0))
  ∧ ∀ u, eras_not_claimed_reward_map s !! e = Some u → 0 ≤ u →
      eras_not_claimed_reward_map s' !! e = Some (sat_sub u (paid_total payments)).

Lemma paid_nothing e s s' :
  currency s' = currency s → eras_not_claimed_reward_map s' = eras_not_claimed_reward_map s →
  paid_from_fund e [] s s'.
Proof.
  intros Hc Hm. unfold paid_from_fund, credited, paid_total. cbn. rewrite Hc, Hm. split_and!.
  - constructor.
  - intros a. destruct (decide _); lia.
  - intros u Hu Hpos. rewrite Hu. f_equal. ulia.
Qed.

(** What was credited is settled with the fund. *)
Lemma settle_paid e payments s s1 :
  credits s s1 payments → 0 ≤ paid_total payments →
  eras_not_claimed_reward_map s1 = eras_not_claimed_reward_map s →
  let total := paid_total payments in
  wp (settle_payouts total ≫= λ _, update_not_claimed_reward e total) s1
    (λ r s', r = Ok tt → paid_from_fund e payments s s').
Proof.
  intros [Hpos Hfree] Hnn Hm total. unfold settle_payouts. apply wp_bind, wp_get.
  destruct (settle fund_account_id total KeepAlive (currency s1)) as [cu|] eqn:Hsettle.
  2:{ apply wp_bind, wp_modify, wp_throw. intros [=]. }
  destruct (settle_spec _ _ _ _ _ Hsettle) as [_ Hset]; [done|].
  apply wp_modify. unfold update_not_claimed_reward. apply wp_modify. intros _.
  split_and!; [done|..].
  - intros a. cbn [set currency eras_not_claimed_reward_map] in *. rewrite Hm.
    specialize (Hfree a). specialize (Hset a).
    destruct (eras_not_claimed_reward_map s !! e); cbn; rewrite Hset, Hfree; reflexivity.
  - intros u Hu Hpos'. cbn. rewrite Hm, Hu. cbn. by rewrite lookup_insert_eq.
Qed.

(** C17: Every unit a payout credits, to the validator or to a nominator, at
    its stash, controller or chosen account, is taken out of the reward fund,
    and the reward of the era that is not claimed yet goes down by the same
    amount: no account gains or loses anything else. *)
Theorem payout_conserves s w v e s' reward
    (Hs : staking_wf s) (Hrew : eras_validator_reward s !! e = Some reward) (Hreward : u128 reward)
    (Hcomm : is_perbill (commission (eras_validator_prefs s e v)))
    (Hroom : Z.of_nat (S (length (others (eras_stakers_clipped s e v)))) * reward < 2 ^ 128)
    (Hok : payout_stakers (Signed w) v e s = (Ok tt, s')) :
  ∃ payments, paid_from_fund e payments s s' ∧
    0 ≤ paid_total payments
      ≤ Z.of_nat (S (length (others (eras_stakers_clipped s e v)))) * reward.
Proof.
  set (n := Z.of_nat (S (length (others (eras_stakers_clipped s e v)))) * reward) in *.
  set (P := λ (r : result Error unit) s', r = Ok tt → ∃ payments,
    paid_from_fund e payments s s' ∧ 0 ≤ paid_total payments ≤ n).
  enough (wp (payout_stakers (Signed w) v e) s P) as Hwp by (by apply (wp_elim _ _ _ _ _ Hwp Hok)).
  clear Hok s'. unfold payout_stakers. apply wp_bind, wp_ret. unfold do_payout_stakers.
  apply wp_get, wp_bind, wp_of_result; [|done]. intros [[c l] ep] Hclaim.
  destruct (claim_era_spec _ _ _ _ _ _ Hs Hclaim) as (l0 & Hb & Hl & Hrew' & Hst & Hst0 & Hok & Htot & _).
  assert (ep = reward) as -> by congruence. rewrite Hst. cbn zeta.
  set (ex := eras_stakers_clipped s e v) in *.
  apply wp_bind, wp_modify. set (s1 := s <| ledger ::= insert c l |>).
  destruct (decide _) as [Hz|Hnz].
  { apply wp_ret. intros _. exists []. split; [by apply paid_nothing|].
    unfold n, paid_total, in_u in *. cbn. nia. }
  destruct (validator_payouts _ _ _ _ _ _ _) as [own_pay left] eqn:Hpay.
  destruct (validator_payouts_bound _ _ _ _ _ _ _ _ _ Hpay Hreward Hcomm) as [Ha Hleft].
  unfold deposit_event. apply wp_bind, wp_modify.
  pose proof (nominators_due_range (exp_total ex) left (others ex) (proj1 Hleft)) as Hnoms.
  assert (own_pay + nominators_due (exp_total ex) left (others ex) ≤ n) as Hn by (unfold n; nia).
  match goal with |- wp _ ?t _ =>
    pose proof (pay_all_credits v own_pay (exp_total ex) left (others ex) t
      ltac:(lia) ltac:(lia) ltac:(unfold n in *; lia)) as Hall end.
  apply wp_bind. eapply wp_mono; [exact (wp_bind_inv _ _ _ _ Hall)|].
  intros [t1|er] s2 Hpaid; [|by destruct Hpaid as (? & ? & ? & _)]. apply wp_bind.
  eapply wp_mono; [exact Hpaid|]. intros r s3 (t2 & ps & -> & Hps & -> & Hr & Hm).
  rewrite Z.add_0_l. eapply wp_mono; [by apply (settle_paid e ps s); [|apply Hr|]|].
  intros r s4 Hset Hr4. exists ps. split; [by apply Hset | lia].
Qed.
End Conservation.

(** * Concrete inputs *)

Section Examples.
#[local] Existing Instances TestPerThing TestPerThing_laws TestCurrency TestCurrency_laws inv_config.

(** Era 0 has a reward of 900 for the validator 11, which bonds 1000 and is
    nominated by 101 with 500; the fund 900 holds 10000. *)
Definition pay_cur : test_cur :=
  TestCur {[ 11 := 5000; 101 := 3000; 10 := 5; 100 := 5; 900 := 10000 ]} 19000 ∅.
Definition pay_start : Store :=
  inv_start <| currency := pay_cur |> <| current_era := Some 1 |>
    <| eras_validator_reward := {[ 0 := 900 ]} |>
    <| eras_not_claimed_reward_map := {[ 0 := 900 ]} |>
    <| eras_reward_points_map := {[ 0 := {| rp_total := 20; individual := {[ 11 := 20 ]} |} ]} |>
    <| eras_stakers_clipped_map := {[ (0, 11) := {| exp_total := 1500; own := 1000;
         others := [ {| who := 101; ie_value := 500 |} ] |} ]} |>.

Lemma pay_start_wf : staking_wf pay_start.
Proof. unfold pay_start. generalize inv_start, inv_start_wf. by intros s [Hs Hu]. Qed.

Definition pay_end : Store := run (payout_stakers (Signed 5) 11 0) pay_start.

(** The validator gets two thirds, the nominator one third; both restake. *)
Example payout_pays :
  fst (payout_stakers (Signed 5) 11 0 pay_start) = Ok tt
  ∧ t_balance 11 (currency pay_end) = 5599 ∧ t_balance 101 (currency pay_end) = 3299
  ∧ t_balance 900 (currency pay_end) = 9102
  ∧ (active <$> ledger pay_end !! 10) = Some 1599
  ∧ eras_not_claimed_reward pay_end 0 = 2.
Proof. repeat split; vm_compute; reflexivity. Qed.

Lemma payout_once_witness :
  payout_stakers (Signed 6) 11 0 pay_end = (Err AlreadyClaimed, pay_end).
Proof.
  assert (claim_era pay_start 11 0 =
    Ok (10, {| stash := 11; total := 1000; active := 1000; unlocking := []; claimed_rewards := [0] |}, 900))
    as Hclaim by (vm_compute; reflexivity).
  pose proof (payout_once pay_start 11 0 _ _ _ 5 6 pay_start_wf Hclaim) as Honce.
  unfold pay_end. exact Honce.
Defined.

Lemma payout_conserves_witness :
  ∃ payments, paid_total payments = 898
    ∧ free_balance 900 (currency pay_end) = 10000 + credited payments 900 - paid_total payments.
Proof.
  assert (payout_stakers (Signed 5) 11 0 pay_start = (Ok tt, pay_end)) as Hok
    by (unfold pay_end; apply run_result; vm_compute; reflexivity).
  assert (eras_validator_reward pay_start !! 0 = Some 900) as Hrew by (vm_compute; reflexivity).
  assert (u128 900) as Hu by (vm_compute; split; congruence).
  assert (is_perbill (commission (eras_validator_prefs pay_start 0 11))) as Hcomm
    by (vm_compute; split; congruence).
  assert (Z.of_nat (S (length (others (eras_stakers_clipped pay_start 0 11)))) * 900 < 2 ^ 128)
    as Hroom by (vm_compute; reflexivity).
  pose proof (payout_conserves pay_start 5 11 0 pay_end 900 pay_start_wf Hrew Hu Hcomm Hroom Hok)
    as (payments & (_ & Hfree & Hun) & _).
  assert (eras_not_claimed_reward_map pay_start !! 0 = Some 900) as Hold by (vm_compute; reflexivity).
  assert (eras_not_claimed_reward_map pay_end !! 0 = Some 2) as Hnew by (vm_compute; reflexivity).
  assert (free_balance 900 (currency pay_start) = 10000) as Hbal by (vm_compute; reflexivity).
  exists payments. specialize (Hfree 900). specialize (Hun 900 Hold ltac:(discriminate)).
  rewrite Hnew in Hun. injection Hun as Hun.
  rewrite decide_True in Hfree by (vm_compute; reflexivity). rewrite Hbal in Hfree.
  split; [unfold sat_sub in Hun; lia | exact Hfree].
Defined.
End Examples.
