(* ===== verification/ErasCorrect.v ===== *)
(** What sessions and eras promise: the active era never overtakes the planned
    one, the eras that can still be slashed form a window, planning an era
    records its exposures and forgets the era that falls out of the history,
    rewards never exceed the fund, and what the election and the session pallet
    read is sound. *)

From Stdlib Require Import ZArith Lia Sorted.
From stdpp Require Import base option list gmap fin_maps fin_sets strings.
From S2P Require Import Prelude Interfaces StakingLedger SlashingSpans StakingState Slashing.
From S2P Require Import Bonding Governance Payout Eras StakingInvariant.
#[local] Open Scope Z_scope.

(** * Rewards never exceed the fund *)

Section Rewards.
Context `{PerThing} `{StakingConfig}.
Implicit Types s : Store.

Definition unclaimed_ok s : Prop := map_Forall (λ _ v, 0 ≤ v) (eras_not_claimed_reward_map s).

(** The sum of the unclaimed rewards of the eras [l]. *)
Definition unclaimed_sum (m : gmap EraIndex Z) (l : list EraIndex) : Z :=
  zsum (λ e, default 0 (m !! e)) l.

Lemma unclaimed_sum_nonneg m l : map_Forall (λ _ v, 0 ≤ v) m → 0 ≤ unclaimed_sum m l.
Proof.
  intros Hm. apply zsum_nonneg, Forall_forall. intros x _.
  destruct (m !! x) eqn:Hx; cbn; [by apply (Hm x)|lia].
Qed.

Lemma unclaimed_fold (m : gmap EraIndex Z) l : ∀ acc,
  map_Forall (λ _ v, 0 ≤ v) m → 0 ≤ acc ≤ umax 128 →
  foldl (λ result e, match m !! e with None => result | Some r => sat_add 128 result r end) acc l
  = Z.min (acc + unclaimed_sum m l) (umax 128).
Proof.
  induction l as [|e l IH]; intros acc Hm Hacc; unfold unclaimed_sum; cbn [foldl zsum].
  { lia. }
  pose proof (unclaimed_sum_nonneg m l Hm).
  fold (unclaimed_sum m l). destruct (m !! e) as [r|] eqn:He; cbn [default from_option id].
  - pose proof (Hm e r He) as Hr. cbn in Hr. rewrite IH by (done || ulia). unfold id. ulia.
  - rewrite IH by done. lia.
Qed.

Lemma get_total_not_claimed_eq s ce :
  unclaimed_ok s →
  get_total_not_claimed_reward s ce =
    let first := sat_sub ce (wsub 32 (history_depth s) 1) in
    Z.min (unclaimed_sum (eras_not_claimed_reward_map s) (seqZ first (ce - first))) (umax 128).
Proof.
  intros Hm. unfold get_total_not_claimed_reward. cbn zeta. rewrite unclaimed_fold; [done|done|].
  unfold umax. lia.
Qed.

Lemma unclaimed_sum_insert m l e v :
  map_Forall (λ _ v, 0 ≤ v) m → e ∉ l → unclaimed_sum (<[e := v]> m) l = unclaimed_sum m l.
Proof.
  intros Hm He. apply zsum_ext. intros x Hx. rewrite lookup_insert_ne; [done|]. by intros ->.
Qed.

Lemma unclaimed_sum_snoc m l e :
  unclaimed_sum m (l ++ [e]) = unclaimed_sum m l + default 0 (m !! e).
Proof. unfold unclaimed_sum. rewrite zsum_app. cbn [zsum]. lia. Qed.

Lemma unclaimed_sum_cons m l e :
  unclaimed_sum m (e :: l) = default 0 (m !! e) + unclaimed_sum m l.
Proof. done. Qed.

(** The window of eras of length [w] before [e], moved on by one. *)
Lemma unclaimed_window_shift m w e v :
  map_Forall (λ _ v, 0 ≤ v) m → 0 < w → 0 ≤ e →
  unclaimed_sum (<[e := v]> m) (seqZ (sat_sub (e + 1) w) (e + 1 - sat_sub (e + 1) w))
  ≤ unclaimed_sum m (seqZ (sat_sub e w) (e - sat_sub e w)) + v.
Proof.
  intros Hm Hw He.
  replace (e + 1 - sat_sub (e + 1) w) with ((e - sat_sub (e + 1) w) + 1) by lia.
  rewrite seqZ_app by (unfold sat_sub; lia).
  replace (sat_sub (e + 1) w + (e - sat_sub (e + 1) w)) with e by lia.
  change (seqZ e 1) with [e]. rewrite unclaimed_sum_snoc, lookup_insert_eq.
  cbn [default from_option]. unfold id. rewrite unclaimed_sum_insert; [|done|rewrite elem_of_seqZ; lia].
  destruct (decide (sat_sub (e + 1) w = sat_sub e w)) as [->|Hne]; [lia|].
  assert (sat_sub (e + 1) w = sat_sub e w + 1) as Heq by (unfold sat_sub in *; lia).
  rewrite Heq, (seqZ_cons (sat_sub e w)) by (unfold sat_sub in *; lia).
  replace (Z.pred (e - sat_sub e w)) with (e - (sat_sub e w + 1)) by lia.
  rewrite unclaimed_sum_cons.
  pose proof (unclaimed_sum_nonneg m [sat_sub e w] Hm) as Hpos.
  rewrite unclaimed_sum_cons in Hpos. change (unclaimed_sum m []) with 0 in Hpos.
  unfold Z.succ. lia.
Qed.

(** Ending an era promises validators what the reward fund holds beyond
    the rewards still unclaimed, and no more: afterwards the rewards that can
    still be claimed (of the eras in the history, the ended one included) are
    covered by the fund whenever they were before, and the ended era gets the
    whole of the rest. *)
Theorem end_era_covered s ae
    (Hstart : ae_start ae ≠ None) (Hm : unclaimed_ok s)
    (Hae : 0 ≤ ae_index ae < umax 32) (Hhd : 0 ≤ history_depth s < 2 ^ 32)
    (Hcov : get_total_not_claimed_reward s (ae_index ae)
            ≤ fund_balance (s <| currency ::= trigger_wallet |>))
    (Hmax : fund_balance (s <| currency ::= trigger_wallet |>) ≤ umax 128) :
  ∃ s', end_era ae s = (Ok tt, s')
    ∧ fund_balance s' = fund_balance (s <| currency ::= trigger_wallet |>)
    ∧ eras_validator_reward s' !! ae_index ae =
        Some (fund_balance s' - get_total_not_claimed_reward s (ae_index ae))
    ∧ get_total_not_claimed_reward s' (ae_index ae + 1) ≤ fund_balance s'
    ∧ offending_validators s' = [].
Proof.
  unfold end_era. destruct (ae_start ae) as [st|]; [|done]. clear Hstart.
  set (s0 := s <| currency ::= trigger_wallet |>) in *.
  rewrite (bind_step _ _ tt s s0) by done. rewrite (bind_step _ _ s0 s0 s0) by done. cbn zeta.
  assert (get_total_not_claimed_reward s0 (ae_index ae) =
          get_total_not_claimed_reward s (ae_index ae)) as -> by done.
  set (nc := get_total_not_claimed_reward s (ae_index ae)) in *. set (fund := fund_balance s0) in *.
  rewrite sat_sub_exact by lia. unfold deposit_event.
  set (s1 := s0 <| events ::= λ l, l ++ [EraPaid (ae_index ae) (fund - nc)] |>).
  rewrite (bind_step _ _ tt s0 s1) by done.
  eexists. split; [reflexivity|]. cbn zeta. split_and!; try done.
  - cbn. by rewrite lookup_insert_eq.
  - change (fund_balance _) with fund at 1.
    set (m := eras_not_claimed_reward_map s) in *.
    assert (0 ≤ fund - nc) by lia.
    rewrite get_total_not_claimed_eq.
    2:{ apply map_Forall_insert_2; [done | exact Hm]. }
    cbn zeta. cbn [set eras_not_claimed_reward_map history_depth].
    pose proof (get_total_not_claimed_eq s (ae_index ae) Hm) as Hnc. cbn zeta in Hnc.
    fold nc m in Hnc. set (w := wsub 32 (history_depth s) 1) in *.
    assert (0 ≤ w) by (pose proof (wsub_range 32 (history_depth s) 1); ulia).
    set (e := ae_index ae) in *.
    change (eras_not_claimed_reward_map s1) with m. change (history_depth s1) with (history_depth s).
    fold w. pose proof (unclaimed_sum_nonneg m (seqZ (sat_sub e w) (e - sat_sub e w)) Hm).
    destruct (decide (fund = umax 128)) as [Hf|Hf]; [lia|].
    destruct (decide (w = 0)) as [Hw|Hw].
    + rewrite Hw. unfold sat_sub at 2. rewrite Z.sub_0_r, Z.max_l by lia.
      rewrite seqZ_nil by lia. unfold unclaimed_sum at 1. cbn [zsum]. unfold umax in *. lia.
    + pose proof (unclaimed_window_shift m w e (fund - nc) Hm). lia.
Qed.
End Rewards.

(** * Exposures *)

Section Exposures.
Context `{PerThing} `{StakingConfig}.
Implicit Types s : Store.

Lemma insert_desc_perm x l : insert_desc x l ≡ₚ x :: l.
Proof.
  induction l as [|y l IH]; cbn; [done|]. case_decide; [done|].
  rewrite IH. apply Permutation_swap.
Qed.

Lemma sort_desc_perm l : sort_desc l ≡ₚ l.
Proof. induction l as [|x l IH]; [done|]. cbn. by rewrite insert_desc_perm, IH. Qed.

Definition desc (a b : IndividualExposure) : Prop := ie_value b ≤ ie_value a.

Lemma insert_desc_sorted x l : StronglySorted desc l → StronglySorted desc (insert_desc x l).
Proof.
  induction 1 as [|y l Hs IH Hy]; cbn; [by repeat constructor|].
  case_decide as Hle.
  - constructor; [by constructor|]. constructor; [done|].
    eapply Forall_impl; [exact Hy|]. unfold desc. lia.
  - constructor; [done|]. rewrite insert_desc_perm. constructor; [unfold desc; lia | done].
Qed.

Lemma sort_desc_sorted l : StronglySorted desc (sort_desc l).
Proof. induction l as [|x l IH]; [constructor|]. by apply insert_desc_sorted. Qed.

Lemma StronglySorted_app_le (l1 l2 : list IndividualExposure) a b :
  StronglySorted desc (l1 ++ l2) → a ∈ l1 → b ∈ l2 → desc a b.
Proof.
  induction l1 as [|x l1 IH]; cbn; [set_solver|].
  intros [Hs Hx]%StronglySorted_inv [->|Ha]%elem_of_cons Hb; [|by apply IH].
  rewrite Forall_forall in Hx. apply Hx. set_solver.
Qed.

(** Clipping an exposure keeps the total and the own stake, pays at most
    [MaxNominatorRewardedPerValidator] nominators, and if it drops any, the
    dropped ones back the validator with no more than any of the kept. *)
Theorem clip_exposure_correct ex :
  exp_total (clip_exposure ex) = exp_total ex ∧ own (clip_exposure ex) = own ex
  ∧ (length (others (clip_exposure ex)) ≤ MaxNominatorRewardedPerValidator)%nat
  ∧ ∃ dropped, others (clip_exposure ex) ++ dropped ≡ₚ others ex
      ∧ (∀ a b, a ∈ others (clip_exposure ex) → b ∈ dropped → ie_value b ≤ ie_value a)
      ∧ ((length (others ex) ≤ MaxNominatorRewardedPerValidator)%nat →
           clip_exposure ex = ex ∧ dropped = []).
Proof.
  unfold clip_exposure. destruct (decide _) as [Hlt|Hge]; cbn.
  - split_and!; [done | done | rewrite length_take; lia |].
    set (n := MaxNominatorRewardedPerValidator).
    exists (drop n (sort_desc (others ex))). rewrite take_drop. split_and!.
    + apply sort_desc_perm.
    + intros a b Ha Hb. eapply (StronglySorted_app_le (take n _) (drop n _)); [|done|done].
      rewrite take_drop. apply sort_desc_sorted.
    + lia.
  - split_and!; [done | done | lia |]. exists []. rewrite app_nil_r.
    split_and!; [done | set_solver | done].
Qed.

(** ** Planning an era *)

(** What is stored for the winners of an election. *)
Lemma store_stakers_loop exps e : ∀ s s' u,
  NoDup (map fst exps) →
  for_each exps (λ '(stash, exposure),
    modify (λ s, s <| eras_stakers_map ::= insert (e, stash) exposure |>
                   <| eras_stakers_clipped_map ::= insert (e, stash) (clip_exposure exposure) |>))
    s = (Ok u : result Error unit, s') →
  (∀ v ex, (v, ex) ∈ exps → eras_stakers_map s' !! (e, v) = Some ex
     ∧ eras_stakers_clipped_map s' !! (e, v) = Some (clip_exposure ex))
  ∧ (∀ k, k.1 ≠ e ∨ k.2 ∉ map fst exps → eras_stakers_map s' !! k = eras_stakers_map s !! k
     ∧ eras_stakers_clipped_map s' !! k = eras_stakers_clipped_map s !! k).
Proof.
  induction exps as [|[v ex] exps IH]; intros s s' u Hnd Heq; cbn in Heq.
  { injection Heq as _ <-. split; [set_solver | done]. }
  apply NoDup_cons in Hnd as [Hv Hnd].
  destruct (IH _ _ _ Hnd Heq) as [Hin Hout]. split.
  - intros v' ex' [[= -> ->]|Hin']%elem_of_cons; [|by apply Hin].
    destruct (Hout (e, v)) as [-> ->]; [by right|]. cbn. by rewrite !lookup_insert_eq.
  - intros [e' v'] Hk. cbn in Hk. destruct (Hout (e', v')) as [-> ->]; [cbn; set_solver|].
    cbn. rewrite !lookup_insert_ne; [done|..]; intros [= <- <-]; cbn in *; set_solver.
Qed.

Lemma lookup_remove_prefix {V} (m : gmap (EraIndex * AccountId) V) e e' v :
  remove_prefix e m !! (e', v) = if decide (e' = e) then None else m !! (e', v).
Proof.
  unfold remove_prefix. rewrite map_lookup_filter. destruct (m !! (e', v)) as [x|]; cbn.
  - case_guard as Hg; destruct (decide (e' = e)); cbn in *; tauto.
  - by destruct (decide _).
Qed.

(** What [store_stakers_info] leaves in the maps of exposures. *)
Lemma store_stakers_info_spec exps e s :
  NoDup (map fst exps) →
  ∃ s', store_stakers_info exps e s = (Ok (map fst exps), s')
    ∧ current_era s' = current_era s
    ∧ eras_start_session_index s' = eras_start_session_index s
    ∧ (∀ v ex, (v, ex) ∈ exps → eras_stakers s' e v = ex
         ∧ eras_stakers_clipped s' e v = clip_exposure ex)
    ∧ (∀ e' v, e' ≠ e → eras_stakers_map s' !! (e', v) = eras_stakers_map s !! (e', v))
    ∧ eras_total_stake s' e = foldl (λ t '(_, ex), sat_add 128 t (exp_total ex)) 0 exps.
Proof.
  intros Hnd. unfold store_stakers_info. cbn zeta.
  match goal with |- ∃ s', (?loop ≫= _) s = _ ∧ _ =>
    assert (always_ok loop) as Hok by total_auto;
    assert (preserves (λ t, current_era t = current_era s
      ∧ eras_start_session_index t = eras_start_session_index s) loop) as Hfr
      by (apply keeps_for_each; intros [v ex] _; by apply keeps_modify) end.
  destruct (Hok s) as ([] & s1 & Hloop). rewrite (bind_step _ _ tt s s1) by done.
  destruct (preserves_result _ _ _ _ _ Hfr Hloop ltac:(done)) as [Hce Hss].
  destruct (store_stakers_loop _ _ _ _ _ Hnd Hloop) as [Hin Hout].
  set (t := foldl _ 0 exps).
  rewrite (bind_step _ _ tt s1 (s1 <| eras_total_stake_map ::= insert e t |>)) by done.
  match goal with |- ∃ s', (?loop ≫= _) ?s2 = _ ∧ _ =>
    assert (always_ok loop) as Hok2 by total_auto;
    assert (preserves (λ t, current_era t = current_era s
      ∧ eras_start_session_index t = eras_start_session_index s
      ∧ eras_stakers_map t = eras_stakers_map s1
      ∧ eras_stakers_clipped_map t = eras_stakers_clipped_map s1
      ∧ eras_total_stake_map t = eras_total_stake_map s2) loop) as Hfr2
      by (apply keeps_for_each; intros v _; by apply keeps_modify);
    destruct (Hok2 s2) as ([] & s3 & Hloop2) end.
  rewrite (bind_step _ _ tt _ s3) by done. exists s3.
  destruct (preserves_result _ _ _ _ _ Hfr2 Hloop2 ltac:(done)) as (Hce3 & Hss3 & Hm & Hc & Ht).
  split_and!; [done | done | done | | |].
  - intros v ex Hv. unfold eras_stakers, eras_stakers_clipped. rewrite Hm, Hc.
    destruct (Hin v ex Hv) as [-> ->]. done.
  - intros e' v Hne. rewrite Hm. apply Hout. by left.
  - unfold eras_total_stake. rewrite Ht. cbn. by rewrite lookup_insert_eq.
Qed.

(** Planning an era numbers it one after the last planned one, records the
    session it starts at, stores for every winner the exposure and its clipped
    form, and forgets the exposures of exactly the era that is now older than
    the history; the winners are the validators it returns. *)
Theorem trigger_new_era_correct s start exps e
    (He : e = match current_era s with Some ce => wadd 32 ce 1 | None => 0 end)
    (Hhd : 0 ≤ history_depth s < umax 32) (Hnd : NoDup (map fst exps)) :
  ∃ s', trigger_new_era start exps s = (Ok (map fst exps), s')
    ∧ current_era s' = Some e
    ∧ eras_start_session_index s' !! e = Some start
    ∧ (∀ v ex, (v, ex) ∈ exps → eras_stakers s' e v = ex
         ∧ eras_stakers_clipped s' e v = clip_exposure ex)
    ∧ (∀ e' v, 0 ≤ e' → e' ≠ e → eras_stakers_map s' !! (e', v) =
         if decide (e' = e - (history_depth s + 1)) then None
         else eras_stakers_map s !! (e', v))
    ∧ eras_total_stake s' e = foldl (λ t '(_, ex), sat_add 128 t (exp_total ex)) 0 exps.
Proof.
  unfold trigger_new_era. rewrite (bind_step _ _ s s s) by done. cbn zeta. rewrite <- He.
  set (s1 := s <| current_era := Some e |> <| eras_start_session_index ::= insert e start |>).
  rewrite (bind_step _ _ tt s s1) by done.
  rewrite (wadd_small _ (history_depth s)) by ulia.
  set (old := e - (history_depth s + 1)).
  set (s2 := if decide (history_depth s + 1 ≤ e) then run (clear_era_information old) s1 else s1).
  rewrite (bind_step _ _ tt s1 s2).
  2:{ unfold s2, checked_sub. by destruct (decide _). }
  destruct (store_stakers_info_spec exps e s2 Hnd) as (s' & Heq & Hce & Hss & Hin & Hout & Ht).
  exists s'. split_and!; try done.
  - rewrite Hce. unfold s2. by destruct (decide _).
  - rewrite Hss. unfold s2. destruct (decide _) as [Hle|Hle]; cbn.
    + rewrite lookup_delete_ne by (unfold old; lia). by rewrite lookup_insert_eq.
    + by rewrite lookup_insert_eq.
  - intros e' v Hpos Hne. rewrite Hout by done. unfold s2.
    destruct (decide (history_depth s + 1 ≤ e)) as [Hle|Hle]; cbn.
    + by rewrite lookup_remove_prefix.
    + rewrite decide_False by (unfold old; lia). done.
Qed.
End Exposures.

(** * Starting an era *)

Section StartEra.
Context `{PerThing} `{StakingConfig}.
Implicit Types s : Store.

Lemma keeps_apply_unapplied_frame (I : Store → Prop) `{!BalanceFrame I} e :
  (∀ g s, I s → I (s <| unapplied_slashes_map ::= g |>)) →
  (∀ g s, I s → I (s <| earliest_unapplied_slash ::= g |>)) →
  preserves I (apply_unapplied_slashes e).
Proof.
  intros Hun Hear. unfold apply_unapplied_slashes, preserves. keeps_step.
  destruct (earliest_unapplied_slash _); [|by apply keeps_ret].
  keeps_step; [|keeps_step; by apply Hear]. apply keeps_for_each. intros e' _.
  unfold apply_era_slashes. keeps_step. keeps_step; [keeps_step; by apply Hun|].
  apply keeps_for_each. intros u _. by apply keeps_apply_slash_frame.
Qed.

(** Of a sorted list of eras, the ones before [k] are a prefix. *)
Lemma split_sorted_eras (b : list (EraIndex * SessionIndex)) k :
  sorted_by fst b →
  let n := match list_find (λ es, ¬ es.1 < k) b with Some (n, _) => n | None => length b end in
  drop n b = filter (λ es, k ≤ es.1) b ∧ take n b = filter (λ es, es.1 < k) b.
Proof.
  induction 1 as [|[e st] b Hs IH He]; [done|].
  cbn [list_find]. rewrite !filter_cons. cbn [fst].
  destruct (decide (¬ e < k)) as [Hge|Hlt].
  - rewrite (decide_True (P := k ≤ e)), (decide_False (P := e < k)) by lia.
    assert (Forall (λ es : EraIndex * SessionIndex, k ≤ es.1) b) as Hall
      by (eapply Forall_impl; [exact He|]; cbn; lia).
    cbn [drop take]. split.
    + by rewrite filter_all.
    + symmetry. apply filter_none. eapply Forall_impl; [exact Hall|]. cbn. lia.
  - rewrite (decide_False (P := k ≤ e)), (decide_True (P := e < k)) by lia.
    destruct (list_find _ b) as [[n x]|]; cbn in *; destruct IH as [IH1 IH2];
      by rewrite IH1, IH2.
Qed.

Lemma prune_bonded_spec dur ae b :
  sorted_by fst b → u32 ae → u32 dur → Forall (λ es, 0 ≤ es.1) b →
  prune_bonded dur ae b =
    (filter (λ es, ae - dur ≤ es.1) b, filter (λ es, es.1 < ae - dur) b).
Proof.
  intros Hs Hae Hdur Hpos. unfold prune_bonded. destruct (decide _) as [Hgt|Hle].
  - rewrite wsub_small by ulia. by destruct (split_sorted_eras b (ae - dur) Hs) as [-> ->].
  - rewrite filter_all, filter_none; [done|..]; eapply Forall_impl; try exact Hpos; cbn; lia.
Qed.

Lemma clear_era_loop (l : list (EraIndex * SessionIndex)) : ∀ s s' u,
  for_each l (λ '(pruned_era, _), clear_era_metadata pruned_era) s
    = (Ok u : result Error unit, s') →
  ∀ e v, validator_slash_in_era s' !! (e, v) =
    if decide (e ∈ map fst l) then None else validator_slash_in_era s !! (e, v).
Proof.
  induction l as [|[a st] l IH]; intros s s' u Heq e v; cbn in Heq.
  { injection Heq as _ <-. rewrite decide_False; [done|]. cbn. set_solver. }
  rewrite (IH _ _ _ Heq). cbn. rewrite lookup_remove_prefix.
  destruct (decide (e ∈ map fst l)), (decide (e = a)), (decide (e ∈ a :: map fst l)); set_solver.
Qed.

Lemma bonded_eras_snoc (b : list (EraIndex * SessionIndex)) ae start :
  sorted_by fst b → Forall (λ es, 0 ≤ es.1 < ae) b → 0 ≤ ae →
  sorted_by fst (b ++ [(ae, start)]) ∧ Forall (λ es, 0 ≤ es.1) (b ++ [(ae, start)]).
Proof.
  intros Hs Hb Hae. split.
  - apply sorted_by_snoc; [done|]. eapply Forall_impl; [exact Hb|]. cbn. lia.
  - apply Forall_app. split; [eapply Forall_impl; [exact Hb|]; cbn; lia|].
    by repeat constructor.
Qed.

(** The eras that leave the window when [ae] is appended. *)
Lemma elem_of_pruned (b : list (EraIndex * SessionIndex)) ae start dur e :
  0 ≤ dur →
  e ∈ map fst (filter (λ es, es.1 < ae - dur) (b ++ [(ae, start)])) ↔
  e ∈ map fst b ∧ e < ae - dur.
Proof.
  intros Hdur. change (map fst ?l) with (fst <$> l). rewrite !list_elem_of_fmap.
  setoid_rewrite list_elem_of_filter. setoid_rewrite elem_of_app. split.
  - intros ([e' st'] & -> & Hlt & [Hin|Hin]); cbn in *; [split; [by exists (e', st')|done]|].
    apply list_elem_of_singleton in Hin as [= -> ->]. lia.
  - intros [([e' st'] & -> & Hin) Hlt]. exists (e', st'). cbn in *. auto.
Qed.

(** Starting an era activates the next one (its start time is set when the
    block ends) and moves the window of slashable eras: the recorded eras are
    those of the last [BondingDuration] eras, the new one included, still in
    order, and the slashes of the eras that left the window are forgotten,
    those of other eras kept. *)
Theorem start_era_correct s start ae
    (Hae : ae = match active_era s with Some i => wadd 32 (ae_index i) 1 | None => 0 end)
    (Hdur : u32 BondingDuration)
    (Hsorted : sorted_by fst (bonded_eras s))
    (Hbefore : Forall (λ es, 0 ≤ es.1 < ae) (bonded_eras s)) :
  ∃ s', start_era start s = (Ok tt, s')
    ∧ active_era s' = Some {| ae_index := ae; ae_start := None |}
    ∧ bonded_eras s' = filter (λ es, ae - BondingDuration ≤ es.1) (bonded_eras s ++ [(ae, start)])
    ∧ sorted_by fst (bonded_eras s')
    ∧ ∀ e v, validator_slash_in_era s' !! (e, v) =
        if decide (e ∈ map fst (bonded_eras s) ∧ e < ae - BondingDuration) then None
        else validator_slash_in_era s !! (e, v).
Proof.
  assert (u32 ae) as Hu32.
  { rewrite Hae. destruct (active_era s); [apply wadd_range; lia | done]. }
  unfold start_era. rewrite (bind_step _ _ s s s) by done. cbn zeta. rewrite <- Hae.
  set (s1 := s <| active_era := Some {| ae_index := ae; ae_start := None |} |>).
  rewrite (bind_step _ _ tt s s1) by done.
  set (b := bonded_eras s ++ [(ae, start)]).
  destruct (bonded_eras_snoc _ ae start Hsorted Hbefore (proj1 Hu32)) as [Hb Hpos].
  fold b in Hb, Hpos.
  rewrite (prune_bonded_spec _ _ _ Hb Hu32 Hdur Hpos).
  set (kept := filter (λ es, ae - BondingDuration ≤ es.1) b).
  set (pruned := filter (λ es, es.1 < ae - BondingDuration) b).
  assert (always_ok (for_each pruned (λ '(pruned_era, _), clear_era_metadata pruned_era) : Call unit))
    as Hloop by (unfold clear_era_metadata; total_auto).
  destruct (Hloop s1) as ([] & s2 & Heq). rewrite (bind_step _ _ tt s1 s2) by done.
  pose proof (clear_era_loop _ _ _ _ Heq) as Hslash.
  match goal with |- ∃ s', (?m ≫= _) s2 = _ ∧ _ => destruct (m s2) as [[[]|er] s3] eqn:Hm;
    assert (always_ok m) as Hok by total_auto;
    assert (preserves (λ t, active_era t = Some {| ae_index := ae; ae_start := None |}
      ∧ validator_slash_in_era t = validator_slash_in_era s2) m) as Hfr by (by keeps_auto) end.
  2:{ destruct (Hok s2) as (? & ? & Hbad). congruence. }
  assert (active_era s2 = Some {| ae_index := ae; ae_start := None |}) as Hact2.
  { eapply (preserves_result (λ t, active_era t = _)); [|exact Heq|done].
    apply keeps_for_each. intros [a st] _. by apply keeps_modify. }
  destruct (preserves_result _ _ _ _ _ Hfr Hm (conj Hact2 eq_refl)) as [Hact3 Hval3].
  rewrite (bind_step _ _ tt s2 s3) by done.
  set (s4 := s3 <| bonded_eras := kept |>). rewrite (bind_step _ _ tt s3 s4) by done.
  destruct (total_apply_unapplied_slashes ae s4) as ([] & s5 & Hap). exists s5.
  set (I := λ t, active_era t = Some {| ae_index := ae; ae_start := None |}
    ∧ bonded_eras t = kept ∧ validator_slash_in_era t = validator_slash_in_era s2).
  assert (I s5) as (Hact5 & Hb5 & Hval5).
  { eapply (preserves_result I); [|exact Hap|by split_and!].
    apply keeps_apply_unapplied_frame; [by split | done | done]. }
  rewrite Hb5. split_and!; [done | done | done | by apply sorted_by_filter |].
  intros e v. rewrite Hval5, Hslash. change (validator_slash_in_era s1) with (validator_slash_in_era s).
  pose proof (elem_of_pruned (bonded_eras s) ae start BondingDuration e (proj1 Hdur)) as Hiff.
  destruct (decide (e ∈ map fst pruned)) as [Hin|Hin];
    [rewrite decide_True by tauto | rewrite decide_False by tauto]; done.
Qed.
End StartEra.

(** * When an era is planned *)

Section NewSession.
Context `{PerThing} `{StakingConfig}.
Context (elect : bool → Store → option (list (AccountId * list (AccountId * Z)))).
Implicit Types s : Store.

(** A new era is due: there is none yet, or it is forced, or the current one
    has lasted long enough and is not held back. *)
Definition era_due (s : Store) (session_index : SessionIndex) : bool :=
  match current_era s with
  | None => true
  | Some ce =>
      match force_era s with
      | ForceNew | ForceAlways => true
      | ForceNone => false
      | NotForcing =>
          bool_decide (SessionsPerEra
            ≤ sat_sub session_index (default 0 (eras_start_session_index s !! ce)))
      end
  end.

Lemma total_try_trigger st g : always_ok (try_trigger_new_era elect st g).
Proof.
  unfold try_trigger_new_era, trigger_new_era, store_stakers_info, clear_era_information,
    deposit_event. total_auto.
Qed.

Lemma frames_force_try_trigger f st g :
  preserves (λ s, force_era s = f) (try_trigger_new_era elect st g).
Proof.
  unfold try_trigger_new_era, trigger_new_era, store_stakers_info, clear_era_information,
    deposit_event. unfold preserves. keeps_step. destruct (elect _ _); [|by keeps_auto].
  destruct (decide _); [by keeps_auto|]. keeps_step; [by keeps_auto|].
  keeps_step; [|by keeps_auto]. keeps_step. cbn zeta. keeps_step; [by keeps_auto|].
  keeps_step; [by keeps_auto|]. by keeps_auto.
Qed.

(** A new session plans an era only when one is due; otherwise nothing
    changes.  When one is due, the answer is what the election gives, and a
    forced single era is used up exactly when validators were elected: after
    an unsuccessful election it is tried again. *)
Theorem new_session_due s i g :
  if era_due s i then
    ∃ vals s1, try_trigger_new_era elect i g s = (Ok vals, s1)
      ∧ new_session elect i g s =
          (Ok vals,
           if decide (current_era s ≠ None ∧ vals ≠ None ∧ force_era s = ForceNew)
           then s1 <| force_era := NotForcing |> else s1)
  else new_session elect i g s = (Ok None, s).
Proof.
  destruct (total_try_trigger i g s) as (vals & s1 & Heq).
  pose proof (preserves_result _ _ _ _ _ (frames_force_try_trigger (force_era s) i g) Heq eq_refl) as Hf.
  unfold era_due, new_session. rewrite (bind_step _ _ s s s) by done.
  destruct (current_era s) as [ce|] eqn:Hce.
  2:{ exists vals, s1. rewrite Heq. split; [done|]. by rewrite decide_False by tauto. }
  cbn zeta. set (len := sat_sub i _).
  assert (match force_era s with
          | ForceNew | ForceAlways => true | ForceNone => false
          | NotForcing => bool_decide (SessionsPerEra ≤ len) end
    = match force_era s with
      | ForceNew | ForceAlways => true
      | NotForcing => bool_decide (len >= SessionsPerEra) | ForceNone => false end) as ->.
  { destruct (force_era s); [|done..]. apply bool_decide_ext. lia. }
  destruct (match force_era s with NotForcing => _ | _ => _ end); [|done].
  exists vals, s1. split; [done|].
  rewrite (bind_step _ _ vals s s1) by done. rewrite (bind_step _ _ s1 s1 s1) by done.
  unfold when. rewrite Hf. destruct (decide (vals ≠ None ∧ force_era s = ForceNew)) as [Hc|Hc].
  - rewrite (decide_True (P := Some ce ≠ None ∧ _)) by (split; [discriminate|tauto]). done.
  - rewrite (decide_False (P := Some ce ≠ None ∧ _)) by tauto. done.
Qed.
End NewSession.

(** * The active era never overtakes the planned one *)

Section EraOrder.
Context `{PerThing} `{StakingConfig}.
Context (elect : bool → Store → option (list (AccountId * list (AccountId * Z)))).
Implicit Types s : Store.

(** Only planned eras have a start session, and the active era is planned. *)
Definition eras_ordered (s : Store) : Prop :=
  (∀ e st, eras_start_session_index s !! e = Some st → ∃ ce, current_era s = Some ce ∧ e ≤ ce)
  ∧ (∀ ai, active_era s = Some ai → ∃ ce, current_era s = Some ce ∧ ae_index ai ≤ ce).

(** The session hooks and everything else that touches the eras; an era can
    be planned while its number fits. *)
Inductive era_step : Store → Store → Prop :=
  | era_new_session g i s :
      default 0 (current_era s) < umax 32 → 0 ≤ default 0 (current_era s) →
      era_step s (run (sm_new_session elect g i) s)
  | era_start_session i s : era_step s (run (start_session i) s)
  | era_end_session i s : era_step s (run (end_session i) s)
  | era_set_history_depth o d s : era_step s (run (set_history_depth o d) s)
  | era_finalize now s : era_step s (run (on_finalize now) s)
  | era_other s s' :
      current_era s' = current_era s → active_era s' = active_era s →
      eras_start_session_index s' = eras_start_session_index s → era_step s s'.

Definition era_data s := (current_era s, active_era s, eras_start_session_index s).

Lemma eras_ordered_data s s' : era_data s' = era_data s → eras_ordered s → eras_ordered s'.
Proof. unfold eras_ordered. by intros [= -> -> ->]. Qed.

Lemma keeps_ordered_of_data {A} (m : Call A) :
  (∀ d, preserves (λ s, era_data s = d) m) → preserves eras_ordered m.
Proof.
  intros Hm. apply preserves_wp. intros s Hs.
  eapply wp_mono; [by apply (wp_preserves _ _ s (Hm (era_data s)))|].
  cbn. intros _ s' Heq. by eapply eras_ordered_data.
Qed.

Lemma keeps_ordered_clear e : preserves eras_ordered (clear_era_information e).
Proof.
  apply preserves_wp. intros s [Hst Hact]. apply wp_modify. split; cbn; [|done].
  intros e' st [_ He']%lookup_delete_Some. by eapply Hst.
Qed.

Lemma store_stakers_data exps e d : preserves (λ s, era_data s = d) (store_stakers_info exps e).
Proof. unfold store_stakers_info. by keeps_auto. Qed.

Lemma deposit_event_data ev d : preserves (λ s, era_data s = d) (deposit_event ev).
Proof. unfold deposit_event. by keeps_auto. Qed.

Lemma ordered_advance s e st ce :
  eras_ordered s → ce = default 0 (current_era s) → (current_era s = None → e = 0) →
  (current_era s ≠ None → e = ce + 1) →
  eras_ordered (s <| current_era := Some e |> <| eras_start_session_index ::= insert e st |>).
Proof.
  intros [Hst Hact] -> Hnone Hsome. split; cbn.
  - intros e' st' [[<- <-]|[Hne He']]%lookup_insert_Some; [by exists e|].
    exists e. split; [done|]. destruct (Hst _ _ He') as (ce & Hce & Hle).
    rewrite Hce in *. cbn in *. rewrite Hsome by done. lia.
  - intros ai Hai. exists e. split; [done|]. destruct (Hact _ Hai) as (ce & Hce & Hle).
    rewrite Hce in *. cbn in *. rewrite Hsome by done. lia.
Qed.

Lemma new_session_ordered g i s :
  eras_ordered s → 0 ≤ default 0 (current_era s) < umax 32 →
  eras_ordered (run (sm_new_session elect g i) s).
Proof.
  intros Hs Hce.
  assert (∀ s, eras_ordered s → 0 ≤ default 0 (current_era s) < umax 32 →
    wp (try_trigger_new_era elect i g) s (λ _, eras_ordered)) as Htry.
  { clear s Hs Hce. intros s Hs Hce. unfold try_trigger_new_era. apply wp_get.
    destruct (elect g s) as [sup|].
    2:{ apply wp_bind. unfold deposit_event. apply wp_modify, wp_ret. exact Hs. }
    destruct (decide _).
    - apply wp_bind. unfold deposit_event. apply wp_when; intros Hnone.
      + apply wp_modify, wp_bind, wp_modify, wp_ret.
        eapply (ordered_advance s 0 i); [exact Hs | done | done | by rewrite Hnone].
      + apply wp_bind, wp_modify, wp_ret. exact Hs.
    - apply wp_bind. unfold deposit_event. apply wp_modify, wp_bind.
      set (s1 := s <| events ::= _ |>). unfold trigger_new_era. apply wp_get. cbn zeta.
      apply wp_bind, wp_modify.
      set (e := match current_era s1 with Some e => wadd 32 e 1 | None => 0 end).
      set (s2 := s1 <| current_era := Some e |> <| eras_start_session_index ::= insert e i |>).
      assert (eras_ordered s2) as Hs2.
      { apply (ordered_advance s1 e i (default 0 (current_era s))); [exact Hs | done | |].
        - unfold e. by intros ->.
        - unfold e, s1. cbn. destruct (current_era s) as [ce|]; [|done]. intros _. cbn in *.
          apply wadd_small. ulia. }
      eapply wp_mono; [apply (wp_preserves eras_ordered); [|exact Hs2]|].
      + apply preserves_keeps_bind.
        * destruct (checked_sub _ _); [apply keeps_ordered_clear | by apply keeps_ret].
        * intros _. apply keeps_ordered_of_data. intros d. apply store_stakers_data.
      + intros [vals|er] s3 Hs3; [by apply wp_ret | done]. }
  unfold sm_new_session.
  change (wp (modify (λ s, s <| current_planned_session := i |>) ≫= λ _, new_session elect i g) s
    (λ _, eras_ordered)).
  apply wp_bind, wp_modify. unfold new_session. apply wp_get.
  set (s1 := s <| current_planned_session := i |>).
  destruct (current_era s1) as [ce|]; [|by apply Htry].
  cbn zeta. destruct (match force_era s1 with NotForcing => _ | _ => _ end); [|exact Hs].
  apply wp_bind. eapply wp_mono; [by apply Htry|]. cbn beta. intros [vals|er] s2 Hs2; [|done].
  apply wp_get, wp_bind, wp_when; intros _; [apply wp_modify|]; apply wp_ret; exact Hs2.
Qed.

Lemma start_session_ordered i s : eras_ordered s → eras_ordered (run (start_session i) s).
Proof.
  intros Hs. change (wp (start_session i) s (λ _, eras_ordered)).
  assert (∀ s, eras_ordered s → wp ((s' ← gets id;
    for_each (offending_validators s') (λ '(idx, disabled), when (disabled = true)
      (modify (λ s, s <| sessions ::= session_disable_validator idx |>)))) : Call unit) s
    (λ _, eras_ordered)) as Htail.
  { clear s Hs. intros s Hs. apply wp_preserves, Hs. apply keeps_ordered_of_data.
    intros d. by keeps_auto. }
  unfold start_session. apply wp_get. cbn zeta.
  set (next := match active_era s with Some e => wadd 32 (ae_index e) 1 | None => 0 end).
  apply wp_bind. destruct (eras_start_session_index s !! next) as [st|] eqn:Hst;
    [|by apply wp_ret, Htail].
  destruct Hs as [Hstart Hact]. destruct (Hstart _ _ Hst) as (ce & Hce & Hle).
  apply wp_when; intros _; [|by apply Htail].
  unfold start_era. apply wp_get. cbn zeta. fold next. apply wp_bind, wp_modify.
  set (s1 := s <| active_era := Some {| ae_index := next; ae_start := None |} |>).
  assert (eras_ordered s1) as Hs1.
  { split; [exact Hstart|]. intros ai [= <-]. by exists ce. }
  destruct (prune_bonded _ _ _) as [kept pruned].
  eapply wp_mono; [apply (wp_preserves eras_ordered); [|exact Hs1]|].
  - apply keeps_ordered_of_data. intros d.
    apply preserves_keeps_bind; [unfold clear_era_metadata; by keeps_auto|]. intros _.
    apply preserves_keeps_bind; [by keeps_auto|]. intros _.
    apply preserves_keeps_bind; [by keeps_auto|]. intros _.
    apply keeps_apply_unapplied_frame; [by split | done | done].
  - intros [[]|er] s2 Hs2; [by apply Htail | done].
Qed.

(** From a storage without eras, whatever happens in sessions, the active
    era is never ahead of the last planned era, and every era that has a start
    session has been planned. *)
Theorem active_era_planned s0 s
    (Hcur : current_era s0 = None) (Hact : active_era s0 = None)
    (Hstart : eras_start_session_index s0 = ∅) (Hreach : rtc era_step s0 s) :
  eras_ordered s.
Proof.
  assert (eras_ordered s0) as Hs0.
  { split; [by rewrite Hstart; intros e st Hst | by rewrite Hact]. }
  clear Hcur Hact Hstart. induction Hreach as [|s1 s2 s3 Hstep _ IH]; [done|]. apply IH.
  destruct Hstep.
  - by apply new_session_ordered.
  - by apply start_session_ordered.
  - apply (preserves_run eras_ordered); [|done]. apply keeps_ordered_of_data.
    intros d. unfold end_session, end_era, deposit_event. by keeps_auto.
  - apply (preserves_run eras_ordered); [|done]. unfold set_history_depth, ensure_root.
    apply preserves_keeps_bind; [by keeps_auto|]. intros _. unfold preserves. keeps_step.
    destruct (current_era _); [|by apply keeps_ret].
    keeps_step; [apply keeps_for_each; intros e _; apply keeps_ordered_clear | by keeps_step].
  - apply (preserves_run eras_ordered); [|done]. unfold on_finalize.
    apply (preserves_wp eras_ordered). intros t Ht. pose proof Ht as [Hst Hact].
    apply wp_modify. destruct (active_era t) as [ai|] eqn:Hai; [|exact Ht].
    destruct (ae_start ai); [exact Ht|]. split; [exact Hst|]. cbn. intros ai' [= <-]. cbn. by apply Hact.
  - eapply eras_ordered_data; [|done]. unfold era_data. congruence.
Qed.
End EraOrder.

(** * What the election reads *)

Section Voters.
Context `{PerThing} `{StakingConfig}.
Implicit Types s : Store.

(** The vote of a member of the voter list: a nominator votes for the targets
    that were not slashed after it nominated, if any, a validator for itself. *)
Definition vote_of (s : Store) (v : AccountId) : option (AccountId * Z * list AccountId) :=
  match nominators s !! v with
  | Some nom =>
      match filter (λ t, target_retained s nom t = true) (targets nom) with
      | [] => None
      | ts => Some (v, weight_of s v, ts)
      end
  | None =>
      match validators_map s !! v with
      | Some _ => Some (v, weight_of s v, [v])
      | None => None
      end
  end.

Definition snoc_option {A} (l : list A) (o : option A) : list A :=
  match o with Some x => l ++ [x] | None => l end.

Lemma collect_voters_cons s max seen acc v l :
  Z.of_nat (length acc) < max → seen < wmul 32 NPOS_MAX_ITERATIONS_COEFFICIENT max →
  collect_voters s max seen acc (v :: l) =
  collect_voters s max (sat_add 32 seen 1) (snoc_option acc (vote_of s v)) l.
Proof.
  intros Hacc Hseen. cbn [collect_voters]. rewrite decide_True by done. cbn zeta.
  unfold vote_of, snoc_option. destruct (nominators s !! v) as [nom|].
  - by destruct (filter _ (targets nom)).
  - by destruct (validators_map s !! v).
Qed.

Lemma collect_voters_prefix s max l : ∀ seen acc,
  ∃ j, collect_voters s max seen acc l = acc ++ omap (vote_of s) (take j l)
    ∧ (length (collect_voters s max seen acc l) ≤ Z.to_nat max `max` length acc)%nat.
Proof.
  induction l as [|v l IH]; intros seen acc.
  { exists 0%nat. cbn [collect_voters]. destruct (decide _); cbn; rewrite app_nil_r; split; (done || lia). }
  destruct (decide (Z.of_nat (length acc) < max ∧
                    seen < wmul 32 NPOS_MAX_ITERATIONS_COEFFICIENT max)) as [[Ha Hs]|Hn].
  - rewrite collect_voters_cons by done.
    destruct (IH (sat_add 32 seen 1) (snoc_option acc (vote_of s v))) as (j & Heq & Hlen).
    exists (S j). rewrite Heq in *. unfold snoc_option in *. cbn.
    destruct (vote_of s v) as [x|]; [|done]. split; [by rewrite <- app_assoc|].
    rewrite !length_app in *. cbn [length] in *. lia.
  - exists 0%nat. cbn [collect_voters]. rewrite decide_False by done. cbn.
    rewrite app_nil_r. split; [done|lia].
Qed.

Lemma collect_voters_all s max l : ∀ seen acc,
  Z.of_nat (length acc + length l) ≤ max → 0 ≤ seen → seen + Z.of_nat (length l) ≤ 2 * max →
  2 * max ≤ umax 32 →
  collect_voters s max seen acc l = acc ++ omap (vote_of s) l.
Proof.
  induction l as [|v l IH]; intros seen acc Hlen Hseen Hsum Hmax.
  { cbn [collect_voters]. destruct (decide _); cbn; by rewrite app_nil_r. }
  assert (wmul 32 NPOS_MAX_ITERATIONS_COEFFICIENT max = 2 * max) as Hmul.
  { unfold wmul, NPOS_MAX_ITERATIONS_COEFFICIENT. apply Z.mod_small. unfold umax in *. lia. }
  rewrite length_cons in *. rewrite collect_voters_cons by (rewrite ?Hmul; lia).
  assert (length (snoc_option acc (vote_of s v)) ≤ S (length acc))%nat as Hsn.
  { unfold snoc_option. destruct (vote_of s v); rewrite ?length_app; cbn; lia. }
  rewrite sat_add_exact by (unfold umax in *; lia).
  rewrite IH by lia. unfold snoc_option. cbn.
  destruct (vote_of s v); [by rewrite <- app_assoc | done].
Qed.

(** The snapshot of voters takes a prefix of the voter list in order, with
    one correct vote for each member that has one, and never more votes than
    asked for; without a limit, no vote is missing. *)
Theorem get_npos_voters_correct s m
    (Hcount : vl_count (voter_list s) = length (vl_iter (voter_list s)))
    (Hfit : 2 * Z.of_nat (length (vl_iter (voter_list s))) ≤ umax 32) :
  (∃ j, get_npos_voters s m = omap (vote_of s) (take j (vl_iter (voter_list s))))
  ∧ (∀ max, m = Some max → 0 ≤ max → Z.of_nat (length (get_npos_voters s m)) ≤ max)
  ∧ (m = None → get_npos_voters s m = omap (vote_of s) (vl_iter (voter_list s))).
Proof.
  unfold get_npos_voters. rewrite Hcount. set (l := vl_iter (voter_list s)) in *.
  set (k := Z.min (default (Z.of_nat (length l)) m) (Z.of_nat (length l))).
  destruct (collect_voters_prefix s k l 0 []) as (j & Heq & Hlen). cbn zeta.
  split_and!.
  - exists j. by rewrite Heq.
  - intros max -> Hmax. cbn in *. fold k in Hlen. lia.
  - intros ->. unfold k. cbn. rewrite Z.min_id.
    rewrite collect_voters_all; [done | cbn; lia | lia | lia | done].
Qed.
End Voters.

(** * What other pallets ask *)

Section Lookups.
Context `{StakingConfig}.
Implicit Types s : Store.

(** The session pallet identifies a validator by the stash of its controller: in
    a well-formed storage this is the inverse of the bond. *)
Theorem stash_of_correct s c st (Hs : staking_wf s) :
  stash_of s c = Some st ↔ bonded s !! st = Some c.
Proof.
  destruct Hs as [Hwf _]. unfold stash_of. rewrite fmap_Some. split.
  - intros (l & Hl & ->). by apply (wf_ledger _ _ _ _ Hwf).
  - intros Hb. destruct (wf_bonded _ _ _ _ Hwf _ _ Hb) as (l & Hl & <-). eauto.
Qed.

Lemma keys_after_split a l : a ∈ l → ∃ pre, l = pre ++ a :: keys_after a l.
Proof.
  induction l as [|b l IH]; [by intros ?%elem_of_nil|]. cbn. intros Hin.
  case_decide as Hb; [subst; by exists []|].
  apply elem_of_cons in Hin as [->|Hin]; [done|].
  destruct (IH Hin) as [pre Hpre]. exists (b :: pre). cbn. by rewrite <- Hpre.
Qed.

Lemma elem_of_map_keys {V} (m : gmap AccountId V) a :
  m !! a ≠ None → a ∈ map fst (map_to_list m).
Proof.
  intros [v Hv]%not_eq_None_Some. apply list_elem_of_fmap. exists (a, v).
  split; [done|]. by apply elem_of_map_to_list.
Qed.

(** Resuming the list of voters at a member yields the members after it, and
    fails for everybody else. *)
Theorem unvm_iter_from_correct s a :
  match unvm_iter_from s a with
  | Ok l => ∃ pre, unvm_iter s = pre ++ a :: l
  | Err _ => unvm_contains s a = false
  end.
Proof.
  unfold unvm_iter_from, unvm_iter, unvm_contains. case_decide as Hv; [|case_decide as Hn].
  - destruct (keys_after_split _ _ (elem_of_map_keys _ _ Hv)) as [pre Hpre].
    exists pre. rewrite Hpre at 1. by rewrite <- app_assoc.
  - destruct (keys_after_split _ _ (elem_of_map_keys _ _ Hn)) as [pre Hpre].
    exists (map fst (map_to_list (validators_map s)) ++ pre). rewrite Hpre at 1.
    by rewrite <- app_assoc.
  - apply bool_decide_eq_false. tauto.
Qed.
End Lookups.

(** * Concrete inputs *)

Section Examples.
#[local] Existing Instances TestPerThing TestPerThing_laws TestCurrency TestCurrency_laws inv_config.

(** The fund 900 holds 5000 beyond the existential deposit, 900 of it promised
    in era 3. *)
Definition era_ex : Store :=
  inv_start
    <| currency := TestCur {[ 900 := EXISTENTIAL_DEPOSIT + 5000 ]} 0 ∅ |>
    <| eras_not_claimed_reward_map := {[ 3 := 900 ]} |>
    <| active_era := Some {| ae_index := 4; ae_start := Some 1000 |} |>
    <| current_era := Some 5 |>
    <| bonded_eras := [(1, 10); (2, 20); (3, 30); (4, 40)] |>
    <| validator_slash_in_era := {[ (1, 11) := (5, 5); (3, 11) := (7, 7) ]} |>
    <| eras_stakers_map := {[ (5, 11) := Exposure_default ]} |>.

Lemma end_era_covered_witness :
  ∃ s', end_era {| ae_index := 4; ae_start := Some 1000 |} era_ex = (Ok tt, s')
    ∧ get_total_not_claimed_reward s' 5 ≤ fund_balance s'
    ∧ eras_validator_reward s' !! 4 = Some (fund_balance s' - 900) ∧ fund_balance s' = 5000.
Proof.
  destruct (end_era_covered era_ex {| ae_index := 4; ae_start := Some 1000 |})
    as (s' & Heq & Hfund & Hrew & Htot & _).
  - discriminate.
  - apply map_Forall_singleton. discriminate.
  - vm_compute. split; congruence.
  - vm_compute. split; congruence.
  - vm_compute. discriminate.
  - vm_compute. discriminate.
  - exists s'. split; [exact Heq|]. split; [exact Htot|].
    assert (get_total_not_claimed_reward era_ex 4 = 900) as Hnc by (vm_compute; reflexivity).
    split; [|rewrite Hfund; vm_compute; reflexivity].
    cbn [ae_index] in Hrew. rewrite Hnc in Hrew. exact Hrew.
Defined.

Lemma trigger_new_era_correct_witness :
  ∃ s', trigger_new_era 50 [(11, Exposure_default)] era_ex = (Ok [11], s')
    ∧ current_era s' = Some 6 ∧ eras_start_session_index s' !! 6 = Some 50.
Proof.
  destruct (trigger_new_era_correct era_ex 50 [(11, Exposure_default)] 6)
    as (s' & Heq & Hce & Hst & _).
  - vm_compute. reflexivity.
  - vm_compute. split; congruence.
  - apply NoDup_singleton.
  - exists s'. split; [exact Heq|]. split; [exact Hce | exact Hst].
Defined.

Lemma start_era_correct_witness :
  ∃ s', start_era 50 era_ex = (Ok tt, s')
    ∧ bonded_eras s' = [(2, 20); (3, 30); (4, 40); (5, 50)]
    ∧ validator_slash_in_era s' !! (1, 11) = None
    ∧ validator_slash_in_era s' !! (3, 11) = Some (7, 7).
Proof.
  destruct (start_era_correct era_ex 50 5) as (s' & Heq & _ & Hb & _ & Hval).
  - vm_compute. reflexivity.
  - vm_compute. split; congruence.
  - repeat constructor.
  - apply Forall_cons; split; [vm_compute; split; congruence|].
    apply Forall_cons; split; [vm_compute; split; congruence|].
    apply Forall_cons; split; [vm_compute; split; congruence|].
    apply Forall_cons; split; [vm_compute; split; congruence|]. apply Forall_nil. exact Logic.I.
  - exists s'. split; [exact Heq|]. split; [rewrite Hb; vm_compute; reflexivity|].
    rewrite !Hval. split; vm_compute; reflexivity.
Defined.

Definition ordered_ex : Store := run (sm_new_session inv_elect true 0) inv_start.

Lemma active_era_planned_witness :
  eras_ordered (run (start_session 0) ordered_ex)
  ∧ ae_index <$> active_era (run (start_session 0) ordered_ex) = Some 0
  ∧ current_era (run (start_session 0) ordered_ex) = Some 0.
Proof.
  split; [|vm_compute; split; reflexivity].
  apply (active_era_planned inv_elect inv_start).
  - vm_compute. reflexivity.
  - vm_compute. reflexivity.
  - vm_compute. reflexivity.
  - apply (rtc_l _ _ ordered_ex).
    + refine (era_new_session inv_elect true 0 inv_start _ _); [|vm_compute; congruence].
      vm_compute. reflexivity.
    + apply (rtc_l _ _ (run (start_session 0) ordered_ex)); [|apply rtc_refl].
      exact (era_start_session inv_elect 0 ordered_ex).
Defined.

Lemma get_npos_voters_correct_witness :
  get_npos_voters inv_start None = [(11, 1000, [11]); (101, 500, [11])]
  ∧ Z.of_nat (length (get_npos_voters inv_start (Some 1))) ≤ 1.
Proof.
  destruct (get_npos_voters_correct inv_start None) as (_ & _ & Hall);
    [vm_compute; reflexivity | vm_compute; discriminate |].
  destruct (get_npos_voters_correct inv_start (Some 1)) as (_ & Hmax & _);
    [vm_compute; reflexivity | vm_compute; discriminate |].
  split; [rewrite (Hall eq_refl); vm_compute; reflexivity|].
  apply Hmax; [reflexivity | discriminate].
Defined.
End Examples.
