(* ===== verification/Ethereum.v ===== *)
(** What the pallets share of Ethereum ([modules/claims/src/ethereum_address.rs]
    and the signature recovery of [modules/claims/src/lib.rs]): addresses and
    transaction hashes as byte strings and as JSON strings, the ASCII hex of a byte
    string, the message a wallet signs and the address recovered from a signature. *)

From Stdlib Require Import ZArith Lia.
From stdpp Require Import base option list gmap.
From S2P Require Import Prelude Interfaces.
#[local] Open Scope Z_scope.

(** Bytes are numbers in [0, 256). *)
Definition is_byte (b : Z) : Prop := 0 ≤ b < 256.

Abbreviation bytes := (list Z) (only parsing).

Record EthereumAddress := { address_bytes : bytes }.
Record EthereumTxHash := { hash_bytes : bytes }.
Record EcdsaSignature := { signature_bytes : bytes }.

#[export] Instance EthereumAddress_eq_dec : EqDecision EthereumAddress.
Proof. solve_decision. Defined.
#[export] Instance EthereumTxHash_eq_dec : EqDecision EthereumTxHash.
Proof. solve_decision. Defined.
#[export] Instance EthereumTxHash_countable : Countable EthereumTxHash.
Proof. by apply (inj_countable' hash_bytes (λ l, {| hash_bytes := l |})); intros []. Defined.

(** [EthereumAddress::default], and [EthereumAddress(hex!["00..00"])] *)
Definition EthereumAddress_default : EthereumAddress := {| address_bytes := replicate 20 0 |}.

(** The ASCII codes of [b'0'] and [b'a']. *)
Definition ascii_0 : Z := 48.
Definition ascii_a : Z := 97.

Definition push_nibble (n : Z) : Z := if decide (n < 10) then ascii_0 + n else ascii_a - 10 + n.

Fixpoint to_ascii_hex (data : bytes) : bytes :=
  match data with
  | [] => []
  | b :: data' => push_nibble (b / 16) :: push_nibble (b mod 16) :: to_ascii_hex data'
  end.

(** ["\x19Ethereum Signed Message:\n"] *)
Definition message_header : bytes :=
  [25; 69; 116; 104; 101; 114; 101; 117; 109; 32; 83; 105; 103; 110; 101; 100; 32;
   77; 101; 115; 115; 97; 103; 101; 58; 10].

(** The decimal digits of a length, last digit first: the loop divides [l] by
    ten while it is positive, [fuel] is at most the number of iterations. *)
Fixpoint digits_rev (fuel : nat) (l : Z) : bytes :=
  match fuel with
  | O => []
  | S fuel' => if decide (0 < l) then ascii_0 + l mod 10 :: digits_rev fuel' (l / 10) else []
  end.

(** A [usize] has at most twenty decimal digits. *)
Definition usize_digits : nat := 20.

(** ** Addresses and hashes as JSON strings

    The library [rustc_hex] is a parameter; a string is its bytes. *)
Class RustcHex := {
  to_hex : bytes → bytes;
  from_hex : bytes → option bytes;
}.

Class RustcHexLaws `{RustcHex} := {
  to_hex_length b : Forall is_byte b → length (to_hex b) = (2 * length b)%nat;
  to_hex_digits b :
    Forall is_byte b → Forall (λ c, 48 ≤ c ≤ 57 ∨ 97 ≤ c ≤ 102) (to_hex b);
  from_to_hex b : Forall is_byte b → from_hex (to_hex b) = Some b;
}.

(** The slice is copied into an address of 20 bytes, which panics for any other
    length. *)
Inductive DeserializeError := BadAddressLength | InvalidHex | CopyPanics.

Definition hex_prefix : bytes := [48; 120].

Definition starts_with_0x (s : bytes) : bool := bool_decide (take 2 s = hex_prefix).

Definition serialize_address `{RustcHex} (a : EthereumAddress) : bytes :=
  hex_prefix ++ to_hex (address_bytes a).

Definition deserialize_address `{RustcHex} (base_string : bytes) :
    result DeserializeError EthereumAddress :=
  let offset := if starts_with_0x base_string then 2%nat else 0%nat in
  let s := drop offset base_string in
  if decide (length s ≠ 40%nat) then Err BadAddressLength
  else
    match from_hex s with
    | None => Err InvalidHex
    | Some raw =>
        if decide (length raw = length (address_bytes EthereumAddress_default))
        then Ok {| address_bytes := raw |} else Err CopyPanics
    end.

Definition serialize_tx_hash `{RustcHex} (h : EthereumTxHash) : bytes :=
  hex_prefix ++ to_hex (hash_bytes h).

(** The primitives of [sp_io] and [secp256k1], the SCALE encoding of an account
    and the message prefix of the runtime. *)
Class EthereumCrypto := {
  keccak_256 : bytes → bytes;
  secp256k1_ecdsa_recover : bytes → bytes → option bytes;
  encode_account : AccountId → bytes;
  Prefix : bytes;
}.

(** An account is encoded in 32 bytes, and a hash has 32 bytes. *)
Class EthereumCryptoLaws `{EthereumCrypto} := {
  encode_account_inj a b :
    in_u 256 a → in_u 256 b → encode_account a = encode_account b → a = b;
  encode_account_length a : length (encode_account a) = 32%nat;
  encode_account_bytes a : Forall is_byte (encode_account a);
  keccak_256_length m : length (keccak_256 m) = 32%nat;
}.

Section Recover.
Context `{EthereumCrypto}.

Definition ethereum_signable_message (what extra : bytes) : bytes :=
  let l := Z.of_nat (length Prefix + length what + length extra) in
  let rev_digits := digits_rev usize_digits l in
  message_header ++ reverse rev_digits ++ Prefix ++ what ++ extra.

Definition eth_recover (s : EcdsaSignature) (what extra : bytes) : option EthereumAddress :=
  let msg := keccak_256 (ethereum_signable_message what extra) in
  pk ← secp256k1_ecdsa_recover (signature_bytes s) msg;
  Some {| address_bytes := drop 12 (keccak_256 pk) |}.
End Recover.

(** * Lemmas *)

Definition is_hex (c : Z) : Prop := 48 ≤ c ≤ 57 ∨ 97 ≤ c ≤ 102.

Lemma push_nibble_inj m n :
  0 ≤ m < 16 → 0 ≤ n < 16 → push_nibble m = push_nibble n → m = n.
Proof. unfold push_nibble, ascii_0, ascii_a. repeat case_decide; lia. Qed.

Lemma push_nibble_hex n : 0 ≤ n < 16 → is_hex (push_nibble n).
Proof. unfold push_nibble, is_hex, ascii_0, ascii_a. case_decide; lia. Qed.

Lemma byte_nibbles b : is_byte b → 0 ≤ b / 16 < 16 ∧ 0 ≤ b mod 16 < 16.
Proof.
  intros Hb. unfold is_byte in Hb. split; [|by apply Z.mod_pos_bound].
  split; [apply Z.div_pos; lia | apply Z.div_lt_upper_bound; lia].
Qed.

Lemma length_to_ascii_hex l : length (to_ascii_hex l) = (2 * length l)%nat.
Proof. induction l; cbn; lia. Qed.

Lemma to_ascii_hex_chars l : Forall is_byte l → Forall is_hex (to_ascii_hex l).
Proof.
  induction 1 as [|b l Hb _ IH]; cbn; [done|].
  destruct (byte_nibbles b Hb). by repeat (constructor; [by apply push_nibble_hex|]).
Qed.

(** Two byte strings with the same hex are the same. *)
Lemma to_ascii_hex_inj l k :
  Forall is_byte l → Forall is_byte k → to_ascii_hex l = to_ascii_hex k → l = k.
Proof.
  intros Hl. revert k. induction Hl as [|b l Hb Hl IH]; intros k Hk.
  { by destruct Hk. }
  destruct Hk as [|c k Hc Hk]; [done|]. cbn. intros Heq.
  injection Heq as Hhi Hlo Heq.
  destruct (byte_nibbles b Hb), (byte_nibbles c Hc).
  apply push_nibble_inj in Hhi, Hlo; try done. f_equal; [|by apply IH].
  rewrite (Z.div_mod b 16), (Z.div_mod c 16) by done. by rewrite Hhi, Hlo.
Qed.

(** ** Addresses as JSON strings *)
Section Json.
Context `{RustcHexLaws}.

Lemma deserialize_hex b :
  Forall is_byte b → length b = 20%nat →
  deserialize_address (to_hex b) = Ok {| address_bytes := b |} ∧
  deserialize_address (hex_prefix ++ to_hex b) = Ok {| address_bytes := b |}.
Proof.
  intros Hb Hlen. pose proof (to_hex_length b Hb) as Hhex. rewrite Hlen in Hhex.
  assert (starts_with_0x (to_hex b) = false) as Hno.
  { apply bool_decide_eq_false. intros Heq. pose proof (to_hex_digits b Hb) as Hd.
    destruct (to_hex b) as [|c [|d l]]; try done. injection Heq as -> ->.
    inversion_clear Hd as [|? ? _ Hd']. inversion_clear Hd' as [|? ? Hx _]. lia. }
  unfold deserialize_address. split.
  - rewrite Hno, drop_0. rewrite decide_False by (intros Hne; lia).
    rewrite from_to_hex by done.
    by rewrite decide_True.
  - assert (starts_with_0x (hex_prefix ++ to_hex b) = true) as -> by done.
    change (drop 2 (hex_prefix ++ to_hex b)) with (to_hex b). rewrite decide_False by (intros Hne; lia).
    rewrite from_to_hex by done.
    by rewrite decide_True.
Qed.

(** An address is read back from the string it is written as, with and without
    its prefix, so that different addresses are written differently; a string that
    has neither 40 characters nor 42 is refused. *)
Theorem address_json_roundtrip a (Ha : Forall is_byte (address_bytes a))
    (Hlen : length (address_bytes a) = 20%nat) :
  length (serialize_address a) = 42%nat ∧
  deserialize_address (serialize_address a) = Ok a ∧
  deserialize_address (drop 2 (serialize_address a)) = Ok a ∧
  ∀ s, length s ≠ 40%nat → length s ≠ 42%nat → deserialize_address s = Err BadAddressLength.
Proof.
  destruct a as [b]. cbn [address_bytes] in *. unfold serialize_address. cbn [address_bytes].
  destruct (deserialize_hex b Ha Hlen) as [H1' H2']. split_and!.
  - rewrite length_app, to_hex_length, Hlen by done. done.
  - exact H2'.
  - exact H1'.
  - intros s Hs1 Hs2. unfold deserialize_address. rewrite decide_True; [done|].
    rewrite length_drop. destruct (starts_with_0x s); lia.
Qed.
End Json.

(** The hex of this file, read back digit by digit. *)
Definition nibble_of (c : Z) : option Z :=
  if decide (48 ≤ c ≤ 57) then Some (c - 48)
  else if decide (97 ≤ c ≤ 102) then Some (c - 87) else None.

Fixpoint from_ascii_hex (s : bytes) : option bytes :=
  match s with
  | [] => Some []
  | c :: d :: s' => h ← nibble_of c; l ← nibble_of d; r ← from_ascii_hex s'; Some (h * 16 + l :: r)
  | _ => None
  end.

Definition TestRustcHex : RustcHex := {| to_hex := to_ascii_hex; from_hex := from_ascii_hex |}.

Lemma nibble_of_push n : 0 ≤ n < 16 → nibble_of (push_nibble n) = Some n.
Proof.
  intros Hn. unfold nibble_of, push_nibble, ascii_0, ascii_a.
  repeat case_decide; try lia; f_equal; lia.
Qed.

Lemma TestRustcHex_laws : @RustcHexLaws TestRustcHex.
Proof.
  split; cbn.
  - intros b _. rewrite length_to_ascii_hex. lia.
  - apply to_ascii_hex_chars.
  - induction 1 as [|b l Hb _ IH]; [done|]. destruct (byte_nibbles b Hb). cbn [to_ascii_hex from_ascii_hex].
    rewrite !nibble_of_push by done. cbn. rewrite IH. cbn. do 2 f_equal.
    pose proof (Z.div_mod b 16). lia.
Qed.

Lemma address_json_roundtrip_witness :
  let a := EthereumAddress_default in
  @deserialize_address TestRustcHex (@serialize_address TestRustcHex a) = Ok a ∧
  @deserialize_address TestRustcHex (replicate 41 48) = Err BadAddressLength.
Proof.
  destruct (@address_json_roundtrip TestRustcHex TestRustcHex_laws EthereumAddress_default)
    as (_ & Hr & _ & Hs); [by repeat constructor | done |].
  split; [exact Hr | by apply Hs].
Defined.

Section RecoverLemmas.
Context `{EthereumCryptoLaws}.

(** The digits of the length, for the value of a digit list. *)
Fixpoint digits_value (ds : list Z) : Z :=
  match ds with [] => 0 | d :: ds' => d - ascii_0 + 10 * digits_value ds' end.

Lemma digits_rev_value fuel l : 0 ≤ l < 10 ^ Z.of_nat fuel → digits_value (digits_rev fuel l) = l.
Proof.
  revert l. induction fuel as [|fuel IH]; intros l Hl; [cbn in *; lia|].
  rewrite Nat2Z.inj_succ, Z.pow_succ_r in Hl by lia. cbn [digits_rev].
  case_decide; [|cbn; lia]. cbn [digits_value].
  rewrite IH; [pose proof (Z.div_mod l 10); lia|]. split; [apply Z.div_pos; lia | apply Z.div_lt_upper_bound; lia].
Qed.

Lemma eth_recover_length s what extra a :
  eth_recover s what extra = Some a → length (address_bytes a) = 20%nat.
Proof.
  unfold eth_recover. intros (pk & _ & [= <-])%bind_Some. cbn.
  by rewrite length_drop, keccak_256_length.
Qed.

(** C38: the message a wallet signs for a claim starts with Ethereum's header
    and the decimal length of what follows, and it determines the account and
    the transaction: a signature for one claim is not one for another. *)
Theorem claim_message_binding a b tx tx'
  (Hab : in_u 256 a ∧ in_u 256 b)
  (Htx : length (hash_bytes tx) = 32%nat ∧ Forall is_byte (hash_bytes tx))
  (Htx' : length (hash_bytes tx') = 32%nat ∧ Forall is_byte (hash_bytes tx'))
  (Hpre : Z.of_nat (length Prefix) < 2 ^ 32) :
  let message x h := ethereum_signable_message (to_ascii_hex (encode_account x)) (to_ascii_hex (hash_bytes h)) in
  (∃ ds, message a tx = message_header ++ reverse ds ++ Prefix
           ++ to_ascii_hex (encode_account a) ++ to_ascii_hex (hash_bytes tx) ∧
         digits_value ds = Z.of_nat (length Prefix) + 128) ∧
  (message a tx = message b tx' → a = b ∧ tx = tx').
Proof.
  destruct Htx as [Hl Hb], Htx' as [Hl' Hb']. intros message. split.
  - eexists. split; [done|]. rewrite !length_to_ascii_hex, Hl, encode_account_length.
    rewrite digits_rev_value; [lia|]. change (10 ^ Z.of_nat usize_digits) with 100000000000000000000. lia.
  - unfold message, ethereum_signable_message.
    rewrite !length_to_ascii_hex, Hl, Hl', !encode_account_length.
    intros Heq%(inj (app _))%(inj (app _))%(inj (app _)).
    apply app_inj_1 in Heq as [Ha Ht]; [|by rewrite !length_to_ascii_hex, !encode_account_length].
    apply to_ascii_hex_inj in Ha; [|apply encode_account_bytes..].
    apply to_ascii_hex_inj in Ht; [|done..].
    destruct Hab. split; [by apply encode_account_inj|]. destruct tx, tx'. cbn in *. by subst.
Qed.
End RecoverLemmas.

(** * A concrete instance: a toy hash and a recovery that reads the address out
    of the signature *)

(** The bytes of a number, least significant first. *)
Fixpoint le_bytes (n : nat) (x : Z) : bytes :=
  match n with O => [] | S n' => x mod 256 :: le_bytes n' (x / 256) end.

Lemma length_le_bytes n x : length (le_bytes n x) = n.
Proof. revert x. induction n; intros; cbn; auto. Qed.

Lemma le_bytes_are_bytes n x : Forall is_byte (le_bytes n x).
Proof.
  revert x. induction n as [|n IH]; intros x; [constructor|].
  constructor; [by apply Z.mod_pos_bound | apply IH].
Qed.

Lemma le_bytes_inj n x y :
  0 ≤ x < 256 ^ Z.of_nat n → 0 ≤ y < 256 ^ Z.of_nat n → le_bytes n x = le_bytes n y → x = y.
Proof.
  revert x y. induction n as [|n IH]; intros x y Hx Hy; [cbn in *; lia|].
  rewrite Nat2Z.inj_succ, Z.pow_succ_r in Hx, Hy by lia. cbn. intros [= Hm Hd].
  apply IH in Hd; [| split; [apply Z.div_pos; lia | apply Z.div_lt_upper_bound; lia]..].
  rewrite (Z.div_mod x 256), (Z.div_mod y 256) by done. by rewrite Hm, Hd.
Qed.

(** The hash keeps the last 32 bytes, the signature carries the public key. *)
Definition TestEthereum : EthereumCrypto := {|
  keccak_256 m := take 32 (reverse m ++ replicate 32 0);
  secp256k1_ecdsa_recover s _ := if decide (s = []) then None else Some (take 64 s);
  encode_account := le_bytes 32;
  Prefix := [112; 97; 121];
|}.

Lemma TestEthereum_laws : @EthereumCryptoLaws TestEthereum.
Proof.
  split; cbn [encode_account keccak_256 TestEthereum]; intros *.
  - intros Ha Hb. by apply le_bytes_inj.
  - apply length_le_bytes.
  - apply le_bytes_are_bytes.
  - rewrite length_take, length_app, length_replicate. lia.
Qed.

Definition ex_hash : EthereumTxHash := {| hash_bytes := replicate 32 171 |}.

Lemma ex_hash_ok : length (hash_bytes ex_hash) = 32%nat ∧ Forall is_byte (hash_bytes ex_hash).
Proof. split; [done|]. apply Forall_replicate. unfold is_byte. lia. Qed.

Lemma claim_message_binding_witness :
  let message x h := @ethereum_signable_message TestEthereum (to_ascii_hex (le_bytes 32 x)) (to_ascii_hex (hash_bytes h)) in
  firstn 5 (skipn 26 (message 7 ex_hash)) = [49; 51; 49; 112; 97] ∧
  message 7 ex_hash ≠ message 8 ex_hash.
Proof.
  split; [by vm_compute|]. intros Heq.
  assert (in_u 256 7 ∧ in_u 256 8) as Hab by (unfold in_u; lia).
  pose proof (@claim_message_binding TestEthereum TestEthereum_laws 7 8 ex_hash ex_hash
    Hab ex_hash_ok ex_hash_ok ltac:(cbn; lia)) as [_ Hinj].
  by destruct (Hinj Heq).
Defined.
