(* ===== verification/Claims.v ===== *)
(** The claims pallet ([modules/claims/src/lib.rs]): the bridge mints a claim
    for a transaction of another chain, the owner of the Ethereum address turns
    it into a deposit with a signature, and burning moves a balance the other
    way.  Every call is [transactional]. *)

From Stdlib Require Import ZArith Lia.
From stdpp Require Import base option list gmap fin_maps strings.
From S2P Require Import Prelude Interfaces Ethereum.
#[local] Open Scope Z_scope.

(** * Data *)

Inductive BridgeNetworks := BSC | Ethereum | CloverPara.

#[export] Instance BridgeNetworks_eq_dec : EqDecision BridgeNetworks.
Proof. solve_decision. Defined.
#[export] Instance BridgeNetworks_countable : Countable BridgeNetworks.
Proof.
  apply (inj_countable'
    (λ n, match n with BSC => 0%nat | Ethereum => 1%nat | CloverPara => 2%nat end)
    (λ k, match k with 0%nat => BSC | 1%nat => Ethereum | _ => CloverPara end)).
  by intros [].
Defined.

(** The address a claim belongs to, its amount and whether it is claimed. *)
Record ClaimInfo := { ci_address : EthereumAddress; ci_amount : Z; ci_claimed : bool }.

#[export] Instance ClaimInfo_eq_dec : EqDecision ClaimInfo.
Proof. solve_decision. Defined.

Inductive ClaimsError :=
  | NoPermission | AlreadyMinted | AlreadyClaimed | ClaimLimitExceeded | TxNotMinted
  | InvalidEthereumSignature | SignatureNotMatch | InvalidAmount
  (* errors of the frame system and of the currency *)
  | BadOrigin | CurrencyFailed.

#[export] Instance ClaimsError_eq_dec : EqDecision ClaimsError.
Proof. solve_decision. Defined.

Inductive ClaimsEvent :=
  | ElasticBridgeAccountChanged (n : BridgeNetworks) (a : AccountId)
  | ElasticMintSuccess (n : BridgeNetworks) (tx : EthereumTxHash) (who : EthereumAddress) (v : Z)
  | ElasticClaimLimitUpdated (n : BridgeNetworks) (v : Z)
  | ElasticClaimed (n : BridgeNetworks) (a : AccountId) (who : EthereumAddress) (v : Z)
  | ElasticBurned (n : BridgeNetworks) (a : AccountId) (who : EthereumAddress) (v : Z)
  | ElasticFeeUpdated (n : BridgeNetworks) (mint burn : Z).

(** The answer of the transaction pool. *)
Inductive ValidityError := InvalidSignature | SignerHasNoClaim | SignatureMismatch | ClaimedAlready.

Definition validity_code (e : ValidityError) : Z :=
  match e with
  | InvalidSignature => 0 | SignerHasNoClaim => 1 | SignatureMismatch => 2 | ClaimedAlready => 3
  end.

Inductive InvalidTransaction := InvalidCall | InvalidCustom (code : Z).

Record ValidTransaction := {
  priority : Z;
  requires : list (string * EthereumAddress);
  provides : list (string * EthereumAddress);
  longevity : Z;
  propagate : bool;
}.

(** The account that keeps the fees ([PalletId::into_account_truncating]). *)
Class ClaimsConfig := { claims_account : AccountId }.

(** * Storage *)
Section Storage.
Context `{Currency}.

Record ClaimsStore := {
  c_currency : cur;
  bridge_account : option AccountId;
  claim_limit : Z;
  legacy_claims : gmap EthereumTxHash (option ClaimInfo);
  mint_fee : option Z;
  burn_fee : option Z;
  elastic_bridge_accounts : gmap BridgeNetworks (option AccountId);
  elastic_claim_limits : gmap BridgeNetworks Z;
  bridge_fees : gmap BridgeNetworks (Z * Z);
  elastic_claims : gmap (BridgeNetworks * EthereumTxHash) ClaimInfo;
  pallet_storage_version : Z;
  c_events : list ClaimsEvent;
}.

#[export] Instance ClaimsStore_eta : Eta ClaimsStore := λ s, {|
  c_currency := c_currency s;
  bridge_account := bridge_account s;
  claim_limit := claim_limit s;
  legacy_claims := legacy_claims s;
  mint_fee := mint_fee s;
  burn_fee := burn_fee s;
  elastic_bridge_accounts := elastic_bridge_accounts s;
  elastic_claim_limits := elastic_claim_limits s;
  bridge_fees := bridge_fees s;
  elastic_claims := elastic_claims s;
  pallet_storage_version := pallet_storage_version s;
  c_events := c_events s;
|}.

Definition get_bridge_account (n : BridgeNetworks) (s : ClaimsStore) : option AccountId :=
  default None (elastic_bridge_accounts s !! n).
Definition get_claim_limit (n : BridgeNetworks) (s : ClaimsStore) : Z :=
  default 0 (elastic_claim_limits s !! n).
Definition get_bridge_fees (n : BridgeNetworks) (s : ClaimsStore) : Z * Z :=
  default (0, 0) (bridge_fees s !! n).

(** [VersionDefault] *)
Definition VersionDefault : Z := 1.
End Storage.

Abbreviation CCall := (M ClaimsStore ClaimsError).

Section Claims.
Context `{Currency, EthereumCrypto, ClaimsConfig}.

Definition c_ensure_root (o : Origin) : CCall unit :=
  match o with Root => mret tt | _ => throw BadOrigin end.
Definition c_ensure_signed (o : Origin) : CCall AccountId :=
  match o with Signed a => mret a | _ => throw BadOrigin end.
Definition c_ensure_none (o : Origin) : CCall unit :=
  match o with NoOrigin => mret tt | _ => throw BadOrigin end.

Definition c_deposit_event (e : ClaimsEvent) : CCall unit :=
  modify (λ s, s <| c_events ::= cons e |>).

(** [T::Currency::deposit_creating] with its imbalance dropped. *)
Definition c_deposit (a : AccountId) (v : Z) : CCall unit :=
  modify (λ s, s <| c_currency ::= λ c,
    let '(imbalance, c') := deposit_creating a v c in drop_positive imbalance c' |>).

(** * Minting *)

(** The amount of a mint and its fee. *)
Definition do_mint_claim (from : AccountId) (network : BridgeNetworks) (tx : EthereumTxHash)
    (who : EthereumAddress) (value : Z) : CCall Z :=
  gets id ≫= λ s,
  ensure (Some from = get_bridge_account network s) NoPermission ≫= λ _,
  ensure (elastic_claims s !! (network, tx) = None) AlreadyMinted ≫= λ _,
  ensure (value ≤ get_claim_limit network s) ClaimLimitExceeded ≫= λ _,
  let fee := fst (get_bridge_fees network s) in
  when (0 < fee) (ensure (fee < value) InvalidAmount) ≫= λ _,
  let claim_amount := if decide (0 < fee) then sat_sub value fee else value in
  let mint_fee := if decide (0 < fee) then fee else 0 in
  modify (λ s, s <| elastic_claims ::= <[(network, tx) :=
    {| ci_address := who; ci_amount := claim_amount; ci_claimed := false |}]> |>) ≫= λ _,
  modify (λ s, s <| elastic_claim_limits ::=
    <[network := sat_sub (get_claim_limit network s) claim_amount]> |>) ≫= λ _,
  when (0 < mint_fee) (c_deposit claims_account mint_fee) ≫= λ _,
  mret claim_amount.

Definition do_mint_and_send_claim (from : AccountId) (network : BridgeNetworks)
    (tx : EthereumTxHash) (dest : AccountId) (value : Z) : CCall Z :=
  gets id ≫= λ s,
  ensure (Some from = get_bridge_account network s) NoPermission ≫= λ _,
  ensure (elastic_claims s !! (network, tx) = None) AlreadyMinted ≫= λ _,
  ensure (value ≤ get_claim_limit network s) ClaimLimitExceeded ≫= λ _,
  let fee := fst (get_bridge_fees network s) in
  when (0 < fee) (ensure (fee < value) InvalidAmount) ≫= λ _,
  let claim_amount := if decide (0 < fee) then sat_sub value fee else value in
  let mint_fee := if decide (0 < fee) then fee else 0 in
  c_deposit dest claim_amount ≫= λ _,
  modify (λ s, s <| elastic_claims ::= <[(network, tx) :=
    {| ci_address := EthereumAddress_default; ci_amount := claim_amount;
       ci_claimed := true |}]> |>) ≫= λ _,
  modify (λ s, s <| elastic_claim_limits ::=
    <[network := sat_sub (get_claim_limit network s) claim_amount]> |>) ≫= λ _,
  when (0 < mint_fee) (c_deposit claims_account mint_fee) ≫= λ _,
  mret claim_amount.

(** * Claiming *)

Definition claim_signer (dest : AccountId) (tx : EthereumTxHash) (sig : EcdsaSignature)
    : option EthereumAddress :=
  eth_recover sig (to_ascii_hex (encode_account dest)) (to_ascii_hex (hash_bytes tx)).

Definition do_claim (network : BridgeNetworks) (dest : AccountId) (tx : EthereumTxHash)
    (sig : EcdsaSignature) : CCall (EthereumAddress * Z) :=
  gets id ≫= λ s,
  ok_or (elastic_claims s !! (network, tx)) TxNotMinted ≫= λ info,
  ensure (ci_claimed info = false) AlreadyClaimed ≫= λ _,
  ok_or (claim_signer dest tx sig) InvalidEthereumSignature ≫= λ signer,
  ensure (ci_address info = signer) SignatureNotMatch ≫= λ _,
  c_deposit dest (ci_amount info) ≫= λ _,
  modify (λ s, s <| elastic_claims ::= <[(network, tx) :=
    {| ci_address := ci_address info; ci_amount := ci_amount info; ci_claimed := true |}]> |>) ≫= λ _,
  mret (signer, ci_amount info).

Definition do_validate (network : BridgeNetworks) (account : AccountId) (tx : EthereumTxHash)
    (sig : EcdsaSignature) (s : ClaimsStore) : result InvalidTransaction ValidTransaction :=
  match claim_signer account tx sig with
  | None => Err (InvalidCustom (validity_code InvalidSignature))
  | Some signer =>
      match elastic_claims s !! (network, tx) with
      | None => Err (InvalidCustom (validity_code SignerHasNoClaim))
      | Some info =>
          if decide (ci_address info = signer) then
            if ci_claimed info then Err (InvalidCustom (validity_code ClaimedAlready))
            else Ok {| priority := 100; requires := [];
                       provides := [("claims"%string, signer)];
                       longevity := umax 64; propagate := true |}
          else Err (InvalidCustom (validity_code SignatureMismatch))
      end
  end.

(** * Burning *)

Definition do_burn (who : AccountId) (network : BridgeNetworks) (amount : Z) : CCall Z :=
  gets id ≫= λ s,
  let fee := snd (get_bridge_fees network s) in
  when (0 < fee) (ensure (fee < amount) InvalidAmount) ≫= λ _,
  let burn_amount := if decide (0 < fee) then sat_sub amount fee else amount in
  let burn_fee := if decide (0 < fee) then fee else 0 in
  ok_or (withdraw who amount KeepAlive (c_currency s)) CurrencyFailed ≫= λ '(imbalance, c),
  modify (λ s, s <| c_currency := drop_negative imbalance c |>) ≫= λ _,
  when (0 < burn_fee) (c_deposit claims_account burn_fee) ≫= λ _,
  mret burn_amount.

(** * Calls *)

Definition set_bridge_account_elastic (o : Origin) (network : BridgeNetworks) (to : AccountId)
    : CCall unit := transactional (
  c_ensure_root o ≫= λ _,
  modify (λ s, s <| elastic_bridge_accounts ::= <[network := Some to]> |>) ≫= λ _,
  c_deposit_event (ElasticBridgeAccountChanged network to)).

Definition set_claim_limit_elastic (o : Origin) (network : BridgeNetworks) (limit : Z)
    : CCall unit := transactional (
  c_ensure_root o ≫= λ _,
  modify (λ s, s <| elastic_claim_limits ::= <[network := limit]> |>) ≫= λ _,
  c_deposit_event (ElasticClaimLimitUpdated network limit)).

Definition set_bridge_fee_elastic (o : Origin) (network : BridgeNetworks) (mint burn : Z)
    : CCall unit := transactional (
  c_ensure_root o ≫= λ _,
  modify (λ s, s <| bridge_fees ::= <[network := (mint, burn)]> |>) ≫= λ _,
  c_deposit_event (ElasticFeeUpdated network mint burn)).

Definition mint_claim_elastic (o : Origin) (network : BridgeNetworks) (tx : EthereumTxHash)
    (who : EthereumAddress) (value : Z) : CCall unit := transactional (
  c_ensure_signed o ≫= λ signer,
  do_mint_claim signer network tx who value ≫= λ claim_amount,
  c_deposit_event (ElasticMintSuccess network tx who claim_amount)).

Definition claim_elastic (o : Origin) (network : BridgeNetworks) (dest : AccountId)
    (tx : EthereumTxHash) (sig : EcdsaSignature) : CCall unit := transactional (
  c_ensure_none o ≫= λ _,
  do_claim network dest tx sig ≫= λ '(signer, amount),
  c_deposit_event (ElasticClaimed network dest signer amount)).

Definition burn_elastic (o : Origin) (network : BridgeNetworks) (dest : EthereumAddress)
    (amount : Z) : CCall unit := transactional (
  c_ensure_signed o ≫= λ who,
  do_burn who network amount ≫= λ burn_amount,
  c_deposit_event (ElasticBurned network who dest burn_amount)).

Definition mint_and_send_claim_elastic (o : Origin) (network : BridgeNetworks)
    (tx : EthereumTxHash) (who : AccountId) (value : Z) : CCall unit := transactional (
  c_ensure_signed o ≫= λ signer,
  do_mint_and_send_claim signer network tx who value ≫= λ claim_amount,
  c_deposit_event (ElasticMintSuccess network tx EthereumAddress_default claim_amount)).

Inductive ClaimsCall :=
  | SetBridgeAccount (n : BridgeNetworks) (to : AccountId)
  | SetClaimLimit (n : BridgeNetworks) (limit : Z)
  | SetBridgeFee (n : BridgeNetworks) (mint burn : Z)
  | MintClaim (n : BridgeNetworks) (tx : EthereumTxHash) (who : EthereumAddress) (value : Z)
  | ClaimElastic (n : BridgeNetworks) (dest : AccountId) (tx : EthereumTxHash) (sig : EcdsaSignature)
  | BurnElastic (n : BridgeNetworks) (dest : EthereumAddress) (amount : Z)
  | MintAndSendClaim (n : BridgeNetworks) (tx : EthereumTxHash) (who : AccountId) (value : Z).

Definition claims_dispatch (o : Origin) (c : ClaimsCall) : CCall unit :=
  match c with
  | SetBridgeAccount n to => set_bridge_account_elastic o n to
  | SetClaimLimit n limit => set_claim_limit_elastic o n limit
  | SetBridgeFee n mint burn => set_bridge_fee_elastic o n mint burn
  | MintClaim n tx who value => mint_claim_elastic o n tx who value
  | ClaimElastic n dest tx sig => claim_elastic o n dest tx sig
  | BurnElastic n dest amount => burn_elastic o n dest amount
  | MintAndSendClaim n tx who value => mint_and_send_claim_elastic o n tx who value
  end.

(** Only a claim may be submitted without a signature. *)
Definition validate_unsigned (c : ClaimsCall) (s : ClaimsStore)
    : result InvalidTransaction ValidTransaction :=
  match c with
  | ClaimElastic n dest tx sig => do_validate n dest tx sig s
  | _ => Err InvalidCall
  end.

(** * The migration to the storage of several networks *)

Definition migrate_claim (m : gmap (BridgeNetworks * EthereumTxHash) ClaimInfo)
    (kv : EthereumTxHash * option ClaimInfo) :=
  match m !! (BSC, kv.1), kv.2 with
  | None, Some v => <[(BSC, kv.1) := v]> m
  | _, _ => m
  end.

Definition on_runtime_upgrade (s : ClaimsStore) : ClaimsStore :=
  if decide (2 ≤ pallet_storage_version s) then s else
  let claims' := foldl migrate_claim (elastic_claims s) (map_to_list (legacy_claims s)) in
  let limits' := if decide (0 < claim_limit s)
                 then <[BSC := claim_limit s]> (elastic_claim_limits s)
                 else elastic_claim_limits s in
  let accounts' :=
    match bridge_account s, elastic_bridge_accounts s !! BSC with
    | Some a, None => <[BSC := Some a]> (elastic_bridge_accounts s)
    | _, _ => elastic_bridge_accounts s
    end in
  let mint := default 0 (mint_fee s) in
  let burn := default 0 (burn_fee s) in
  let fees' :=
    if decide (0 < mint ∨ 0 < burn) then
      match bridge_fees s !! BSC with
      | None => <[BSC := (mint, burn)]> (bridge_fees s)
      | Some _ => bridge_fees s
      end
    else bridge_fees s in
  s <| elastic_claims := claims' |> <| elastic_claim_limits := limits' |>
    <| elastic_bridge_accounts := accounts' |> <| bridge_fees := fees' |>
    <| mint_fee := None |> <| burn_fee := None |> <| legacy_claims := ∅ |>
    <| bridge_account := None |> <| pallet_storage_version := 2 |>.

(** A run of calls, each with its origin. *)
Fixpoint execute (cs : list (Origin * ClaimsCall)) (s : ClaimsStore) : ClaimsStore :=
  match cs with
  | [] => s
  | (o, c) :: cs' => execute cs' (run (claims_dispatch o c) s)
  end.
End Claims.
