(* ===== verification/ClaimsCorrect.v ===== *)
(** What the claims pallet guarantees: the life of a claim, the limit of a
    bridge, the agreement of the transaction pool with the call, the balances a
    burn moves, and the migration. *)

From Stdlib Require Import ZArith Lia.
From stdpp Require Import base option list gmap fin_maps strings.
From S2P Require Import Prelude Interfaces Ethereum Claims.
#[local] Open Scope Z_scope.

Section Effects.
Context `{Currency, EthereumCrypto, ClaimsConfig}.
Implicit Types s : ClaimsStore.

Definition unchanged (s s' : ClaimsStore) : Prop :=
  elastic_claims s' = elastic_claims s ∧ elastic_claim_limits s' = elastic_claim_limits s.

(** A new claim of [info], taken out of the limit of the network. *)
Definition minted (n : BridgeNetworks) (tx : EthereumTxHash) (value : Z) (claimed : bool)
    (s s' : ClaimsStore) : Prop :=
  elastic_claims s !! (n, tx) = None ∧ value ≤ get_claim_limit n s ∧
  ∃ info, ci_claimed info = claimed ∧ ci_amount info ≤ value ∧ (0 < value → 0 < ci_amount info) ∧
    elastic_claims s' = <[(n, tx) := info]> (elastic_claims s) ∧
    elastic_claim_limits s' = <[n := get_claim_limit n s - ci_amount info]> (elastic_claim_limits s).

(** What a call does to the claims and the limits: nothing when it fails. *)
Definition claims_effect (c : ClaimsCall) (r : result ClaimsError unit) (s s' : ClaimsStore) : Prop :=
  match r with
  | Err _ => s' = s
  | Ok _ =>
      match c with
      | MintClaim n tx _ value => minted n tx value false s s'
      | MintAndSendClaim n tx _ value => minted n tx value true s s'
      | ClaimElastic n _ tx _ => ∃ a v,
          elastic_claims s !! (n, tx) = Some {| ci_address := a; ci_amount := v; ci_claimed := false |} ∧
          elastic_claims s' =
            <[(n, tx) := {| ci_address := a; ci_amount := v; ci_claimed := true |}]> (elastic_claims s) ∧
          elastic_claim_limits s' = elastic_claim_limits s
      | SetClaimLimit n l =>
          elastic_claims s' = elastic_claims s ∧
          elastic_claim_limits s' = <[n := l]> (elastic_claim_limits s)
      | _ => unchanged s s'
      end
  end.

(** The amount of a mint: its value less the fee. *)
Definition after_fee (value fee : Z) : Z := if decide (0 < fee) then sat_sub value fee else value.

Lemma minted_intro n tx value claimed fee a s s' :
  elastic_claims s !! (n, tx) = None → value ≤ get_claim_limit n s →
  (0 < fee → fee < value) →
  elastic_claims s' = <[(n, tx) := {| ci_address := a; ci_amount := after_fee value fee;
                                      ci_claimed := claimed |}]> (elastic_claims s) →
  elastic_claim_limits s' =
    <[n := sat_sub (get_claim_limit n s) (after_fee value fee)]> (elastic_claim_limits s) →
  minted n tx value claimed s s'.
Proof.
  intros Hnone Hlim Hfee Hc Hl. split_and!; [done..|]. eexists. split_and!; [..|exact Hc|]; cbn.
  - done.
  - unfold after_fee. case_decide; ulia.
  - unfold after_fee. case_decide; ulia.
  - rewrite Hl. f_equal. apply sat_sub_exact. unfold after_fee. case_decide; ulia.
Qed.

Ltac unfold_claims :=
  unfold set_bridge_account_elastic, set_claim_limit_elastic, set_bridge_fee_elastic,
    mint_claim_elastic, claim_elastic, burn_elastic, mint_and_send_claim_elastic,
    c_ensure_root, c_ensure_signed, c_ensure_none, do_mint_claim, do_mint_and_send_claim,
    do_claim, do_burn, c_deposit, c_deposit_event.

Lemma dispatch_effect o c s :
  claims_effect c (fst (claims_dispatch o c s)) s (run (claims_dispatch o c) s).
Proof.
  change (wp (claims_dispatch o c) s (λ r s', claims_effect c r s s')).
  destruct c; cbn [claims_dispatch]; unfold_claims; wp_auto; try done.
  1-4, 6-9: by eapply (minted_intro _ _ _ _ (fst (get_bridge_fees n s))); [..|lia| |].
  destruct a as [a v b]. cbn in *. subst b. by exists a, v.
Qed.

(** * The life of a claim *)

Definition is_mint (n : BridgeNetworks) (tx : EthereumTxHash) (c : ClaimsCall) : bool :=
  match c with
  | MintClaim n' tx' _ _ | MintAndSendClaim n' tx' _ _ => bool_decide (n' = n ∧ tx' = tx)
  | _ => false
  end.

(** The calls that pay a claim out. *)
Definition is_payout (n : BridgeNetworks) (tx : EthereumTxHash) (c : ClaimsCall) : bool :=
  match c with
  | ClaimElastic n' _ tx' _ | MintAndSendClaim n' tx' _ _ => bool_decide (n' = n ∧ tx' = tx)
  | _ => false
  end.

(** How many calls of a kind succeed in a run. *)
Fixpoint successes (kind : ClaimsCall → bool) (cs : list (Origin * ClaimsCall)) s : nat :=
  match cs with
  | [] => 0
  | (o, c) :: cs' =>
      (if kind c && is_ok (fst (claims_dispatch o c s)) then 1 else 0)
      + successes kind cs' (run (claims_dispatch o c) s)
  end.

Definition is_minted n tx s : bool := bool_decide (is_Some (elastic_claims s !! (n, tx))).
Definition is_claimed n tx s : bool := from_option ci_claimed false (elastic_claims s !! (n, tx)).

(** What a successful call does to one entry: nothing, mint it, or claim it. *)
Inductive entry_step n tx (c : ClaimsCall) (s s' : ClaimsStore) : Prop :=
  | entry_same :
      is_mint n tx c = false → is_payout n tx c = false →
      elastic_claims s' !! (n, tx) = elastic_claims s !! (n, tx) → entry_step n tx c s s'
  | entry_minted i :
      is_mint n tx c = true → is_payout n tx c = ci_claimed i →
      elastic_claims s !! (n, tx) = None → elastic_claims s' !! (n, tx) = Some i →
      entry_step n tx c s s'
  | entry_claimed a v :
      is_mint n tx c = false → is_payout n tx c = true →
      elastic_claims s !! (n, tx) =
        Some {| ci_address := a; ci_amount := v; ci_claimed := false |} →
      elastic_claims s' !! (n, tx) =
        Some {| ci_address := a; ci_amount := v; ci_claimed := true |} →
      entry_step n tx c s s'.

Lemma effect_entry n tx c s s' : claims_effect c (Ok tt) s s' → entry_step n tx c s s'.
Proof.
  destruct c as [| | |n' tx' who v|n' d tx' sig| |n' tx' who v]; cbn; intros Heff.
  1, 2, 3, 6: apply entry_same; [done..|]; by destruct Heff as [-> _].
  all: destruct (decide (n' = n ∧ tx' = tx)) as [[-> ->]|Hne];
    [|apply entry_same; [first [done | by apply bool_decide_eq_false]..|]].
  - destruct Heff as (Hn & _ & i & Hi & _ & _ & Hc & _). apply (entry_minted _ _ _ _ _ i);
      [by apply bool_decide_eq_true | by rewrite Hi | done | by rewrite Hc, lookup_insert_eq].
  - destruct Heff as (_ & _ & i & _ & _ & _ & -> & _). rewrite lookup_insert_ne; [done|naive_solver].
  - destruct Heff as (a & v & Hs & Hc & _). apply (entry_claimed _ _ _ _ _ a v);
      [done | by apply bool_decide_eq_true | done | by rewrite Hc, lookup_insert_eq].
  - destruct Heff as (a & v & _ & -> & _). rewrite lookup_insert_ne; [done|naive_solver].
  - destruct Heff as (Hn & _ & i & Hi & _ & _ & Hc & _). apply (entry_minted _ _ _ _ _ i);
      [by apply bool_decide_eq_true | by rewrite Hi; apply bool_decide_eq_true | done
      | by rewrite Hc, lookup_insert_eq].
  - destruct Heff as (_ & _ & i & _ & _ & _ & -> & _). rewrite lookup_insert_ne; [done|naive_solver].
Qed.

(** One call moves an entry along its life: absent, minted, claimed. *)
Lemma claim_step o c s n tx :
  let s' := run (claims_dispatch o c) s in
  let ok := is_ok (fst (claims_dispatch o c s)) in
  (Nat.b2n (is_mint n tx c && ok) + Nat.b2n (is_minted n tx s) ≤ Nat.b2n (is_minted n tx s'))%nat ∧
  (Nat.b2n (is_payout n tx c && ok) + Nat.b2n (is_claimed n tx s) ≤ Nat.b2n (is_claimed n tx s'))%nat ∧
  (∀ i, elastic_claims s !! (n, tx) = Some i → ∃ i', elastic_claims s' !! (n, tx) = Some i' ∧
     ci_address i' = ci_address i ∧ ci_amount i' = ci_amount i).
Proof.
  intros s' ok. subst s' ok. pose proof (dispatch_effect o c s) as Heff. revert Heff. unfold run.
  destruct (claims_dispatch o c s) as [[[]|e] s']; cbn [fst snd is_ok].
  - rewrite !andb_true_r. unfold is_minted, is_claimed.
    intros [-> -> -> | i -> -> -> -> | a v -> -> -> ->]%(effect_entry n tx); cbn.
    + split_and!; [lia..|eauto].
    + split_and!; [lia..|done].
    + split_and!; [lia..|]. intros ? [= <-]. eauto.
  - intros ->. rewrite !andb_false_r. cbn. split_and!; [lia..|eauto].
Qed.

(** C21: over any run of calls a transaction is minted at most once and paid out
    at most once, and never again once it is minted or claimed; the address and
    the amount of a claim never change, and a claim stays claimed. *)
Theorem claimed_once n tx cs s :
  (successes (is_mint n tx) cs s + Nat.b2n (is_minted n tx s) ≤ 1)%nat ∧
  (successes (is_payout n tx) cs s + Nat.b2n (is_claimed n tx s) ≤ 1)%nat ∧
  (∀ i, elastic_claims s !! (n, tx) = Some i →
     ∃ i', elastic_claims (execute cs s) !! (n, tx) = Some i' ∧
       ci_address i' = ci_address i ∧ ci_amount i' = ci_amount i ∧
       (ci_claimed i = true → ci_claimed i' = true)).
Proof.
  revert s. induction cs as [|[o c] cs IH]; intros s; cbn [successes execute].
  - split_and!; [destruct (is_minted n tx s); cbn; lia | destruct (is_claimed n tx s); cbn; lia | eauto].
  - destruct (claim_step o c s n tx) as (Hm & Hp & Hi). cbv zeta in *.
    specialize (IH (run (claims_dispatch o c) s)) as (IHm & IHp & IHi).
    unfold Nat.b2n in *. split_and!; [lia..|].
    intros i Hs. destruct (Hi i Hs) as (i1 & Hs1 & Ha & Hv).
    destruct (IHi i1 Hs1) as (i2 & Hs2 & Ha2 & Hv2 & Hc). exists i2. split_and!; [done|congruence..|].
    intros Ht. apply Hc. unfold is_claimed in Hp. rewrite Hs, Hs1 in Hp. cbn in Hp.
    rewrite Ht in Hp. destruct (ci_claimed i1); [done|cbn in Hp; lia].
Qed.

(** * The limit of a bridge *)

(** The amounts of the claims of a network. *)
Definition claims_total (n : BridgeNetworks) (s : ClaimsStore) : Z :=
  map_sum ci_amount (filter (λ kv, kv.1.1 = n) (elastic_claims s)).

Definition sets_limit (n : BridgeNetworks) (c : ClaimsCall) : bool :=
  match c with SetClaimLimit n' _ => bool_decide (n' = n) | _ => false end.

Lemma claims_total_insert n k i s m :
  elastic_claims s = <[k := i]> m →
  claims_total n s = map_sum ci_amount (filter (λ kv, kv.1.1 = n) m)
    + (if decide (k.1 = n) then ci_amount i - from_option ci_amount 0 (m !! k) else 0).
Proof.
  intros Hs. unfold claims_total. rewrite Hs, map_filter_insert. cbn. case_decide as Hk.
  - rewrite map_sum_insert. rewrite map_lookup_filter.
    destruct (m !! k) as [i0|]; cbn; [|lia]. rewrite option_guard_True by done. cbn. lia.
  - rewrite map_filter_delete_not; [lia|]. intros i' _. done.
Qed.

Lemma limit_insert n n' l s m :
  elastic_claim_limits s = <[n' := l]> m →
  get_claim_limit n s = if decide (n' = n) then l else default 0 (m !! n).
Proof.
  intros Hs. unfold get_claim_limit. rewrite Hs, lookup_insert. by case_decide.
Qed.

Definition limit_balance (n : BridgeNetworks) (s : ClaimsStore) : Z :=
  claims_total n s + get_claim_limit n s.

Lemma minted_limit n n' tx v b s s' :
  minted n' tx v b s s' →
  limit_balance n s' = limit_balance n s ∧
  (0 ≤ get_claim_limit n s → 0 ≤ get_claim_limit n s').
Proof.
  intros (Hnone & Hlim & i & _ & Hi & _ & Hc & Hl). unfold limit_balance.
  rewrite (claims_total_insert n _ _ _ _ Hc), (limit_insert n _ _ _ _ Hl), Hnone. cbn.
  unfold claims_total, get_claim_limit in *. case_decide; subst; lia.
Qed.

(** A call moves what it mints from the limit to the claims. *)
Lemma limit_step o c n s :
  sets_limit n c = false →
  let s' := run (claims_dispatch o c) s in
  limit_balance n s' = limit_balance n s ∧ (0 ≤ get_claim_limit n s → 0 ≤ get_claim_limit n s').
Proof.
  intros Hn s'. subst s'. pose proof (dispatch_effect o c s) as Heff. revert Heff. unfold run.
  destruct (claims_dispatch o c s) as [[[]|e] s']; cbn [fst snd]; [|by intros ->].
  destruct c as [| n' l| |n' tx' who v|n' d tx' sig| |n' tx' who v]; cbn [claims_effect].
  1, 3, 6: unfold limit_balance, claims_total, get_claim_limit; by intros [-> ->].
  - cbn in Hn. apply bool_decide_eq_false in Hn. intros [Hc Hl].
    unfold limit_balance, claims_total. rewrite (limit_insert n _ _ _ _ Hl), Hc.
    by rewrite decide_False by done.
  - apply minted_limit.
  - intros (a & v & Hs & Hc & Hl). unfold limit_balance.
    rewrite (claims_total_insert n _ _ _ _ Hc), Hs. unfold get_claim_limit, claims_total.
    rewrite Hl. cbn. case_decide; lia.
  - apply minted_limit.
Qed.

(** C22: while the limit of a network is not set anew, what is minted comes out of
    it: the amounts of the claims of the network and the limit that is left add
    up to a constant, so no run mints more than the limit it started with. *)
Theorem mint_within_limit n cs s
  (Hcs : Forall (λ oc, sets_limit n oc.2 = false) cs) (Hlim : 0 ≤ get_claim_limit n s) :
  let s' := execute cs s in
  claims_total n s' + get_claim_limit n s' = claims_total n s + get_claim_limit n s ∧
  0 ≤ get_claim_limit n s' ∧
  claims_total n s' - claims_total n s ≤ get_claim_limit n s.
Proof.
  cbv zeta. change (?a + ?b = ?c + ?d) with (limit_balance n (execute cs s) = limit_balance n s).
  enough (limit_balance n (execute cs s) = limit_balance n s ∧ 0 ≤ get_claim_limit n (execute cs s))
    as [He Hg] by (split_and!; [done..|unfold limit_balance in He; lia]).
  revert s Hlim. induction Hcs as [|[o c] cs Hc _ IH]; intros s Hlim; [done|]. cbn [execute].
  destruct (limit_step o c n s Hc) as [He Hg]. rewrite <- He. apply IH. by apply Hg.
Qed.

(** * The transaction pool *)

(** The transaction pool accepts a claim exactly when the call succeeds in
    the same state, for the signer the call pays, and refuses it for the error
    the call returns. *)
Theorem validate_agrees n dest tx sig s :
  match validate_unsigned (ClaimElastic n dest tx sig) s with
  | Ok v =>
      ∃ info, elastic_claims s !! (n, tx) = Some info ∧
        claim_signer dest tx sig = Some (ci_address info) ∧
        provides v = [("claims"%string, ci_address info)] ∧
        fst (claim_elastic NoOrigin n dest tx sig s) = Ok tt ∧
        head (c_events (run (claim_elastic NoOrigin n dest tx sig) s)) =
          Some (ElasticClaimed n dest (ci_address info) (ci_amount info))
  | Err e =>
      ∃ err, claim_elastic NoOrigin n dest tx sig s = (Err err, s) ∧
        match err with
        | InvalidEthereumSignature => e = InvalidCustom 0
        | TxNotMinted => e = InvalidCustom 1 ∨ e = InvalidCustom 0
        | SignatureNotMatch => e = InvalidCustom 2
        | AlreadyClaimed => claim_signer dest tx sig = None ∨ e = InvalidCustom 3 ∨ e = InvalidCustom 2
        | _ => False
        end
  end.
Proof.
  cbn [validate_unsigned]. unfold do_validate, claim_elastic, transactional, do_claim, c_ensure_none,
    ok_or, ensure, run, mbind, M_bind, gets, id.
  destruct (claim_signer dest tx sig) as [signer|] eqn:Hsig; cbn;
    destruct (elastic_claims s !! (n, tx)) as [[a v []]|] eqn:Hs; cbn;
    rewrite ?(decide_False (P := true = false)), ?(decide_True (P := false = false)) by done; cbn;
    try case_decide as Ha; cbn; try (eexists; split; [reflexivity | cbn; tauto]).
  subst. eexists. by split_and!.
Qed.

(** * Burning *)

Lemma deposit_free `{!CurrencyLaws} a v c :
  0 ≤ v → ∃ f, (f = v ∨ f = 0) ∧ ∀ b,
    free_balance b (let '(imbalance, c') := deposit_creating a v c in drop_positive imbalance c')
      = free_balance b c + (if decide (a = b) then f else 0).
Proof.
  intros Hv. destruct (deposit_creating a v c) as [f c'] eqn:Hd.
  destruct (deposit_creating_spec a v c f c' Hd Hv) as [Hf Hb].
  exists f. split; [done|]. intros b. by rewrite drop_positive_free.
Qed.

(** Burning takes exactly the amount from the caller, leaves every other
    account as it was up to the fee credited to the pallet, announces the amount
    less the fee, and leaves the claims alone; it fails, changing nothing, only
    for an amount that does not exceed the fee or a withdrawal the currency
    refuses. *)
Theorem burn_correct `{!CurrencyLaws} who n dest amount s r s'
  (Hamount : 0 ≤ amount) (Hfee : 0 ≤ snd (get_bridge_fees n s))
  (Hrun : burn_elastic (Signed who) n dest amount s = (r, s')) :
  let fee := snd (get_bridge_fees n s) in
  match r with
  | Ok _ =>
      amount ≤ free_balance who (c_currency s) ∧
      (∃ f, (f = fee ∨ f = 0) ∧ ∀ b,
        free_balance b (c_currency s') = free_balance b (c_currency s)
          - (if decide (who = b) then amount else 0)
          + (if decide (claims_account = b) then f else 0)) ∧
      c_events s' = ElasticBurned n who dest (amount - fee) :: c_events s ∧
      elastic_claims s' = elastic_claims s ∧ elastic_claim_limits s' = elastic_claim_limits s
  | Err e =>
      s' = s ∧ (e = InvalidAmount ∧ 0 < fee ∧ amount ≤ fee
                ∨ e = CurrencyFailed ∧ withdraw who amount KeepAlive (c_currency s) = None)
  end.
Proof.
  intros fee. subst fee. pattern r, s'. revert Hrun. eapply wp_elim.
  unfold_claims. wp_auto; try (split; [done|]; auto with lia).
  all: subst; match goal with Hw : withdraw _ _ _ _ = Some _ |- _ =>
    destruct (withdraw_spec _ _ _ _ _ _ Hw Hamount) as (-> & Hle & Hfree) end.
  all: repeat case_decide; try lia; cbn.
  all: split_and!; [done| |do 2 f_equal; ulia|done|done].
  - destruct (deposit_free claims_account (snd (get_bridge_fees n s)) (drop_negative amount c))
      as (f & Hf & Hb); [done|]. exists f. split; [done|]. intros b.
    by rewrite Hb, drop_negative_free, Hfree.
  - exists 0. split; [auto|]. intros b. rewrite drop_negative_free, Hfree.
    repeat case_decide; lia.
Qed.

(** * The migration *)

Lemma migrate_claims_lookup (l : list (EthereumTxHash * option ClaimInfo)) m n tx :
  NoDup l.*1 →
  foldl migrate_claim m l !! (n, tx) =
    match m !! (n, tx) with
    | Some i => Some i
    | None => if decide (n = BSC)
              then mjoin ((list_to_map l : gmap EthereumTxHash (option ClaimInfo)) !! tx)
              else None
    end.
Proof.
  revert m. induction l as [|[k v] l IH]; intros m Hnd; cbn [foldl list_to_map fmap list_fmap] in *.
  { destruct (m !! (n, tx)); [done|]. by case_decide. }
  apply NoDup_cons in Hnd as [Hk Hnd]. rewrite IH by done. clear IH.
  unfold migrate_claim. cbn. destruct (decide (k = tx)) as [->|Hne].
  - rewrite lookup_insert_eq, (not_elem_of_list_to_map_1 _ _ Hk). cbn.
    destruct (decide (n = BSC)) as [->|Hn].
    + destruct (m !! (BSC, tx)) eqn:Hm; [by rewrite Hm|].
      destruct v; cbn; [by rewrite lookup_insert_eq | by rewrite Hm].
    + destruct (m !! (BSC, tx)), v; cbn; rewrite ?lookup_insert_ne by congruence; done.
  - rewrite (lookup_insert_ne _ _ _ _ Hne).
    destruct (m !! (BSC, k)), v; cbn; rewrite ?lookup_insert_ne by congruence; done.
Qed.

(** The migration copies every claim of the old storage to the network
    [BSC] unless the new storage has one for the transaction, copies the limit,
    the bridge account and the fees where the code sets them, leaves the other
    networks alone, empties the old maps, and does nothing the second time. *)
Theorem migration_correct s :
  let s' := on_runtime_upgrade s in
  on_runtime_upgrade s' = s' ∧
  (2 ≤ pallet_storage_version s → s' = s) ∧
  (pallet_storage_version s < 2 →
    (∀ n tx, elastic_claims s' !! (n, tx) =
       match elastic_claims s !! (n, tx) with
       | Some i => Some i
       | None => if decide (n = BSC) then mjoin (legacy_claims s !! tx) else None
       end) ∧
    (∀ n, get_claim_limit n s' =
       if decide (n = BSC ∧ 0 < claim_limit s) then claim_limit s else get_claim_limit n s) ∧
    (∀ n, n ≠ BSC → get_bridge_account n s' = get_bridge_account n s ∧
                    get_bridge_fees n s' = get_bridge_fees n s) ∧
    (elastic_bridge_accounts s !! BSC = None → get_bridge_account BSC s' = bridge_account s) ∧
    (bridge_fees s !! BSC = None → 0 ≤ default 0 (mint_fee s) → 0 ≤ default 0 (burn_fee s) →
     get_bridge_fees BSC s' = (default 0 (mint_fee s), default 0 (burn_fee s))) ∧
    legacy_claims s' = ∅ ∧ bridge_account s' = None ∧ mint_fee s' = None ∧ burn_fee s' = None).
Proof.
  unfold on_runtime_upgrade. destruct (decide (2 ≤ pallet_storage_version s)) as [Hv|Hv].
  { rewrite decide_True by done. split_and!; [done..|lia]. }
  split_and!; [done|lia|]. intros _. split_and!; try done.
  - intros n tx. cbn. rewrite migrate_claims_lookup by apply NoDup_fst_map_to_list.
    by rewrite list_to_map_to_list.
  - intros n. unfold get_claim_limit. cbn. case_decide; cbn.
    + rewrite lookup_insert. repeat case_decide; naive_solver.
    + rewrite decide_False by tauto. done.
  - intros n Hn. unfold get_bridge_account, get_bridge_fees. cbn. split.
    + repeat case_match; rewrite ?lookup_insert_ne by done; done.
    + repeat case_match; rewrite ?lookup_insert_ne by done; done.
  - intros Hn. unfold get_bridge_account. cbn. rewrite Hn.
    destruct (bridge_account s); [by rewrite lookup_insert_eq | by rewrite Hn].
  - intros Hn Hm Hb. unfold get_bridge_fees. cbn. rewrite Hn. case_decide.
    + by rewrite lookup_insert_eq.
    + rewrite Hn. cbn. f_equal; lia.
Qed.
End Effects.

(** * Concrete runs *)

Definition ex_claims_config : ClaimsConfig := {| claims_account := 999 |}.
#[local] Existing Instances TestCurrency TestEthereum ex_claims_config.

Definition ex_signature : EcdsaSignature := {| signature_bytes := replicate 65 5 |}.
Definition ex_address : EthereumAddress := {| address_bytes := replicate 20 5 |}.
Definition ex_tx : EthereumTxHash := {| hash_bytes := replicate 32 171 |}.

Definition ex_claims : ClaimsStore := {|
  c_currency := TestCur {[10 := 1000]} 1000 ∅;
  bridge_account := Some 4;
  claim_limit := 70;
  legacy_claims := {[ex_tx := Some {| ci_address := ex_address; ci_amount := 9; ci_claimed := false |}]};
  mint_fee := Some 1;
  burn_fee := None;
  elastic_bridge_accounts := ∅;
  elastic_claim_limits := {[Ethereum := 100]};
  bridge_fees := {[Ethereum := (3, 2)]};
  elastic_claims := ∅;
  pallet_storage_version := 1;
  c_events := [];
|}.

(** A bridge is set up, a claim is minted and claimed twice, and minted again. *)
Definition ex_run : list (Origin * ClaimsCall) :=
  [ (Root, SetBridgeAccount Ethereum 1);
    (Signed 2, MintClaim Ethereum ex_tx ex_address 50);
    (Signed 1, MintClaim Ethereum ex_tx ex_address 50);
    (NoOrigin, ClaimElastic Ethereum 7 ex_tx ex_signature);
    (NoOrigin, ClaimElastic Ethereum 7 ex_tx ex_signature);
    (Signed 1, MintAndSendClaim Ethereum ex_tx 8 50) ].

Lemma claimed_once_witness :
  successes (is_mint Ethereum ex_tx) ex_run ex_claims = 1%nat ∧
  successes (is_payout Ethereum ex_tx) ex_run ex_claims = 1%nat ∧
  free_balance 7 (c_currency (execute ex_run ex_claims)) = 47 ∧
  (successes (is_payout Ethereum ex_tx) ex_run ex_claims
   + Nat.b2n (is_claimed Ethereum ex_tx ex_claims) ≤ 1)%nat.
Proof.
  split_and!; [by vm_compute..|].
  apply (claimed_once Ethereum ex_tx ex_run ex_claims).
Defined.

Lemma mint_within_limit_witness :
  claims_total Ethereum (execute ex_run ex_claims) = 47 ∧
  get_claim_limit Ethereum (execute ex_run ex_claims) = 53 ∧
  claims_total Ethereum (execute ex_run ex_claims) - claims_total Ethereum ex_claims
    ≤ get_claim_limit Ethereum ex_claims.
Proof.
  split_and!; [by vm_compute..|].
  apply (mint_within_limit Ethereum ex_run ex_claims).
  - repeat (apply Forall_cons; split; [done|]). apply Forall_nil. exact Logic.I.
  - by vm_compute.
Defined.

(** The state after the mint, where the claim is ready. *)
Definition ex_minted : ClaimsStore := execute (take 3 ex_run) ex_claims.

Lemma validate_agrees_witness :
  is_ok (validate_unsigned (ClaimElastic Ethereum 7 ex_tx ex_signature) ex_minted) = true ∧
  is_ok (validate_unsigned (ClaimElastic BSC 7 ex_tx ex_signature) ex_minted) = false ∧
  ∃ err, claim_elastic NoOrigin BSC 7 ex_tx ex_signature ex_minted = (Err err, ex_minted).
Proof.
  split_and!; [by vm_compute..|].
  pose proof (validate_agrees BSC 7 ex_tx ex_signature ex_minted) as Hagree.
  assert (validate_unsigned (ClaimElastic BSC 7 ex_tx ex_signature) ex_minted
          = Err (InvalidCustom 1)) as Heq by (vm_compute; reflexivity).
  rewrite Heq in Hagree. destruct Hagree as (err & Herr & _). by exists err.
Defined.

Lemma burn_correct_witness :
  fst (burn_elastic (Signed 10) Ethereum ex_address 100 ex_claims) = Ok tt ∧
  c_events (run (burn_elastic (Signed 10) Ethereum ex_address 100) ex_claims)
    = [ElasticBurned Ethereum 10 ex_address 98].
Proof.
  assert (fst (burn_elastic (Signed 10) Ethereum ex_address 100 ex_claims) = Ok tt) as Hok
    by (vm_compute; reflexivity).
  split; [exact Hok|].
  pose proof (@burn_correct TestCurrency ex_claims_config TestCurrency_laws 10 Ethereum ex_address 100 ex_claims
    (Ok tt) _ ltac:(done) ltac:(by vm_compute) (run_result _ _ _ Hok)) as (_ & _ & He & _).
  exact He.
Defined.

Lemma migration_correct_witness :
  let s' := on_runtime_upgrade ex_claims in
  get_claim_limit BSC s' = 70 ∧ get_bridge_account BSC s' = Some 4 ∧
  elastic_claims s' !! (BSC, ex_tx)
    = Some {| ci_address := ex_address; ci_amount := 9; ci_claimed := false |} ∧
  on_runtime_upgrade s' = s'.
Proof.
  pose proof (migration_correct ex_claims) as (Hid & _ & Hmig).
  destruct (Hmig ltac:(done)) as (Hc & Hl & _ & Ha & _).
  split_and!; [by rewrite Hl | by apply Ha | by rewrite Hc | exact Hid].
Defined.
