(* ===== verification/EvmAccounts.v ===== *)
(** The EVM accounts pallet ([modules/evm-accounts/src/lib.rs]): an account
    claims an EVM address with a signature of that address, and the address is
    mapped to it from then on; an unclaimed address is mapped to an account
    padded from its bytes. *)

From Stdlib Require Import ZArith Lia.
From stdpp Require Import base option list gmap fin_maps.
From S2P Require Import Prelude Interfaces Ethereum.
#[local] Open Scope Z_scope.

#[export] Instance EthereumAddress_countable : Countable EthereumAddress.
Proof. by apply (inj_countable' address_bytes (λ l, {| address_bytes := l |})); intros []. Defined.

Abbreviation EvmAddress := EthereumAddress (only parsing).

(** The accounts of the system pallet, as this pallet uses them.  Merging and
    killing can reap accounts: the system pallet then calls
    [OnKilledAccount::on_killed_account] for each of them, so both return the
    accounts they reaped. *)
Class SystemAccounts := {
  system : Type;
  account_exists : AccountId → system → bool;
  account_nonce : AccountId → system → Z;
  put_nonce : AccountId → Z → system → system;
  merge_account : AccountId → AccountId → system → option (list AccountId * system);
  kill_account : AccountId → system → list AccountId * system;
  account_of_bytes : bytes → AccountId;
}.

(** [AccountId32::from] keeps the bytes. *)
Class SystemAccountsLaws `{SystemAccounts} := {
  account_of_bytes_inj l k :
    length l = 32%nat → length k = 32%nat → Forall is_byte l → Forall is_byte k →
    account_of_bytes l = account_of_bytes k → l = k;
}.

Inductive EvmError :=
  | AccountIdHasMapped | EthAddressHasMapped | BadSignature | InvalidSignature
  | NonZeroRefCount | StillHasActiveReserved
  (* errors of the frame system and of [MergeAccount] *)
  | EvmBadOrigin | MergeFailed.

Inductive EvmEvent := ClaimAccount (who : AccountId) (e : EvmAddress).

Section Storage.
Context `{SystemAccounts}.

Record EvmStore := {
  accounts : gmap EvmAddress AccountId;
  evm_addresses : gmap AccountId EvmAddress;
  e_system : system;
  e_events : list EvmEvent;
}.

#[export] Instance EvmStore_eta : Eta EvmStore := λ s, {|
  accounts := accounts s;
  evm_addresses := evm_addresses s;
  e_system := e_system s;
  e_events := e_events s;
|}.
End Storage.

(** [b"glitch evm:"] *)
Definition evm_prefix : bytes := [103; 108; 105; 116; 99; 104; 32; 101; 118; 109; 58].

Section EvmAccounts.
Context `{EthereumCrypto, SystemAccounts}.

Abbreviation ECall := (M EvmStore EvmError).

Definition evm_signable_message (what extra : bytes) : bytes :=
  let l := Z.of_nat (length evm_prefix + length what + length extra) in
  let rev_digits := digits_rev usize_digits l in
  message_header ++ reverse rev_digits ++ evm_prefix ++ what ++ extra.

Definition evm_recover (s : EcdsaSignature) (what extra : bytes) : option EvmAddress :=
  let msg := keccak_256 (evm_signable_message what extra) in
  pk ← secp256k1_ecdsa_recover (signature_bytes s) msg;
  Some {| address_bytes := drop 12 (keccak_256 pk) |}.

(** Signing, as a wallet does it: [secp256k1::PublicKey::from_secret_key] with its
    [serialize], and [secp256k1::sign] with the serialized signature and the
    recovery identifier. *)
Class Secp256k1 := {
  SecretKey : Type;
  public_key_serialize : SecretKey → bytes;
  secp256k1_sign : bytes → SecretKey → bytes * Z;
}.

(** The public key is recovered from a signature of a hash. *)
Class Secp256k1Laws `{Secp256k1} := {
  recover_signed msg secret :
    length msg = 32%nat →
    let '(sig, recovery_id) := secp256k1_sign msg secret in
    secp256k1_ecdsa_recover (sig ++ [recovery_id]) msg
    = Some (take 64 (drop 1 (public_key_serialize secret)));
}.

(** [serialize()[1..65]] *)
Definition eth_address `{Secp256k1} (secret : SecretKey) : EvmAddress :=
  {| address_bytes := drop 12 (keccak_256 (take 64 (drop 1 (public_key_serialize secret)))) |}.

Definition eth_sign `{Secp256k1} (secret : SecretKey) (what extra : bytes) : EcdsaSignature :=
  let msg := keccak_256 (evm_signable_message (to_ascii_hex what) extra) in
  let '(sig, recovery_id) := secp256k1_sign msg secret in
  {| signature_bytes := sig ++ [recovery_id] |}.

(** [b"evm:"], the address and eight zero bytes *)
Definition padded_bytes (e : EvmAddress) : bytes :=
  [101; 118; 109; 58] ++ address_bytes e ++ replicate 8 0.

Definition into_account_id (s : EvmStore) (e : EvmAddress) : AccountId :=
  match accounts s !! e with
  | Some acc => acc
  | None => account_of_bytes (padded_bytes e)
  end.

Definition on_killed_account (a : AccountId) : ECall unit :=
  gets id ≫= λ s,
  match evm_addresses s !! a with
  | Some evm_addr =>
      modify (λ s, s <| accounts ::= delete evm_addr |> <| evm_addresses ::= delete a |>)
  | None => mret tt
  end.

(** [T::MergeAccount::merge_account] and [T::KillAccount::killed], with the
    callbacks of the accounts they reap. *)
Definition merge (source dest : AccountId) : ECall unit :=
  gets id ≫= λ s,
  ok_or (merge_account source dest (e_system s)) MergeFailed ≫= λ '(reaped, w),
  modify (λ s, s <| e_system := w |>) ≫= λ _,
  for_each reaped on_killed_account.

Definition killed (a : AccountId) : ECall unit :=
  gets id ≫= λ s,
  modify (λ s, s <| e_system := snd (kill_account a (e_system s)) |>) ≫= λ _,
  for_each (fst (kill_account a (e_system s))) on_killed_account.

Definition merge_padded (who : AccountId) (eth_address : EvmAddress) : ECall Z :=
  gets id ≫= λ s,
  let account_id := into_account_id s eth_address in
  if account_exists account_id (e_system s) then
    merge account_id who ≫= λ _,
    gets id ≫= λ s,
    let nonce := account_nonce account_id (e_system s) in
    killed account_id ≫= λ _,
    mret nonce
  else mret 0.

Definition claim_account (o : Origin) (eth_address : EvmAddress) (eth_signature : EcdsaSignature)
    : ECall unit :=
  match o with
  | Signed who =>
      gets id ≫= λ s,
      ensure (evm_addresses s !! who = None) AccountIdHasMapped ≫= λ _,
      ensure (accounts s !! eth_address = None) EthAddressHasMapped ≫= λ _,
      transactional (
        ok_or (evm_recover eth_signature (to_ascii_hex (encode_account who)) []) BadSignature
          ≫= λ address,
        ensure (eth_address = address) InvalidSignature ≫= λ _,
        merge_padded who eth_address ≫= λ nonce,
        gets id ≫= λ s,
        when (account_nonce who (e_system s) < nonce)
          (modify (λ s, s <| e_system ::= put_nonce who nonce |>)) ≫= λ _,
        gets id ≫= λ s,
        modify (λ s', match evm_addresses s !! who with
                      | Some evm_addr => s' <| accounts ::= delete evm_addr |>
                      | None => s'
                      end) ≫= λ _,
        modify (λ s, s <| accounts ::= <[eth_address := who]> |>) ≫= λ _,
        modify (λ s, s <| evm_addresses ::= <[who := eth_address]> |>) ≫= λ _,
        modify (λ s, s <| e_events ::= cons (ClaimAccount who eth_address) |>))
  | _ => throw EvmBadOrigin
  end.

(** The two maps are inverse to each other. *)
Definition mapping_wf (s : EvmStore) : Prop :=
  ∀ e a, accounts s !! e = Some a ↔ evm_addresses s !! a = Some e.

(** What can happen to the storage: a claim, an account reaped by another
    pallet, and any change of the system accounts. *)
Inductive evm_step : EvmStore → EvmStore → Prop :=
  | step_claim o e sig s : evm_step s (run (claim_account o e sig) s)
  | step_reap a s : evm_step s (run (on_killed_account a) s)
  | step_system w s : evm_step s (s <| e_system := w |>).

(** * Lemmas *)

(** Reaping accounts keeps the maps inverse, and adds no entry. *)
Definition mapping_free who e s : Prop :=
  mapping_wf s ∧ evm_addresses s !! who = None ∧ accounts s !! e = None.

Lemma mapping_wf_delete a x s :
  mapping_wf s → evm_addresses s !! a = Some x →
  mapping_wf (s <| accounts ::= delete x |> <| evm_addresses ::= delete a |>).
Proof.
  intros Hwf Hx e b. cbn. rewrite !lookup_delete.
  pose proof (Hwf x a) as Hxa. pose proof (Hwf e b) as Heb. pose proof (Hwf x b).
  repeat case_decide; subst; naive_solver.
Qed.

Lemma mapping_wf_insert a x s :
  mapping_free a x s →
  mapping_wf (s <| accounts ::= <[x := a]> |> <| evm_addresses ::= <[a := x]> |>).
Proof.
  intros (Hwf & Ha & Hx) e b. cbn. rewrite !lookup_insert.
  pose proof (Hwf e b) as Heb. pose proof (Hwf e a). pose proof (Hwf x b).
  repeat case_decide; subst; naive_solver.
Qed.

Lemma on_killed_wf a : preserves mapping_wf (on_killed_account a).
Proof.
  apply preserves_wp. intros s Hwf. unfold on_killed_account. wp_auto; [|done].
  by apply mapping_wf_delete.
Qed.

Lemma on_killed_free a who e : preserves (mapping_free who e) (on_killed_account a).
Proof.
  apply preserves_wp. intros s (Hwf & Hw & He). unfold on_killed_account. wp_auto; [|done].
  split_and!; [by apply mapping_wf_delete|..]; cbn; rewrite lookup_delete; by case_decide.
Qed.

Lemma mapping_free_system who e s (f : system → system) :
  mapping_free who e s → mapping_free who e (s <| e_system ::= f |>).
Proof. done. Qed.

Lemma keeps_merge_padded who e x : preserves (mapping_free who e) (merge_padded who x).
Proof.
  unfold merge_padded, merge, killed, preserves. keeps_auto; apply on_killed_free.
Qed.

(** Reaping only removes entries. *)
Definition sub_mapping (s0 s : EvmStore) : Prop := accounts s ⊆ accounts s0.

Lemma on_killed_sub s0 a : preserves (sub_mapping s0) (on_killed_account a).
Proof.
  apply preserves_wp. intros s Hs. unfold on_killed_account. wp_auto; [|done].
  unfold sub_mapping in *. cbn. etrans; [apply delete_subseteq | done].
Qed.

Lemma keeps_merge_sub s0 who x : preserves (sub_mapping s0) (merge_padded who x).
Proof.
  unfold merge_padded, merge, killed, preserves. keeps_auto; apply on_killed_sub.
Qed.

(** An account that does not exist is not merged. *)
Lemma merge_padded_absent who e s :
  account_exists (into_account_id s e) (e_system s) = false → merge_padded who e s = (Ok 0, s).
Proof.
  intros Hex. unfold merge_padded. rewrite (bind_step _ _ s s s) by done.
  cbv beta zeta. by rewrite Hex.
Qed.

(** A claim succeeds only for an unmapped account and an unmapped address
    whose signature of the account is given; then the two are mapped to each
    other and the address resolves to the account, no other address is mapped
    anew, the maps stay inverse, and the system accounts are untouched when the
    padded account does not exist; a claim that fails changes nothing. *)
Theorem claim_account_correct o e sig s r s'
  (Hwf : mapping_wf s) (Hnonce : ∀ a, 0 ≤ account_nonce a (e_system s))
  (Hrun : claim_account o e sig s = (r, s')) :
  mapping_wf s' ∧
  match r with
  | Ok _ => ∃ who, o = Signed who ∧
      evm_addresses s !! who = None ∧ accounts s !! e = None ∧
      evm_recover sig (to_ascii_hex (encode_account who)) [] = Some e ∧
      accounts s' !! e = Some who ∧ evm_addresses s' !! who = Some e ∧
      into_account_id s' e = who ∧ delete e (accounts s') ⊆ accounts s ∧
      (account_exists (into_account_id s e) (e_system s) = false → e_system s' = e_system s)
  | Err _ => s' = s
  end.
Proof.
  pattern r, s'. revert Hrun. apply wp_elim. unfold claim_account. wp_auto; try done.
  match goal with Hw : evm_addresses s !! _ = None, He : accounts s !! _ = None |- _ =>
    rename Hw into Hwho, He into Heth end.
  subst. match goal with He : evm_recover _ _ _ = Some ?x |- _ => rename x into e end.
  set (Q := λ (r : result EvmError Z) s1, mapping_free who e s1 ∧ sub_mapping s s1 ∧
    (account_exists (into_account_id s e) (e_system s) = false → r = Ok 0 ∧ s1 = s)).
  assert (wp (merge_padded who e) s Q) as Hmerge.
  { split_and!.
    - apply (preserves_run _ _ _ (keeps_merge_padded who e e)). by split_and!.
    - apply (preserves_run _ _ _ (keeps_merge_sub s who e)). unfold sub_mapping. done.
    - intros Hex. by rewrite merge_padded_absent. }
  eapply wp_mono; [exact Hmerge|]. intros [nonce|err] s1 (Hfree & Hsub & Habs); [|done].
  assert (evm_addresses s1 !! who = None) as Hw1 by apply Hfree.
  wp_auto; cbn; rewrite Hw1; cbn.
  all: split; [by apply mapping_wf_insert|]; exists who; cbn.
  all: unfold into_account_id at 1; cbn; rewrite !lookup_insert_eq.
  all: split_and!; try done.
  all: try (rewrite delete_insert_eq; etrans; [apply delete_subseteq | exact Hsub]).
  all: intros Hex; destruct (Habs Hex) as [[= ->] ->]; try done.
  specialize (Hnonce who). cbn in *. lia.
Qed.

(** ** Signed claims *)

(** Reaping cannot fail, so that only the merge itself can. *)
Lemma on_killed_ok a : always_ok (on_killed_account a).
Proof. intros s. unfold on_killed_account, gets, mbind, M_bind. cbn. destruct (evm_addresses s !! a); eauto. Qed.

Lemma merge_padded_ok who e s :
  (account_exists (into_account_id s e) (e_system s) = true →
    is_Some (merge_account (into_account_id s e) who (e_system s))) →
  wp (merge_padded who e) s (λ r _, ∃ nonce, r = Ok nonce).
Proof.
  intros Hmerge. unfold merge_padded, merge, killed. apply wp_get. cbn [id]. cbn zeta.
  destruct (account_exists _ _); [|by apply wp_ret; eauto].
  destruct (Hmerge eq_refl) as [[reaped w] Hm].
  apply wp_bind, wp_get. cbn [id]. rewrite Hm. apply wp_bind, wp_ret, wp_bind, wp_modify.
  assert (∀ l, always_ok (for_each l on_killed_account)) as Hall by (intros l; apply always_ok_for_each, on_killed_ok).
  match goal with |- wp (for_each ?l _) ?t _ => destruct (Hall l t) as ([] & t' & Heq) end.
  apply (wp_run _ _ _ _ _ Heq), wp_get. cbn [id]. apply wp_bind, wp_get, wp_bind, wp_modify. cbn [id].
  match goal with |- wp (for_each ?l _) ?u _ => destruct (Hall l u) as ([] & u' & Hequ) end.
  apply (wp_run _ _ _ _ _ Hequ), wp_ret. eauto.
Qed.

(** The address of a key is recovered from what the key signed. *)
Lemma recover_eth_sign `{!EthereumCryptoLaws, Secp256k1, !Secp256k1Laws} secret what extra :
  evm_recover (eth_sign secret what extra) (to_ascii_hex what) extra = Some (eth_address secret).
Proof.
  unfold evm_recover, eth_sign, eth_address. cbn zeta.
  set (msg := keccak_256 _). pose proof (recover_signed msg secret (keccak_256_length _)) as Hrec.
  destruct (secp256k1_sign msg secret) as [sig v]. cbn [signature_bytes]. by rewrite Hrec.
Qed.

(** C34: The owner of a key can claim its address: the signature of the account
    by the key recovers the address of the key, the claim of an account and an
    address that are not mapped succeeds with it, if the balance of the padded
    account can be merged when there is one, and the address resolves to the
    account from then on. *)
Theorem signed_claim_accepted `{!EthereumCryptoLaws, Secp256k1, !Secp256k1Laws} secret who s
    (Hwho : evm_addresses s !! who = None) (Haddr : accounts s !! eth_address secret = None)
    (Hmerge : account_exists (into_account_id s (eth_address secret)) (e_system s) = true →
      is_Some (merge_account (into_account_id s (eth_address secret)) who (e_system s))) :
  let sig := eth_sign secret (encode_account who) [] in
  evm_recover sig (to_ascii_hex (encode_account who)) [] = Some (eth_address secret) ∧
  ∃ s', claim_account (Signed who) (eth_address secret) sig s = (Ok tt, s') ∧
    into_account_id s' (eth_address secret) = who ∧
    evm_addresses s' !! who = Some (eth_address secret).
Proof.
  intros sig. pose proof (recover_eth_sign secret (encode_account who) []) as Hrec. fold sig in Hrec.
  split; [exact Hrec|]. clearbody sig. set (e := eth_address secret) in *. clearbody e.
  set (Q := λ (r : result EvmError unit) s', r = Ok tt ∧ into_account_id s' e = who
    ∧ evm_addresses s' !! who = Some e).
  enough (wp (claim_account (Signed who) e sig) s Q) as Hwp.
  { unfold wp in Hwp. destruct (claim_account (Signed who) e sig s) as [r s'].
    destruct Hwp as (Hr & Hid & Hev). exists s'. by rewrite <- Hr. }
  unfold claim_account. pose proof (merge_padded_ok who e s Hmerge) as Hok. wp_auto; try congruence.
  eapply wp_mono; [exact Hok|]. intros r s1 [nonce ->].
  wp_auto; split_and!; try done; cbn; unfold into_account_id; cbn; by rewrite lookup_insert_eq.
Qed.

(** ** Resolving addresses *)

Definition address_ok (e : EvmAddress) : Prop :=
  length (address_bytes e) = 20%nat ∧ Forall is_byte (address_bytes e).

Lemma padded_inj `{!SystemAccountsLaws} e e' :
  address_ok e → address_ok e' →
  account_of_bytes (padded_bytes e) = account_of_bytes (padded_bytes e') → e = e'.
Proof.
  intros [Hl Hb] [Hl' Hb'] Heq.
  assert (∀ x, address_ok x → length (padded_bytes x) = 32%nat ∧ Forall is_byte (padded_bytes x)) as Hp.
  { intros x [Hlx Hbx]. unfold padded_bytes. split.
    - rewrite !length_app, Hlx. done.
    - unfold is_byte in *. apply Forall_app. split; [repeat (constructor; [lia|]); constructor|].
      apply Forall_app. split; [done|]. apply Forall_replicate. lia. }
  apply account_of_bytes_inj in Heq; try by apply Hp.
  unfold padded_bytes in Heq. apply (inj (app _)) in Heq. apply (inj (λ l, l ++ _)) in Heq.
  destruct e, e'. cbn in *. by subst.
Qed.

Lemma keeps_claim_account o e sig : preserves mapping_wf (claim_account o e sig).
Proof.
  apply preserves_wp. intros s Hwf. unfold claim_account. wp_auto; try done.
  match goal with Hw : evm_addresses s !! ?a = None, He : accounts s !! _ = None |- _ =>
    rename Hw into Hwho, He into Heth, a into who end.
  eapply wp_mono; [apply (wp_preserves _ _ _ (keeps_merge_padded who e e)); by split_and!|].
  intros [nonce|err] s1 Hfree; [|done]. destruct Hfree as (Hwf1 & Hw1 & He1).
  wp_auto; cbn; rewrite Hw1; by apply mapping_wf_insert.
Qed.

Lemma evm_step_wf s s' : evm_step s s' → mapping_wf s → mapping_wf s'.
Proof.
  intros [o e sig s0|a s0|w s0] Hwf; [| |done].
  - by apply (preserves_run _ _ _ (keeps_claim_account o e sig)).
  - by apply (preserves_run _ _ _ (on_killed_wf a)).
Qed.

(** C33: in every storage the pallet can reach from an empty one, accounts and
    addresses are mapped one to one, and two addresses resolve to the same
    account only when the account that claimed one of them is the padded account
    of the other, which is not claimed. *)
Theorem resolve_injective `{!SystemAccountsLaws} s0 s
  (Hempty : accounts s0 = ∅ ∧ evm_addresses s0 = ∅) (Hreach : rtc evm_step s0 s) :
  mapping_wf s ∧
  ∀ e e', address_ok e → address_ok e' → e ≠ e' → into_account_id s e = into_account_id s e' →
    accounts s !! e = Some (account_of_bytes (padded_bytes e')) ∧ accounts s !! e' = None ∨
    accounts s !! e' = Some (account_of_bytes (padded_bytes e)) ∧ accounts s !! e = None.
Proof.
  assert (mapping_wf s) as Hwf.
  { assert (mapping_wf s0) as H0wf by (destruct Hempty as [He Hv]; intros e a; by rewrite He, Hv, !lookup_empty).
    clear Hempty. induction Hreach as [|s1 s2 s3 Hstep _ IH]; [done|].
    by apply IH, (evm_step_wf _ _ Hstep). }
  split; [done|]. intros e e' He He' Hne. unfold into_account_id.
  destruct (accounts s !! e) as [a|] eqn:Ha, (accounts s !! e') as [a'|] eqn:Ha'; intros Heq; subst.
  - apply Hwf in Ha, Ha'. congruence.
  - by left.
  - by right.
  - by destruct Hne; apply padded_inj.
Qed.
End EvmAccounts.

(** * A concrete instance: nonces only, merging moves nothing and reaps the
    source, killing does nothing *)

Fixpoint le_value (l : bytes) : Z :=
  match l with [] => 0 | b :: l' => b + 256 * le_value l' end.

Lemma le_value_inj l k :
  length l = length k → Forall is_byte l → Forall is_byte k → le_value l = le_value k → l = k.
Proof.
  intros Hlen Hl. revert k Hlen. induction Hl as [|b l Hb Hl IH]; intros [|c k] Hlen Hk Heq; try done.
  apply Forall_cons in Hk as [Hc Hk]. unfold is_byte in *. cbn in Heq, Hlen.
  assert (le_value l = le_value k ∧ b = c) as [Hv ->] by lia.
  f_equal. apply IH; [lia | done | done].
Qed.

Definition TestSystem : SystemAccounts := {|
  system := gmap AccountId Z;
  account_exists a w := bool_decide (is_Some (w !! a));
  account_nonce a w := default 0 (w !! a);
  put_nonce a n w := <[a := n]> w;
  merge_account a _ w := Some ([a], w);
  kill_account a w := ([], delete a w);
  account_of_bytes := le_value;
|}.

Lemma TestSystem_laws : @SystemAccountsLaws TestSystem.
Proof.
  split. cbn. intros l k Hl Hk Hbl Hbk. apply le_value_inj; [congruence | done | done].
Qed.

(** Keys are bytes; the public key repeats the byte, and a signature carries
    the public key. *)
Definition TestSecp256k1 : @Secp256k1 := {|
  SecretKey := Z;
  public_key_serialize k := 4 :: replicate 64 k;
  secp256k1_sign _ k := (replicate 64 k, 0);
|}.

Lemma TestSecp256k1_laws : @Secp256k1Laws TestEthereum TestSecp256k1.
Proof.
  split. intros msg k _. cbn [secp256k1_sign secp256k1_ecdsa_recover TestSecp256k1 TestEthereum].
  rewrite decide_False by done. reflexivity.
Qed.

Section Examples.
#[local] Existing Instances TestEthereum TestSystem.

Definition evm_start : EvmStore :=
  {| accounts := ∅; evm_addresses := ∅; e_system := {[7 := 1]}; e_events := [] |}.
Definition evm_sig : EcdsaSignature := {| signature_bytes := replicate 65 5 |}.
Definition evm_addr : EvmAddress := {| address_bytes := replicate 20 5 |}.

Lemma evm_start_nonces a : 0 ≤ account_nonce a (e_system evm_start).
Proof.
  cbn. rewrite lookup_singleton. by case_decide.
Qed.

Lemma claim_account_correct_witness :
  fst (claim_account (Signed 7) evm_addr evm_sig evm_start) = Ok tt ∧
  into_account_id (run (claim_account (Signed 7) evm_addr evm_sig) evm_start) evm_addr = 7.
Proof.
  assert (fst (claim_account (Signed 7) evm_addr evm_sig evm_start) = Ok tt) as Hok
    by (vm_compute; reflexivity).
  split; [exact Hok|].
  assert (mapping_wf evm_start) as Hwf by (intros e a; cbn; by rewrite !lookup_empty).
  pose proof (claim_account_correct (Signed 7) evm_addr evm_sig evm_start (Ok tt) _ Hwf
    evm_start_nonces (run_result _ _ _ Hok)) as (_ & who & Hwho & _ & _ & _ & _ & _ & Hid & _).
  injection Hwho as <-. exact Hid.
Defined.

Lemma resolve_injective_witness :
  let s := run (claim_account (Signed 7) evm_addr evm_sig) evm_start in
  accounts s !! evm_addr = Some 7 ∧ mapping_wf s.
Proof.
  split; [by vm_compute|].
  apply (resolve_injective (H1 := TestSystem_laws) evm_start).
  - done.
  - apply rtc_once, step_claim.
Defined.

(** The padded account of the key's address is in use: it is merged, and the
    claiming account goes on with its nonce. *)
#[local] Existing Instances TestEthereum_laws TestSecp256k1 TestSecp256k1_laws.
Definition test_key : SecretKey := 9.
Definition evm_padded : AccountId := account_of_bytes (padded_bytes (eth_address test_key)).
Definition evm_busy : EvmStore := evm_start <| e_system ::= insert evm_padded 3 |>.

Lemma signed_claim_accepted_witness :
  ∃ s', claim_account (Signed 7) (eth_address test_key) (eth_sign test_key (encode_account 7) []) evm_busy = (Ok tt, s')
    ∧ into_account_id s' (eth_address test_key) = 7 ∧ account_exists evm_padded (e_system evm_busy) = true.
Proof.
  destruct (signed_claim_accepted test_key 7 evm_busy) as (_ & s' & Hclaim & Hid & _).
  - reflexivity.
  - reflexivity.
  - intros _. eexists. reflexivity.
  - exists s'. split; [exact Hclaim|]. split; [exact Hid | vm_compute; reflexivity].
Defined.

Example signed_claim_nonce :
  account_nonce 7 (e_system (run (claim_account (Signed 7) (eth_address test_key)
    (eth_sign test_key (encode_account 7) [])) evm_busy)) = 3.
Proof. vm_compute. reflexivity. Qed.
End Examples.
