(* ===== verification/Revenue.v ===== *)
(** The small pallets around the reward fund: the fund itself
    ([frame/pallet-fund/src/lib.rs]), the wallet that feeds it
    ([frame/pallet-revenue-fund/src/lib.rs]), and the white list of the revenue
    programme ([frame/pallet-revenue/src/lib.rs]). *)

From Stdlib Require Import ZArith Lia.
From stdpp Require Import base option list gmap fin_maps.
From S2P Require Import Prelude Interfaces Ethereum EvmAccounts.
#[local] Open Scope Z_scope.

(** [Currency::make_free_balance_be]: the genesis of both pallets gives their
    account the least balance an account can have. *)
Class MakeFreeBalance `{Currency} := make_free_balance_be : AccountId → Z → cur → cur.

(** * The reward fund *)
Module Fund.
Section Fund.
Context `{Currency}.

Inductive FundEvent := SpendFund (v : Z).

Record FundStore := { f_currency : cur; f_events : list FundEvent }.

(** [OnUnbalanced::on_nonzero_unbalanced] of a positive imbalance: the event is
    deposited and the imbalance is dropped when the function returns. *)
Definition fund_on_nonzero_unbalanced (amount : Z) (s : FundStore) : FundStore :=
  {| f_currency := drop_positive amount (f_currency s);
     f_events := SpendFund amount :: f_events s |}.

(** [GenesisConfig::build] *)
Definition fund_genesis `{!MakeFreeBalance} (account_id : AccountId) (s : FundStore) : FundStore :=
  {| f_currency := make_free_balance_be account_id minimum_balance (f_currency s);
     f_events := f_events s |}.
End Fund.
End Fund.

(** * The wallet *)
Module Wallet.

(** [PALLET_ID] and [reward_fund_id] *)
Class Accounts := { account_id : AccountId; reward_fund_id : AccountId }.

Inductive WalletEvent :=
  | DonationReceived (donor : AccountId) (amount pot : Z)
  | RewardReceived (amount : Z).

Inductive WalletError := BadOrigin | CannotDonate.

Section Wallet.
Context `{Currency, Accounts}.

Record WalletStore := { w_currency : cur; w_events : list WalletEvent }.

#[export] Instance WalletStore_eta : Eta WalletStore := λ s, {|
  w_currency := w_currency s; w_events := w_events s |}.

(** [GenesisConfig::build] *)
Definition wallet_genesis `{!MakeFreeBalance} (s : WalletStore) : WalletStore :=
  s <| w_currency ::= make_free_balance_be account_id minimum_balance |>.

Definition pot (s : WalletStore) : Z := free_balance account_id (w_currency s).

Definition donate (o : Origin) (amount : Z) : M WalletStore WalletError unit :=
  match o with
  | Signed donor =>
      gets id ≫= λ s,
      ok_or (transfer donor account_id amount AllowDeath (w_currency s)) CannotDonate ≫= λ c,
      modify (λ s, s <| w_currency := c |>) ≫= λ _,
      modify (λ s, s <| w_events ::= cons (DonationReceived donor amount (pot s)) |>)
  | _ => throw BadOrigin
  end.

Definition triger (o : Origin) : M WalletStore WalletError unit :=
  match o with
  | Signed _ =>
      gets id ≫= λ s,
      let amount := pot s in
      ok_or (transfer account_id reward_fund_id amount AllowDeath (w_currency s)) CannotDonate
        ≫= λ c,
      modify (λ s, s <| w_currency := c |>) ≫= λ _,
      modify (λ s, s <| w_events ::= cons (RewardReceived amount) |>)
  | _ => throw BadOrigin
  end.

(** [RevenueWallet::trigger_wallet]: the result of the transfer is ignored. *)
Definition revenue_trigger_wallet (s : WalletStore) : WalletStore :=
  let amount := pot s in
  if decide (0 < amount) then
    let c := default (w_currency s)
      (transfer account_id reward_fund_id amount AllowDeath (w_currency s)) in
    {| w_currency := c; w_events := RewardReceived amount :: w_events s |}
  else s.
End Wallet.
End Wallet.

(** * The white list *)
Module WhiteList.

Inductive ListEvent :=
  | AddressAdded (a : EthereumAddress)
  | AddressRemoved (a : EthereumAddress)
  | AddressExisted (a : EthereumAddress)
  | AddressNotExisted (a : EthereumAddress).

Inductive ListError := BadOrigin | NoPermission.

Record ListStore := {
  whitelist : gmap EthereumAddress bool;
  admin_address : option (option AccountId);
  l_events : list ListEvent;
}.

#[export] Instance ListStore_eta : Eta ListStore := λ s, {|
  whitelist := whitelist s; admin_address := admin_address s; l_events := l_events s |}.

Definition add_address (a : EthereumAddress) : M ListStore ListError unit :=
  gets id ≫= λ s,
  match whitelist s !! a with
  | Some _ => modify (λ s, s <| l_events ::= cons (AddressExisted a) |>)
  | None =>
      modify (λ s, s <| whitelist ::= <[a := true]> |>) ≫= λ _,
      modify (λ s, s <| l_events ::= cons (AddressAdded a) |>)
  end.

Definition add_addresses (o : Origin) (addresses : list EthereumAddress) : M ListStore ListError unit :=
  match o with
  | Root => for_each addresses add_address
  | _ => throw BadOrigin
  end.

Definition remove_address (a : EthereumAddress) : M ListStore ListError unit :=
  gets id ≫= λ s,
  match whitelist s !! a with
  | None => modify (λ s, s <| l_events ::= cons (AddressNotExisted a) |>)
  | Some _ =>
      modify (λ s, s <| whitelist ::= delete a |>) ≫= λ _,
      modify (λ s, s <| l_events ::= cons (AddressRemoved a) |>)
  end.

Definition remove_addresses (o : Origin) (addresses : list EthereumAddress) : M ListStore ListError unit :=
  match o with
  | Root => for_each addresses remove_address
  | _ => throw BadOrigin
  end.

(** [RevenueWhiteList::is_in_white_list] *)
Definition is_in_white_list (s : ListStore) (a : EthereumAddress) : bool :=
  bool_decide (is_Some (whitelist s !! a)).
End WhiteList.

(** * Lemmas and theorems *)

Section WalletCorrect.
Context `{CurrencyLaws, !Wallet.Accounts}.
Import Wallet.

(** Triggering the wallet moves its whole balance to the reward fund and no
    other balance, so the fund never shrinks; a wallet with nothing in it stays as
    it is, and a refused transfer moves nothing, though the event is deposited. *)
Theorem trigger_wallet_correct s (Hne : account_id ≠ reward_fund_id) :
  let s' := revenue_trigger_wallet s in
  free_balance reward_fund_id (w_currency s) ≤ free_balance reward_fund_id (w_currency s') ∧
  (pot s = 0 → s' = s) ∧
  (0 < pot s → w_events s' = RewardReceived (pot s) :: w_events s) ∧
  (0 < pot s → transfer account_id reward_fund_id (pot s) AllowDeath (w_currency s) = None →
     w_currency s' = w_currency s) ∧
  (0 < pot s → transfer account_id reward_fund_id (pot s) AllowDeath (w_currency s) ≠ None →
     pot s' = 0 ∧
     free_balance reward_fund_id (w_currency s')
       = free_balance reward_fund_id (w_currency s) + pot s ∧
     ∀ b, b ≠ account_id → b ≠ reward_fund_id →
       free_balance b (w_currency s') = free_balance b (w_currency s)).
Proof.
  intros s'. subst s'. unfold revenue_trigger_wallet. case_decide as Hpot.
  2:{ split_and!; [done | done | lia..]. }
  destruct (transfer account_id reward_fund_id (pot s) AllowDeath (w_currency s)) as [c|] eqn:Ht; cbn.
  2:{ split_and!; [done | lia | done | done | done]. }
  destruct (transfer_spec _ _ _ _ _ _ Ht ltac:(lia)) as [_ Hb].
  assert (free_balance account_id c = 0) as Hw.
  { rewrite Hb, decide_True, decide_False by done. unfold pot. lia. }
  assert (free_balance reward_fund_id c = free_balance reward_fund_id (w_currency s) + pot s) as Hr.
  { rewrite Hb, decide_False, decide_True by done. lia. }
  split_and!; [lia | lia | done | done |]. intros _ _. split_and!; [done..|].
  intros b Hb1 Hb2. rewrite Hb, !decide_False by done. lia.
Qed.
End WalletCorrect.

Section WhiteListCorrect.
Import WhiteList.
Implicit Types (s : ListStore) (l : list EthereumAddress).

Lemma add_address_spec a s :
  ∃ s', add_address a s = (Ok tt, s') ∧
    ∀ b, is_in_white_list s' b = bool_decide (b = a) || is_in_white_list s b.
Proof.
  unfold add_address, is_in_white_list. rewrite (bind_step _ _ s s s) by done.
  destruct (whitelist s !! a) as [x|] eqn:Ha; (eexists; split; [done|]); intros b; cbn.
  - destruct (decide (b = a)) as [->|Hb];
      [by rewrite Ha, (bool_decide_eq_true_2 (a = a)) by done|].
    by rewrite (bool_decide_eq_false_2 (b = a)).
  - rewrite lookup_insert. destruct (decide (b = a)) as [->|Hb].
    + by rewrite decide_True, (bool_decide_eq_true_2 (a = a)) by done.
    + by rewrite decide_False, (bool_decide_eq_false_2 (b = a)) by done.
Qed.

Lemma remove_address_spec a s :
  ∃ s', remove_address a s = (Ok tt, s') ∧
    ∀ b, is_in_white_list s' b = bool_decide (b ≠ a) && is_in_white_list s b.
Proof.
  unfold remove_address, is_in_white_list. rewrite (bind_step _ _ s s s) by done.
  destruct (whitelist s !! a) as [x|] eqn:Ha; (eexists; split; [done|]); intros b; cbn.
  - rewrite lookup_delete. destruct (decide (b = a)) as [->|Hb].
    + by rewrite decide_True, (bool_decide_eq_false_2 (a ≠ a)) by tauto.
    + by rewrite decide_False, (bool_decide_eq_true_2 (b ≠ a)) by done.
  - destruct (decide (b = a)) as [->|Hb]; [by rewrite Ha, andb_false_r|].
    by rewrite (bool_decide_eq_true_2 (b ≠ a)).
Qed.

(** Only the root may change the white list; adding puts exactly the given
    addresses into it and removing takes exactly those out, whatever was in it
    before, and neither fails. *)
Theorem white_list_correct o l s :
  match o with
  | Root =>
      (∃ s', add_addresses o l s = (Ok tt, s') ∧
        ∀ b, is_in_white_list s' b = bool_decide (b ∈ l) || is_in_white_list s b) ∧
      (∃ s', remove_addresses o l s = (Ok tt, s') ∧
        ∀ b, is_in_white_list s' b = bool_decide (b ∉ l) && is_in_white_list s b)
  | _ => add_addresses o l s = (Err BadOrigin, s) ∧ remove_addresses o l s = (Err BadOrigin, s)
  end.
Proof.
  destruct o; [|done..]. cbn [add_addresses remove_addresses]. split; revert s.
  - induction l as [|a l IH]; intros s; cbn [for_each]; [by exists s|].
    destruct (add_address_spec a s) as (s1 & Hs1 & Hb1). destruct (IH s1) as (s2 & Hs2 & Hb2).
    exists s2. rewrite (bind_step _ _ _ _ _ Hs1). split; [done|]. intros b. rewrite Hb2, Hb1.
    repeat case_bool_decide; set_solver.
  - induction l as [|a l IH]; intros s; cbn [for_each].
    { exists s. split; [done|]. intros b. by rewrite bool_decide_eq_true_2 by set_solver. }
    destruct (remove_address_spec a s) as (s1 & Hs1 & Hb1). destruct (IH s1) as (s2 & Hs2 & Hb2).
    exists s2. rewrite (bind_step _ _ _ _ _ Hs1). split; [done|]. intros b. rewrite Hb2, Hb1.
    repeat case_bool_decide; set_solver.
Qed.
End WhiteListCorrect.

Section Examples.
#[local] Existing Instances TestCurrency.
Definition ex_accounts : Wallet.Accounts :=
  {| Wallet.account_id := 5; Wallet.reward_fund_id := 6 |}.
#[local] Existing Instance ex_accounts.

Definition ex_wallet : Wallet.WalletStore :=
  {| Wallet.w_currency := TestCur {[5 := 40; 6 := 2]} 42 ∅; Wallet.w_events := [] |}.

Lemma trigger_wallet_correct_witness :
  free_balance 6 (Wallet.w_currency (Wallet.revenue_trigger_wallet ex_wallet)) = 42 ∧
  Wallet.w_events (Wallet.revenue_trigger_wallet ex_wallet) = [Wallet.RewardReceived 40] ∧
  free_balance 6 (Wallet.w_currency ex_wallet)
    ≤ free_balance 6 (Wallet.w_currency (Wallet.revenue_trigger_wallet ex_wallet)).
Proof.
  split_and!; [by vm_compute..|].
  apply (@trigger_wallet_correct TestCurrency TestCurrency_laws ex_accounts ex_wallet). done.
Defined.

Definition ex_white : WhiteList.ListStore :=
  {| WhiteList.whitelist := ∅; WhiteList.admin_address := None; WhiteList.l_events := [] |}.

Lemma white_list_correct_witness :
  let a := EthereumAddress_default in
  ∃ s', WhiteList.add_addresses Root [a] ex_white = (Ok tt, s') ∧
        WhiteList.is_in_white_list s' a = true.
Proof.
  destruct (white_list_correct Root [EthereumAddress_default] ex_white)
    as ((s' & Hs' & Hb) & _).
  exists s'. split; [exact Hs'|]. rewrite Hb. done.
Defined.
End Examples.
