(* ===== verification/EraClock.v ===== *)
(** The clock of the eras: an abstract account of how sessions plan, start and
    forget eras and of the rewards that are not claimed yet.  [FundSolvency]
    shows that the session hooks of the staking pallet follow it. *)

From Stdlib Require Import ZArith Lia.
From stdpp Require Import base option list gmap fin_maps.
From S2P Require Import Prelude Interfaces.
#[local] Open Scope Z_scope.

(** The planned era, the active one, the session each planned era starts at,
    the number of eras kept in the history, and the rewards left of each era. *)
Record Clock := {
  unclaimed : gmap EraIndex Z;
  planned : option EraIndex;
  activated : option EraIndex;
  starts : gmap EraIndex SessionIndex;
  depth : Z;
}.

#[export] Instance Clock_eta : Eta Clock := λ d, {|
  unclaimed := unclaimed d; planned := planned d; activated := activated d;
  starts := starts d; depth := depth d |}.

(** * Transitions *)

Definition next_era (o : option EraIndex) : EraIndex :=
  match o with Some e => wadd 32 e 1 | None => 0 end.

Definition forget (e : EraIndex) (d : Clock) : Clock :=
  d <| unclaimed ::= delete e |> <| starts ::= delete e |>.

Definition forget_all (l : list EraIndex) (d : Clock) : Clock := foldl (λ d e, forget e d) d l.

(** A new era is planned to start at session [i]; the era that leaves the
    history is forgotten. *)
Definition plan (i : SessionIndex) (d : Clock) : Clock :=
  let e := next_era (planned d) in
  let d' := d <| planned := Some e |> <| starts ::= insert e i |> in
  match checked_sub e (wadd 32 (depth d) 1) with
  | Some old => forget old d'
  | None => d'
  end.

(** The next era becomes active when session [i] reaches its start. *)
Definition activate (i : SessionIndex) (d : Clock) : Clock :=
  match starts d !! next_era (activated d) with
  | Some st => if decide (st ≤ i) then d <| activated := Some (next_era (activated d)) |> else d
  | None => d
  end.

Definition set_depth (n : Z) (d : Clock) : Clock :=
  match planned d with
  | Some ce =>
      (forget_all (seqZ (sat_sub ce (depth d)) (sat_sub ce n - sat_sub ce (depth d))) d)
        <| depth := n |>
  | None => d
  end.

Definition promise (e : EraIndex) (v : Z) (d : Clock) : Clock := d <| unclaimed ::= insert e v |>.

(** The number of the last planned and of the active era, [-1] for none. *)
Definition plan_no (d : Clock) : Z := default (-1) (planned d).
Definition active_no (d : Clock) : Z := default (-1) (activated d).

(** * The invariant

    In session [i] the planned era is the active one or the next one, whose
    start is known, and rewards are left only for eras of the history that
    were active. *)
Record clock_ok (i : SessionIndex) (d : Clock) : Prop := {
  ck_depth : 1 ≤ depth d < umax 32;
  ck_active e : activated d = Some e → 0 ≤ e;
  ck_order : active_no d ≤ plan_no d ≤ active_no d + 1;
  ck_starts e st : starts d !! e = Some st → 0 ≤ e ≤ plan_no d ∧ st ≤ i + 1;
  ck_next : plan_no d = active_no d + 1 → is_Some (starts d !! plan_no d);
  ck_rewards e v : unclaimed d !! e = Some v →
    0 ≤ v ∧ 0 ≤ e ∧ plan_no d - depth d ≤ e ≤ active_no d;
  ck_planned e : planned d = Some e → 0 ≤ e;
}.

Lemma plan_no_next d : -1 ≤ plan_no d → plan_no d < umax 32 → next_era (planned d) = plan_no d + 1.
Proof.
  unfold plan_no, next_era. destruct (planned d); cbn; [|done]. intros. apply wadd_small. ulia.
Qed.

Lemma active_no_next d :
  -1 ≤ active_no d → active_no d < umax 32 → next_era (activated d) = active_no d + 1.
Proof.
  unfold active_no, next_era. destruct (activated d); cbn; [|done]. intros. apply wadd_small. ulia.
Qed.

Lemma clock_active_no i d : clock_ok i d → -1 ≤ active_no d.
Proof.
  intros [_ Ha _ _ _ _ _]. unfold active_no. destruct (activated d) as [e|]; cbn; [|lia].
  specialize (Ha e eq_refl). lia.
Qed.

(** The session changes its number, the clock only has more time. *)
Lemma clock_ok_later i j d : i ≤ j → clock_ok i d → clock_ok j d.
Proof.
  intros Hij [Hd Hp Ho Hs Hn Hr Hpl]. split; try done.
  intros e st He. apply Hs in He. lia.
Qed.

(** The active era ends: its successor is planned. *)
Lemma clock_ending i d e :
  clock_ok i d → activated d = Some e → is_Some (starts d !! next_era (Some e)) →
  plan_no d < umax 32 → 0 ≤ e ∧ active_no d = e ∧ plan_no d = e + 1.
Proof.
  intros Hd Hact [st Hst] Hmax. pose proof (clock_active_no _ _ Hd).
  destruct Hd as [_ Ha Ho Hs _ _ _]. specialize (Ha e Hact).
  assert (active_no d = e) as He by (unfold active_no; by rewrite Hact).
  rewrite <- Hact, active_no_next in Hst by lia. apply Hs in Hst. lia.
Qed.

Lemma clock_promise i d e v :
  clock_ok i d → activated d = Some e → is_Some (starts d !! next_era (Some e)) →
  plan_no d < umax 32 → 0 ≤ v → clock_ok i (promise e v d).
Proof.
  intros Hd Hact Hst Hmax Hv. destruct (clock_ending i d e Hd Hact Hst Hmax) as (He & Ha & Hp).
  destruct Hd as [Hdep Hpos Ho Hs Hn Hr Hpl]. split; try done. intros e' v'.
  change (plan_no (promise e v d)) with (plan_no d).
  change (active_no (promise e v d)) with (active_no d).
  change (depth (promise e v d)) with (depth d).
  cbn. intros [[<- <-]|[Hne Hv']]%lookup_insert_Some; [lia | by apply Hr in Hv'].
Qed.

(** A part of a reward is claimed. *)
Lemma clock_claim i d e v :
  clock_ok i d → is_Some (unclaimed d !! e) → 0 ≤ v → clock_ok i (promise e v d).
Proof.
  intros [Hdep Hpos Ho Hs Hn Hr Hpl] [u Hu] Hv. split; try done. intros e' v'.
  change (plan_no (promise e v d)) with (plan_no d).
  change (active_no (promise e v d)) with (active_no d).
  change (depth (promise e v d)) with (depth d).
  cbn. intros [[<- <-]|[Hne Hv']]%lookup_insert_Some; [apply Hr in Hu; lia | by apply Hr in Hv'].
Qed.

(** The start of a session catches up with the plan. *)
Lemma clock_activate i d :
  clock_ok i d → plan_no d < umax 32 →
  clock_ok (i + 1) (activate (i + 1) d) ∧ active_no (activate (i + 1) d) = plan_no d
  ∧ planned (activate (i + 1) d) = planned d ∧ unclaimed (activate (i + 1) d) = unclaimed d.
Proof.
  intros Hd Hmax. pose proof (clock_active_no _ _ Hd) as Hge.
  pose proof Hd as [Hdep Ha Ho Hs Hn Hr Hpl]. unfold activate.
  rewrite active_no_next by lia.
  destruct (starts d !! (active_no d + 1)) as [st|] eqn:Hst.
  - pose proof (Hs _ _ Hst) as [Hle Hi]. rewrite decide_True by lia.
    assert (plan_no d = active_no d + 1) as Hp by lia.
    set (d2 := d <| activated := Some (active_no d + 1) |>).
    assert (active_no d2 = plan_no d) as Ha2 by (cbn; lia).
    split_and!; [|done..]. split; rewrite ?Ha2; try done; try lia.
    + intros e [= <-]. lia.
    + change (plan_no d2) with (plan_no d). lia.
    + intros e st' He. apply Hs in He. change (plan_no d2) with (plan_no d). lia.
    + change (plan_no d2) with (plan_no d). lia.
    + intros e v He. apply Hr in He. change (plan_no d2) with (plan_no d).
      change (depth d2) with (depth d). lia.
  - destruct (decide (plan_no d = active_no d + 1)) as [Hp|Hp].
    { destruct (Hn Hp) as [st Hst']. congruence. }
    split_and!; [|lia|done..]. apply (clock_ok_later i); [lia | done].
Qed.

Lemma clock_forget i d e :
  e < plan_no d → clock_ok i d → clock_ok i (forget e d).
Proof.
  intros He [Hdep Ha Ho Hs Hn Hr Hpl]. split; try done;
    change (plan_no (forget e d)) with (plan_no d); change (active_no (forget e d)) with (active_no d).
  - cbn. intros e' st [_ Hst]%lookup_delete_Some. by eapply Hs.
  - intros Hp. cbn. rewrite lookup_delete_ne by lia. by apply Hn.
  - cbn. intros e' v [_ Hv]%lookup_delete_Some. by eapply Hr.
Qed.

(** The new plan is for the era after the active one. *)
Lemma clock_plan i d :
  clock_ok i d → active_no d = plan_no d → plan_no d < umax 32 → clock_ok i (plan (i + 1) d).
Proof.
  intros Hd Hact Hmax. pose proof (clock_active_no _ _ Hd) as Hge.
  pose proof Hd as [Hdep Ha Ho Hs Hn Hr Hpl]. unfold plan. rewrite plan_no_next by lia.
  set (e := plan_no d + 1). rewrite wadd_small by ulia.
  set (d' := d <| planned := Some e |> <| starts ::= insert e (i + 1) |>).
  assert (∀ d2 : Clock, planned d2 = Some e → activated d2 = activated d → depth d2 = depth d →
    (∀ x v, unclaimed d2 !! x = Some v → unclaimed d !! x = Some v ∧ e - depth d ≤ x) →
    (∀ x st, starts d2 !! x = Some st → starts d' !! x = Some st) → starts d2 !! e = Some (i + 1) →
    clock_ok i d2) as Hgoal.
  { intros d2 H2p H2a H2d H2u H2s H2e.
    assert (plan_no d2 = e) as Hpe by (unfold plan_no; by rewrite H2p).
    assert (active_no d2 = active_no d) as Hae by (unfold active_no; by rewrite H2a).
    split; rewrite ?Hpe, ?Hae, ?H2d, ?H2a, ?H2p; try done; try (unfold e; lia).
    - intros x st Hx. apply H2s in Hx. cbn in Hx.
      apply lookup_insert_Some in Hx as [[<- <-]|[Hne Hx]]; [unfold e; lia|].
      apply Hs in Hx. unfold e. lia.
    - intros x v Hx. destruct (H2u _ _ Hx) as [Hx' ?]. apply Hr in Hx'. lia.
    - intros x [= <-]. unfold e. lia. }
  destruct (checked_sub e (depth d + 1)) as [old|] eqn:Hold.
  - apply checked_sub_Some in Hold as [Hle ->].
    apply Hgoal; try done; cbn.
    + intros x v [Hne Hx]%lookup_delete_Some. split; [done|]. apply Hr in Hx. unfold e in *. lia.
    + by intros x st [_ Hx]%lookup_delete_Some.
    + rewrite lookup_delete_ne by lia. by rewrite lookup_insert_eq.
  - assert (¬ depth d + 1 ≤ e).
    { intros Hle. unfold checked_sub in Hold. by destruct (decide _). }
    apply Hgoal; try done.
    + intros x v Hx. split; [done|]. apply Hr in Hx. unfold e in *. lia.
    + cbn. by rewrite lookup_insert_eq.
Qed.

(** Reading and forgetting several eras. *)
Lemma forget_all_spec l : ∀ d,
  let d' := forget_all l d in
  planned d' = planned d ∧ activated d' = activated d ∧ depth d' = depth d
  ∧ (∀ e, unclaimed d' !! e = if decide (e ∈ l) then None else unclaimed d !! e)
  ∧ (∀ e, starts d' !! e = if decide (e ∈ l) then None else starts d !! e).
Proof.
  induction l as [|a l IH]; intros d; cbn zeta.
  { split_and!; [done..| |]; intros e; by rewrite decide_False by apply not_elem_of_nil. }
  change (forget_all (a :: l) d) with (forget_all l (forget a d)).
  assert (∀ (x : option Z) e, (if decide (e ∈ l) then None else if decide (a = e) then None else x)
    = if decide (e ∈ a :: l) then None else x) as Hdec.
  { intros x e. destruct (decide (e ∈ l)); [by rewrite decide_True by (by right)|].
    destruct (decide (a = e)) as [->|]; [by rewrite decide_True by left|].
    rewrite decide_False; [done|]. intros [?|?]%elem_of_cons; congruence. }
  destruct (IH (forget a d)) as (-> & -> & -> & Hu & Hs). split_and!; [done..| |];
    intros e; rewrite ?Hu, ?Hs; cbn; rewrite lookup_delete; apply Hdec.
Qed.

Lemma clock_set_depth i n d :
  1 ≤ n < umax 32 → clock_ok i d → clock_ok i (set_depth n d).
Proof.
  intros Hn' Hd. pose proof Hd as [Hdep Ha Ho Hs Hn Hr Hpl]. unfold set_depth.
  destruct (planned d) as [ce|] eqn:Hce; [|done].
  assert (plan_no d = ce) as Hp by (unfold plan_no; by rewrite Hce).
  set (l := seqZ _ _). destruct (forget_all_spec l d) as (H1 & H2 & H3 & Hu & Hst).
  set (d2 := (forget_all l d) <| depth := n |>).
  assert (plan_no d2 = ce) as Hp2 by (unfold plan_no; cbn; by rewrite H1, Hce).
  assert (active_no d2 = active_no d) as Ha2 by (unfold active_no; cbn; by rewrite H2).
  split; rewrite ?Hp2, ?Ha2; try done.
  - intros e He. apply Ha. by rewrite <- H2.
  - lia.
  - intros e st He. change (starts d2) with (starts (forget_all l d)) in He. rewrite Hst in He.
    destruct (decide (e ∈ l)); [done|]. apply Hs in He. lia.
  - intros Heq. change (starts d2) with (starts (forget_all l d)). rewrite Hst.
    rewrite decide_False; [rewrite <- Hp; apply Hn; lia|].
    unfold l. rewrite elem_of_seqZ. pose proof (clock_active_no _ _ Hd). ulia.
  - intros e v He. change (unclaimed d2) with (unclaimed (forget_all l d)) in He. rewrite Hu in He.
    destruct (decide (e ∈ l)) as [|Hout]; [done|]. apply Hr in He. change (depth d2) with n.
    unfold l in Hout. rewrite elem_of_seqZ in Hout. ulia.
  - intros e He. apply Hpl. rewrite <- Hce, <- H1. exact He.
Qed.

(** * The first sessions

    The session pallet asks for the validators of the first two sessions and
    starts the first one. *)
Definition maybe_plan (b : bool) (i : SessionIndex) (d : Clock) : Clock := if b then plan i d else d.

Lemma clock_boot b0 b1 d :
  planned d = None → activated d = None → starts d = ∅ → unclaimed d = ∅ →
  1 ≤ depth d < umax 32 →
  clock_ok 0 (activate 0 (maybe_plan b1 1 (maybe_plan b0 0 d))).
Proof.
  destruct d as [u p a st dep]. cbn. intros -> -> -> -> Hdep.
  assert (∀ i, plan i {| unclaimed := ∅; planned := None; activated := None; starts := ∅; depth := dep |}
    = {| unclaimed := ∅; planned := Some 0; activated := None; starts := {[ 0 := i ]}; depth := dep |})
    as Hfirst.
  { intros i. unfold plan. cbn. rewrite wadd_small by ulia. unfold checked_sub.
    by rewrite decide_False by lia. }
  destruct b0, b1; cbn [maybe_plan]; rewrite ?Hfirst.
  - assert (plan 1 {| unclaimed := ∅; planned := Some 0; activated := None; starts := {[ 0 := 0 ]}; depth := dep |}
      = {| unclaimed := ∅; planned := Some 1; activated := None; starts := <[1 := 1]> {[ 0 := 0 ]}; depth := dep |}) as ->.
    { unfold plan. cbn. rewrite (wadd_small _ dep) by ulia. unfold checked_sub.
      change (wadd 32 0 1) with 1. by rewrite decide_False by lia. }
    unfold activate. cbn. rewrite lookup_insert_ne, lookup_singleton_eq by done.
    rewrite decide_True by lia.
    split; cbn; try done; try lia; unfold plan_no, active_no; cbn.
    + by intros e [= <-].
    + intros e st [[<- <-]|[_ [<- <-]%lookup_singleton_Some]]%lookup_insert_Some; lia.
    + by intros e [= <-].
  - unfold activate. cbn. rewrite lookup_singleton_eq, decide_True by lia.
    split; cbn; try done; try lia; unfold plan_no, active_no; cbn.
    + by intros e [= <-].
    + intros e st [<- <-]%lookup_singleton_Some; lia.
    + by intros e [= <-].
  - unfold activate. cbn. rewrite lookup_singleton_eq, decide_False by lia.
    split; cbn; try done; try lia; unfold plan_no, active_no; cbn.
    + intros e st [<- <-]%lookup_singleton_Some; lia.
    + by intros e [= <-].
  - unfold activate. cbn. rewrite lookup_empty. split; cbn; try done; try lia.
Qed.

(** * The rewards that are left *)

Definition outstanding (d : Clock) : Z := map_sum id (unclaimed d).

Lemma outstanding_delete (m : gmap EraIndex Z) e :
  map_sum id m = default 0 (m !! e) + map_sum id (delete e m).
Proof.
  destruct (m !! e) as [v|] eqn:He; [by rewrite (map_sum_delete _ m e v He)|].
  by rewrite delete_id.
Qed.

Lemma clock_rewards_nonneg i d : clock_ok i d → map_Forall (λ _ v, 0 ≤ v) (unclaimed d).
Proof. intros Hd e v He. cbn. destruct (ck_rewards i d Hd e v He). lia. Qed.

Lemma outstanding_forget d e :
  map_Forall (λ _ v, 0 ≤ v) (unclaimed d) → outstanding (forget e d) ≤ outstanding d.
Proof.
  intros Hd. unfold outstanding. rewrite (outstanding_delete (unclaimed d) e). cbn.
  destruct (unclaimed d !! e) as [v|] eqn:He; cbn; [|lia]. specialize (Hd e v He). cbn in Hd. lia.
Qed.

Lemma outstanding_forget_all l : ∀ d,
  map_Forall (λ _ v, 0 ≤ v) (unclaimed d) → outstanding (forget_all l d) ≤ outstanding d.
Proof.
  induction l as [|e l IH]; intros d Hd; [done|].
  change (forget_all (e :: l) d) with (forget_all l (forget e d)).
  assert (map_Forall (λ _ v, 0 ≤ v) (unclaimed (forget e d))) as He by (cbn; by apply map_Forall_delete).
  etrans; [by apply IH | by apply outstanding_forget].
Qed.

Lemma outstanding_set_depth d n :
  map_Forall (λ _ v, 0 ≤ v) (unclaimed d) → outstanding (set_depth n d) ≤ outstanding d.
Proof. intros Hd. unfold set_depth. destruct (planned d); [by apply outstanding_forget_all | done]. Qed.

Lemma outstanding_plan i d :
  map_Forall (λ _ v, 0 ≤ v) (unclaimed d) → outstanding (plan i d) ≤ outstanding d.
Proof.
  intros Hd. unfold plan. cbn zeta. destruct (checked_sub _ _) as [old|]; [|done].
  exact (outstanding_forget d old Hd).
Qed.

(** The sum over a list of eras that has all eras with a reward. *)
Lemma sum_over_keys l : ∀ m : gmap EraIndex Z,
  NoDup l → (∀ e, is_Some (m !! e) → e ∈ l) →
  zsum (λ e, default 0 (m !! e)) l = map_sum id m.
Proof.
  induction l as [|a l IH]; intros m Hnd Hin.
  - assert (m = ∅) as ->; [|by rewrite map_sum_empty].
    apply map_empty. intros e. apply eq_None_not_Some. intros He. apply Hin in He. set_solver.
  - apply NoDup_cons in Hnd as [Ha Hnd]. cbn. rewrite (outstanding_delete m a). f_equal.
    rewrite <- (IH (delete a m) Hnd).
    + apply zsum_ext. intros e He. rewrite lookup_delete_ne; [done|]. intros ->. done.
    + intros e [v [Hne Hv]%lookup_delete_Some].
      specialize (Hin e (mk_is_Some _ _ Hv)). apply elem_of_cons in Hin as [->|Hin]; done.
Qed.

(** The rewards reserved at the end of era [e]: those of the other eras of the
    history. *)
Definition reserved (d : Clock) (e : EraIndex) : Z :=
  let first := sat_sub e (wsub 32 (depth d) 1) in
  Z.min (zsum (λ x, default 0 (unclaimed d !! x)) (seqZ first (e - first))) (umax 128).

Lemma reserved_others i d e :
  clock_ok i d → active_no d = e → plan_no d = e + 1 → 
  reserved d e = Z.min (map_sum id (delete e (unclaimed d))) (umax 128).
Proof.
  intros Hd Ha Hp. unfold reserved. cbn zeta. rewrite wsub_small by (destruct Hd; ulia).
  set (first := sat_sub e (depth d - 1)). f_equal.
  rewrite <- (sum_over_keys (seqZ first (e - first))).
  - apply zsum_ext. intros x Hx. apply elem_of_seqZ in Hx. by rewrite lookup_delete_ne by lia.
  - apply NoDup_seqZ.
  - intros x [v [Hne Hv]%lookup_delete_Some]. apply (ck_rewards i d Hd) in Hv.
    rewrite elem_of_seqZ. unfold first, sat_sub. lia.
Qed.

(** The reward of the ended era is what the fund [f] holds beyond the reserved
    rewards: all rewards together stay within the fund, if they were. *)
Lemma outstanding_promise i d e f :
  clock_ok i d → active_no d = e → plan_no d = e + 1 → f ≤ umax 128 →
  outstanding (promise e (sat_sub f (reserved d e)) d) ≤ Z.max f (outstanding d).
Proof.
  intros Hd Ha Hp Hf. rewrite (reserved_others i d e Hd Ha Hp). unfold outstanding.
  rewrite (outstanding_delete (unclaimed d) e).
  rewrite (outstanding_delete (unclaimed (promise e _ d)) e). cbn.
  rewrite lookup_insert_eq, delete_insert_eq. cbn.
  assert (0 ≤ default 0 (unclaimed d !! e)).
  { destruct (unclaimed d !! e) as [v|] eqn:He; cbn; [|done]. apply (ck_rewards i d Hd) in He. lia. }
  generalize dependent (default 0 (unclaimed d !! e)). generalize (map_sum id (delete e (unclaimed d))).
  intros z old Hold. ulia.
Qed.
