(* ===== verification/FundSolvency.v ===== *)
(** The reward fund is solvent: from the first session on, whatever calls,
    payouts, offences and sessions follow, the fund holds at least the rewards
    that can still be claimed, up to what payouts took beyond the reward of
    their era.  The eras are driven the way the session pallet drives them
    ([frame/staking/src/pallet/impls.rs]): the end of a session, the start of
    the next, and the plan of the one after it. *)

From Stdlib Require Import ZArith Lia.
From stdpp Require Import base option list gmap fin_maps fin_sets strings.
From S2P Require Import Prelude Interfaces StakingLedger SlashingSpans StakingState Slashing.
From S2P Require Import Bonding Governance Payout Eras StakingInvariant ErasCorrect PayoutCorrect EraClock Revenue.
#[local] Open Scope Z_scope.

(** * Operations that leave the rewards and the fund alone *)

(** What the code around the pallet does to the account of the fund: a slash
    takes from the slashed account only, a reward to a reporter adds, the
    handler of slashes and the wallet never take from the fund, and a settlement
    that leaves the account alive succeeds. *)
Class FundLaws `{StakingConfig} := {
  slash_others_free a v c imb missing c' b :
    slash_currency a v c = (imb, missing, c') → 0 ≤ v → a ≠ b →
    free_balance b c ≤ free_balance b c';
  resolve_creating_free a v c b :
    0 ≤ v → free_balance b c ≤ free_balance b (resolve_creating a v c);
  slash_handler_free v c :
    0 ≤ v → free_balance fund_account_id c
      ≤ free_balance fund_account_id (slash_on_unbalanced v c);
  trigger_wallet_free c :
    free_balance fund_account_id c ≤ free_balance fund_account_id (trigger_wallet c);
  settle_alive v c :
    0 ≤ v → v + EXISTENTIAL_DEPOSIT ≤ free_balance fund_account_id c →
    settle fund_account_id v KeepAlive c ≠ None;
}.

Section Frame.
Context `{PerThingLaws} `{CurrencyLaws} `{!StakingConfig} `{!FundLaws}.
Implicit Types s : Store.

(** The clock of the eras in the storage. *)
Definition clock_of (s : Store) : Clock := {|
  unclaimed := eras_not_claimed_reward_map s;
  planned := current_era s;
  activated := ae_index <$> active_era s;
  starts := eras_start_session_index s;
  depth := history_depth s;
|}.

(** The eras are [d], the fund holds at least [f], and its account, for which
    nobody has a key, is not bonded. *)
Definition fund_frame (d : Clock) (f : Z) (s : Store) : Prop :=
  clock_of s = d ∧ f ≤ free_balance fund_account_id (currency s)
  ∧ bonded s !! fund_account_id = None.

Definition fund_frames {A} (m : Call A) : Prop := ∀ d f, preserves (fund_frame d f) m.

Lemma fund_frame_insert_bonded d f s st c :
  st ≠ fund_account_id → fund_frame d f s → fund_frame d f (s <| bonded ::= insert st c |>).
Proof. intros Hst (Hd & Hf & Hb). split_and!; [done | done |]. cbn. by rewrite lookup_insert_ne. Qed.

Lemma fund_frame_delete_bonded d f s st :
  fund_frame d f s → fund_frame d f (s <| bonded ::= delete st |>).
Proof.
  intros (Hd & Hf & Hb). split_and!; [done | done |]. cbn. rewrite lookup_delete.
  by case_decide.
Qed.

Lemma fund_frame_currency d f s g :
  free_balance fund_account_id (currency s) ≤ free_balance fund_account_id (g (currency s)) →
  fund_frame d f s → fund_frame d f (s <| currency ::= g |>).
Proof. intros Hg (Hd & Hf & Hb). split_and!; [done | cbn; lia | done]. Qed.

Lemma fund_frame_set_lock d f s a v :
  fund_frame d f s → fund_frame d f (s <| currency ::= set_lock a v |>).
Proof. apply fund_frame_currency. by rewrite set_lock_free. Qed.

Lemma fund_frame_remove_lock d f s a :
  fund_frame d f s → fund_frame d f (s <| currency ::= remove_lock a |>).
Proof. apply fund_frame_currency. by rewrite remove_lock_free. Qed.

#[local] Instance fund_frame_roles d f : RoleFrame (fund_frame d f).
Proof. by split. Qed.

Ltac fund_writes := first
  [ done
  | by apply fund_frame_insert_bonded
  | by apply fund_frame_set_lock
  | by apply fund_frame_remove_lock
  | by apply fund_frame_delete_bonded ].
Ltac fund_auto := intros d f; keeps_auto; try fund_writes.

(** An operation that keeps the frame, whatever it returns; the database
    [fund] holds the ones that do. *)
Lemma fund_frames_keeps {A} (m : Call A) d f (Q : A → Prop) :
  fund_frames m → (∀ a, Q a) → keeps (fund_frame d f) m Q.
Proof. intros Hm HQ. eapply keeps_weaken; [apply Hm|]. intros a _. apply HQ. Qed.

Lemma fund_of_roles {A} (m : Call A) :
  (∀ I, RoleFrame I → preserves I m) → fund_frames m.
Proof. intros Hm d f. apply Hm, fund_frame_roles. Qed.

Create HintDb fund.

Lemma fund_deposit_event e : fund_frames (deposit_event e).
Proof. unfold deposit_event. by fund_auto. Qed.
Lemma fund_update_ledger c l : fund_frames (update_ledger c l).
Proof. unfold update_ledger. fund_auto. Qed.
Lemma fund_update_voter st : fund_frames (update_voter st).
Proof. unfold update_voter. by fund_auto. Qed.
Lemma fund_clear_stash st n : fund_frames (clear_stash_metadata st n).
Proof. unfold clear_stash_metadata. fund_auto. Qed.
Lemma fund_remove_validator st : fund_frames (do_remove_validator st).
Proof. unfold do_remove_validator. fund_auto. Qed.
Lemma fund_remove_nominator st : fund_frames (do_remove_nominator st).
Proof. unfold do_remove_nominator. fund_auto. Qed.
Lemma fund_add_validator st p : fund_frames (do_add_validator st p).
Proof. unfold do_add_validator. fund_auto. Qed.
Lemma fund_add_nominator st n : fund_frames (do_add_nominator st n).
Proof. unfold do_add_nominator. fund_auto. Qed.

#[local] Hint Resolve fund_deposit_event fund_update_ledger fund_update_voter fund_clear_stash
  fund_remove_validator fund_remove_nominator fund_add_validator fund_add_nominator : fund.
#[local] Hint Extern 2 (keeps (fund_frame _ _) _ _) =>
  apply fund_frames_keeps; [solve [eauto with fund] | done] : keeps.

Lemma fund_chill_stash st : fund_frames (chill_stash st).
Proof. unfold chill_stash. fund_auto. Qed.
Lemma fund_kill_stash st n : fund_frames (kill_stash st n).
Proof.
  unfold kill_stash. fund_auto.
Qed.
#[local] Hint Resolve fund_chill_stash fund_kill_stash : fund.

(** * The calls *)

Lemma fund_signed {A} o (k : AccountId → Call A) :
  (∀ who, o = Signed who → fund_frames (k who)) → fund_frames (ensure_signed o ≫= k).
Proof.
  intros Hk. destruct o as [|who|].
  - intros d f s Hs. split; [exact Hs|]. by intros ? ? [=].
  - intros d f. exact (Hk who eq_refl d f).
  - intros d f s Hs. split; [exact Hs|]. by intros ? ? [=].
Qed.

Lemma fund_bond o c v p : o ≠ Signed fund_account_id → fund_frames (bond o c v p).
Proof.
  intros Ho. unfold bond. apply fund_signed. intros who ->. fund_auto.
  assert (who ≠ fund_account_id) by congruence.
  by apply (fund_frame_insert_bonded d f s).
Qed.
Lemma fund_bond_extra o v : fund_frames (bond_extra o v).
Proof. unfold bond_extra, ensure_signed. fund_auto. Qed.
Lemma fund_unbond o v : fund_frames (unbond o v).
Proof. unfold unbond, ensure_signed. fund_auto. Qed.
Lemma fund_withdraw_unbonded o n : fund_frames (withdraw_unbonded o n).
Proof. unfold withdraw_unbonded, ensure_signed. fund_auto. Qed.
Lemma fund_rebond o v : fund_frames (rebond o v).
Proof. unfold rebond, ensure_signed. fund_auto. Qed.
Lemma fund_validate o p : fund_frames (validate o p).
Proof. unfold validate, ensure_signed. fund_auto. Qed.
Lemma fund_nominate o ts : fund_frames (nominate o ts).
Proof. unfold nominate, ensure_signed. fund_auto. Qed.
Lemma fund_chill o : fund_frames (chill o).
Proof. unfold chill, ensure_signed. fund_auto. Qed.
Lemma fund_set_payee o p : fund_frames (set_payee o p).
Proof. unfold set_payee, ensure_signed. fund_auto. Qed.
Lemma fund_set_controller o c : o ≠ Signed fund_account_id → fund_frames (set_controller o c).
Proof.
  intros Ho. unfold set_controller. apply fund_signed. intros who ->.
  assert (who ≠ fund_account_id) by congruence. fund_auto.
Qed.
Lemma fund_kick o whos : fund_frames (kick o whos).
Proof. unfold kick, kick_one, ensure_signed. fund_auto. Qed.
Lemma fund_chill_other o c : fund_frames (chill_other o c).
Proof. unfold chill_other, ensure_signed. fund_auto. Qed.
Lemma fund_force_apply_min_commission o v : fund_frames (force_apply_min_commission o v).
Proof. unfold force_apply_min_commission, ensure_signed. fund_auto. Qed.
Lemma fund_force_unstake o st n : fund_frames (force_unstake o st n).
Proof. unfold force_unstake, ensure_root. fund_auto. Qed.
Lemma fund_reap_stash o st n : fund_frames (reap_stash o st n).
Proof. unfold reap_stash, ensure_signed. fund_auto. Qed.
Lemma fund_cancel_deferred_slash o e idxs : fund_frames (cancel_deferred_slash o e idxs).
Proof. unfold cancel_deferred_slash. fund_auto. Qed.
Lemma fund_root o (g : Store → Store) :
  (∀ d f s, fund_frame d f s → fund_frame d f (g s)) → fund_frames (ensure_root o ≫= λ _, modify g).
Proof. intros Hg. unfold ensure_root. intros d f. keeps_auto; by apply Hg. Qed.

(** * Slashing *)

Definition solvent_frame (d : Clock) (f : Z) (s : Store) : Prop :=
  staking_wf s ∧ fund_frame d f s.

Lemma fund_add_offending_validator a b : fund_frames (add_offending_validator a b).
Proof. intros d f. apply keeps_add_offending_validator, fund_frame_roles. Qed.
Lemma fund_fetch_spans a ws p sl rp : fund_frames (fetch_spans a ws p sl rp).
Proof. unfold fetch_spans. fund_auto. Qed.
Lemma fund_drop_spans i : fund_frames (drop_spans i).
Proof. unfold drop_spans. fund_auto. Qed.
Lemma fund_compare_and_update i e v : fund_frames (compare_and_update_span_slash i e v).
Proof. unfold compare_and_update_span_slash. fund_auto. Qed.
#[local] Hint Resolve fund_add_offending_validator fund_fetch_spans fund_drop_spans
  fund_compare_and_update : fund.

Lemma fund_slash_nominators_loop p pr noms : ∀ rew acc,
  fund_frames (slash_nominators_loop p pr rew acc noms).
Proof.
  induction noms as [|n noms IH]; intros rew acc d f; cbn; [by apply keeps_ret|].
  apply preserves_keeps_bind; [unfold slash_nominator; keeps_auto; fund_writes|].
  intros [r v]. apply IH.
Qed.

Lemma fund_compute_slash p : fund_frames (compute_slash p).
Proof.
  unfold compute_slash, kick_out_if_recent, slash_validator, slash_nominators. fund_auto.
  apply fund_frames_keeps; [apply fund_slash_nominators_loop | done].
Qed.

(** The invariant and the frame together: what the one says of a storage may
    be used for the other. *)
Lemma keeps_solvent {A} (m : Call A) (Q : A → Prop) d f :
  preserves staking_wf m →
  (∀ s, solvent_frame d f s → wp m s (λ r s', fund_frame d f s' ∧ ∀ x, r = Ok x → Q x)) →
  keeps (solvent_frame d f) m Q.
Proof.
  intros Hwf Hm. apply keeps_wp. intros s Hs. pose proof (Hm s Hs) as Hf.
  pose proof (wp_preserves staking_wf m s Hwf (proj1 Hs)) as Hs'.
  unfold wp in *. destruct (m s). unfold solvent_frame. tauto.
Qed.

Lemma solvent_frames {A} (m : Call A) d f :
  preserves staking_wf m → fund_frames m → preserves (solvent_frame d f) m.
Proof. intros Hwf Hm. by apply keeps_conj. Qed.

(** Taking a slash from a bonded account leaves the fund alone. *)
Lemma solvent_do_slash d f a v rp si e :
  0 ≤ v → 0 ≤ rp → 0 ≤ si →
  keeps (solvent_frame d f) (do_slash a v rp si e) (λ r, 0 ≤ r.1 ∧ 0 ≤ r.2).
Proof.
  intros Hv Hrp Hsi. apply keeps_solvent; [by apply keeps_do_slash|]. intros s [Hs Hf].
  assert (∀ rp' si' s', 0 ≤ rp' → 0 ≤ si' → fund_frame d f s' →
    fund_frame d f s' ∧ ∀ x, (Ok (rp', si') : result Error (Z * Z)) = Ok x → 0 ≤ x.1 ∧ 0 ≤ x.2) as Hret.
  { intros rp' si' s' ? ? ?. split; [done|]. by intros x [= <-]. }
  unfold do_slash. apply wp_get.
  destruct (bonded s !! a) as [c|] eqn:Hb; [|by apply wp_ret, Hret].
  assert (a ≠ fund_account_id) as Ha by (intros ->; destruct Hf as (_ & _ & ?); congruence).
  destruct (ledger s !! c) as [l|] eqn:Hl; [|by apply wp_ret, Hret].
  destruct (wf_ledger _ _ _ _ (proj1 Hs) _ _ Hl) as [_ [Hwf _]].
  destruct (slash _ l v _ e) as [[l' v'] hook] eqn:Hsl.
  destruct (slash_spec _ _ _ _ _ _ _ _ Hwf Hv Hsl) as (_ & _ & _ & _ & Hv' & _).
  apply wp_bind, wp_modify. destruct (decide (v' = 0)); [by apply wp_ret, Hret|].
  destruct (slash_currency _ _ _) as [[imb miss] c'] eqn:Hcur. cbn [currency set] in Hcur.
  destruct (Interfaces.slash_spec _ _ _ _ _ _ Hcur Hv') as (Himb & Hmiss & _).
  pose proof (slash_others_free _ _ _ _ _ _ fund_account_id Hcur Hv' Ha) as Hfree.
  unfold update_ledger, deposit_event. wp_auto. apply Hret; [destruct (decide _); ulia | lia |].
  destruct Hf as (Hd & Hf & Hbd). split_and!; [done | | done].
  cbn. rewrite set_lock_free. lia.
Qed.

Lemma solvent_do_slash_others d f noms : ∀ rp si e,
  Forall (λ nv : AccountId * Z, 0 ≤ nv.2) noms → 0 ≤ rp → 0 ≤ si →
  keeps (solvent_frame d f) (do_slash_others noms rp si e) (λ r, 0 ≤ r.1 ∧ 0 ≤ r.2).
Proof.
  induction noms as [|[n v] noms IH]; intros rp si e Hn Hrp Hsi; cbn; [by apply keeps_ret|].
  apply Forall_cons in Hn as [Hv Hn].
  eapply keeps_bind; [by apply solvent_do_slash|]. intros [rp' si'] [? ?]. by apply IH.
Qed.

(** The reporters and the handler of slashes only add to the fund. *)
Lemma pay_each_reporter_free per reps : ∀ rp c,
  0 ≤ per → 0 ≤ rp →
  0 ≤ fst (pay_each_reporter per rp reps c)
  ∧ free_balance fund_account_id c
    ≤ free_balance fund_account_id (snd (pay_each_reporter per rp reps c)).
Proof.
  induction reps as [|r reps IH]; intros rp c Hper Hrp; cbn; [lia|].
  pose proof (resolve_creating_free r (Z.min per rp) c fund_account_id ltac:(lia)).
  destruct (IH (rp - Z.min per rp) (resolve_creating r (Z.min per rp) c)); lia.
Qed.

Lemma fund_pay_reporters rp si reps :
  0 ≤ rp → 0 ≤ si → fund_frames (pay_reporters rp si reps).
Proof.
  intros Hrp Hsi d f. unfold pay_reporters. destruct (decide _) as [_|Hne].
  - apply keeps_modify; [done|]. intros s. apply fund_frame_currency. by apply slash_handler_free.
  - cbn zeta. set (total := Z.min rp si). set (per := total / _).
    assert (0 ≤ per) by (apply Z.div_pos; [lia|]; destruct reps; [tauto | rewrite length_cons; lia]).
    apply keeps_modify; [done|]. intros s.
    destruct (pay_each_reporter_free per reps total (currency s)) as [Hrest Hfree]; [done | lia |].
    destruct (pay_each_reporter _ _ _ _) as [rest c]. cbn in Hrest, Hfree.
    apply (fund_frame_currency d f s (λ _, slash_on_unbalanced (si - total + rest) c)).
    pose proof (slash_handler_free (si - total + rest) c). lia.
Qed.

Lemma solvent_apply_slash d f u e : us_wf u → preserves (solvent_frame d f) (apply_slash u e).
Proof.
  intros (Hown & Hoth & Hpay). unfold apply_slash.
  eapply keeps_bind; [by apply solvent_do_slash|]. intros [rp si] [? ?].
  eapply keeps_bind; [by apply solvent_do_slash_others|]. intros [rp' si'] [? ?]. cbn in *.
  apply solvent_frames; [|by apply fund_pay_reporters].
  unfold pay_reporters. keeps_auto; try done. by destruct (pay_each_reporter _ _ _ _).
Qed.

Lemma solvent_apply_unapplied d f e : preserves (solvent_frame d f) (apply_unapplied_slashes e).
Proof.
  unfold apply_unapplied_slashes, preserves. keeps_step.
  destruct (earliest_unapplied_slash _); [|by apply keeps_ret].
  keeps_step; [|by keeps_step]. apply keeps_for_each. intros e' _.
  unfold apply_era_slashes. apply (preserves_wp (solvent_frame d f)). intros s [Hs Hf].
  apply wp_get, wp_bind, wp_modify.
  pose proof (unapplied_wf_get s e' Hs) as Hus. rewrite Forall_forall in Hus.
  apply wp_preserves.
  - apply keeps_for_each. intros u Hin. by apply solvent_apply_slash, Hus.
  - split; [|done]. destruct Hs as [Hs Hu]. split; [done|]. by apply map_Forall_delete.
Qed.

Lemma solvent_on_offence d f offs fr ss ds : preserves (solvent_frame d f) (on_offence offs fr ss ds).
Proof.
  unfold on_offence, preserves. keeps_step. destruct (active_era _) as [ai|]; [|by apply keeps_ret].
  destruct (offence_era _ _ _) as [e|]; [|by apply keeps_ret].
  keeps_step; [keeps_step; by destruct (earliest_unapplied_slash _)|].
  apply keeps_for_each. intros [od fraction] _. unfold on_offence_one.
  destruct (offender od) as [w ex]. destruct (decide _); [by apply keeps_ret|].
  eapply keeps_bind; [apply keeps_conj; [apply keeps_compute_slash_wf | apply fund_compute_slash]|].
  intros [u|] Hu; [|by apply keeps_ret]. destruct (Hu u eq_refl) as (Hown & Hoth & Hpay).
  destruct (decide _); [by apply solvent_apply_slash|].
  apply keeps_modify; [done|]. intros s [Hs Hf]. split; [|done].
  pose proof (unapplied_wf_get s (ae_index ai) Hs). destruct Hs as [Hs Hun]. split; [done|].
  apply map_Forall_insert_2; [|done]. apply Forall_app. split; [done|]. by repeat constructor.
Qed.

Lemma fund_store_stakers_info exps e : fund_frames (store_stakers_info exps e).
Proof. unfold store_stakers_info. by fund_auto. Qed.

Lemma fund_reward_by_ids l : fund_frames (reward_by_ids l).
Proof. unfold reward_by_ids. fund_auto. Qed.

Lemma fund_on_finalize now : fund_frames (on_finalize now).
Proof.
  intros d f. unfold on_finalize. apply keeps_modify; [done|]. intros s (Hd & Hf & Hb).
  destruct (active_era s) as [ai|] eqn:Hai; [|done]. destruct (ae_start ai); [done|].
  split_and!; [|done..]. rewrite <- Hd. unfold clock_of. cbn. by rewrite Hai.
Qed.
End Frame.

(** * The session hooks follow the clock *)

Section Hooks.
Context `{PerThingLaws} `{CurrencyLaws} `{!StakingConfig} `{!FundLaws}.
Context (elect : bool → Store → option (list (AccountId * list (AccountId * Z)))).
Implicit Types s : Store.

(** A write that moves the clock and leaves balances and bonds alone. *)
Lemma fund_frame_clock d d' f s s' :
  fund_frame d f s → clock_of s' = d' → currency s' = currency s → bonded s' = bonded s →
  fund_frame d' f s'.
Proof. unfold fund_frame. intros (_ & Hf & Hb) -> -> ->. done. Qed.

Lemma fund_frame_wp {A} (m : Call A) d f s (Q : result Error A → Store → Prop) :
  fund_frames m → fund_frame d f s → (∀ r s', fund_frame d f s' → Q r s') → wp m s Q.
Proof.
  intros Hm Hs HQ. eapply wp_mono; [by apply (wp_preserves (fund_frame d f)); [apply Hm|]|].
  cbn. auto.
Qed.

Lemma clear_follows d f e s :
  fund_frame d f s →
  wp (clear_era_information e) s (λ r s', r = Ok tt ∧ fund_frame (forget e d) f s').
Proof.
  intros Hs. unfold clear_era_information. apply wp_modify. split; [done|].
  eapply fund_frame_clock; [exact Hs | |done..]. destruct Hs as (<- & _). done.
Qed.

Lemma clear_all_follows f l : ∀ d s,
  fund_frame d f s →
  wp (for_each l clear_era_information) s (λ r s', r = Ok tt ∧ fund_frame (forget_all l d) f s').
Proof.
  induction l as [|e l IH]; intros d s Hs; [by apply wp_ret|]. cbn [for_each]. apply wp_bind.
  eapply wp_mono; [by apply clear_follows|]. intros r s1 [-> Hs1]. by apply IH.
Qed.

Lemma set_history_depth_follows d f o n s :
  fund_frame d f s →
  wp (set_history_depth o n) s (λ _ s', fund_frame d f s' ∨ fund_frame (set_depth n d) f s').
Proof.
  intros Hs. unfold set_history_depth, ensure_root. destruct o; [|by left..].
  apply wp_bind, wp_ret, wp_get. pose proof Hs as (Hd & _ & _).
  assert (planned d = current_era s) as Hp by (by rewrite <- Hd).
  assert (depth d = history_depth s) as Hh by (by rewrite <- Hd).
  unfold set_depth. rewrite Hp. destruct (current_era s) as [ce|]; [|by left].
  rewrite <- Hh. cbn zeta. apply wp_bind.
  eapply wp_mono; [by apply clear_all_follows|]. intros r s1 [-> Hs1]. apply wp_modify. right.
  eapply fund_frame_clock; [exact Hs1 | |done..]. destruct Hs1 as (<- & _). done.
Qed.

Lemma trigger_new_era_follows d f i exps s :
  fund_frame d f s → wp (trigger_new_era i exps) s (λ _, fund_frame (plan i d) f).
Proof.
  intros Hs. unfold trigger_new_era. apply wp_get. cbn zeta. apply wp_bind, wp_modify.
  pose proof Hs as (Hd & _ & _).
  assert (planned d = current_era s) as Hp by (by rewrite <- Hd).
  assert (depth d = history_depth s) as Hh by (by rewrite <- Hd).
  unfold plan, next_era. rewrite Hp, Hh. set (e := match current_era s with Some _ => _ | _ => _ end).
  set (s1 := s <| current_era := _ |> <| eras_start_session_index ::= _ |>).
  set (d1 := d <| planned := Some e |> <| starts ::= insert e i |>).
  assert (fund_frame d1 f s1) as Hs1.
  { eapply fund_frame_clock; [exact Hs | |done..]. unfold d1. by rewrite <- Hd. }
  apply wp_bind. destruct (checked_sub e _) as [old|].
  - eapply wp_mono; [by apply clear_follows|]. intros r s2 [-> Hs2].
    eapply fund_frame_wp; [apply fund_store_stakers_info | exact Hs2 | done].
  - apply wp_ret. eapply fund_frame_wp; [apply fund_store_stakers_info | exact Hs1 | done].
Qed.

Definition planned_by d f i s : Prop := fund_frame d f s ∨ fund_frame (plan i d) f s.

Lemma try_trigger_follows d f i g s :
  depth d < umax 32 → 0 ≤ depth d → fund_frame d f s →
  wp (try_trigger_new_era elect i g) s (λ _, planned_by d f i).
Proof.
  intros Hmax Hpos Hs. unfold try_trigger_new_era. apply wp_get. destruct (elect g s) as [sup|].
  2:{ apply wp_bind. eapply fund_frame_wp; [apply fund_deposit_event | exact Hs |].
      intros [[]|er] s1 Hs1; by left. }
  cbn zeta. destruct (decide _).
  - apply wp_bind, wp_when; intros Hnone.
    + apply wp_modify. apply wp_bind. eapply fund_frame_wp; [apply fund_deposit_event | |].
      * eapply (fund_frame_clock d (plan i d)); [exact Hs | |done..].
        pose proof Hs as (Hd & _ & _). unfold plan. rewrite wadd_small by ulia.
        assert (planned d = None) as -> by (rewrite <- Hd; exact Hnone). cbn [next_era].
        unfold checked_sub. rewrite decide_False by lia. by rewrite <- Hd.
      * intros [[]|er] s1 Hs1; by right.
    + apply wp_bind. eapply fund_frame_wp; [apply fund_deposit_event | exact Hs |].
      intros [[]|er] s1 Hs1; by left.
  - apply wp_bind. eapply fund_frame_wp; [apply fund_deposit_event | exact Hs |].
    intros [[]|er] s1 Hs1; [|by left]. apply wp_bind.
    eapply wp_mono; [by apply trigger_new_era_follows|]. intros [v|er] s2 Hs2; by right.
Qed.

(** A new session plans an era or none. *)
Lemma new_session_follows d f i g s :
  depth d < umax 32 → 0 ≤ depth d → fund_frame d f s →
  wp (sm_new_session elect g i) s (λ _, planned_by d f i).
Proof.
  intros Hmax Hpos Hs. unfold sm_new_session. apply wp_bind, wp_modify. unfold new_session.
  apply wp_get. set (s1 := s <| current_planned_session := i |>).
  assert (fund_frame d f s1) as Hs1 by exact Hs.
  destruct (current_era s1) as [ce|]; [|by apply try_trigger_follows].
  cbn zeta. destruct (match force_era s1 with NotForcing => _ | _ => _ end); [|by left].
  apply wp_bind. eapply wp_mono; [by apply try_trigger_follows|]. cbn beta.
  intros [vals|er] s2 Hs2; [|done].
  apply wp_get, wp_bind, wp_when; intros _; [apply wp_modify|]; apply wp_ret; exact Hs2.
Qed.


Lemma clear_metadata_solvent d f (l : list (EraIndex * SessionIndex)) :
  preserves (solvent_frame d f) (for_each l (λ '(pruned_era, _), clear_era_metadata pruned_era)).
Proof.
  apply keeps_for_each. intros [e st] _. unfold clear_era_metadata.
  apply keeps_modify; [done|]. intros s [Hs Hf]. by split.
Qed.

Lemma start_era_solvent d f i s :
  solvent_frame d f s →
  wp (start_era i) s (λ _, solvent_frame (d <| activated := Some (next_era (activated d)) |>) f).
Proof.
  intros [Hs Hf]. unfold start_era. apply wp_get. cbn zeta. apply wp_bind, wp_modify.
  assert (match active_era s with Some info => wadd 32 (ae_index info) 1 | None => 0 end
    = next_era (activated d)) as ->.
  { destruct Hf as (<- & _). cbn. by destruct (active_era s). }
  set (e := next_era (activated d)). set (d' := d <| activated := Some e |>).
  set (s1 := s <| active_era := Some {| ae_index := e; ae_start := None |} |>).
  assert (solvent_frame d' f s1) as Hs1.
  { split; [done|]. eapply fund_frame_clock; [exact Hf | |done..]. by destruct Hf as (<- & _). }
  destruct (prune_bonded _ _ _) as [kept pruned].
  eapply wp_mono; [apply (wp_preserves (solvent_frame d' f)); [|exact Hs1]|by auto].
  apply preserves_keeps_bind; [apply clear_metadata_solvent|]. intros _.
  apply preserves_keeps_bind; [by keeps_auto|]. intros _.
  apply preserves_keeps_bind; [by keeps_step|]. intros _. apply solvent_apply_unapplied.
Qed.

Lemma start_session_follows d f i s :
  solvent_frame d f s → wp (start_session i) s (λ _, solvent_frame (activate i d) f).
Proof.
  assert (∀ d s, solvent_frame d f s → wp ((s' ← gets id;
    for_each (offending_validators s') (λ '(idx, disabled), when (disabled = true)
      (modify (λ s, s <| sessions ::= session_disable_validator idx |>)))) : Call unit) s
    (λ _, solvent_frame d f)) as Htail.
  { clear d s. intros d s Hs. apply wp_preserves, Hs. by keeps_auto. }
  intros Hs. unfold start_session. apply wp_get. cbn zeta. unfold activate.
  assert (match active_era s with Some e => wadd 32 (ae_index e) 1 | None => 0 end
    = next_era (activated d)) as ->.
  { destruct Hs as [_ (<- & _)]. cbn. by destruct (active_era s). }
  assert (eras_start_session_index s = starts d) as -> by (by destruct Hs as [_ (<- & _)]).
  apply wp_bind. destruct (starts d !! next_era (activated d)) as [st|] eqn:Hst;
    [|by apply wp_ret, Htail].
  apply wp_when; intros Hle.
  - rewrite decide_True by done. eapply wp_mono; [apply start_era_solvent, Hs|].
    intros [[]|er] s1 Hs1; [by apply Htail | done].
  - rewrite decide_False by done. by apply Htail.
Qed.

(** Ending an era fills the fund from the wallet and promises the rest. *)
Definition ended_by d f s : Prop :=
  ∃ e, activated d = Some e ∧ is_Some (starts d !! next_era (Some e))
    ∧ fund_frame (promise e (sat_sub (fund_balance s) (reserved d e)) d) f s.

Lemma end_era_follows d f ae s :
  fund_frame d f s → map_Forall (λ _ v, 0 ≤ v) (unclaimed d) → activated d = Some (ae_index ae) →
  is_Some (starts d !! next_era (activated d)) →
  wp (end_era ae) s (λ _ s', fund_frame d f s' ∨ ended_by d f s').
Proof.
  intros Hs Hun Hact Hst. unfold end_era. destruct (ae_start ae); [|by left].
  apply wp_bind, wp_modify, wp_get. cbn zeta. set (s0 := s <| currency ::= trigger_wallet |>).
  assert (fund_frame d f s0) as Hs0.
  { apply fund_frame_currency; [|done]. apply trigger_wallet_free. }
  assert (get_total_not_claimed_reward s0 (ae_index ae) = reserved d (ae_index ae)) as ->.
  { destruct Hs0 as (<- & _). by apply get_total_not_claimed_eq. }
  unfold deposit_event. wp_auto. right. exists (ae_index ae).
  split_and!; [done | by rewrite <- Hact |].
  eapply fund_frame_clock; [exact Hs0 | |done..]. destruct Hs0 as (<- & _). done.
Qed.

Lemma end_session_follows d f i s :
  fund_frame d f s → map_Forall (λ _ v, 0 ≤ v) (unclaimed d) →
  wp (end_session i) s (λ _ s', fund_frame d f s' ∨ ended_by d f s').
Proof.
  intros Hs Hun. unfold end_session. apply wp_get.
  destruct (active_era s) as [ae|] eqn:Hae; [|by left].
  assert (activated d = Some (ae_index ae)) as Hact.
  { destruct Hs as (<- & _). cbn. by rewrite Hae. }
  assert (eras_start_session_index s = starts d) as -> by (by destruct Hs as (<- & _)).
  destruct (starts d !! wadd 32 (ae_index ae) 1) as [st|] eqn:Hst; [|by left].
  apply wp_when; intros _; [|by left]. apply end_era_follows; try done. rewrite Hact. cbn.
  by rewrite Hst.
Qed.
End Hooks.

(** * Payouts *)

Section Payouts.
Context `{PerThingLaws} `{CurrencyLaws} `{!StakingConfig} `{!FundLaws}.
Implicit Types s : Store.

(** What a payout of [v] for [e] pays to the validator and its nominators. *)
Definition payout_due s (v : AccountId) (e : EraIndex) : Z :=
  match claim_era s v e with
  | Err _ => 0
  | Ok (c, l, era_payout) =>
      let ex := eras_stakers_clipped s e (stash l) in
      let points := eras_reward_points s e in
      let validator_reward_points := default 0 (individual points !! stash l) in
      if decide (validator_reward_points = 0) then 0
      else
        let '(validator_payout, leftover) :=
          validator_payouts s v e ex validator_reward_points (rp_total points) era_payout in
        let pay : Call Z :=
          deposit_event (PayoutStarted e (stash l)) ≫= λ _,
          total1 ← payout_one (stash l) validator_payout 0;
          payout_nominators (exp_total ex) leftover (others ex) total1 in
        match fst (pay (s <| ledger ::= insert c l |>)) with Ok t => t | Err _ => 0 end
  end.

(** A reward of which [v] was claimed. *)
Definition claimed_reward (e : EraIndex) (v : Z) (d : Clock) : Clock :=
  match unclaimed d !! e with
  | Some r => promise e (sat_sub r v) d
  | None => d
  end.

(** What a payout leaves as it is while it credits the stakers. *)
Definition pay_frame (d : Clock) (s : Store) : Prop :=
  clock_of s = d ∧ bonded s !! fund_account_id = None.

Lemma pay_frame_payout_one d st v t : preserves (pay_frame d) (payout_one st v t).
Proof.
  unfold payout_one, make_payout, update_ledger, deposit_event. keeps_auto; try done.
Qed.

Lemma pay_frame_nominators d et left noms : ∀ t,
  preserves (pay_frame d) (payout_nominators et left noms t).
Proof.
  induction noms as [|n noms IH]; intros t; cbn; [by apply keeps_ret|].
  apply preserves_keeps_bind; [apply pay_frame_payout_one|]. intros t'. apply IH.
Qed.

Lemma wp_and {A} (m : Call A) s (Q R : result Error A → Store → Prop) :
  wp m s Q → wp m s R → wp m s (λ r s', Q r s' ∧ R r s').
Proof. unfold wp. destruct (m s). done. Qed.

Lemma credited_nonneg payments a : Forall (λ p, 0 ≤ p.2) payments → 0 ≤ credited payments a.
Proof.
  intros Hp. unfold credited. apply zsum_nonneg. eapply Forall_impl; [exact Hp|].
  intros p Hp'. by destruct (decide _).
Qed.

(** The settlement takes what was paid out of the fund, unless it fails. *)
Lemma settle_follows d f e v s :
  0 ≤ v → fund_frame d f s →
  wp (settle_payouts v ≫= λ _, update_not_claimed_reward e v) s (λ r s',
    (r = Ok tt ∧ fund_frame (claimed_reward e v d) (f - v) s')
    ∨ (r = Err CannotPayout ∧ f < v + EXISTENTIAL_DEPOSIT ∧ fund_frame d f s')).
Proof.
  intros Hv Hs. pose proof Hs as (Hd & Hf & Hb). unfold settle_payouts. apply wp_bind, wp_get.
  destruct (settle fund_account_id v KeepAlive (currency s)) as [c|] eqn:Hset.
  - destruct (settle_spec _ _ _ _ _ Hset Hv) as [_ Hfree]. apply wp_modify.
    unfold update_not_claimed_reward. apply wp_modify. left. split; [done|].
    unfold claimed_reward. specialize (Hfree fund_account_id). rewrite decide_True in Hfree by done.
    assert (unclaimed d = eras_not_claimed_reward_map s) as -> by (by rewrite <- Hd).
    cbn [set eras_not_claimed_reward_map].
    destruct (eras_not_claimed_reward_map s !! e) as [r|]; rewrite <- Hd;
      (split_and!; [done | cbn; rewrite Hfree; lia | done]).
  - apply wp_bind, wp_modify, wp_throw. right. split_and!; [done | |].
    + destruct (decide (v + EXISTENTIAL_DEPOSIT ≤ f)); [|lia].
      destruct (settle_alive v (currency s)); [done | lia | done].
    + apply fund_frame_currency; [|done]. by rewrite drop_positive_free.
Qed.

(** What a part of a program that ends in a value leaves to the rest. *)
Lemma wp_fst {A} (m : Call A) s : wp m s (λ r _, r = fst (m s)).
Proof. unfold wp. by destruct (m s). Qed.

Lemma claim_room s v e c l ep :
  staking_wf s → payout_room s v e → claim_era s v e = Ok (c, l, ep) →
  stash l = v ∧ u128 ep
  ∧ Z.of_nat (S (length (others (eras_stakers_clipped s e v)))) * ep < 2 ^ 128.
Proof.
  intros Hs [_ Hroom] Hclaim.
  destruct (claim_era_spec _ _ _ _ _ _ Hs Hclaim) as (l0 & _ & Hl & Hrew & Hst & _ & Hok & Htot & _).
  destruct (Hroom ep Hrew) as [Hep Hr]. split_and!; [done..|]. specialize (Hr c l0 Hl).
  destruct Hok as [[Ht _ Ha Hc] _]. pose proof (unlocking_sum_nonneg _ Hc). lia.
Qed.

(** The payments of a claim: they are at most what is due, and add to the fund
    if they do anything to it. *)
Lemma pay_all_follows d f v et noms s own_pay leftover :
  pay_frame d s → f ≤ free_balance fund_account_id (currency s) →
  0 ≤ own_pay → 0 ≤ leftover → own_pay + nominators_due et leftover noms < 2 ^ 128 →
  wp (total1 ← payout_one v own_pay 0; payout_nominators et leftover noms total1) s
    (λ r s', ∃ t, r = Ok t ∧ 0 ≤ t ∧ fund_frame d f s').
Proof.
  intros Hframe Hf Hown Hleft Hroom.
  eapply wp_mono; [apply wp_and; [by apply (pay_all_credits v own_pay et leftover noms)|]|].
  - apply (wp_preserves (pay_frame d)); [|exact Hframe].
    apply preserves_keeps_bind; [apply pay_frame_payout_one|]. intros t. apply pay_frame_nominators.
  - intros r s' [(t & ps & -> & [Hpos Hfree] & -> & Hr & _) [Hd Hb]].
    exists (0 + paid_total ps). split_and!; [done | lia |]. split_and!; [done | | done].
    rewrite Hfree. pose proof (credited_nonneg ps fund_account_id Hpos). lia.
Qed.

(** What a claim comes to: the own part of the validator and the parts of its
    nominators. *)
Record payout_terms s v e (ep own_pay leftover : Z) : Prop := {
  pt_pays : validator_payouts s v e (eras_stakers_clipped s e v)
    (default 0 (individual (eras_reward_points s e) !! v)) (rp_total (eras_reward_points s e)) ep
    = (own_pay, leftover);
  pt_own : 0 ≤ own_pay ≤ ep;
  pt_left : 0 ≤ leftover ≤ ep;
  pt_fits : own_pay + nominators_due (exp_total (eras_stakers_clipped s e v)) leftover
    (others (eras_stakers_clipped s e v)) < 2 ^ 128;
}.

Lemma claim_terms s v e c l ep :
  staking_wf s → payout_room s v e → claim_era s v e = Ok (c, l, ep) →
  stash l = v ∧ u128 ep ∧ ∃ own_pay leftover, payout_terms s v e ep own_pay leftover.
Proof.
  intros Hs Hroom Hclaim.
  destruct (claim_room s v e c l ep Hs Hroom Hclaim) as (Hst & Hep & Hbound).
  split_and!; [done..|]. set (pts := default 0 (individual (eras_reward_points s e) !! v)).
  destruct (validator_payouts s v e (eras_stakers_clipped s e v) pts
    (rp_total (eras_reward_points s e)) ep) as [own_pay leftover] eqn:Hpay.
  exists own_pay, leftover.
  destruct (validator_payouts_bound _ _ _ _ _ _ _ _ _ Hpay Hep (proj1 Hroom)) as [Hown Hleft].
  split; [done..|]. set (ex := eras_stakers_clipped s e v) in *.
  pose proof (nominators_due_range (exp_total ex) leftover (others ex) (proj1 Hleft)). nia.
Qed.

Lemma payout_due_terms s v e c l ep own_pay leftover :
  claim_era s v e = Ok (c, l, ep) → stash l = v → payout_terms s v e ep own_pay leftover →
  let ex := eras_stakers_clipped s e v in
  0 ≤ payout_due s v e ≤ own_pay + nominators_due (exp_total ex) leftover (others ex).
Proof.
  intros Hclaim Hst [Hpay [Hown _] [Hleft _] Hfits] ex. fold ex in Hpay, Hfits.
  pose proof (nominators_due_range (exp_total ex) leftover (others ex) Hleft).
  unfold payout_due. rewrite Hclaim, Hst. fold ex. rewrite Hpay.
  destruct (decide _); [lia|].
  match goal with |- context [fst (?m ?t)] =>
    assert (wp m t (λ r _, ∃ x, r = Ok x
      ∧ 0 ≤ x ≤ own_pay + nominators_due (exp_total ex) leftover (others ex))) as Hwp;
    [|unfold wp in Hwp; destruct (m t) as [r s']; by destruct Hwp as (x & -> & Hx)] end.
  apply wp_bind. unfold deposit_event. apply wp_modify.
  eapply wp_mono; [by apply pay_all_credits|]. intros r s' (x & ps & -> & _ & -> & Hr & _).
  exists (0 + paid_total ps). split; [done | lia].
Qed.

Lemma payout_due_nonneg s v e : staking_wf s → payout_room s v e → 0 ≤ payout_due s v e.
Proof.
  intros Hs Hroom. destruct (claim_era s v e) as [[[c l] ep]|er] eqn:Hclaim.
  - destruct (claim_terms s v e c l ep Hs Hroom Hclaim) as (Hst & _ & own_pay & leftover & Hterms).
    apply (payout_due_terms s v e c l ep own_pay leftover Hclaim Hst Hterms).
  - unfold payout_due. by rewrite Hclaim.
Qed.

(** A payout takes what it pays out of the fund and off the reward, or it
    fails; it does not fail for lack of funds while the fund has what is due. *)
Lemma payout_follows d w v e s f :
  solvent_frame d f s → payout_room s v e →
  let due := payout_due s v e in
  wp (payout_stakers (Signed w) v e) s (λ r s',
    (r = Ok tt ∧ fund_frame (claimed_reward e due d) (f - due) s')
    ∨ fund_frame d f s' ∧
      (r = Ok tt ∨ (∃ er, r = Err er ∧ claim_era s v e = Err er) ∨ f < due + EXISTENTIAL_DEPOSIT)).
Proof.
  intros [Hs Hf] Hroom due. pose proof (payout_due_nonneg s v e Hs Hroom : 0 ≤ due) as Hdue.
  unfold payout_stakers. cbn [ensure_signed].
  destruct (claim_era s v e) as [[[c l] ep]|er] eqn:Hclaim.
  2:{ apply wp_bind, wp_ret. unfold do_payout_stakers. apply wp_get, wp_bind.
      rewrite Hclaim. apply wp_throw. right. split; [done|]. right. left. by exists er. }
  destruct (claim_terms s v e c l ep Hs Hroom Hclaim) as (Hst & _ & own_pay & leftover & [Hpay Hown Hleft Hfits]).
  set (ex := eras_stakers_clipped s e v) in *. set (s1 := s <| ledger ::= insert c l |>) in *.
  assert (fund_frame d f s1) as Hs1 by exact Hf.
  set (pts := default 0 (individual (eras_reward_points s e) !! v)) in *.
  assert (∀ Q, wp (do_payout_stakers v e) s Q → wp (ensure_signed (Signed w) ≫= λ _, do_payout_stakers v e) s Q)
    as Hsigned by done.
  apply Hsigned. unfold do_payout_stakers. apply wp_get, wp_bind. rewrite Hclaim.
  apply wp_ret, wp_bind, wp_modify. rewrite Hst. fold ex pts s1.
  destruct (decide (pts = 0)) as [Hz|Hnz]; [apply wp_ret; right; auto|].
  rewrite Hpay.
  set (pay := deposit_event (PayoutStarted e v) ≫= λ _,
    total1 ← payout_one v own_pay 0; payout_nominators (exp_total ex) leftover (others ex) total1).
  assert (due = match fst (pay s1) with Ok t => t | Err _ => 0 end) as Hpaid.
  { unfold due, payout_due. rewrite Hclaim, Hst. fold ex pts. by rewrite decide_False, Hpay. }
  assert (wp pay s1 (λ r s', r = fst (pay s1) ∧ ∃ t, r = Ok t ∧ 0 ≤ t ∧ fund_frame d f s')) as Hwp.
  { apply wp_and; [apply wp_fst|]. apply wp_bind. unfold deposit_event. apply wp_modify.
    destruct Hs1 as (Hd & Hfb & Hb). by apply (pay_all_follows d f v); [..| apply Hown | apply Hleft |]. }
  apply wp_bind. eapply wp_mono; [apply (wp_bind_inv _ _ _ _ Hwp)|]. cbn beta.
  intros [[]|er] s2 Hwp2; [|by destruct Hwp2 as (_ & t & [=] & _)].
  apply wp_bind. eapply wp_mono; [apply (wp_bind_inv _ _ _ _ Hwp2)|]. cbn beta.
  intros [t1|er] s3 Hwp3; [|by destruct Hwp3 as (_ & t & [=] & _)].
  apply wp_bind. eapply wp_mono; [exact Hwp3|]. cbn beta.
  intros r s4 (Heq & t & -> & Ht & Hs4). rewrite Hpaid, <- Heq.
  eapply wp_mono; [by apply settle_follows|]. cbn beta.
  intros r s5 [[-> Hs5]|(-> & Hlt & Hs5)]; [by left|]. right. auto.
Qed.
End Payouts.

(** * The chain *)

Section Chain.
Context `{PerThingLaws} `{CurrencyLaws} `{!StakingConfig} `{!FundLaws}.
Context (elect : bool → Store → option (list (AccountId * list (AccountId * Z)))).
Implicit Types s : Store.

Lemma fund_dispatch o c :
  o ≠ Signed fund_account_id → (∀ n, c ≠ CSetHistoryDepth n) → fund_frames (dispatch o c).
Proof.
  intros Ho Hc. destruct c; cbn [dispatch].
  - by apply fund_bond.
  - apply fund_bond_extra.
  - apply fund_unbond.
  - apply fund_withdraw_unbonded.
  - apply fund_rebond.
  - apply fund_validate.
  - apply fund_nominate.
  - apply fund_chill.
  - apply fund_set_payee.
  - by apply fund_set_controller.
  - apply fund_kick.
  - apply fund_chill_other.
  - apply fund_force_apply_min_commission.
  - by apply fund_root.
  - by apply fund_root.
  - by apply fund_root.
  - by apply fund_root.
  - by apply fund_root.
  - by apply fund_root.
  - by apply fund_root.
  - apply fund_force_unstake.
  - apply fund_cancel_deferred_slash.
  - by destruct (Hc d).
  - apply fund_reap_stash.
  - by apply fund_root.
Qed.

(** The end of session [i], the start of the next and the plan of the one
    after it ([rotate_session] of the session pallet). *)
Definition rotate (i : SessionIndex) s : Store :=
  run (sm_new_session elect false (i + 2)) (run (start_session (i + 1)) (run (end_session i) s)).

(** The genesis of the session pallet plans the first two sessions and starts
    the first one. *)
Definition boot s : Store :=
  run (start_session 0) (run (sm_new_session elect true 1) (run (sm_new_session elect true 0) s)).

(** What a payout takes beyond the reward that is left for its era: the shares
    of the stakers are rounded one by one. *)
Definition excess s v e : Z :=
  sat_sub (payout_due s v e) (default 0 (eras_not_claimed_reward_map s !! e)).

Definition depth_call_ok (c : StakingCall) : Prop :=
  match c with CSetHistoryDepth n => 1 ≤ n < umax 32 | _ => True end.

(** The points of an era stay in 32 bits. *)
Definition points_room (ps : list (AccountId * Z)) s : Prop :=
  Forall (λ p, 0 ≤ p.2) ps ∧
  ∀ ae, active_era s = Some ae →
    rp_total (eras_reward_points s (ae_index ae)) + zsum snd ps < 2 ^ 32.

(** One step of the chain, with the number of the session and the sum of the
    excesses so far.  Nobody signs for the account of the fund, and what other
    pallets do to balances does not lower the one of the fund. *)
Inductive fund_step : SessionIndex * Z * Store → SessionIndex * Z * Store → Prop :=
  | fund_call o c i k s :
      call_ok c → depth_call_ok c → o ≠ Signed fund_account_id →
      fund_step (i, k, s) (i, k, run (dispatch o c) s)
  | fund_payout w v e i k s :
      payout_room s v e →
      fund_step (i, k, s) (i, k + excess s v e, run (payout_stakers (Signed w) v e) s)
  | fund_offence offs fr ss ds i k s : fund_step (i, k, s) (i, k, run (on_offence offs fr ss ds) s)
  | fund_rotate i k s :
      plan_no (clock_of s) < umax 32 → fund_step (i, k, s) (i + 1, k, rotate i s)
  | fund_reward l i k s :
      points_room l s → fund_step (i, k, s) (i, k, run (reward_by_ids l) s)
  | fund_finalize now i k s : fund_step (i, k, s) (i, k, run (on_finalize now) s)
  | fund_currency g i k s :
      free_balance fund_account_id (currency s) ≤ free_balance fund_account_id (g (currency s)) →
      fund_step (i, k, s) (i, k, s <| currency ::= g |>).

Record solvent (i k : Z) s : Prop := {
  so_wf : staking_wf s;
  so_bonded : bonded s !! fund_account_id = None;
  so_clock : clock_ok i (clock_of s);
  so_fund : outstanding (clock_of s) ≤ fund_balance s + k;
  so_excess : 0 ≤ k;
}.

Definition fund_of (f : Z) : Z := sat_sub f EXISTENTIAL_DEPOSIT.

Lemma fund_balance_frame d f s : fund_frame d f s → fund_of f ≤ fund_balance s.
Proof. intros (_ & Hf & _). unfold fund_of, fund_balance, sat_sub. lia. Qed.

Lemma solvent_frame_of i k s :
  solvent i k s → solvent_frame (clock_of s) (free_balance fund_account_id (currency s)) s.
Proof. intros [Hs Hb _ _ _]. by split_and!. Qed.

Lemma frame_solvent i k d f s :
  solvent_frame d f s → clock_ok i d → outstanding d ≤ fund_of f + k → 0 ≤ k → solvent i k s.
Proof.
  intros [Hs Hf] Hd Hout Hk. pose proof (fund_balance_frame d f s Hf) as Hle.
  destruct Hf as (<- & _ & Hb). split; [done..| lia | done].
Qed.

(** An operation that keeps the frame keeps the fund solvent. *)
Lemma solvent_preserved {A} (m : Call A) i k s :
  (∀ d f, preserves (solvent_frame d f) m) → solvent i k s → solvent i k (run m s).
Proof.
  intros Hm Hs. pose proof (solvent_frame_of _ _ _ Hs) as Hf.
  eapply frame_solvent; [apply (preserves_run _ m s (Hm _ _) Hf)|..]; by destruct Hs.
Qed.

Lemma step_call_solvent i k o c s :
  call_ok c → depth_call_ok c → o ≠ Signed fund_account_id → solvent i k s →
  solvent i k (run (dispatch o c) s).
Proof.
  intros Hc Hdep Ho Hs.
  assert ((∀ n, c ≠ CSetHistoryDepth n) ∨ ∃ n, c = CSetHistoryDepth n) as [Hne|[n ->]]
    by (destruct c; eauto).
  { apply solvent_preserved; [|done]. intros d f. apply solvent_frames;
      [by apply preserves_dispatch | by apply fund_dispatch]. }
  pose proof (solvent_frame_of _ _ _ Hs) as [Hwf Hf].
  assert (staking_wf (run (dispatch o (CSetHistoryDepth n)) s)) as Hwf'
    by (apply (preserves_run staking_wf); [by apply preserves_dispatch | done]).
  destruct Hs as [_ _ Hck Hout Hk].
  destruct (set_history_depth_follows _ _ o n s Hf) as [Hf'|Hf'];
    (eapply frame_solvent; [split; [exact Hwf' | exact Hf'] |..]); try done.
  - by apply clock_set_depth.
  - pose proof (outstanding_set_depth _ n (clock_rewards_nonneg _ _ Hck)). unfold fund_of. unfold fund_balance in Hout. lia.
Qed.

(** Claiming takes the excess into account. *)
Lemma claimed_outstanding d e v :
  outstanding (claimed_reward e v d) ≤ outstanding d - v + sat_sub v (default 0 (unclaimed d !! e)).
Proof.
  unfold claimed_reward. destruct (unclaimed d !! e) as [r|] eqn:He; cbn [default from_option].
  2:{ unfold sat_sub, id. lia. }
  unfold outstanding. rewrite (outstanding_delete (unclaimed d) e), He.
  rewrite (outstanding_delete (unclaimed (promise e _ d)) e). cbn.
  rewrite lookup_insert_eq, delete_insert_eq. cbn. unfold id, sat_sub. lia.
Qed.

Lemma clock_claimed i d e v : clock_ok i d → clock_ok i (claimed_reward e v d).
Proof.
  intros Hd. unfold claimed_reward. destruct (unclaimed d !! e) as [r|] eqn:He; [|done].
  apply clock_claim; [done | by rewrite He | unfold sat_sub; lia].
Qed.

Lemma step_payout_solvent i k w v e s :
  payout_room s v e → solvent i k s →
  solvent i (k + excess s v e) (run (payout_stakers (Signed w) v e) s).
Proof.
  intros Hroom Hs. pose proof (solvent_frame_of _ _ _ Hs) as Hf.
  pose proof (payout_follows _ w v e s _ Hf Hroom) as Hwp.
  pose proof (payout_due_nonneg s v e (proj1 Hf) Hroom) as Hdue.
  pose proof (payout_stakers_wp (Signed w) v e s (proj1 Hf) Hroom) as Hwf.
  destruct Hs as [_ _ Hck Hout Hk].
  assert (0 ≤ excess s v e) by (unfold excess, sat_sub; lia).
  assert (fund_balance s = fund_of (free_balance fund_account_id (currency s))) as Hfb by done.
  unfold wp in Hwp, Hwf. unfold run. destruct (payout_stakers (Signed w) v e s) as [r s'].
  cbn [snd] in *. destruct Hwp as [[_ Hf']|[Hf' _]];
    (eapply frame_solvent; [split; [exact Hwf | exact Hf'] |..]); try done; try lia.
  - by apply clock_claimed.
  - pose proof (claimed_outstanding (clock_of s) e (payout_due s v e)) as Hcl.
    rewrite Hfb in Hout. unfold excess in *. cbn [unclaimed clock_of] in Hcl.
    unfold fund_of in *. unfold sat_sub in *. lia.
Qed.

(** Between the end of a session and the start of the next one. *)
Lemma end_session_solvent i k s :
  plan_no (clock_of s) < umax 32 → solvent i k s →
  let s' := run (end_session i) s in
  solvent i k s' ∧ plan_no (clock_of s') = plan_no (clock_of s).
Proof.
  intros Hmax Hs s'. pose proof (solvent_frame_of _ _ _ Hs) as [Hwf Hf].
  destruct Hs as [_ _ Hck Hout Hk].
  pose proof (end_session_follows _ _ i s Hf (clock_rewards_nonneg _ _ Hck)) as Hwp.
  assert (staking_wf s') as Hwf'.
  { apply (preserves_run staking_wf); [|done]. apply frames_preserves, frames_end_session. }
  change (wp (end_session i) s ?Q) with (Q (fst (end_session i s)) s') in Hwp.
  unfold wp in Hwp. unfold run in s'. fold s' in Hwf'.
  destruct (end_session i s) as [r t] eqn:Heq. cbn [snd] in s'. subst s'.
  destruct Hwp as [Hf'|(e & Hact & Hst & Hf')].
  - split; [|by destruct Hf' as (-> & _)].
    by eapply frame_solvent; [split; [exact Hwf' | exact Hf'] |..].
  - destruct (clock_ending i _ e Hck Hact Hst Hmax) as (_ & Ha & Hp).
    split; [|by destruct Hf' as (-> & _)].
    assert (fund_balance t ≤ umax 128) as Hcap.
    { unfold fund_balance. pose proof (free_range fund_account_id (currency t)).
      unfold sat_sub, in_u, umax in *. change EXISTENTIAL_DEPOSIT with (10 ^ 17). lia. }
    pose proof (fund_balance_frame _ _ _ Hf') as Hle.
    pose proof (outstanding_promise i _ e (fund_balance t) Hck Ha Hp Hcap) as Hpr.
    unfold fund_of in Hle. fold (fund_balance s) in Hle.
    assert (clock_of t = promise e (sat_sub (fund_balance t) (reserved (clock_of s) e)) (clock_of s)) as Hclk
      by apply Hf'.
    split; [done | apply Hf' | rewrite Hclk | rewrite Hclk; lia | done].
    apply clock_promise; try done. unfold sat_sub. lia.
Qed.

Lemma step_rotate_solvent i k s :
  plan_no (clock_of s) < umax 32 → solvent i k s → solvent (i + 1) k (rotate i s).
Proof.
  intros Hmax Hs. destruct (end_session_solvent i k s Hmax Hs) as [Hs1 Hp1].
  unfold rotate. set (s1 := run (end_session i) s) in *. rewrite <- Hp1 in Hmax. clearbody s1.
  pose proof (solvent_frame_of _ _ _ Hs1) as Hf1.
  pose proof (start_session_follows _ _ (i + 1) s1 Hf1) as Hwp.
  destruct Hs1 as [_ _ Hck Hout Hk].
  destruct (clock_activate i _ Hck Hmax) as (Hck2 & Hact & Hpl & Hun).
  set (d2 := activate (i + 1) (clock_of s1)) in *.
  assert (plan_no d2 = plan_no (clock_of s1)) as Hp2 by (unfold plan_no; by rewrite Hpl).
  assert (outstanding d2 = outstanding (clock_of s1)) as Ho2 by (unfold outstanding; by rewrite Hun).
  set (s2 := run (start_session (i + 1)) s1).
  change (solvent_frame d2 (free_balance fund_account_id (currency s1)) s2) in Hwp.
  destruct Hwp as [Hwf2 Hf2]. clearbody s2.
  assert (staking_wf (run (sm_new_session elect false (i + 2)) s2)) as Hwf3.
  { apply (preserves_run staking_wf); [|done]. apply frames_preserves, frames_sm_new_session. }
  pose proof (ck_depth _ _ Hck2) as Hdep.
  destruct (new_session_follows elect d2 _ (i + 2) false s2 ltac:(lia) ltac:(lia) Hf2) as [Hf3|Hf3];
    (eapply frame_solvent; [split; [exact Hwf3 | exact Hf3] |..]); try done.
  - rewrite Ho2. exact Hout.
  - replace (i + 2) with (i + 1 + 1) by lia. apply clock_plan; [done | lia | lia].
  - pose proof (outstanding_plan (i + 2) d2 (clock_rewards_nonneg _ _ Hck2)).
    unfold fund_of. unfold fund_balance in Hout. lia.
Qed.

Lemma fund_step_solvent x y : fund_step x y → solvent x.1.1 x.1.2 x.2 → solvent y.1.1 y.1.2 y.2.
Proof.
  intros Hstep Hs. destruct Hstep; cbn [fst snd] in *.
  - by apply step_call_solvent.
  - by apply step_payout_solvent.
  - apply solvent_preserved; [|done]. intros d f. apply solvent_on_offence.
  - by apply step_rotate_solvent.
  - apply solvent_preserved; [|done]. intros d f.
    apply solvent_frames; [apply frames_preserves, frames_reward_by_ids | apply fund_reward_by_ids].
  - apply solvent_preserved; [|done]. intros d f.
    apply solvent_frames; [apply frames_preserves, frames_on_finalize | apply fund_on_finalize].
  - destruct Hs as [Hwf Hb Hck Hout Hk]. split; try done.
    unfold fund_balance in *. cbn. unfold sat_sub in *. change (clock_of _) with (clock_of s). lia.
Qed.

(** ** From genesis *)

Lemma fund_genesis_staker d f s s' x :
  x.1.1.1 ≠ fund_account_id → genesis_staker s x = Some s' → fund_frame d f s → fund_frame d f s'.
Proof.
  destruct x as [[[st c] v] status]. cbn [fst]. intros Hst Heq Hs.
  unfold genesis_staker in Heq.
  assert (∀ m s1 s2, fund_frames m → assert_ok m s1 = Some s2 → fund_frame d f s1 → fund_frame d f s2) as Hok.
  { intros m s1 s2 Hm Hm2 Hs1. unfold assert_ok in Hm2. destruct (m s1) as [[[]|e] s3] eqn:Hr; [|done].
    injection Hm2 as <-. by eapply preserves_result; [apply Hm|..]. }
  destruct (decide _); [|done]. apply bind_Some in Heq as (s1 & Hb & Heq).
  assert (fund_frame d f s1) as Hs1.
  { eapply Hok; [|exact Hb|exact Hs]. apply fund_bond. congruence. }
  destruct status; [by injection Heq as <- | |].
  - eapply Hok; [apply fund_validate | exact Heq | exact Hs1].
  - eapply Hok; [apply fund_nominate | exact Heq | exact Hs1].
Qed.

Lemma fund_genesis_stakers d f l : ∀ s s',
  Forall (λ st, st.1.1.1 ≠ fund_account_id) l → genesis_stakers s l = Some s' →
  fund_frame d f s → fund_frame d f s'.
Proof.
  induction l as [|x l IH]; intros s s' Hl Heq Hs; cbn in Heq; [by injection Heq as <-|].
  apply Forall_cons in Hl as [Hx Hl]. apply bind_Some in Heq as (s1 & H1' & Heq).
  apply (IH s1 s' Hl Heq). by eapply fund_genesis_staker.
Qed.

(** The stakers of genesis are accounts of people and the history is not empty. *)
Record genesis_ok (g : GenesisConfig) : Prop := {
  go_stakers : stakers_ok (g_stakers g);
  go_fund : Forall (λ st, st.1.1.1 ≠ fund_account_id) (g_stakers g);
  go_depth : 1 ≤ g_history_depth g < umax 32;
}.

Lemma genesis_boot g c vl ss sy s0 :
  genesis_ok g → genesis_build g (store_default c vl ss sy) = Some s0 → solvent 0 0 (boot s0).
Proof.
  intros [Hst Hfund Hdep] Hbuild. pose proof (genesis_wf g c vl ss sy s0 Hst Hbuild) as Hwf.
  set (d0 := {| unclaimed := ∅; planned := None; activated := None; starts := ∅;
                depth := g_history_depth g |}).
  assert (fund_frame d0 (free_balance fund_account_id c) s0) as Hf0.
  { unfold genesis_build in Hbuild. apply bind_Some in Hbuild as (s1 & Hs1 & Heq).
    destruct (decide _); [|done]. injection Heq as <-.
    eapply fund_genesis_stakers; [exact Hfund | exact Hs1 |]. by split_and!. }
  set (f := free_balance fund_account_id c) in *. unfold boot.
  assert (∀ i g s, staking_wf s → staking_wf (run (sm_new_session elect g i) s)) as Hnew.
  { intros i g' s Hs. apply (preserves_run staking_wf); [|done]. apply frames_preserves, frames_sm_new_session. }
  assert (∃ b0, fund_frame (maybe_plan b0 0 d0) f (run (sm_new_session elect true 0) s0)) as [b0 Hf1].
  { destruct (new_session_follows elect d0 f 0 true s0) as [Hf|Hf]; [cbn; lia | cbn; lia | done | |].
    - by exists false. - by exists true. }
  pose proof (Hnew 0 true s0 Hwf) as Hwf1. set (s1 := run (sm_new_session elect true 0) s0) in *.
  clearbody s1. set (d1 := maybe_plan b0 0 d0) in *.
  assert (depth d1 = g_history_depth g) as Hdep1.
  { unfold d1. destruct b0; [|done]. unfold maybe_plan, plan. by destruct (checked_sub _ _). }
  assert (∃ b1, fund_frame (maybe_plan b1 1 d1) f (run (sm_new_session elect true 1) s1)) as [b1 Hf2].
  { destruct (new_session_follows elect d1 f 1 true s1) as [Hf|Hf]; [lia | lia | done | |].
    - by exists false. - by exists true. }
  pose proof (Hnew 1 true s1 Hwf1) as Hwf2. set (s2 := run (sm_new_session elect true 1) s1) in *.
  clearbody s2.
  pose proof (start_session_follows _ f 0 s2 (conj Hwf2 Hf2)) as Hwp.
  pose proof (clock_boot b0 b1 d0 eq_refl eq_refl eq_refl eq_refl Hdep) as Hck. fold d1 in Hck.
  eapply (frame_solvent 0 0 _ f); [exact Hwp | exact Hck | | done].
  assert (outstanding (activate 0 (maybe_plan b1 1 d1)) = 0) as ->; [|unfold fund_of, sat_sub; lia].
  assert (∀ i d, unclaimed d = ∅ → unclaimed (plan i d) = ∅) as Hplan.
  { intros i d Hd. unfold plan. cbn zeta. destruct (checked_sub _ _); cbn; rewrite Hd; [|done].
    apply delete_empty. }
  assert (unclaimed (maybe_plan b1 1 d1) = ∅) as Hun.
  { unfold d1, maybe_plan. destruct b0, b1; rewrite ?Hplan; try done; by rewrite Hplan. }
  unfold outstanding, activate. destruct (starts _ !! _); [destruct (decide _)|]; cbn; rewrite Hun;
    apply map_sum_empty.
Qed.

(** The storages of the chain, in session [i] and with excesses of [k]. *)
Definition reachable g c vl ss sy (i k : Z) s : Prop :=
  ∃ s0, genesis_build g (store_default c vl ss sy) = Some s0 ∧ rtc fund_step (0, 0, boot s0) (i, k, s).

Lemma reachable_solvent g c vl ss sy i k s :
  genesis_ok g → reachable g c vl ss sy i k s → solvent i k s.
Proof.
  intros Hg (s0 & Hbuild & Hreach).
  assert (∀ x y, rtc fund_step x y → solvent x.1.1 x.1.2 x.2 → solvent y.1.1 y.1.2 y.2) as Hrtc.
  { induction 1 as [|x y z Hxy _ IH]; [done|]. intros Hx. apply IH. by eapply fund_step_solvent. }
  apply (Hrtc _ _ Hreach). cbn. by eapply genesis_boot.
Qed.

(** From genesis on, whatever calls, payouts, offences and sessions follow,
    the reward fund holds all rewards that validators and nominators can still
    claim, up to what earlier payouts took beyond the reward of their era
    (each staker's share is rounded on its own); and rewards are only left for
    eras of the history that were active. *)
Theorem fund_solvent g c vl ss sy i k s
    (Hg : genesis_ok g) (Hreach : reachable g c vl ss sy i k s) :
  map_sum id (eras_not_claimed_reward_map s) ≤ fund_balance s + k
  ∧ ∀ e r, eras_not_claimed_reward_map s !! e = Some r →
      0 ≤ r ∧ ∃ ce ai, current_era s = Some ce ∧ active_era s = Some ai
        ∧ ce - history_depth s ≤ e ≤ ae_index ai.
Proof.
  destruct (reachable_solvent _ _ _ _ _ _ _ _ Hg Hreach) as [_ _ Hck Hout _].
  split; [exact Hout|]. intros e r He. pose proof (ck_rewards _ _ Hck e r He) as (Hr & Hpos & Hrange).
  split; [done|]. pose proof (ck_order _ _ Hck) as Ho. unfold plan_no, active_no in Hrange, Ho.
  cbn in Hrange, Ho. destruct (active_era s) as [ai|]; cbn in *; [|lia].
  destruct (current_era s) as [ce|]; cbn in *; [|lia].
  exists ce, ai. split_and!; [done..|lia|lia].
Qed.

(** C19: What the history depth asks for ("the active era must always be in
    history") holds of every session: the active era is the planned one or the
    one before it, and only the first era can be planned with none active. *)
Theorem active_era_in_history g c vl ss sy i k s
    (Hg : genesis_ok g) (Hreach : reachable g c vl ss sy i k s) :
  (∀ ai, active_era s = Some ai → ∃ ce, current_era s = Some ce
     ∧ ce - 1 ≤ ae_index ai ≤ ce ∧ (2 ≤ history_depth s → ce - history_depth s < ae_index ai))
  ∧ (active_era s = None → current_era s = None ∨ current_era s = Some 0).
Proof.
  destruct (reachable_solvent _ _ _ _ _ _ _ _ Hg Hreach) as [_ _ Hck _ _].
  pose proof (ck_order _ _ Hck) as Ho. pose proof (ck_active _ _ Hck) as Ha.
  pose proof (ck_planned _ _ Hck) as Hp.
  unfold plan_no, active_no in Ho. cbn in Ho, Ha, Hp. split.
  - intros ai Hai. rewrite Hai in *. specialize (Ha (ae_index ai) eq_refl). cbn in *.
    destruct (current_era s) as [ce|]; cbn in Ho; [|lia]. exists ce. split_and!; [done|lia..].
  - intros Hnone. rewrite Hnone in *. cbn in Ho. destruct (current_era s) as [ce|]; [|by left].
    specialize (Hp ce eq_refl). cbn in Ho. right. f_equal. lia.
Qed.

(** A payout that passes its checks succeeds while what it is due and the
    excesses so far are within the rewards that are left: the settlement against
    the fund cannot fail. *)
Lemma claim_covered g c vl ss sy i k s w v e controller l ep
    (Hg : genesis_ok g) (Hreach : reachable g c vl ss sy i k s) (Hroom : payout_room s v e)
    (Hclaim : claim_era s v e = Ok (controller, l, ep)) (Hdue : 0 < payout_due s v e)
    (Hcovered : payout_due s v e + k ≤ map_sum id (eras_not_claimed_reward_map s)) :
  fst (payout_stakers (Signed w) v e s) = Ok tt.
Proof.
  pose proof (reachable_solvent _ _ _ _ _ _ _ _ Hg Hreach) as Hs.
  pose proof (payout_follows _ w v e s _ (solvent_frame_of _ _ _ Hs) Hroom) as Hwp.
  destruct Hs as [_ _ Hck Hout _]. unfold wp in Hwp.
  destruct (payout_stakers (Signed w) v e s) as [r s']. cbn [fst snd] in *.
  destruct Hwp as [[-> _]|[_ [->|[(er & _ & Her)|Hlt]]]]; [done | done | congruence |].
  exfalso. unfold outstanding in Hout. cbn [unclaimed clock_of] in Hout.
  unfold fund_balance, sat_sub in Hout. lia.
Qed.
End Chain.

(** * The wallet

    In the runtime [RevenueFund] is the wallet pallet ([Revenue.Wallet]): its
    [trigger_wallet] never takes from the reward fund. *)
Section WalletFund.
Context `{CurrencyLaws, !Wallet.Accounts}.

Definition wallet_trigger (c : cur) : cur :=
  Wallet.w_currency (Wallet.revenue_trigger_wallet {| Wallet.w_currency := c; Wallet.w_events := [] |}).

Lemma wallet_trigger_free c :
  free_balance Wallet.reward_fund_id c ≤ free_balance Wallet.reward_fund_id (wallet_trigger c).
Proof.
  unfold wallet_trigger, Wallet.revenue_trigger_wallet, Wallet.pot. cbn [Wallet.w_currency].
  destruct (decide _) as [Hpos|]; [|done]. cbn [Wallet.w_currency].
  destruct (transfer _ _ _ _ c) as [c'|] eqn:Ht; [|done]. cbn.
  destruct (transfer_spec _ _ _ _ _ _ Ht) as [_ Hfree]; [lia|].
  rewrite Hfree, (decide_True (P := Wallet.reward_fund_id = Wallet.reward_fund_id)) by done.
  destruct (decide _); lia.
Qed.
End WalletFund.

(** * A concrete chain *)

Section Examples.
#[local] Existing Instances TestPerThing TestPerThing_laws TestCurrency TestCurrency_laws.

#[local] Instance chain_accounts : Wallet.Accounts :=
  {| Wallet.account_id := 901; Wallet.reward_fund_id := 900 |}.

(** The configuration of the examples, with the wallet pallet as [RevenueFund]
    and slashes deferred by [d] eras. *)
Definition chain_config_with (d : Z) : StakingConfig := {|
  BondingDuration := 3;
  SessionsPerEra := 3;
  SlashDeferDuration := d;
  MaxNominations := 16;
  MaxNominatorRewardedPerValidator := 64;
  OffendingValidatorsThreshold := 750000000;
  pallet_account := test_pallet_account;
  to_vote v _ := Z.min v (umax 64);
  to_currency v _ := v;
  vlist := list AccountId;
  vl_on_insert a _ l := if decide (a ∈ l) then None else Some (l ++ [a]);
  vl_on_update a _ l := if decide (a ∈ l) then Some l else None;
  vl_on_remove a l := if decide (a ∈ l) then Some (filter (λ b, b ≠ a) l) else None;
  vl_contains a l := bool_decide (a ∈ l);
  vl_iter l := l;
  vl_count := length;
  session := list AccountId * list Z;
  session_validators := fst;
  session_disable_validator i s := (s.1, s.2 ++ [i]);
  session_prune_historical_up_to _ s := s;
  sys := gmap AccountId Z;
  inc_consumers a m := Some (<[a := default 0 (m !! a) + 1]> m);
  dec_consumers a m := <[a := default 0 (m !! a) - 1]> m;
  trigger_wallet := wallet_trigger;
  slash_on_unbalanced := test_burn;
  lookup a := if decide (0 ≤ a) then Some a else None;
  unlookup a := a;
  slash_cancel_origin o := match o with Root => true | _ => false end;
|}.

Lemma chain_fund_laws_with d (C := chain_config_with d) : FundLaws.
Proof.
  subst C. split.
  - cbn. intros a v c imb missing c' b [= <- <- <-] Hv Hne.
    pose proof (t_balance_range a c). rewrite t_balance_add by ulia.
    rewrite decide_False by done. lia.
  - cbn. intros a v c b Hv. unfold t_add, t_put, t_balance. cbn.
    rewrite lookup_insert. destruct (decide (a = b)) as [->|]; [|done]. cbn.
    unfold t_balance. unfold umax. lia.
  - done.
  - intros c. exact (wallet_trigger_free c).
  - intros v c Hv Hle. cbn in *. unfold t_can_take.
    rewrite bool_decide_eq_true_2; [done|]. change EXISTENTIAL_DEPOSIT with (10 ^ 17) in Hle. lia.
Qed.

#[local] Instance chain_config : StakingConfig := chain_config_with 0.
#[local] Instance chain_fund_laws : FundLaws := chain_fund_laws_with 0.

(** The fund starts with 5000 beyond the existential deposit, the wallet with
    500; every session is an era. *)
Definition chain_cur : test_cur :=
  TestCur {[ 11 := 5000; 101 := 3000; 10 := 5; 100 := 5;
             900 := EXISTENTIAL_DEPOSIT + 5000; 901 := 500 ]} 13510 ∅.
Definition chain_genesis : GenesisConfig := {|
  g_history_depth := 84; g_validator_count := 2; g_minimum_validator_count := 1;
  g_invulnerables := []; g_force_era := ForceAlways; g_slash_reward_fraction := 100000000;
  g_canceled_payout := 0;
  g_stakers := [ (11, 10, 1000, StatusValidator); (101, 100, 500, StatusNominator [11]) ];
  g_min_nominator_bond := 0; g_min_validator_bond := 0; g_max_validator_count := None;
  g_max_nominator_count := None |}.
Definition chain_default : Store := store_default chain_cur [] ([], []) ∅.
Definition chain_start : Store := default chain_default (genesis_build chain_genesis chain_default).

(** The election that elects 11, supported by 101. *)
Definition chain_elect (_ : bool) (_ : Store) : option (list (AccountId * list (AccountId * Z))) :=
  Some [(11, [(11, 1000); (101, 500)])].

Definition chain_1 : Store := run (on_finalize 1000) (boot chain_elect chain_start).
Definition chain_2 : Store := run (reward_by_ids [(11, 20)]) chain_1.
Definition chain_3 : Store := rotate chain_elect 0 chain_2.
Definition chain_4 : Store := run (payout_stakers (Signed 7) 11 0) chain_3.
Definition chain_5 : Store := rotate chain_elect 1 chain_4.

Example chain_pays :
  fund_balance chain_3 = 5500 ∧ eras_not_claimed_reward chain_3 0 = 5500
  ∧ fund_balance chain_4 = 1 ∧ eras_not_claimed_reward chain_4 0 = 1
  ∧ t_balance 11 (currency chain_4) = 8666 ∧ t_balance 101 (currency chain_4) = 4833.
Proof. repeat split; vm_compute; reflexivity. Qed.

Lemma chain_builds : genesis_build chain_genesis chain_default = Some chain_start.
Proof.
  unfold chain_start.
  assert (match genesis_build chain_genesis chain_default with
          | Some _ => true | None => false end = true) as Hb by (vm_compute; reflexivity).
  destruct (genesis_build _ _); [reflexivity | discriminate].
Qed.

Lemma chain_genesis_ok_with d (C := chain_config_with d) : genesis_ok chain_genesis.
Proof.
  subst C. split.
  - apply Forall_cons; split; [vm_compute; split; congruence|].
    apply Forall_cons; split; [vm_compute; split; congruence | by apply Forall_nil].
  - apply Forall_cons; split; [vm_compute; discriminate|].
    apply Forall_cons; split; [vm_compute; discriminate | by apply Forall_nil].
  - vm_compute. split; congruence.
Qed.

Lemma chain_genesis_ok : genesis_ok chain_genesis.
Proof. exact (chain_genesis_ok_with 0). Qed.

(** A room that a computation checks. *)
Definition payout_room_check (s : Store) (v e : Z) : bool :=
  let prefs := eras_validator_prefs s e v in
  bool_decide (is_perbill (commission prefs)) &&
  match eras_validator_reward s !! e with
  | Some r => bool_decide (u128 r) &&
      bool_decide (map_Forall (λ _ l, total l +
        Z.of_nat (S (length (others (eras_stakers_clipped s e v)))) * r < 2 ^ 128) (ledger s))
  | None => true
  end.

Lemma payout_room_check_ok s v e : payout_room_check s v e = true → payout_room s v e.
Proof.
  unfold payout_room_check, payout_room. intros [Hc Hr]%andb_true_iff.
  apply bool_decide_eq_true in Hc. split; [done|]. intros r Hrew. rewrite Hrew in Hr.
  apply andb_true_iff in Hr as [Hu%bool_decide_eq_true Hroom%bool_decide_eq_true].
  split; [done|]. intros c l Hl. by apply (Hroom c l).
Qed.

Lemma chain_room : payout_room chain_3 11 0.
Proof. apply payout_room_check_ok. vm_compute. reflexivity. Qed.

(** The same for the points. *)
Definition points_room_check (ps : list (AccountId * Z)) (s : Store) : bool :=
  bool_decide (Forall (λ p, 0 ≤ p.2) ps) &&
  match active_era s with
  | Some ae => bool_decide (rp_total (eras_reward_points s (ae_index ae)) + zsum snd ps < 2 ^ 32)
  | None => true
  end.

Lemma points_room_check_ok ps s : points_room_check ps s = true → points_room ps s.
Proof.
  unfold points_room_check, points_room. intros [Hp%bool_decide_eq_true Ha]%andb_true_iff.
  split; [done|]. intros ae Hae. rewrite Hae in Ha. by apply bool_decide_eq_true in Ha.
Qed.

Lemma chain_points_room : points_room [(11, 20)] chain_1.
Proof. apply points_room_check_ok. vm_compute. reflexivity. Qed.

Lemma chain_reaches_3 : rtc (fund_step chain_elect) (0, 0, boot chain_elect chain_start) (1, 0, chain_3).
Proof.
  apply (rtc_l _ _ (0, 0, chain_1)); [exact (fund_finalize chain_elect 1000 0 0 (boot chain_elect chain_start))|].
  apply (rtc_l _ _ (0, 0, chain_2)); [exact (fund_reward chain_elect [(11, 20)] 0 0 chain_1 chain_points_room)|].
  apply (rtc_l _ _ (1, 0, chain_3)); [|apply rtc_refl].
  refine (fund_rotate chain_elect 0 0 chain_2 _). vm_compute. reflexivity.
Qed.

(** The payout takes nothing beyond the reward. *)
Lemma chain_no_excess : 0 + excess chain_3 11 0 = 0.
Proof. vm_compute. reflexivity. Qed.

Lemma chain_step_4 : fund_step chain_elect (1, 0, chain_3) (1, 0, chain_4).
Proof.
  pose proof (fund_payout chain_elect 7 11 0 1 0 chain_3 chain_room) as Hstep.
  rewrite chain_no_excess in Hstep. exact Hstep.
Qed.

Lemma chain_step_5 : fund_step chain_elect (1, 0, chain_4) (2, 0, chain_5).
Proof. refine (fund_rotate chain_elect 1 0 chain_4 _). vm_compute. reflexivity. Qed.

Lemma chain_reaches_5 : reachable chain_elect chain_genesis chain_cur [] ([], []) ∅ 2 0 chain_5.
Proof.
  exists chain_start. split; [exact chain_builds|].
  etrans; [exact chain_reaches_3|].
  apply (rtc_l _ _ (1, 0, chain_4)); [exact chain_step_4|].
  apply (rtc_l _ _ (2, 0, chain_5)); [exact chain_step_5 | apply rtc_refl].
Qed.

Lemma fund_solvent_witness :
  map_sum id (eras_not_claimed_reward_map chain_5) ≤ fund_balance chain_5 + 0
  ∧ eras_not_claimed_reward chain_5 0 = 1.
Proof.
  split; [|vm_compute; reflexivity].
  exact (proj1 (fund_solvent chain_elect chain_genesis chain_cur [] ([], []) ∅ 2 0 chain_5
    chain_genesis_ok chain_reaches_5)).
Defined.

Lemma active_era_in_history_witness :
  ∃ ce, current_era chain_5 = Some ce ∧ ce - 1 ≤ 2 ≤ ce ∧ ce = 3.
Proof.
  destruct (active_era_in_history chain_elect chain_genesis chain_cur [] ([], []) ∅ 2 0 chain_5
    chain_genesis_ok chain_reaches_5) as [Hact _].
  destruct (Hact {| ae_index := 2; ae_start := None |}) as (ce & Hce & Hle & _);
    [vm_compute; reflexivity|].
  exists ce. split; [exact Hce|]. split; [exact Hle|].
  assert (current_era chain_5 = Some 3) as Hthree by (vm_compute; reflexivity). congruence.
Defined.
End Examples.
