(* ===== verification/SlashTiming.v ===== *)
(** When deferred slashes are applied, over whole histories of the chain: every
    slash that waits was reported at most [SlashDeferDuration] eras ago, so none
    is forgotten and none is applied early; and with the deferral shorter than
    the bonding duration, what was unbonded since the era of a waiting slash is
    still in the ledgers.  The histories are those of [FundSolvency]. *)

From Stdlib Require Import ZArith Lia.
From stdpp Require Import base option list gmap fin_maps fin_sets.
From S2P Require Import Prelude Interfaces StakingLedger SlashingSpans StakingState Slashing.
From S2P Require Import SlashingCorrect Bonding Governance Payout Eras StakingInvariant.
From S2P Require Import EraView SlashDeferral EraClock FundSolvency.
#[local] Open Scope Z_scope.

(** * The timing of slashes *)

Section Timing.
Context `{PerThingLaws} `{CurrencyLaws} `{!StakingConfig}.
Implicit Types s : Store.

(** What waits was reported while the active era was at most [SlashDeferDuration]
    less than it is now; before the first era nothing waits. *)
Definition timely (v : EraView) : Prop :=
  match v_active v, v_earliest v with
  | None, e0 => e0 = None ∧ v_unapplied v = ∅
  | Some ae, None => 0 ≤ ae ∧ v_unapplied v = ∅
  | Some ae, Some e0 =>
      0 ≤ ae ∧ ae - SlashDeferDuration ≤ e0 ≤ ae ∧ ∀ a, a ∈ v_unapplied v → e0 ≤ a ≤ ae
  end.

#[local] Hint Extern 2 (keeps (λ s, timely (view_of s)) _ _) =>
  apply quiet_view; solve [eauto with quiet] : keeps.

(** ** Operations that plan and pay *)

Lemma timely_dispatch o c : call_ok c → preserves (λ s, timely (view_of s)) (dispatch o c).
Proof.
  intros Hc. destruct (call_cases c Hc) as [Hq|[(a & b & p & ->)|[n ->]]]; cbn [dispatch].
  - by apply quiet_view, quiet_dispatch.
  - intros s Hs. split; [by rewrite bond_view | done].
  - unfold set_history_depth, clear_era_information, ensure_root. keeps_auto; done.
Qed.

Lemma timely_payout o v e : preserves (λ s, timely (view_of s)) (payout_stakers o v e).
Proof.
  unfold payout_stakers, do_payout_stakers, update_not_claimed_reward, ensure_signed, deposit_event.
  keeps_auto; try done; by case_match.
Qed.

Lemma timely_reward_by_ids ps : preserves (λ s, timely (view_of s)) (reward_by_ids ps).
Proof. unfold reward_by_ids. keeps_auto; done. Qed.

Lemma timely_new_session elect g i :
  preserves (λ s, timely (view_of s)) (sm_new_session elect g i).
Proof.
  unfold sm_new_session, new_session, try_trigger_new_era, trigger_new_era, store_stakers_info,
    clear_era_information. keeps_auto; done.
Qed.

Lemma timely_end_session i : preserves (λ s, timely (view_of s)) (end_session i).
Proof. unfold end_session, end_era, deposit_event. keeps_auto; done. Qed.

(** ** Offences *)

(** The first report in an era notes the era; every report adds to its entry. *)
Definition reported (ae e0 : EraIndex) (v : EraView) : Prop :=
  v_active v = Some ae ∧ v_earliest v = Some e0 ∧ ∀ a, a ∈ v_unapplied v → e0 ≤ a ≤ ae.

Lemma reported_offence_one ae e0 invuln se ws rp ds od fraction :
  e0 ≤ ae →
  preserves (λ s, reported ae e0 (view_of s)) (on_offence_one invuln se ws ae rp ds od fraction).
Proof.
  intros Hle. unfold on_offence_one. destruct (offender od) as [w ex].
  destruct (decide _); [by apply keeps_ret|].
  apply preserves_keeps_bind; [apply quiet_view, quiet_compute_slash|].
  intros [u|]; [|by apply keeps_ret].
  destruct (decide _); [apply quiet_view, quiet_apply_slash|].
  apply keeps_modify; [done|]. intros s (Ha & He & Hin). split_and!; [exact Ha | exact He|].
  intros a. cbn. rewrite dom_insert_L, elem_of_union, elem_of_singleton.
  intros [->|Ha']; [lia | by apply Hin].
Qed.

Lemma timely_on_offence offs fr ss ds :
  0 ≤ SlashDeferDuration → preserves (λ s, timely (view_of s)) (on_offence offs fr ss ds).
Proof.
  intros Hd. apply preserves_wp. intros s Hs. unfold on_offence. apply wp_get. cbn [id].
  destruct (active_era s) as [ai|] eqn:Hai; [|by apply wp_ret].
  destruct (offence_era _ _ _) as [se|]; [|by apply wp_ret].
  apply wp_bind, wp_modify. set (ae := ae_index ai).
  set (s1 := match earliest_unapplied_slash s with None => _ | Some _ => _ end).
  assert (∃ e0, 0 ≤ ae ∧ ae - SlashDeferDuration ≤ e0 ≤ ae ∧ reported ae e0 (view_of s1))
    as (e0 & Hae & He0 & Hrep).
  { unfold timely, view_of in Hs. cbn in Hs. rewrite Hai in Hs. cbn in Hs. fold ae in Hs.
    unfold s1, reported, view_of. destruct (earliest_unapplied_slash s) as [e0|] eqn:He; cbn.
    - exists e0. rewrite Hai, He. tauto.
    - exists ae. rewrite Hai. destruct Hs as [? ->]. split_and!; [lia.. | done | done |].
      intros a Ha. by apply elem_of_empty in Ha. }
  eapply wp_mono; [apply (wp_preserves (λ s, reported ae e0 (view_of s))); [|exact Hrep]|].
  - apply keeps_for_each. intros [od fraction] _. apply reported_offence_one. lia.
  - cbn. intros _ s' (Ha & He & Hin). unfold timely. rewrite Ha, He. done.
Qed.

(** ** The start of an era *)

Lemma total_apply_eras l : always_ok (for_each l apply_era_slashes).
Proof. unfold apply_era_slashes. total_auto. Qed.

Lemma apply_eras_frame x y l :
  preserves (λ s, earliest_unapplied_slash s = x ∧ ae_index <$> active_era s = y)
    (for_each l apply_era_slashes).
Proof.
  apply keeps_for_each. intros e _. unfold apply_era_slashes, preserves. keeps_step.
  apply preserves_keeps_bind; [by apply keeps_modify|]. intros _.
  apply keeps_for_each. intros u _. apply keeps_apply_slash_frame. by split.
Qed.

(** Dealing with what is due makes a storage timely whose active era has just
    moved on. *)
Lemma timely_apply ae s :
  0 ≤ SlashDeferDuration → 0 ≤ ae → ae_index <$> active_era s = Some ae →
  match earliest_unapplied_slash s with
  | None => dom (unapplied_slashes_map s) =@{gset EraIndex} ∅
  | Some e0 => ae - 1 - SlashDeferDuration ≤ e0 ≤ ae ∧
      ∀ a, a ∈ dom (unapplied_slashes_map s) → e0 ≤ a ≤ ae
  end →
  wp (apply_unapplied_slashes ae) s (λ _ s', timely (view_of s')).
Proof.
  intros Hd Hae Hact Hold. unfold apply_unapplied_slashes. apply wp_get. cbn [id].
  destruct (earliest_unapplied_slash s) as [e0|] eqn:He.
  - destruct Hold as [He0 Hin]. cbn zeta. set (keep := sat_sub ae SlashDeferDuration).
    set (l := seqZ e0 (keep - e0)).
    destruct (total_apply_eras l s) as ([] & s1 & Hf).
    destruct (preserves_result _ _ _ _ _ (apply_eras_frame (Some e0) (Some ae) l) Hf (conj He Hact))
      as [He1 Ha1].
    apply wp_bind, (wp_run _ _ _ _ _ Hf), wp_modify.
    unfold timely, view_of. cbn. rewrite Ha1. split; [done|].
    split; [unfold keep, sat_sub; lia|]. intros a [us Ha]%elem_of_dom.
    rewrite (for_each_era_slashes _ _ _ _ Hf) in Ha. destruct (decide (a ∈ l)) as [|Hnl]; [done|].
    assert (a ∈ dom (unapplied_slashes_map s)) as Hdom by by apply elem_of_dom.
    specialize (Hin a Hdom). unfold l in Hnl. rewrite elem_of_seqZ in Hnl. lia.
  - apply wp_ret. unfold timely, view_of. cbn. by rewrite Hact, He.
Qed.

(** The number of the next era is not wrapped around. *)
Definition era_room (v : EraView) : Prop := default (-1) (v_active v) + 1 < 2 ^ 32.

Lemma timely_start_era i s :
  0 ≤ SlashDeferDuration → era_room (view_of s) → timely (view_of s) →
  wp (start_era i) s (λ _ s', timely (view_of s')).
Proof.
  intros Hd Hroom Hs. unfold start_era. apply wp_get. cbn zeta. cbn [id].
  set (ae := match active_era s with Some _ => _ | None => _ end).
  destruct (prune_bonded _ _ _) as [kept pruned].
  set (s1 := s <| active_era := Some {| ae_index := ae; ae_start := None |} |>).
  apply wp_bind, wp_modify. fold s1.
  apply (wp_quiet _ _ (view_of s1)); [unfold clear_era_metadata; by quiet_auto | by total_auto | done|].
  intros _ s2 Hs2.
  apply (wp_quiet _ _ (view_of s1)); [by quiet_auto | by total_auto | done|]. intros _ s3 Hs3.
  apply (wp_quiet _ _ (view_of s1)); [by quiet_auto | by total_auto | done|]. intros _ s4 Hs4.
  assert (ae_index <$> active_era s4 = Some ae) as Hact by exact (f_equal v_active Hs4).
  assert (earliest_unapplied_slash s4 = earliest_unapplied_slash s) as He
    by exact (f_equal v_earliest Hs4).
  assert (dom (unapplied_slashes_map s4) =@{gset EraIndex} dom (unapplied_slashes_map s)) as Hdom
    by exact (f_equal v_unapplied Hs4).
  unfold timely, era_room, view_of in Hs, Hroom. cbn in Hs, Hroom.
  assert (0 ≤ ae ∧ match active_era s with Some ai => ae = ae_index ai + 1 | None => True end)
    as [Hae Hnext].
  { unfold ae. destruct (active_era s) as [ai|]; [|done]. cbn in Hs, Hroom.
    assert (0 ≤ ae_index ai) by (by destruct (earliest_unapplied_slash s); destruct Hs).
    rewrite wadd_small by ulia. lia. }
  apply timely_apply; [done | done | done|]. rewrite He, Hdom.
  destruct (active_era s) as [ai|]; cbn in Hs.
  - destruct (earliest_unapplied_slash s) as [e0|]; [|by destruct Hs].
    destruct Hs as (Hai & He0 & Hin). split; [lia|]. intros a Ha. specialize (Hin a Ha). lia.
  - by destruct Hs as [-> ->].
Qed.

Lemma timely_start_session i s :
  0 ≤ SlashDeferDuration → era_room (view_of s) → timely (view_of s) →
  timely (view_of (run (start_session i) s)).
Proof.
  intros Hd Hroom Hs. change (wp (start_session i) s (λ _ s', timely (view_of s'))).
  assert (∀ s, timely (view_of s) → wp ((s' ← gets id;
    for_each (offending_validators s') (λ '(idx, disabled), when (disabled = true)
      (modify (λ s, s <| sessions ::= session_disable_validator idx |>)))) : Call unit) s
    (λ _ s', timely (view_of s'))) as Htail.
  { clear s Hroom Hs. intros s Hs. apply (wp_preserves (λ s, timely (view_of s))), Hs.
    apply quiet_view. by quiet_auto. }
  unfold start_session. apply wp_get. cbn zeta. apply wp_bind.
  destruct (eras_start_session_index _ !! _) as [st|]; [|by apply wp_ret, Htail].
  apply wp_when; intros Hle; [|by apply Htail].
  eapply wp_mono; [by apply timely_start_era|]. intros [[]|er] s1 Hs1; [by apply Htail | done].
Qed.
End Timing.

(** * The histories of the chain *)

Section Histories.
Context `{PerThingLaws} `{CurrencyLaws} `{!StakingConfig} `{!FundLaws}.
Context (elect : bool → Store → option (list (AccountId * list (AccountId * Z)))).
Implicit Types s : Store.

Lemma clock_room i s :
  clock_ok i (clock_of s) → plan_no (clock_of s) < umax 32 → era_room (view_of s).
Proof.
  intros Hck Hmax. pose proof (ck_order _ _ Hck) as Ho. unfold era_room, active_no in *. cbn in *. ulia.
Qed.

Lemma timely_rotate i s :
  0 ≤ SlashDeferDuration → era_room (view_of s) → timely (view_of s) →
  timely (view_of (rotate elect i s)).
Proof.
  intros Hd Hroom Hs. apply (preserves_run _ _ _ (timely_new_session elect false (i + 2))).
  apply timely_start_session; [done | | by apply (preserves_run _ _ _ (timely_end_session i))].
  eapply (preserves_run (λ s, era_room (view_of s))); [|exact Hroom].
  unfold end_session, end_era, deposit_event. keeps_auto; done.
Qed.

Lemma fund_step_timely x y :
  0 ≤ SlashDeferDuration → fund_step elect x y → solvent x.1.1 x.1.2 x.2 →
  timely (view_of x.2) → timely (view_of y.2).
Proof.
  intros Hd Hstep Hso Hs. destruct Hstep; cbn [fst snd] in *.
  - by apply (preserves_run _ _ _ (timely_dispatch _ _ ltac:(eassumption))).
  - by apply (preserves_run _ _ _ (timely_payout _ _ _)).
  - by apply (preserves_run (λ s, timely (view_of s))); [apply timely_on_offence|].
  - apply timely_rotate; [done | by eapply clock_room; [exact (so_clock _ _ _ Hso)|] | done].
  - by apply (preserves_run _ _ _ (timely_reward_by_ids _)).
  - by rewrite (quiet_run _ _ (quiet_on_finalize _)).
  - done.
Qed.

(** ** From genesis *)

Lemma genesis_timely g c vl ss sy s0 :
  0 ≤ SlashDeferDuration → genesis_build g (store_default c vl ss sy) = Some s0 →
  timely (view_of (boot elect s0)).
Proof.
  intros Hd Hbuild%genesis_view. unfold boot.
  apply timely_start_session; [done | | ].
  - do 2 (eapply (preserves_run (λ s, era_room (view_of s)));
      [unfold sm_new_session, new_session, try_trigger_new_era, trigger_new_era, store_stakers_info,
         clear_era_information, deposit_event; keeps_auto; done|]).
    by rewrite Hbuild.
  - do 2 apply (preserves_run _ _ _ (timely_new_session elect true _)). by rewrite Hbuild.
Qed.

Lemma reachable_timely g c vl ss sy i k s :
  0 ≤ SlashDeferDuration → genesis_ok g → reachable elect g c vl ss sy i k s → timely (view_of s).
Proof.
  intros Hd Hg (s0 & Hbuild & Hreach).
  assert (∀ x y, rtc (fund_step elect) x y → solvent x.1.1 x.1.2 x.2 → timely (view_of x.2) →
    timely (view_of y.2)) as Hrtc.
  { induction 1 as [|x y z Hxy _ IH]; [done|]. intros Hso Hx.
    apply IH; [by eapply fund_step_solvent | by eapply fund_step_timely]. }
  apply (Hrtc _ _ Hreach); [by eapply genesis_boot | by eapply genesis_timely].
Qed.

(** C10: In every storage the chain can reach from genesis, each slash that waits
    was reported in the active era or in one of the [SlashDeferDuration] eras
    before it: none is forgotten or waits longer.  And as long as it waits, the
    stake that was unbonded in or after the era of the report cannot be taken
    away: withdrawing succeeds but leaves the chunk where it is, if the deferral
    is shorter than the bonding duration by more than one era, or, with the
    difference of one the pallet's integrity test allows, while no further era
    is planned. *)
Theorem waiting_slash_covered g c vl ss sy i k s a us
    (Hd : 0 ≤ SlashDeferDuration) (Hint : integrity_test = true) (Hbond : BondingDuration ≠ 0)
    (Hg : genesis_ok g) (Hreach : reachable elect g c vl ss sy i k s)
    (Hwaits : unapplied_slashes_map s !! a = Some us) :
  ∃ ai, active_era s = Some ai ∧ a ≤ ae_index ai ≤ a + SlashDeferDuration
    ∧ ∀ ctl l ch n,
        ledger s !! ctl = Some l → ch ∈ unlocking l → a + BondingDuration ≤ era ch →
        SlashDeferDuration + 1 < BondingDuration ∨ current_era s = Some (ae_index ai) →
        ∃ s' l', withdraw_unbonded (Signed ctl) n s = (Ok tt, s') ∧ ledger s' !! ctl = Some l'
          ∧ ch ∈ unlocking l' ∧ active l' = active l.
Proof.
  pose proof (reachable_timely _ _ _ _ _ _ _ _ Hd Hg Hreach) as Ht.
  destruct (reachable_solvent _ _ _ _ _ _ _ _ _ Hg Hreach) as [Hwf _ Hck _ _].
  assert (a ∈ dom (unapplied_slashes_map s)) as Hdom by by apply elem_of_dom.
  unfold timely, view_of in Ht. cbn in Ht.
  destruct (active_era s) as [ai|] eqn:Hai; cbn in Ht.
  2:{ destruct Ht as [_ Hempty]. rewrite Hempty in Hdom. by apply elem_of_empty in Hdom. }
  destruct (earliest_unapplied_slash s) as [e0|].
  2:{ destruct Ht as [_ Hempty]. rewrite Hempty in Hdom. by apply elem_of_empty in Hdom. }
  destruct Ht as (Hpos & He0 & Hin). specialize (Hin a Hdom).
  exists ai. split_and!; [done | lia | lia |]. intros ctl l ch n Hl Hch Hera Hahead.
  pose proof (integrity_durations Hint Hbond) as Hdur. pose proof (ck_order _ _ Hck) as Ho.
  unfold plan_no, active_no in Ho. cbn in Ho. rewrite Hai in Ho. cbn in Ho.
  destruct (current_era s) as [ce|] eqn:Hce; cbn in Ho; [|lia].
  eapply withdraw_keeps_chunk; try done. destruct Hahead as [|[= ->]]; lia.
Qed.
End Histories.

(** * A concrete chain

    Bonding for three eras, slashes deferred by one; every session is an era. *)

Section Examples.
#[local] Existing Instances TestPerThing TestPerThing_laws TestCurrency TestCurrency_laws.
#[local] Instance timing_config : StakingConfig := chain_config_with 1.
#[local] Instance timing_fund_laws : FundLaws := chain_fund_laws_with 1.

Definition timing_default : Store := store_default chain_cur [] ([], []) ∅.
Definition timing_start : Store := default timing_default (genesis_build chain_genesis timing_default).
Definition timing_elect (_ : bool) (_ : Store) : option (list (AccountId * list (AccountId * Z))) :=
  Some [(11, [(11, 1000); (101, 500)])].

(** In era 0 the validator 11 is reported for half of its stake, then its
    nominator 101, whose controller is 100, unbonds everything; era 1 begins. *)
Definition timing_report : list OffenceDetails :=
  [ {| offender := (11, {| exp_total := 1500; own := 1000; others := [ {| who := 101; ie_value := 500 |} ] |});
       od_reporters := [] |} ].

Definition timing_1 : Store := run (on_finalize 1000) (boot timing_elect timing_start).
Definition timing_2 : Store := run (on_offence timing_report [500000000] 0 DisableWhenSlashed) timing_1.
Definition timing_3 : Store := run (dispatch (Signed 100) CChill) timing_2.
Definition timing_4 : Store := run (dispatch (Signed 100) (CUnbond 500)) timing_3.
Definition timing_5 : Store := rotate timing_elect 0 timing_4.

(** The slash waits in era 1, and is gone in era 2. *)
Definition timing_slash : UnappliedSlash :=
  {| us_validator := 11; us_own := 500; us_others := [(101, 250)]; us_reporters := []; us_payout := 37 |}.

Example timing_waits :
  unapplied_slashes_map timing_5 !! 0 = Some [timing_slash]
  ∧ active_era timing_5 = Some {| ae_index := 1; ae_start := None |}
  ∧ unapplied_slashes_map (rotate timing_elect 1 timing_5) !! 0 = None.
Proof. split_and!; vm_compute; reflexivity. Qed.

Lemma timing_builds : genesis_build chain_genesis timing_default = Some timing_start.
Proof.
  unfold timing_start.
  assert (match genesis_build chain_genesis timing_default with
          | Some _ => true | None => false end = true) as Hb by (vm_compute; reflexivity).
  destruct (genesis_build _ _); [reflexivity | discriminate].
Qed.

Lemma timing_reaches : reachable timing_elect chain_genesis chain_cur [] ([], []) ∅ 1 0 timing_5.
Proof.
  exists timing_start. split; [exact timing_builds|].
  apply (rtc_l _ _ (0, 0, timing_1));
    [exact (fund_finalize timing_elect 1000 0 0 (boot timing_elect timing_start))|].
  apply (rtc_l _ _ (0, 0, timing_2));
    [exact (fund_offence timing_elect timing_report [500000000] 0 DisableWhenSlashed 0 0 timing_1)|].
  apply (rtc_l _ _ (0, 0, timing_3)).
  { refine (fund_call timing_elect (Signed 100) CChill 0 0 timing_2 I I _). discriminate. }
  apply (rtc_l _ _ (0, 0, timing_4)).
  { refine (fund_call timing_elect (Signed 100) (CUnbond 500) 0 0 timing_3 _ I _);
      [vm_compute; split; congruence | discriminate]. }
  apply (rtc_l _ _ (1, 0, timing_5)); [|apply rtc_refl].
  refine (fund_rotate timing_elect 0 0 timing_4 _). vm_compute. reflexivity.
Qed.

Definition timing_ledger : StakingLedger :=
  {| stash := 101; total := 500; active := 0; unlocking := [Build_UnlockChunk 500 4];
     claimed_rewards := [] |}.

Lemma waiting_slash_covered_witness :
  unapplied_slashes_map timing_5 !! 0 = Some [timing_slash]
  ∧ ∃ s' l', withdraw_unbonded (Signed 100) 10 timing_5 = (Ok tt, s') ∧ ledger s' !! 100 = Some l'
      ∧ Build_UnlockChunk 500 4 ∈ unlocking l' ∧ active l' = 0.
Proof.
  assert (unapplied_slashes_map timing_5 !! 0 = Some [timing_slash]) as Hw by (vm_compute; reflexivity).
  split; [exact Hw|].
  destruct (waiting_slash_covered timing_elect chain_genesis chain_cur [] ([], []) ∅ 1 0 timing_5 0
    [timing_slash]) as (ai & _ & _ & Hcov).
  - vm_compute. discriminate.
  - vm_compute. reflexivity.
  - vm_compute. discriminate.
  - exact (chain_genesis_ok_with 1).
  - exact timing_reaches.
  - exact Hw.
  - refine (Hcov 100 timing_ledger (Build_UnlockChunk 500 4) 10 _ _ _ _).
    + vm_compute. reflexivity.
    + apply list_elem_of_here.
    + vm_compute. discriminate.
    + apply or_introl. vm_compute. reflexivity.
Defined.
End Examples.
