(* ===== verification/ExposureHistory.v ===== *)
(** The exposures of the histories of the chain: what holds of the exposures an
    election gives holds of every clipped exposure in the storage.  Two such
    facts: an exposure has at most [MaxNominatorRewardedPerValidator] nominators
    when it is clipped, and its parts add up to no more than its total. *)

From Stdlib Require Import ZArith Lia.
From stdpp Require Import base option list gmap fin_maps fin_sets.
From S2P Require Import Prelude Interfaces StakingLedger SlashingSpans StakingState Slashing.
From S2P Require Import Bonding Governance Payout Eras StakingInvariant ErasCorrect.
From S2P Require Import EraView EraClock FundSolvency.
#[local] Open Scope Z_scope.

(** * An invariant of the clipped exposures *)

Section Exposed.
Context `{PerThingLaws} `{CurrencyLaws} `{!StakingConfig} `{!FundLaws}.
Context (elect : bool → Store → option (list (AccountId * list (AccountId * Z)))).
Context (P : Exposure → Prop).
Implicit Types s : Store.

Definition exposed (v : EraView) : Prop := map_Forall (λ _ ex, P ex) (v_clipped v).

(** The exposures the election gives satisfy [P] once they are clipped. *)
Definition elects : Prop :=
  ∀ g s supports, elect g s = Some supports →
    Forall (λ x, P (clip_exposure x.2)) (collect_exposures s supports).

#[local] Hint Extern 2 (keeps (λ s, exposed (view_of s)) _ _) =>
  apply quiet_view; solve [eauto with quiet] : keeps.

Lemma exposed_clear_era e : preserves (λ s, exposed (view_of s)) (clear_era_information e).
Proof.
  unfold clear_era_information. apply keeps_modify; [done|]. intros s Hs k ex. cbn.
  intros [Hk _]%map_lookup_filter_Some. exact (Hs k ex Hk).
Qed.
#[local] Hint Extern 1 (keeps _ (clear_era_information _) _) => apply exposed_clear_era : keeps.

Lemma exposed_store exps e :
  Forall (λ x, P (clip_exposure x.2)) exps →
  preserves (λ s, exposed (view_of s)) (store_stakers_info exps e).
Proof.
  intros Hexps. unfold store_stakers_info.
  apply preserves_keeps_bind; [|intros _; keeps_auto; done].
  apply keeps_for_each. intros [st ex] Hin. rewrite Forall_forall in Hexps.
  apply keeps_modify; [done|]. intros s Hs.
  apply map_Forall_insert_2; [exact (Hexps _ Hin) | exact Hs].
Qed.

Lemma exposed_try_trigger i g :
  elects → preserves (λ s, exposed (view_of s)) (try_trigger_new_era elect i g).
Proof.
  intros Hel. apply preserves_wp. intros s Hs. unfold try_trigger_new_era. apply wp_get.
  destruct (elect g s) as [sup|] eqn:Hsup; [|apply wp_preserves, Hs; keeps_auto; done].
  cbn zeta. specialize (Hel _ _ _ Hsup). set (exps := collect_exposures s sup) in *. clearbody exps.
  apply wp_preserves, Hs. destruct (decide _); [keeps_auto; done|].
  unfold trigger_new_era. apply preserves_keeps_bind; [keeps_auto; done|]. intros _.
  apply preserves_keeps_bind; [|intros v; keeps_auto; done]. keeps_auto; try done; by apply exposed_store.
Qed.

Lemma exposed_new_session g i :
  elects → preserves (λ s, exposed (view_of s)) (sm_new_session elect g i).
Proof.
  intros Hel. pose proof (λ i g, exposed_try_trigger i g Hel) as Htry.
  unfold sm_new_session, new_session. keeps_auto; try done; by apply Htry.
Qed.

Lemma exposed_dispatch o c : call_ok c → preserves (λ s, exposed (view_of s)) (dispatch o c).
Proof.
  intros Hc. destruct (call_cases c Hc) as [Hq|[(a & b & p & ->)|[n ->]]]; cbn [dispatch].
  - by apply quiet_view, quiet_dispatch.
  - intros s Hs. split; [by rewrite bond_view | done].
  - unfold set_history_depth, ensure_root. keeps_auto; done.
Qed.

Lemma exposed_payout o v e : preserves (λ s, exposed (view_of s)) (payout_stakers o v e).
Proof.
  unfold payout_stakers, do_payout_stakers, update_not_claimed_reward, ensure_signed, deposit_event.
  keeps_auto; try done; by case_match.
Qed.

Lemma exposed_reward_by_ids ps : preserves (λ s, exposed (view_of s)) (reward_by_ids ps).
Proof. unfold reward_by_ids. keeps_auto; done. Qed.

Lemma exposed_end_session i : preserves (λ s, exposed (view_of s)) (end_session i).
Proof. unfold end_session, end_era, deposit_event. keeps_auto; done. Qed.

Lemma exposed_start_session i : preserves (λ s, exposed (view_of s)) (start_session i).
Proof.
  unfold start_session, start_era, clear_era_metadata, apply_unapplied_slashes, apply_era_slashes.
  keeps_auto; done.
Qed.

Lemma exposed_on_offence offs fr ss ds :
  preserves (λ s, exposed (view_of s)) (on_offence offs fr ss ds).
Proof. unfold on_offence, on_offence_one. keeps_auto; try done; by case_match. Qed.

Lemma exposed_step x y :
  elects → fund_step elect x y → exposed (view_of x.2) → exposed (view_of y.2).
Proof.
  intros Hel Hstep Hs. destruct Hstep; cbn [fst snd] in *.
  - by apply (preserves_run _ _ _ (exposed_dispatch _ _ ltac:(eassumption))).
  - by apply (preserves_run _ _ _ (exposed_payout _ _ _)).
  - by apply (preserves_run _ _ _ (exposed_on_offence _ _ _ _)).
  - apply (preserves_run _ _ _ (exposed_new_session false (i + 2) Hel)).
    apply (preserves_run _ _ _ (exposed_start_session (i + 1))).
    by apply (preserves_run _ _ _ (exposed_end_session i)).
  - by apply (preserves_run _ _ _ (exposed_reward_by_ids _)).
  - by rewrite (quiet_run _ _ (quiet_on_finalize _)).
  - done.
Qed.

Lemma exposed_boot g c vl ss sy s0 :
  elects → genesis_build g (store_default c vl ss sy) = Some s0 → exposed (view_of (boot elect s0)).
Proof.
  intros Hel Hbuild%genesis_view. unfold boot.
  apply (preserves_run _ _ _ (exposed_start_session 0)).
  do 2 apply (preserves_run _ _ _ (exposed_new_session true _ Hel)). rewrite Hbuild.
  by apply map_Forall_empty.
Qed.

Lemma reachable_exposed g c vl ss sy i k s :
  elects → reachable elect g c vl ss sy i k s → exposed (view_of s).
Proof.
  intros Hel (s0 & Hbuild & Hreach).
  assert (∀ x y, rtc (fund_step elect) x y → exposed (view_of x.2) → exposed (view_of y.2)) as Hrtc.
  { induction 1 as [|x y z Hxy _ IH]; [done|]. intros Hx. apply IH. by eapply exposed_step. }
  apply (Hrtc _ _ Hreach). by eapply exposed_boot.
Qed.

(** The exposure a payout reads; there may be none. *)
Lemma exposed_lookup s e v : exposed (view_of s) → P Exposure_default → P (eras_stakers_clipped s e v).
Proof.
  intros Hs Hdef. unfold eras_stakers_clipped.
  destruct (eras_stakers_clipped_map s !! (e, v)) as [ex|] eqn:Hex; [exact (Hs _ _ Hex) | exact Hdef].
Qed.
End Exposed.

(** * Clipped exposures are short *)

Section Short.
Context `{PerThingLaws} `{CurrencyLaws} `{!StakingConfig} `{!FundLaws}.
Context (elect : bool → Store → option (list (AccountId * list (AccountId * Z)))).
Implicit Types (s : Store) (ex : Exposure).

Definition short ex : Prop := (length (others ex) ≤ MaxNominatorRewardedPerValidator)%nat.

Lemma clip_exposure_short ex : short (clip_exposure ex).
Proof. unfold short, clip_exposure. destruct (decide _); cbn; [rewrite length_take; lia | lia]. Qed.

Lemma elects_short : elects elect short.
Proof. intros g s sup _. apply Forall_forall. intros x _. apply clip_exposure_short. Qed.

Lemma reachable_short g c vl ss sy i k s e v :
  reachable elect g c vl ss sy i k s → short (eras_stakers_clipped s e v).
Proof.
  intros Hreach. apply exposed_lookup; [|unfold short; cbn; lia].
  eapply reachable_exposed; [apply elects_short | exact Hreach].
Qed.
End Short.

(** * The parts of an exposure add up to at most its total *)

Section Fair.
Context `{PerThingLaws} `{CurrencyLaws} `{!StakingConfig} `{!FundLaws}.
Context (elect : bool → Store → option (list (AccountId * list (AccountId * Z)))).
Implicit Types (s : Store) (ex : Exposure).

Record fair ex : Prop := {
  fair_own : 0 ≤ own ex;
  fair_others : Forall (λ n, 0 ≤ ie_value n) (others ex);
  fair_total : own ex + zsum ie_value (others ex) ≤ exp_total ex;
}.

Lemma fair_default : fair Exposure_default.
Proof. split; cbn; [lia | by apply Forall_nil | lia]. Qed.

(** A voter adds its stake on both sides. *)
Lemma add_voter_fair v ex n w :
  fair ex → 0 ≤ w → exp_total ex + w ≤ umax 128 →
  fair (add_voter_exposure v ex (n, w))
  ∧ exp_total (add_voter_exposure v ex (n, w)) = exp_total ex + w.
Proof.
  intros [Hown Hoth Htot] Hw Hmax. pose proof (zsum_nonneg ie_value _ Hoth).
  unfold add_voter_exposure. rewrite (sat_add_exact 128 (exp_total ex)) by ulia.
  destruct (decide (n = v)); cbn; [rewrite sat_add_exact by ulia|]; (split; [split; cbn|done]).
  - lia.
  - done.
  - lia.
  - done.
  - apply Forall_app. split; [done|]. by repeat constructor.
  - rewrite zsum_app. cbn. lia.
Qed.

Lemma add_voters_fair v ws : ∀ ex,
  fair ex → Forall (λ nw : AccountId * Z, 0 ≤ nw.2) ws → exp_total ex + zsum snd ws ≤ umax 128 →
  fair (foldl (add_voter_exposure v) ex ws).
Proof.
  induction ws as [|[n w] ws IH]; intros ex Hex Hws Hmax; cbn [foldl zsum snd] in *; [done|].
  apply Forall_cons in Hws as [Hw Hws]. cbn in Hw. pose proof (zsum_nonneg snd ws Hws).
  destruct (add_voter_fair v ex n w Hex Hw ltac:(lia)) as [Hfair Htot].
  apply IH; [done..|]. rewrite Htot. lia.
Qed.

(** Clipping takes nominators away. *)
Lemma clip_exposure_fair ex : fair ex → fair (clip_exposure ex).
Proof.
  intros [Hown Hoth Htot]. unfold clip_exposure. destruct (decide _); [|done].
  set (n := MaxNominatorRewardedPerValidator).
  pose proof (sort_desc_perm (others ex)) as Hperm. rewrite <- Hperm in Hoth.
  assert (zsum ie_value (others ex) = zsum ie_value (sort_desc (others ex))) as Hsum
    by (symmetry; by apply zsum_perm).
  rewrite <- (take_drop n (sort_desc (others ex))) in Hoth, Hsum.
  apply Forall_app in Hoth as [Htake Hdrop]. rewrite zsum_app in Hsum.
  pose proof (zsum_nonneg ie_value _ Hdrop). split; cbn; [done | done | lia].
Qed.

(** The supports of an election are stakes that fit in a balance together. *)
Definition supports_fit : Prop :=
  ∀ g s supports, elect g s = Some supports →
    let stake w := to_currency w (total_issuance (currency s)) in
    Forall (λ x, Forall (λ nw, 0 ≤ stake nw.2) x.2 ∧ zsum (λ nw, stake nw.2) x.2 ≤ umax 128) supports.

Lemma supports_fair : supports_fit → elects elect fair.
Proof.
  intros Hfit g s sup Hsup. specialize (Hfit g s sup Hsup). unfold collect_exposures.
  apply Forall_map. eapply Forall_impl; [exact Hfit|]. intros [v voters] [Hpos Hsum]. cbn in *.
  apply clip_exposure_fair, add_voters_fair; [exact fair_default | |].
  - apply Forall_map. eapply Forall_impl; [exact Hpos|]. by intros [n w].
  - cbn. rewrite zsum_map. erewrite zsum_ext; [exact Hsum|]. by intros [n w] _.
Qed.

Lemma reachable_fair g c vl ss sy i k s e v :
  supports_fit → reachable elect g c vl ss sy i k s → fair (eras_stakers_clipped s e v).
Proof.
  intros Hfit Hreach. apply exposed_lookup; [|exact fair_default].
  eapply reachable_exposed; [by apply supports_fair | exact Hreach].
Qed.
End Fair.
