(* ===== verification/PayoutHistory.v ===== *)
(** Over whole histories of the chain no validator is paid twice for an era,
    and none can be any more once it was: the eras claimed in the ledgers, which
    are pruned with every payout, lost when a stash is killed and made up again
    when it is bonded, always cover the payouts that could be repeated.  The
    histories are those of [FundSolvency], the payouts the events they left. *)

From Stdlib Require Import ZArith Lia.
From stdpp Require Import base option list gmap fin_maps fin_sets.
From S2P Require Import Prelude Interfaces StakingLedger SlashingSpans StakingState Slashing.
From S2P Require Import Bonding Governance Payout Eras StakingInvariant PayoutCorrect.
From S2P Require Import EraView EraClock FundSolvency.
#[local] Open Scope Z_scope.

Section History.
Context `{PerThingLaws} `{CurrencyLaws} `{!StakingConfig}.
Implicit Types (s : Store) (L : AccountId → list EraIndex → Prop) (p : list (EraIndex * AccountId))
  (D : gset EraIndex).

(** * The record of payouts

    With the payouts [p] made and rewards stored for the eras [D]: a payout that
    could be repeated is claimed in the ledger. *)
Definition settled p D : AccountId → list EraIndex → Prop :=
  λ st claimed, ∀ e, (e, st) ∈ p → e ∈ D → e ∈ claimed.

Lemma settled_weaken p D D' st cl : D' ⊆ D → settled p D st cl → settled p D' st cl.
Proof. intros HD Hs e He HD'. apply Hs; [done | by apply HD]. Qed.

(** Rewards are only taken away, and no payout is made. *)
Definition past L p D s : Prop :=
  claims L s ∧ v_paid (view_of s) = p
  ∧ v_rewarded (view_of s) ⊆ D ∧ v_rewarded (view_of s) = v_pending (view_of s).

Definition still (a : option EraIndex) s : Prop := v_active (view_of s) = a.

Lemma quiet_past {A} (m : Call A) L p D : quiet m → preserves (past L p D) m.
Proof.
  intros Hm. apply preserves_wp. intros s (HL & Hp & HD & Hu).
  set (I := λ v, v_paid v = p ∧ v_rewarded v ⊆ D ∧ v_rewarded v = v_pending v).
  eapply wp_mono; [apply (wp_preserves (λ s, I (view_of s) ∧ claims L s));
    [by apply quiet_frame | by split_and!]|].
  by intros _ s' [(? & ? & ?) ?].
Qed.

Lemma quiet_still {A} (m : Call A) a : quiet m → preserves (still a) m.
Proof. intros Hm. exact (quiet_view m (λ v, v_active v = a) Hm). Qed.

#[local] Hint Extern 2 (keeps (past _ _ _) _ _) => apply quiet_past; solve [eauto with quiet] : keeps.
#[local] Hint Extern 2 (keeps (still _) _ _) => apply quiet_still; solve [eauto with quiet] : keeps.

(** ** Sessions and offences *)

Lemma past_clear_era L p D e : preserves (past L p D) (clear_era_information e).
Proof.
  unfold clear_era_information. apply keeps_modify; [done|]. intros s (HL & Hp & HD & Hu).
  split_and!; [done | done | |]; unfold v_rewarded, v_pending in *; cbn in *; rewrite ?dom_delete_L; set_solver.
Qed.
#[local] Hint Extern 1 (keeps _ (clear_era_information _) _) => apply past_clear_era : keeps.

Lemma past_update_not_claimed L p D e w : preserves (past L p D) (update_not_claimed_reward e w).
Proof.
  unfold update_not_claimed_reward. apply keeps_modify; [done|]. intros s (HL & Hp & HD & Hu).
  destruct (eras_not_claimed_reward_map s !! e) as [r|] eqn:He; [|done].
  split_and!; [done | done | done |]. unfold v_pending. cbn. by rewrite dom_insert_lookup_L.
Qed.

Lemma past_reward_by_ids L p D ps : preserves (past L p D) (reward_by_ids ps).
Proof. unfold reward_by_ids. keeps_auto; done. Qed.

Lemma past_set_history_depth L p D o n : preserves (past L p D) (set_history_depth o n).
Proof. unfold set_history_depth, ensure_root. keeps_auto; done. Qed.

Lemma past_new_session L p D elect g i : preserves (past L p D) (sm_new_session elect g i).
Proof.
  unfold sm_new_session, new_session, try_trigger_new_era, trigger_new_era, store_stakers_info.
  keeps_auto; done.
Qed.

Lemma past_apply_unapplied L p D ae : preserves (past L p D) (apply_unapplied_slashes ae).
Proof. unfold apply_unapplied_slashes, apply_era_slashes. keeps_auto; done. Qed.
#[local] Hint Extern 1 (keeps _ (apply_unapplied_slashes _) _) => apply past_apply_unapplied : keeps.

Lemma past_start_session L p D i : preserves (past L p D) (start_session i).
Proof. unfold start_session, start_era, clear_era_metadata. keeps_auto; done. Qed.

Lemma past_on_offence L p D offs fr ss ds : preserves (past L p D) (on_offence offs fr ss ds).
Proof. unfold on_offence, on_offence_one. keeps_auto; try done; by case_match. Qed.

Lemma still_set_history_depth a o n : preserves (still a) (set_history_depth o n).
Proof. unfold set_history_depth, clear_era_information, ensure_root. keeps_auto; done. Qed.

Lemma still_new_session a elect g i : preserves (still a) (sm_new_session elect g i).
Proof.
  unfold sm_new_session, new_session, try_trigger_new_era, trigger_new_era, store_stakers_info,
    clear_era_information.
  keeps_auto; done.
Qed.

Lemma still_on_offence a offs fr ss ds : preserves (still a) (on_offence offs fr ss ds).
Proof. unfold on_offence, on_offence_one. keeps_auto; try done; by case_match. Qed.

Lemma still_reward_by_ids a ps : preserves (still a) (reward_by_ids ps).
Proof. unfold reward_by_ids. keeps_auto; done. Qed.

Lemma still_payout a o v e : preserves (still a) (payout_stakers o v e).
Proof.
  unfold payout_stakers, do_payout_stakers, update_not_claimed_reward, ensure_signed, deposit_event.
  keeps_auto; try done; by case_match.
Qed.

(** ** Ending a session

    It stores a reward for the active era if the next one starts then. *)
Lemma end_session_past L p D i s :
  past L p D s →
  wp (end_session i) s (λ _ s', past L p D s' ∨
    ∃ e, v_active (view_of s) = Some e
      ∧ is_Some (starts (clock_of s) !! next_era (Some e)) ∧ past L p (D ∪ {[e]}) s').
Proof.
  intros Hs. unfold end_session. apply wp_get. cbn [id].
  destruct (active_era s) as [ae|] eqn:Hae; [|by apply wp_ret; left].
  destruct (eras_start_session_index s !! wadd 32 (ae_index ae) 1) as [st|] eqn:Hst;
    [|by apply wp_ret; left].
  apply wp_when; intros _; [|by left]. unfold end_era. destruct (ae_start ae); [|by apply wp_ret; left].
  apply wp_bind, wp_modify, wp_get. cbn zeta. unfold deposit_event.
  apply wp_bind, wp_modify, wp_modify. right. exists (ae_index ae). split_and!.
  - cbn. by rewrite Hae.
  - cbn. by rewrite Hst.
  - destruct Hs as (HL & Hp & HD & Hu). split_and!; [exact HL | | |].
    + rewrite <- Hp. cbn. unfold payouts_in. by rewrite omap_app, app_nil_r.
    + unfold v_rewarded in *. cbn in *. rewrite dom_insert_L. set_solver.
    + unfold v_rewarded, v_pending in *. cbn in *. rewrite !dom_insert_L. congruence.
Qed.

(** * The invariant *)

Definition paid s : list (EraIndex * AccountId) := payouts_in (events s).
Definition rewarded s : gset EraIndex := dom (eras_validator_reward s).

Record once s : Prop := {
  on_nodup : NoDup (paid s);
  on_past : past (settled (paid s) (rewarded s)) (paid s) (rewarded s) s;
  on_paid e v : (e, v) ∈ paid s → e < active_no (clock_of s);
  on_rewarded e : e ∈ rewarded s → e < active_no (clock_of s);
}.

Lemma still_active_no s s' : still (v_active (view_of s)) s' → active_no (clock_of s') = active_no (clock_of s).
Proof. unfold still, active_no. cbn. by intros ->. Qed.

(** What keeps the record and does not go back in time keeps the invariant. *)
Lemma once_past p D s :
  NoDup p → past (settled p D) p D s →
  (∀ e v, (e, v) ∈ p → e < active_no (clock_of s)) → (∀ e, e ∈ D → e < active_no (clock_of s)) →
  once s.
Proof.
  intros Hnd (HL & Hp & HD & Hu) Hpa Hra. change (paid s = p) in Hp. change (rewarded s ⊆ D) in HD.
  split; rewrite ?Hp; try done.
  - split_and!; [|exact Hp | done | done]. eapply map_Forall_impl; [exact HL|].
    intros c l Hl. by apply (settled_weaken _ D).
  - intros e He. by apply Hra, HD.
Qed.

Lemma once_kept {A} (m : Call A) s :
  (∀ L p D, preserves (past L p D) m) → (∀ a, preserves (still a) m) → once s → once (run m s).
Proof.
  intros Hm Ha [Hnd Hp Hpa Hra].
  pose proof (still_active_no s (run m s) (preserves_run _ m s (Ha _) eq_refl)) as Hact.
  apply (once_past (paid s) (rewarded s)); [done | by apply preserves_run | by rewrite Hact..].
Qed.

Lemma once_quiet {A} (m : Call A) s : quiet m → once s → once (run m s).
Proof. intros Hm. apply once_kept; [intros L p D; by apply quiet_past | intros a; by apply quiet_still]. Qed.
End History.

#[export] Hint Extern 2 (keeps (past _ _ _) _ _) => apply quiet_past; solve [eauto with quiet] : keeps.
#[export] Hint Extern 1 (keeps (past _ _ _) (update_not_claimed_reward _ _) _) =>
  apply past_update_not_claimed : keeps.

(** * Every step keeps it *)

Section Steps.
Context `{PerThingLaws} `{CurrencyLaws} `{!StakingConfig} `{!FundLaws}.
Context (elect : bool → Store → option (list (AccountId * list (AccountId * Z)))).
Implicit Types s : Store.

(** Eras with a reward are in the history and were active. *)
Lemma rewarded_range i k s e :
  solvent i k s → once s → e ∈ rewarded s →
  0 ≤ e ∧ plan_no (clock_of s) - history_depth s ≤ e < active_no (clock_of s)
  ∧ current_era s = Some (plan_no (clock_of s)).
Proof.
  intros [_ _ Hck _ _] Hs He. pose proof (on_rewarded s Hs e He) as Hact.
  destruct (on_past s Hs) as (_ & _ & _ & Hu). change (rewarded s = dom (unclaimed (clock_of s))) in Hu.
  rewrite Hu in He. apply elem_of_dom in He as [r Hr].
  pose proof (ck_rewards _ _ Hck e r Hr) as (_ & Hpos & Hrange). change (history_depth s) with (depth (clock_of s)).
  split_and!; [done | lia | done |]. pose proof (ck_order _ _ Hck) as Ho.
  unfold plan_no in *. cbn in *. destruct (current_era s); cbn in *; [done | lia].
Qed.

(** A new ledger claims the eras of the history that were planned. *)
Lemma once_bond i k s o c b p : solvent i k s → once s → once (run (bond o c b p) s).
Proof.
  intros Hso Hs. pose proof (bond_view o c b p s) as Hv.
  assert (calm (settled (paid s) (rewarded s)) (view_of s) (run (bond o c b p) s)) as [_ HL].
  { apply calm_bond; [|split; [done | apply (on_past s Hs)]]. intros st e Hp He.
    destruct (rewarded_range _ _ _ _ Hso Hs He) as (Hpos & Hrange & Hce).
    pose proof (ck_order _ _ (so_clock _ _ _ Hso)). unfold bond_claims. rewrite Hce.
    set (ce := plan_no (clock_of s)) in *. clearbody ce. cbn. rewrite elem_of_seqZ. unfold sat_sub. lia. }
  pose proof (still_active_no s _ (f_equal v_active Hv)) as Hact.
  destruct Hs as [Hnd (_ & _ & _ & Hu) Hpa Hra].
  apply (once_past (paid s) (rewarded s)); [done | | by rewrite Hact..].
  unfold past. rewrite Hv. by split_and!.
Qed.

(** ** Payouts *)

(** What was paid cannot be claimed. *)
Lemma paid_not_claimable i k s v e r :
  solvent i k s → once s → (e, v) ∈ paid s → claim_era s v e ≠ Ok r.
Proof.
  intros Hso Hs Hp Hclaim. destruct r as [[c l] ep].
  destruct (claim_era_range _ _ _ _ _ _ Hclaim) as (ce & Hce & _ & Hge & Hrew).
  pose proof (so_wf _ _ _ Hso) as Hwf.
  destruct (claim_era_spec _ _ _ _ _ _ Hwf Hclaim) as (l0 & Hb & Hl & _ & _ & Hst0 & _).
  destruct (wf_ledger _ _ _ _ (proj1 Hwf) _ _ Hl) as [_ [_ Hsort]].
  assert (e ∈ claimed_rewards l0) as Hin.
  { destruct (on_past s Hs) as (HL & _). apply (HL c l0 Hl); [by rewrite Hst0|]. by apply elem_of_dom. }
  unfold claim_era in Hclaim. rewrite Hce, Hrew, Hb, Hl in Hclaim.
  destruct (decide _); [|done].
  assert (e ∈ filter (λ x, x >= sat_sub ce (history_depth s)) (claimed_rewards l0)) as Hf
    by by apply list_elem_of_filter.
  apply list_elem_of_lookup in Hf as [j Hj].
  rewrite (binary_search_find id e _ j e) in Hclaim; [done | by apply sorted_by_filter | done | done].
Qed.

(** The claim keeps every era that could be claimed again. *)
Lemma claim_settled i k s v e c l ep :
  solvent i k s → once s → claim_era s v e = Ok (c, l, ep) →
  claims (settled (paid s ++ [(e, v)]) (rewarded s)) (s <| ledger ::= insert c l |>).
Proof.
  intros Hso Hs Hclaim. pose proof (so_wf _ _ _ Hso) as Hwf.
  destruct (claim_era_spec _ _ _ _ _ _ Hwf Hclaim) as (l0 & Hb & Hl & _ & Hst & Hst0 & _ & _ & Hin).
  destruct (on_past s Hs) as (HL & _).
  intros c' l'. cbn. intros [[<- <-]|[Hne Hl']]%lookup_insert_Some e' Hp' He'.
  - rewrite Hst in Hp'.
    apply elem_of_app in Hp' as [Hp'|Hp']; [|by apply list_elem_of_singleton in Hp' as [= ->]].
    destruct (rewarded_range _ _ _ _ Hso Hs He') as (Hpos & Hrange & Hce).
    assert (e' ∈ claimed_rewards l0) as Hin' by (apply (HL c l0 Hl); [by rewrite Hst0 | done]).
    unfold claim_era in Hclaim. rewrite Hce, Hb, Hl in Hclaim.
    set (ce := plan_no (clock_of s)) in *. clearbody ce.
    destruct (decide _); [|done]. destruct (eras_validator_reward s !! e); [|done].
    destruct (binary_search_by_key _ _ _); [done|]. injection Hclaim as <- _. cbn.
    apply elem_of_vec_insert. right. apply list_elem_of_filter. split; [|done]. unfold sat_sub. lia.
  - apply (HL c' l' Hl'); [|done]. apply elem_of_app in Hp' as [Hp'|Hp']; [done|].
    apply list_elem_of_singleton in Hp' as [= -> Hv].
    destruct (wf_ledger _ _ _ _ (proj1 Hwf) _ _ Hl') as [Hb' _]. rewrite Hv in Hb'. congruence.
Qed.

Lemma once_payout i k s w v e : solvent i k s → once s → once (run (payout_stakers (Signed w) v e) s).
Proof.
  intros Hso Hs.
  pose proof (still_active_no s _ (preserves_run _ _ s (still_payout _ (Signed w) v e) eq_refl)) as Hact.
  destruct (claim_era s v e) as [[[c l] ep]|er] eqn:Hclaim.
  2:{ assert (run (payout_stakers (Signed w) v e) s = s) as ->; [|done].
      unfold run, payout_stakers, do_payout_stakers, ensure_signed.
      rewrite (bind_step _ _ w s s), (bind_step _ _ s s s) by done. by rewrite Hclaim. }
  pose proof (claim_settled _ _ _ _ _ _ _ _ Hso Hs Hclaim) as HL.
  destruct (claim_era_spec _ _ _ _ _ _ (so_wf _ _ _ Hso) Hclaim) as (l0 & _ & _ & Hrew & Hst & _).
  assert ((e, v) ∉ paid s) as Hnew by (intros Hp; by apply (paid_not_claimable _ _ _ _ _ _ Hso Hs Hp) in Hclaim).
  assert (e ∈ rewarded s) as He by by apply elem_of_dom.
  set (D := rewarded s) in *. set (p' := paid s ++ [(e, v)]) in *.
  destruct (on_past s Hs) as (_ & _ & _ & Hu).
  assert (wp (payout_stakers (Signed w) v e) s
    (λ _ s', past (settled p' D) (paid s) D s' ∨ past (settled p' D) p' D s')) as Hwp.
  { unfold payout_stakers, ensure_signed. apply wp_bind, wp_ret. unfold do_payout_stakers.
    apply wp_get, wp_bind. cbn [id]. rewrite Hclaim. apply wp_ret. cbn zeta. rewrite Hst.
    apply wp_bind, wp_modify. destruct (decide _); [by apply wp_ret; left|].
    destruct (validator_payouts _ _ _ _ _ _ _) as [own_pay left].
    unfold deposit_event. apply wp_bind, wp_modify.
    eapply wp_mono; [eapply (wp_preserves (past (settled p' D) p' D))|by right].
    - keeps_auto.
    - split_and!; [exact HL | | done | exact Hu]. cbn. unfold payouts_in. by rewrite omap_app. }
  change (past (settled p' D) (paid s) D (run (payout_stakers (Signed w) v e) s)
    ∨ past (settled p' D) p' D (run (payout_stakers (Signed w) v e) s)) in Hwp.
  destruct Hs as [Hnd _ Hpa Hra]. destruct Hwp as [Hpast|Hpast].
  - apply (once_past (paid s) D); [done | | by rewrite Hact..].
    destruct Hpast as (HL' & Hrest). split; [|exact Hrest]. eapply map_Forall_impl; [exact HL'|].
    intros c' l' Hl' e' Hp'. apply Hl'. apply elem_of_app. by left.
  - apply (once_past p' D); [| done | | by rewrite Hact].
    + unfold p'. apply NoDup_app. split_and!; [done | | by apply NoDup_singleton].
      intros x Hx ->%list_elem_of_singleton. done.
    + rewrite Hact. intros e' v' [Hp|Hp]%elem_of_app; [by eapply Hpa|].
      apply list_elem_of_singleton in Hp as [= -> ->]. by apply Hra.
Qed.

(** ** Sessions *)

(** After a rotation the active era is the one that was planned. *)
Lemma rotate_active_no i k s :
  plan_no (clock_of s) < umax 32 → solvent i k s →
  active_no (clock_of (rotate elect i s)) = plan_no (clock_of s).
Proof.
  intros Hmax Hs. destruct (end_session_solvent i k s Hmax Hs) as [Hs1 Hp1].
  unfold rotate. set (s1 := run (end_session i) s) in *. clearbody s1. rewrite <- Hp1 in Hmax |- *.
  pose proof (start_session_follows _ _ (i + 1) s1 (solvent_frame_of _ _ _ Hs1)) as [_ (Hck & _)].
  set (s2 := run (start_session (i + 1)) s1).
  change (clock_of s2 = activate (i + 1) (clock_of s1)) in Hck.
  rewrite (still_active_no s2) by (apply (preserves_run _ _ _ (still_new_session _ _ _ _)); done).
  rewrite Hck. by apply (clock_activate i _ (so_clock _ _ _ Hs1)).
Qed.

Lemma once_rotate i k s :
  plan_no (clock_of s) < umax 32 → solvent i k s → once s → once (rotate elect i s).
Proof.
  intros Hmax Hso Hs. pose proof (rotate_active_no i k s Hmax Hso) as Hact.
  pose proof (end_session_past _ _ _ i s (on_past s Hs)) as Hend.
  pose proof (ck_order _ _ (so_clock _ _ _ Hso)) as Ho.
  assert (∀ L p D s', past L p D s' →
    past L p D (run (sm_new_session elect false (i + 2)) (run (start_session (i + 1)) s'))) as Hrest.
  { intros L p D s' Hp. by do 2 (apply preserves_run; [first [apply past_new_session | apply past_start_session]|]). }
  destruct Hs as [Hnd _ Hpa Hra]. unfold wp in Hend.
  change (snd (end_session i s)) with (run (end_session i) s) in Hend.
  destruct Hend as [Hend|(e & Hae & Hst & Hend)]; apply Hrest in Hend.
  - apply (once_past (paid s) (rewarded s)); [done | exact Hend | |]; rewrite Hact.
    + intros e v Hp. specialize (Hpa e v Hp). lia.
    + intros e He. specialize (Hra e He). lia.
  - destruct (clock_ending i _ e (so_clock _ _ _ Hso) Hae Hst Hmax) as (_ & Han & Hpl).
    apply (once_past (paid s) (rewarded s ∪ {[e]})); [done | | |]; rewrite ?Hact.
    + destruct Hend as (HL & Hrest'). split; [|exact Hrest']. eapply map_Forall_impl; [exact HL|].
      intros c l Hl e' Hp [He|He%elem_of_singleton]%elem_of_union; [by apply Hl|].
      specialize (Hpa e' _ Hp). lia.
    + intros e' v Hp. specialize (Hpa e' v Hp). lia.
    + intros e' [He|He%elem_of_singleton]%elem_of_union; [|lia]. specialize (Hra e' He). lia.
Qed.

Lemma once_step x y : fund_step elect x y → solvent x.1.1 x.1.2 x.2 → once x.2 → once y.2.
Proof.
  intros Hstep Hso Hs. destruct Hstep; cbn [fst snd] in *.
  - destruct (call_cases c ltac:(assumption)) as [Hq|[(a & b & p & ->)|[n ->]]]; cbn [dispatch].
    + by apply once_quiet; [apply quiet_dispatch|].
    + by eapply once_bond.
    + apply once_kept; [|intros a; apply still_set_history_depth|done].
      intros L p D. apply past_set_history_depth.
  - by eapply once_payout.
  - apply once_kept; [|intros a; apply still_on_offence|done]. intros L p D. apply past_on_offence.
  - by eapply once_rotate.
  - apply once_kept; [|intros a; apply still_reward_by_ids|done].
    intros L p D. apply past_reward_by_ids.
  - apply once_quiet; [apply quiet_on_finalize | done].
  - destruct Hs. by split.
Qed.

Lemma once_genesis g c vl ss sy s0 :
  genesis_build g (store_default c vl ss sy) = Some s0 → once (boot elect s0).
Proof.
  intros Hbuild%genesis_view. apply (once_past [] ∅).
  - by apply NoDup_nil.
  - unfold boot. do 3 (apply preserves_run; [first [apply past_new_session | apply past_start_session]|]).
    unfold past. rewrite Hbuild. split_and!; [|done..].
    intros ct l Hl e Hp. by apply elem_of_nil in Hp.
  - intros e v Hp. by apply elem_of_nil in Hp.
  - intros e He. by apply elem_of_empty in He.
Qed.

Lemma reachable_once g c vl ss sy i k s :
  genesis_ok g → reachable elect g c vl ss sy i k s → once s.
Proof.
  intros Hg (s0 & Hbuild & Hreach).
  assert (∀ x y, rtc (fund_step elect) x y → solvent x.1.1 x.1.2 x.2 → once x.2 → once y.2) as Hrtc.
  { induction 1 as [|x y z Hxy _ IH]; [done|]. intros Hso Hx.
    apply IH; [by eapply fund_step_solvent | by eapply once_step]. }
  apply (Hrtc _ _ Hreach); [by eapply genesis_boot | by eapply once_genesis].
Qed.

(** C9: In every history of the chain a validator is paid at most once for an
    era, and a payout that was started can never be repeated: it fails and
    changes nothing, however often the stash is bonded anew, moved to another
    controller or killed, and whatever is done to the length of the history. *)
Theorem era_paid_once g c vl ss sy i k s
    (Hg : genesis_ok g) (Hreach : reachable elect g c vl ss sy i k s) :
  NoDup (payouts_in (events s))
  ∧ ∀ e v w, (e, v) ∈ payouts_in (events s) → ∃ er, payout_stakers (Signed w) v e s = (Err er, s).
Proof.
  pose proof (reachable_once _ _ _ _ _ _ _ _ Hg Hreach) as Hs.
  pose proof (reachable_solvent _ _ _ _ _ _ _ _ _ Hg Hreach) as Hso.
  split; [apply (on_nodup s Hs)|]. intros e v w Hp.
  destruct (claim_era s v e) as [r|er] eqn:Hclaim.
  { by apply (paid_not_claimable _ _ _ _ _ _ Hso Hs Hp) in Hclaim. }
  exists er. unfold payout_stakers, do_payout_stakers, ensure_signed.
  rewrite (bind_step _ _ w s s), (bind_step _ _ s s s) by done. by rewrite Hclaim.
Qed.
End Steps.

(** * A concrete chain

    The validator 11 is paid for era 0, its stash is killed by the root, and it
    bonds again: the eras before the planned one count as claimed in the new ledger. *)

Section Examples.
#[local] Existing Instances TestPerThing TestPerThing_laws TestCurrency TestCurrency_laws.
#[local] Existing Instances chain_config chain_fund_laws.

Definition history_1 : Store := run (dispatch Root (CForceUnstake 11 0)) chain_4.
Definition history_2 : Store := run (dispatch (Signed 11) (CBond 10 1000 Staked)) history_1.

Example history_rebonded :
  ledger history_1 !! 10 = None
  ∧ ledger history_2 !! 10 = Some {| stash := 11; total := 1000; active := 1000; unlocking := [];
      claimed_rewards := [0; 1] |}
  ∧ payouts_in (events history_2) = [(0, 11)].
Proof. split_and!; vm_compute; reflexivity. Qed.

Lemma history_reaches : reachable chain_elect chain_genesis chain_cur [] ([], []) ∅ 1 0 history_2.
Proof.
  exists chain_start. split; [exact chain_builds|].
  etrans; [exact chain_reaches_3|].
  apply (rtc_l _ _ (1, 0, chain_4)); [exact chain_step_4|].
  apply (rtc_l _ _ (1, 0, history_1)).
  { refine (fund_call chain_elect Root (CForceUnstake 11 0) 1 0 chain_4 I I _). discriminate. }
  apply (rtc_l _ _ (1, 0, history_2)); [|apply rtc_refl].
  refine (fund_call chain_elect (Signed 11) (CBond 10 1000 Staked) 1 0 history_1 _ I _);
    [vm_compute; split; congruence | discriminate].
Qed.

Lemma era_paid_once_witness :
  (0, 11) ∈ payouts_in (events history_2)
  ∧ ∃ er, payout_stakers (Signed 7) 11 0 history_2 = (Err er, history_2).
Proof.
  assert ((0, 11) ∈ payouts_in (events history_2)) as Hin.
  { assert (payouts_in (events history_2) = [(0, 11)]) as -> by (vm_compute; reflexivity).
    apply list_elem_of_here. }
  split; [exact Hin|].
  exact (proj2 (era_paid_once chain_elect chain_genesis chain_cur [] ([], []) ∅ 1 0 history_2
    (chain_genesis_ok_with 0) history_reaches) 0 11 7 Hin).
Defined.
End Examples.
