(* ===== verification/PayoutShares.v ===== *)
(** How far the payouts can take more out of the reward fund than the eras were
    promised: the parts of a payout are rounded one by one, by less than one part
    in a billion and one unit each.  Over whole histories of the chain the fund
    holds all rewards that can still be claimed but for that rounding, which the
    events of the chain bound. *)

From Stdlib Require Import ZArith Lia.
From stdpp Require Import base option list gmap fin_maps fin_sets.
From S2P Require Import Prelude Interfaces StakingLedger SlashingSpans StakingState Slashing.
From S2P Require Import Bonding Governance Payout Eras StakingInvariant PayoutCorrect.
From S2P Require Import EraView EraClock FundSolvency ExposureHistory PayoutHistory.
#[local] Open Scope Z_scope.

(** * The rounding of one payout *)

Section Rounding.
Context `{PerThingLaws} `{!PerThingRounding} `{CurrencyLaws} `{!StakingConfig} `{!FundLaws}.
Implicit Types s : Store.

(** Parts of a whole add up to one, but for one part each. *)
Lemma parts_sum {A} (f : A → Z) (q : Z) l :
  Forall (λ a, 0 ≤ f a) l → zsum f l ≤ q →
  zsum (λ a, perbill_from_rational (f a) q - 1) l ≤ perbill_one.
Proof.
  intros Hpos Hsum. set (m := Z.max 1 q).
  assert (∀ l, Forall (λ a, 0 ≤ f a ≤ q) l →
    zsum (λ a, perbill_from_rational (f a) q - 1) l * m ≤ zsum f l * perbill_one) as Hall.
  { clear l Hpos Hsum. induction 1 as [|a l Ha _ IH]; cbn; [lia|].
    pose proof (perbill_from_rational_near (f a) q Ha) as Hnear. fold m in Hnear. lia. }
  assert (Forall (λ a, 0 ≤ f a ≤ q) l) as Hle.
  { apply Forall_forall. intros a Ha. pose proof (zsum_elem_le f l a Hpos Ha).
    rewrite Forall_forall in Hpos. specialize (Hpos a Ha). lia. }
  specialize (Hall l Hle). pose proof (zsum_nonneg f l Hpos). unfold perbill_one in *. nia.
Qed.

(** Parts of an amount add up to their sum, but for one unit each. *)
Lemma part_of_share p x :
  is_perbill p → 0 ≤ x → perbill_one * perbill_mul p x ≤ (p - 1) * x + (x + perbill_one).
Proof. intros Hp Hx. pose proof (perbill_mul_near p x Hp Hx). lia. Qed.

Lemma nominators_due_near et left noms :
  0 ≤ left →
  perbill_one * nominators_due et left noms
    ≤ zsum (λ n, perbill_from_rational (ie_value n) et - 1) noms * left
      + Z.of_nat (length noms) * (left + perbill_one).
Proof.
  intros Hl. induction noms as [|n noms IH]; cbn [nominators_due zsum length]; [lia|].
  pose proof (part_of_share _ left (perbill_from_rational_range (ie_value n) et) Hl).
  unfold nominators_due, nominator_due in *. lia.
Qed.

(** What a payout may pay in addition to the share of the validator. *)
Definition allowance (reward : Z) : Z :=
  (Z.of_nat MaxNominatorRewardedPerValidator + 2) * (reward + perbill_one).

(** A validator's part of an era, in billionths. *)
Definition era_share (points : EraRewardPoints) (v : AccountId) : Z :=
  perbill_from_rational (default 0 (individual points !! v)) (rp_total points).

Lemma terms_near s v e ep own_pay leftover :
  let ex := eras_stakers_clipped s e v in
  fair ex → short ex → u128 ep → is_perbill (commission (eras_validator_prefs s e v)) →
  payout_terms s v e ep own_pay leftover →
  perbill_one * (own_pay + nominators_due (exp_total ex) leftover (others ex))
    ≤ (era_share (eras_reward_points s e) v - 1) * ep + allowance ep.
Proof.
  intros ex [Hown Hoth Htot] Hshort Hep Hcomm [Hpay _ [Hleft _] _]. fold ex in Hpay.
  unfold validator_payouts in Hpay. fold (era_share (eras_reward_points s e) v) in Hpay.
  set (share := era_share _ _) in *. set (cm := commission _) in *.
  assert (is_perbill share) as Hshare by apply perbill_from_rational_range.
  set (total := perbill_mul share ep) in *. set (c := perbill_mul cm total) in *.
  assert (0 ≤ ep) as Hep0 by ulia.
  pose proof (perbill_mul_range share ep Hshare Hep0 : 0 ≤ total ≤ ep) as Ht.
  pose proof (perbill_mul_range cm total Hcomm (proj1 Ht) : 0 ≤ c ≤ total) as Hc.
  rewrite (wsub_small 128 total c) in Hpay by ulia. injection Hpay as <- <-.
  set (left := total - c) in *.
  set (part := perbill_from_rational (own ex) (exp_total ex)).
  assert (is_perbill part) as Hpart by apply perbill_from_rational_range.
  pose proof (perbill_mul_range part left Hpart Hleft) as Hm.
  rewrite wadd_small by ulia.
  pose proof (part_of_share part left Hpart Hleft) as H1'.
  pose proof (nominators_due_near (exp_total ex) left (others ex) Hleft) as H2'.
  pose proof (part_of_share share ep Hshare Hep0 : perbill_one * total ≤ _) as H3'.
  pose proof (parts_sum (λ x, x) (exp_total ex) (own ex :: map ie_value (others ex))
    ltac:(apply Forall_cons; split; [done | by apply Forall_map])
    ltac:(cbn; rewrite zsum_map; exact Htot)) as H4'.
  cbn in H4'. rewrite zsum_map in H4'.
  unfold allowance, short in *. fold part in H4'.
  set (ps := zsum (λ n, perbill_from_rational (ie_value n) (exp_total ex) - 1) (others ex)) in *.
  set (n := Z.of_nat (length (others ex))) in *.
  set (nd := nominators_due _ _ _) in *. set (own_part := perbill_mul part left) in *.
  assert (0 ≤ n ≤ Z.of_nat MaxNominatorRewardedPerValidator) as Hn by (unfold n; lia).
  set (N := Z.of_nat MaxNominatorRewardedPerValidator) in *.
  assert (left = total - c) as Hl by done. clearbody left n N ps nd own_part c total.
  assert (perbill_one * (own_part + nd) ≤ perbill_one * left + (n + 1) * (left + perbill_one)) by nia.
  assert ((n + 1) * (left + perbill_one) ≤ (N + 1) * (ep + perbill_one)).
  { apply Z.mul_le_mono_nonneg; unfold perbill_one; lia. }
  lia.
Qed.

(** What a claim is due, in billionths of its reward. *)
Lemma payout_due_share s v e c l ep :
  staking_wf s → payout_room s v e → claim_era s v e = Ok (c, l, ep) →
  fair (eras_stakers_clipped s e v) → short (eras_stakers_clipped s e v) →
  0 ≤ ep ∧
  perbill_one * payout_due s v e ≤ (era_share (eras_reward_points s e) v - 1) * ep + allowance ep.
Proof.
  intros Hs Hroom Hclaim Hfair Hshort.
  destruct (claim_terms s v e c l ep Hs Hroom Hclaim) as (Hst & Hep & own_pay & leftover & Hterms).
  pose proof (payout_due_terms s v e c l ep own_pay leftover Hclaim Hst Hterms) as Hdue.
  pose proof (terms_near s v e ep own_pay leftover Hfair Hshort Hep (proj1 Hroom) Hterms).
  cbn zeta in *. split; [ulia|]. unfold perbill_one in *. lia.
Qed.
End Rounding.

(** * The account of the eras

    The points of an era add up, the fund owes every era its reward but for the
    shares that were paid, and what payouts took beyond the rewards, [k], is
    covered by the rounding of the events; [slack] is the part of that which is
    left to each era. *)

Section Account.
Context `{PerThingLaws} `{!PerThingRounding} `{CurrencyLaws} `{!StakingConfig} `{!FundLaws}.
Implicit Types (s : Store) (vw : EraView) (slack : gmap EraIndex Z).

Definition points_add_up (p : EraRewardPoints) : Prop :=
  map_Forall (λ _ x, 0 ≤ x) (individual p) ∧ map_sum id (individual p) ≤ rp_total p.

Definition view_points vw (e : EraIndex) : EraRewardPoints :=
  default EraRewardPoints_default (v_points vw !! e).
Definition paid_of vw (e : EraIndex) : list (EraIndex * AccountId) :=
  filter (λ ev, ev.1 = e) (v_paid vw).
Definition shares_paid vw (e : EraIndex) : Z :=
  zsum (λ ev, era_share (view_points vw e) ev.2 - 1) (paid_of vw e).

Record accounted slack (k : Z) vw : Prop := {
  ac_slack : map_Forall (λ _ x, 0 ≤ x) slack;
  ac_total : perbill_one * k + map_sum id slack
    ≤ (Z.of_nat MaxNominatorRewardedPerValidator + 2) * (v_rounding vw).2;
  ac_points : map_Forall (λ _ p, points_add_up p) (v_points vw);
  ac_rewards e reward :
    v_rewards vw !! e = Some reward → 0 ≤ reward ∧ (v_rounding vw).1 !! e = Some reward;
  ac_era e reward u :
    v_rewards vw !! e = Some reward → v_unclaimed vw !! e = Some u →
    perbill_one * reward ≤ perbill_one * u + reward * shares_paid vw e + default 0 (slack !! e);
}.

(** Validators that are paid once have at most the whole era. *)
Lemma shares_paid_le vw e :
  map_Forall (λ _ p, points_add_up p) (v_points vw) → NoDup (v_paid vw) → shares_paid vw e ≤ perbill_one.
Proof.
  intros Hpts Hnd. unfold shares_paid, era_share.
  assert (points_add_up (view_points vw e)) as [Hpos Htot].
  { unfold view_points. destruct (v_points vw !! e) as [p|] eqn:Hp; [exact (Hpts e p Hp)|].
    split; [apply map_Forall_empty|]. cbn. by rewrite map_sum_empty. }
  set (pts := view_points vw e) in *.
  apply (parts_sum (λ ev : EraIndex * AccountId, default 0 (individual pts !! ev.2))).
  - apply Forall_forall. intros ev _. destruct (individual pts !! ev.2) as [x|] eqn:Hx; cbn; [|lia].
    exact (Hpos _ x Hx).
  - assert (NoDup (map snd (paid_of vw e))) as Hks.
    { apply NoDup_fmap_2_strong; [|by apply NoDup_filter].
      intros [e1 v1] [e2 v2] [H1' _]%list_elem_of_filter [H2' _]%list_elem_of_filter. cbn in *. congruence. }
    pose proof (map_sum_keys id (individual pts) _ Hpos Hks) as Hle. rewrite zsum_map in Hle.
    etrans; [|exact Htot]. etrans; [|exact Hle]. apply zsum_le. intros ev _.
    by destruct (individual pts !! ev.2).
Qed.

(** ** What only forgets eras *)

Definition held vw0 vw : Prop :=
  v_paid vw = v_paid vw0 ∧ v_rounding vw = v_rounding vw0 ∧ v_points vw ⊆ v_points vw0
  ∧ ∀ e reward, v_rewards vw !! e = Some reward →
      v_rewards vw0 !! e = Some reward ∧ v_points vw !! e = v_points vw0 !! e
      ∧ v_unclaimed vw !! e = v_unclaimed vw0 !! e.

Lemma held_refl vw : held vw vw.
Proof. by split_and!. Qed.

Lemma accounted_held slack k vw0 vw : held vw0 vw → accounted slack k vw0 → accounted slack k vw.
Proof.
  intros (Hp & Hr & Hpts & Hrew) [Hsl Htot Hcnt Hrews Hera]. split.
  - done.
  - by rewrite Hr.
  - intros e p He. exact (Hcnt e p (lookup_weaken _ _ _ _ He Hpts)).
  - intros e reward Hr0. rewrite Hr. destruct (Hrew e reward Hr0) as (? & _ & _). by apply Hrews.
  - intros e reward u Hr0 Hu. destruct (Hrew e reward Hr0) as (Hr1 & Hp1 & Hu1).
    rewrite Hu1 in Hu. unfold shares_paid, view_points, paid_of. rewrite Hp1, Hp. by apply Hera.
Qed.

(** ** A payout *)

Record paid_view (e : EraIndex) (v : AccountId) vw vw' : Prop := {
  pv_rewards : v_rewards vw' = v_rewards vw;
  pv_points : v_points vw' = v_points vw;
  pv_paid : v_paid vw' = v_paid vw ++ [(e, v)];
  pv_rounding : v_rounding vw' = rounding_step (v_rounding vw) (PayoutStarted e v);
}.

Lemma shares_paid_snoc e v vw vw' e' :
  paid_view e v vw vw' →
  shares_paid vw' e'
  = shares_paid vw e' + (if decide (e = e') then era_share (view_points vw e) v - 1 else 0).
Proof.
  intros [_ Hpts Hpaid _]. unfold shares_paid, view_points, paid_of.
  rewrite Hpts, Hpaid, filter_app, zsum_app, filter_cons, filter_nil. cbn [fst].
  destruct (decide (e = e')) as [->|]; cbn; lia.
Qed.

Lemma accounted_payout slack k vw vw' e v reward u due :
  accounted slack k vw → paid_view e v vw vw' → NoDup (v_paid vw') →
  v_rewards vw !! e = Some reward → v_unclaimed vw !! e = Some u → 0 ≤ u → 0 ≤ due →
  perbill_one * due ≤ (era_share (view_points vw e) v - 1) * reward + allowance reward →
  v_unclaimed vw' = v_unclaimed vw ∨ v_unclaimed vw' = <[e := sat_sub u due]> (v_unclaimed vw) →
  ∃ slack', accounted slack' (k + sat_sub due u) vw'.
Proof.
  intros [Hsl Htot Hcnt Hrews Hera] Hpv Hnd Hrew Hu Hu0 Hdue0 Hdue Hun.
  destruct (Hrews e reward Hrew) as [Hr0 Hrnd]. pose proof (Hera e reward u Hrew Hu) as He.
  pose proof (shares_paid_le vw' e) as Hle. rewrite (pv_points _ _ _ _ Hpv) in Hle.
  specialize (Hle Hcnt Hnd). pose proof (shares_paid_snoc e v vw vw' e Hpv) as Hsh.
  rewrite decide_True in Hsh by done.
  set (share := era_share (view_points vw e) v) in *.
  set (sl := default 0 (slack !! e) + allowance reward - perbill_one * sat_sub due u).
  assert (0 ≤ default 0 (slack !! e)) as Hsl0.
  { destruct (slack !! e) as [x|] eqn:Hx; cbn; [exact (Hsl e x Hx) | lia]. }
  assert (0 ≤ sl ∧ perbill_one * reward ≤ perbill_one * u + reward * shares_paid vw' e + sl
    ∧ perbill_one * reward ≤ perbill_one * sat_sub u due + reward * shares_paid vw' e + sl) as (Hsl1 & Hk1 & Hk2).
  { assert (sat_sub due u = 0 ∧ sat_sub u due = u - due ∧ due ≤ u
      ∨ sat_sub due u = due - u ∧ sat_sub u due = 0 ∧ u ≤ due) as Hcases by (unfold sat_sub; lia).
    rewrite Hsh in *. unfold sl. set (S := shares_paid vw e) in *.
    set (x := default 0 (slack !! e)) in *. clearbody S x share. clear Hera Hcnt Htot Hnd Hpv Hun sl.
    assert (0 ≤ allowance reward) by (unfold allowance, perbill_one; lia).
    set (al := allowance reward) in *. clearbody al.
    assert (reward * (S + (share - 1)) ≤ reward * perbill_one) by (apply Z.mul_le_mono_nonneg_l; lia).
    unfold perbill_one in *.
    destruct Hcases as [(-> & -> & ?)|(-> & -> & ?)]; split_and!; lia. }
  exists (<[e := sl]> slack). split.
  - by apply map_Forall_insert_2.
  - rewrite (pv_rounding _ _ _ _ Hpv). cbn [rounding_step snd]. rewrite Hrnd. cbn [default from_option].
    rewrite map_sum_insert. change (id sl) with sl. change (id reward) with reward.
    unfold sl, allowance. lia.
  - by rewrite (pv_points _ _ _ _ Hpv).
  - intros e' r'. rewrite (pv_rewards _ _ _ _ Hpv), (pv_rounding _ _ _ _ Hpv). apply Hrews.
  - intros e' r' u'. rewrite (pv_rewards _ _ _ _ Hpv). intros Hr' Hu'.
    destruct (decide (e = e')) as [<-|Hne].
    + rewrite lookup_insert_eq. cbn. rewrite Hrew in Hr'. injection Hr' as <-.
      destruct Hun as [Hun|Hun]; rewrite Hun in Hu'; [rewrite Hu in Hu' | rewrite lookup_insert_eq in Hu'];
        by injection Hu' as <-.
    + rewrite lookup_insert_ne by done. rewrite (shares_paid_snoc e v vw vw' e' Hpv), decide_False by done.
      rewrite Z.add_0_r. apply Hera; [done|].
      destruct Hun as [Hun|Hun]; rewrite Hun in Hu'; [done|]. by rewrite lookup_insert_ne in Hu'.
Qed.

(** ** The end of an era *)

Record promised_view (e : EraIndex) (reward : Z) vw vw' : Prop := {
  pr_rewards : v_rewards vw' = <[e := reward]> (v_rewards vw);
  pr_unclaimed : v_unclaimed vw' = <[e := reward]> (v_unclaimed vw);
  pr_points : v_points vw' = v_points vw;
  pr_paid : v_paid vw' = v_paid vw;
  pr_rounding : v_rounding vw' = rounding_step (v_rounding vw) (EraPaid e reward);
}.

Lemma accounted_promise slack k vw vw' e reward :
  accounted slack k vw → promised_view e reward vw vw' → 0 ≤ reward → paid_of vw e = [] →
  accounted slack k vw'.
Proof.
  intros [Hsl Htot Hcnt Hrews Hera] [Hr Hu Hpts Hp Hrnd] Hpos Hnone. split.
  - done.
  - rewrite Hrnd. exact Htot.
  - by rewrite Hpts.
  - intros e' r'. rewrite Hr, Hrnd. cbn.
    intros [[<- <-]|[Hne Hr']]%lookup_insert_Some; [by rewrite lookup_insert_eq|].
    rewrite lookup_insert_ne by done. by apply Hrews.
  - intros e' r' u'. rewrite Hr, Hu. unfold shares_paid, view_points, paid_of. rewrite Hpts, Hp.
    intros [[<- <-]|[Hne Hr']]%lookup_insert_Some.
    + rewrite lookup_insert_eq. intros [= <-]. unfold paid_of in Hnone. rewrite Hnone. cbn.
      destruct (slack !! e) as [x|] eqn:Hx; cbn; [pose proof (Hsl e x Hx : 0 ≤ x)|]; lia.
    + rewrite lookup_insert_ne by done. by apply Hera.
Qed.
End Account.

(** * The steps of the chain *)

Section Steps.
Context `{PerThingLaws} `{!PerThingRounding} `{CurrencyLaws} `{!StakingConfig} `{!FundLaws}.
Context (elect : bool → Store → option (list (AccountId * list (AccountId * Z)))).
Implicit Types (s : Store) (vw : EraView).

#[local] Hint Extern 2 (keeps (λ s, held _ (view_of s)) _ _) =>
  apply quiet_view; solve [eauto with quiet] : keeps.

Lemma held_clear_era vw e : preserves (λ s, held vw (view_of s)) (clear_era_information e).
Proof.
  unfold clear_era_information. apply keeps_modify; [done|]. intros s (Hp & Hr & Hpts & Hrew).
  split_and!; [exact Hp | exact Hr | |].
  - etrans; [|exact Hpts]. apply delete_subseteq.
  - intros e' reward. cbn. intros [Hne Hr']%lookup_delete_Some.
    rewrite !lookup_delete_ne by done. by apply Hrew.
Qed.
#[local] Hint Extern 1 (keeps _ (clear_era_information _) _) => apply held_clear_era : keeps.

Lemma held_dispatch vw o c : call_ok c → preserves (λ s, held vw (view_of s)) (dispatch o c).
Proof.
  intros Hc. destruct (call_cases c Hc) as [Hq|[(a & b & p & ->)|[n ->]]]; cbn [dispatch].
  - by apply quiet_view, quiet_dispatch.
  - intros s Hs. split; [by rewrite bond_view | done].
  - unfold set_history_depth, ensure_root. keeps_auto; done.
Qed.

Lemma held_new_session vw g i : preserves (λ s, held vw (view_of s)) (sm_new_session elect g i).
Proof.
  unfold sm_new_session, new_session, try_trigger_new_era, trigger_new_era, store_stakers_info.
  keeps_auto; done.
Qed.

Lemma held_start_session vw i : preserves (λ s, held vw (view_of s)) (start_session i).
Proof.
  unfold start_session, start_era, clear_era_metadata, apply_unapplied_slashes, apply_era_slashes.
  keeps_auto; done.
Qed.

Lemma held_on_offence vw offs fr ss ds : preserves (λ s, held vw (view_of s)) (on_offence offs fr ss ds).
Proof. unfold on_offence, on_offence_one. keeps_auto; try done; by case_match. Qed.

Definition in_account (k : Z) s : Prop := ∃ slack, accounted slack k (view_of s).

Lemma account_held {A} (m : Call A) k s :
  (∀ vw, preserves (λ s, held vw (view_of s)) m) → in_account k s → in_account k (run m s).
Proof.
  intros Hm [slack Hs]. exists slack. eapply accounted_held; [|exact Hs].
  apply (preserves_run _ m s (Hm _)), held_refl.
Qed.

(** ** Reward points *)

Lemma counted_add p v x :
  points_add_up p → 0 ≤ x → rp_total p + x < 2 ^ 32 →
  points_add_up (add_points p (v, x)) ∧ rp_total (add_points p (v, x)) = rp_total p + x.
Proof.
  intros [Hpos Htot] Hx Hmax. pose proof (map_sum_nonneg id _ Hpos) as Hnn.
  pose proof (map_sum_keys id (individual p) [v] Hpos (NoDup_singleton v)) as Hone. cbn in Hone.
  set (old := default 0 (individual p !! v)).
  assert (0 ≤ old) as Hold by (unfold old; destruct (individual p !! v) as [y|] eqn:Hy; cbn; [exact (Hpos v y Hy) | lia]).
  assert (old ≤ rp_total p) as Hle by (change (old + 0 ≤ map_sum id (individual p)) in Hone; lia).
  unfold add_points. fold old. rewrite !wadd_small by ulia. split; [split; cbn|done].
  - apply map_Forall_insert_2; [lia | done].
  - rewrite map_sum_insert. change (from_option id 0 (individual p !! v)) with old. unfold id at 2. lia.
Qed.

Lemma counted_add_all ps : ∀ p,
  points_add_up p → Forall (λ q : AccountId * Z, 0 ≤ q.2) ps → rp_total p + zsum snd ps < 2 ^ 32 →
  points_add_up (foldl add_points p ps).
Proof.
  induction ps as [|[v x] ps IH]; intros p Hp Hpos Hmax; cbn [foldl zsum snd] in *; [done|].
  apply Forall_cons in Hpos as [Hx Hpos]. cbn in Hx. pose proof (zsum_nonneg snd ps Hpos).
  destruct (counted_add p v x Hp Hx ltac:(lia)) as [Hc Htot]. apply IH; [done..|]. rewrite Htot. lia.
Qed.

Lemma account_reward ps k s :
  once s → points_room ps s → in_account k s → in_account k (run (reward_by_ids ps) s).
Proof.
  intros Hon [Hpos Hmax] [slack Hs]. unfold run, reward_by_ids, gets, mbind, M_bind. cbn.
  destruct (active_era s) as [ae|] eqn:Hae; [|by exists slack]. cbn. exists slack.
  assert (points_add_up (eras_reward_points s (ae_index ae))) as Hcnt.
  { unfold eras_reward_points. destruct (eras_reward_points_map s !! ae_index ae) as [p|] eqn:Hp;
      [exact (ac_points _ _ _ Hs _ p Hp)|].
    split; [apply map_Forall_empty|]. cbn. by rewrite map_sum_empty. }
  pose proof (counted_add_all ps _ Hcnt Hpos (Hmax ae eq_refl)) as Hnew.
  destruct Hs as [Hsl Htot Hpts Hrews Hera]. split; [done..| | done |].
  - by apply map_Forall_insert_2.
  - intros e reward u Hr Hu. specialize (Hera e reward u Hr Hu). cbn in Hr.
    unfold shares_paid, view_points in *. cbn. rewrite lookup_insert_ne; [exact Hera|].
    intros <-. assert (ae_index ae ∈ rewarded s) as Hin by by apply elem_of_dom.
    pose proof (on_rewarded s Hon _ Hin) as Hlt. unfold active_no in Hlt. cbn in Hlt.
    rewrite Hae in Hlt. cbn in Hlt. lia.
Qed.

(** ** Sessions *)

Lemma account_end_session i k k' s :
  solvent i k s → once s → in_account k' s → in_account k' (run (end_session i) s).
Proof.
  intros Hso Hon [slack Hs]. change (wp (end_session i) s (λ _, in_account k')).
  assert (in_account k' s) as Hsame by by exists slack.
  unfold end_session. apply wp_get. cbn [id].
  destruct (active_era s) as [ae|] eqn:Hae; [|by apply wp_ret].
  destruct (eras_start_session_index s !! _); [|by apply wp_ret].
  apply wp_when; intros _; [|done]. unfold end_era. destruct (ae_start ae); [|by apply wp_ret].
  apply wp_bind, wp_modify, wp_get. cbn zeta. unfold deposit_event.
  apply wp_bind, wp_modify, wp_modify. exists slack.
  match goal with |- context [EraPaid ?a ?b] => set (e := a); set (reward := b) end.
  eapply (accounted_promise slack k' (view_of s) _ e reward); [done | | unfold reward, sat_sub; lia |].
  - split; [done..| |].
    + etrans; [apply payouts_snoc | apply app_nil_r].
    + apply rounding_snoc.
  - apply filter_none, Forall_forall. intros [e' v] Hp. cbn. intros ->.
    pose proof (on_paid s Hon e v Hp) as Hlt. unfold active_no in Hlt. cbn in Hlt.
    rewrite Hae in Hlt. cbn in Hlt. unfold e in Hlt. lia.
Qed.

Lemma account_rotate i k s :
  solvent i k s → once s → in_account k s → in_account k (rotate elect i s).
Proof.
  intros Hso Hon Hs. unfold rotate.
  apply account_held; [intros vw; apply held_new_session|].
  apply account_held; [intros vw; apply held_start_session|].
  by apply (account_end_session i k).
Qed.

(** ** Payouts *)

(** What the payments of a payout leave as it is. *)
Definition paying vw s : Prop :=
  v_rewards (view_of s) = v_rewards vw ∧ v_points (view_of s) = v_points vw
  ∧ v_paid (view_of s) = v_paid vw ∧ v_rounding (view_of s) = v_rounding vw.

#[local] Hint Extern 2 (keeps (paying _) _ _) =>
  apply (quiet_view _ (λ v, v_rewards v = _ ∧ v_points v = _ ∧ v_paid v = _ ∧ v_rounding v = _));
  solve [eauto with quiet] : keeps.

Lemma paying_update vw e x : preserves (paying vw) (update_not_claimed_reward e x).
Proof. unfold update_not_claimed_reward. keeps_auto. by case_match. Qed.
#[local] Hint Extern 1 (keeps _ (update_not_claimed_reward _ _) _) => apply paying_update : keeps.

(** A payout that is made is the only thing that changes, beside what is left
    to claim. *)
Lemma payout_view w v e c l ep s :
  claim_era s v e = Ok (c, l, ep) → stash l = v →
  let s' := run (payout_stakers (Signed w) v e) s in
  paying (view_of s) s' ∧ payout_due s v e = 0 ∧ v_unclaimed (view_of s') = v_unclaimed (view_of s)
  ∨ paid_view e v (view_of s) (view_of s').
Proof.
  intros Hclaim Hst.
  change (wp (payout_stakers (Signed w) v e) s (λ _ s',
    paying (view_of s) s' ∧ payout_due s v e = 0 ∧ v_unclaimed (view_of s') = v_unclaimed (view_of s)
    ∨ paid_view e v (view_of s) (view_of s'))).
  unfold payout_stakers, ensure_signed. apply wp_bind, wp_ret. unfold do_payout_stakers.
  apply wp_get, wp_bind. cbn [id]. rewrite Hclaim. apply wp_ret. cbn zeta. rewrite Hst.
  apply wp_bind, wp_modify. destruct (decide _) as [Hz|Hnz].
  { apply wp_ret. left. split_and!; [done..| |done]. unfold payout_due. by rewrite Hclaim, Hst, decide_True. }
  destruct (validator_payouts _ _ _ _ _ _ _) as [own_pay left].
  unfold deposit_event. apply wp_bind, wp_modify.
  match goal with |- wp _ ?t _ => set (s2 := t) end.
  eapply wp_mono; [apply (wp_preserves (paying (view_of s2))); [keeps_auto | by split_and!]|].
  cbn beta. intros r s' (Hr & Hpts & Hp & Hrnd). right. split; [exact Hr | exact Hpts | |].
  - rewrite Hp. apply payouts_snoc.
  - rewrite Hrnd. apply rounding_snoc.
Qed.

(** What is left of an era's reward after a payout. *)
Lemma payout_unclaimed i k w v e s u :
  solvent i k s → payout_room s v e → eras_not_claimed_reward_map s !! e = Some u →
  let s' := run (payout_stakers (Signed w) v e) s in
  v_unclaimed (view_of s') = v_unclaimed (view_of s)
  ∨ v_unclaimed (view_of s') = <[e := sat_sub u (payout_due s v e)]> (v_unclaimed (view_of s)).
Proof.
  intros Hso Hroom Hu s'.
  pose proof (payout_follows _ w v e s _ (solvent_frame_of _ _ _ Hso) Hroom) as Hwp.
  change (wp (payout_stakers (Signed w) v e) s ?Q) with (Q (fst (payout_stakers (Signed w) v e s)) s') in Hwp.
  cbn beta in Hwp.
  destruct Hwp as [[_ (Hck & _)]|[(Hck & _) _]]; apply (f_equal unclaimed) in Hck.
  - right. unfold claimed_reward in Hck. cbn [clock_of unclaimed] in Hck. rewrite Hu in Hck. exact Hck.
  - left. exact Hck.
Qed.

Lemma account_payout i k s w v e :
  solvent i k s → once s → payout_room s v e →
  fair (eras_stakers_clipped s e v) → short (eras_stakers_clipped s e v) →
  in_account k s → in_account (k + excess s v e) (run (payout_stakers (Signed w) v e) s).
Proof.
  intros Hso Hon Hroom Hfair Hshort [slack Hs].
  pose proof (clock_rewards_nonneg _ _ (so_clock _ _ _ Hso)) as Hnn. cbn in Hnn.
  assert (0 ≤ default 0 (eras_not_claimed_reward_map s !! e)) as Hu0.
  { destruct (eras_not_claimed_reward_map s !! e) as [u|] eqn:Hu; [exact (Hnn e u Hu) | done]. }
  assert (payout_due s v e = 0 → k + excess s v e = k) as Hzero by (unfold excess, sat_sub; lia).
  destruct (claim_era s v e) as [[[c l] ep]|er] eqn:Hclaim.
  2:{ rewrite Hzero by (unfold payout_due; by rewrite Hclaim). exists slack.
      enough (run (payout_stakers (Signed w) v e) s = s) as -> by done.
      unfold run, payout_stakers, do_payout_stakers, ensure_signed.
      rewrite (bind_step _ _ w s s), (bind_step _ _ s s s) by done. by rewrite Hclaim. }
  destruct (claim_era_range _ _ _ _ _ _ Hclaim) as (ce & _ & _ & _ & Hrew).
  pose proof (payout_due_share s v e c l ep (so_wf _ _ _ Hso) Hroom Hclaim Hfair Hshort) as [_ Hdue].
  destruct (claim_terms s v e c l ep (so_wf _ _ _ Hso) Hroom Hclaim) as (Hst & _).
  destruct (payout_view w v e c l ep s Hclaim Hst) as [((Hr & Hpts & Hp & Hrnd) & Hz & Hun)|Hpv].
  { rewrite (Hzero Hz). exists slack. eapply accounted_held; [|exact Hs].
    split_and!; [done | done | by rewrite Hpts |]. intros e' r'. by rewrite Hr, Hpts, Hun. }
  assert (is_Some (eras_not_claimed_reward_map s !! e)) as [u Hu].
  { destruct (on_past s Hon) as (_ & _ & _ & Hdom). apply elem_of_dom.
    change (e ∈ v_pending (view_of s)). rewrite <- Hdom. apply elem_of_dom. by exists ep. }
  unfold excess. rewrite Hu in *. cbn [default from_option id] in *.
  eapply (accounted_payout slack k (view_of s) _ e v ep u (payout_due s v e));
    [done | exact Hpv | apply (on_nodup _ (once_payout i k s w v e Hso Hon)) | done | done | done | | exact Hdue |].
  - by apply payout_due_nonneg; [apply (so_wf _ _ _ Hso)|].
  - by eapply payout_unclaimed.
Qed.

(** ** The whole history *)

Lemma account_step x y :
  supports_fit elect → fund_step elect x y → solvent x.1.1 x.1.2 x.2 → once x.2 →
  exposed fair (view_of x.2) → exposed short (view_of x.2) →
  in_account x.1.2 x.2 → in_account y.1.2 y.2.
Proof.
  intros Hfit Hstep Hso Hon Hfair Hshort Hs. destruct Hstep; cbn [fst snd] in *.
  - apply account_held; [|done]. intros vw. by apply held_dispatch.
  - eapply account_payout; [done..| | |done].
    + by apply exposed_lookup; [|apply fair_default].
    + apply exposed_lookup; [done|]. unfold short. cbn. lia.
  - apply account_held; [|done]. intros vw. apply held_on_offence.
  - by apply account_rotate.
  - by apply account_reward.
  - destruct Hs as [slack Hs]. exists slack. by rewrite (quiet_run _ _ (quiet_on_finalize _)).
  - exact Hs.
Qed.

Lemma account_boot g c vl ss sy s0 :
  genesis_build g (store_default c vl ss sy) = Some s0 → in_account 0 (boot elect s0).
Proof.
  intros Hbuild%genesis_view. unfold boot.
  apply account_held; [intros vw; apply held_start_session|].
  do 2 (apply account_held; [intros vw; apply held_new_session|]).
  exists ∅. rewrite Hbuild. split; cbn; try done.
  rewrite map_sum_empty. lia.
Qed.

Lemma reachable_account g c vl ss sy i k s :
  genesis_ok g → supports_fit elect → reachable elect g c vl ss sy i k s → in_account k s.
Proof.
  intros Hg Hfit (s0 & Hbuild & Hreach).
  set (I := λ x : SessionIndex * Z * Store, solvent x.1.1 x.1.2 x.2 ∧ once x.2
    ∧ exposed fair (view_of x.2) ∧ exposed short (view_of x.2) ∧ in_account x.1.2 x.2).
  assert (∀ x y, rtc (fund_step elect) x y → I x → I y) as Hrtc.
  { induction 1 as [|x y z Hxy _ IH]; [done|]. intros (Hso & Hon & Hf & Hsh & Hs). apply IH.
    split_and!; [by eapply fund_step_solvent | by eapply once_step | | | by eapply account_step].
    - eapply exposed_step; [by apply supports_fair | exact Hxy | done].
    - eapply exposed_step; [apply elects_short | exact Hxy | done]. }
  apply (Hrtc _ _ Hreach). split_and!.
  - by eapply genesis_boot.
  - by eapply once_genesis.
  - eapply exposed_boot; [by apply supports_fair | exact Hbuild].
  - eapply exposed_boot; [apply elects_short | exact Hbuild].
  - by eapply account_boot.
Qed.

(** C12: In every history of the chain the reward fund holds all rewards that
    validators and nominators can still claim, but for the rounding of the
    payouts that were made: per payout at most one part in a billion of the
    reward of its era, and one unit, for each of its parts (the share of the
    validator in the era, its own part and those of its nominators).  And
    rewards are only left for eras of the history that were active. *)
Theorem fund_covers_claims g c vl ss sy i k s
    (Hg : genesis_ok g) (Hfit : supports_fit elect) (Hreach : reachable elect g c vl ss sy i k s) :
  perbill_one * map_sum id (eras_not_claimed_reward_map s)
    ≤ perbill_one * fund_balance s
      + (Z.of_nat MaxNominatorRewardedPerValidator + 2) * (rounding (events s)).2
  ∧ ∀ e r, eras_not_claimed_reward_map s !! e = Some r →
      0 ≤ r ∧ ∃ ce ai, current_era s = Some ce ∧ active_era s = Some ai
        ∧ ce - history_depth s ≤ e ≤ ae_index ai.
Proof.
  destruct (fund_solvent elect g c vl ss sy i k s Hg Hreach) as [Hout Hrange].
  split; [|exact Hrange].
  destruct (reachable_account g c vl ss sy i k s Hg Hfit Hreach) as [slack [Hsl Htot _ _ _]].
  pose proof (map_sum_nonneg id slack Hsl). cbn [view_of v_rounding] in Htot.
  unfold perbill_one in *. lia.
Qed.

(** C14: A payout that passes its checks succeeds, whatever happened before, as
    long as what it is due is within all the rewards that are left, less the
    rounding of the payouts that were made: the settlement against the fund
    cannot fail. *)
Theorem claim_is_paid g c vl ss sy i k s w v e controller l ep
    (Hg : genesis_ok g) (Hfit : supports_fit elect) (Hreach : reachable elect g c vl ss sy i k s)
    (Hroom : payout_room s v e) (Hclaim : claim_era s v e = Ok (controller, l, ep))
    (Hdue : 0 < payout_due s v e)
    (Hleft : perbill_one * payout_due s v e
        + (Z.of_nat MaxNominatorRewardedPerValidator + 2) * (rounding (events s)).2
      ≤ perbill_one * map_sum id (eras_not_claimed_reward_map s)) :
  fst (payout_stakers (Signed w) v e s) = Ok tt.
Proof.
  apply (claim_covered elect g c vl ss sy i k s w v e controller l ep Hg Hreach Hroom Hclaim Hdue).
  destruct (reachable_account g c vl ss sy i k s Hg Hfit Hreach) as [slack [Hsl Htot _ _ _]].
  pose proof (map_sum_nonneg id slack Hsl). cbn [view_of v_rounding] in Htot.
  unfold perbill_one in *. lia.
Qed.
End Steps.

(** * A concrete chain

    The one of [FundSolvency], in its third era: the payout of the first era may
    have been rounded up by 66 parts of 5500 and 66 units. *)

Section Examples.
#[local] Existing Instances TestPerThing TestPerThing_laws TestPerThing_rounding.
#[local] Existing Instances TestCurrency TestCurrency_laws chain_config chain_fund_laws.

Lemma chain_supports_fit : supports_fit chain_elect.
Proof.
  intros g s sup [= <-]. cbn. repeat constructor; cbn; unfold umax; lia.
Qed.

Lemma fund_covers_claims_witness :
  perbill_one * map_sum id (eras_not_claimed_reward_map chain_5)
    ≤ perbill_one * fund_balance chain_5 + 66 * (5500 + perbill_one)
  ∧ supports_fit chain_elect.
Proof.
  split; [|exact chain_supports_fit].
  assert ((rounding (events chain_5)).2 = 5500 + perbill_one) as Hr by (vm_compute; reflexivity).
  rewrite <- Hr.
  exact (proj1 (fund_covers_claims chain_elect chain_genesis chain_cur [] ([], []) ∅ 2 0 chain_5
    chain_genesis_ok chain_supports_fit chain_reaches_5)).
Defined.

Lemma claim_is_paid_witness : fst (payout_stakers (Signed 7) 11 0 chain_3) = Ok tt.
Proof.
  destruct (claim_era chain_3 11 0) as [[[c l] ep]|er] eqn:Hclaim.
  2:{ exfalso. assert (is_ok (claim_era chain_3 11 0) = true) as Hok by (vm_compute; reflexivity).
      rewrite Hclaim in Hok. discriminate. }
  apply (claim_is_paid chain_elect chain_genesis chain_cur [] ([], []) ∅ 1 0 chain_3 7 11 0 c l ep).
  - exact chain_genesis_ok.
  - exact chain_supports_fit.
  - exists chain_start. split; [exact chain_builds|].
    exact chain_reaches_3.
  - exact chain_room.
  - exact Hclaim.
  - vm_compute. reflexivity.
  - vm_compute. discriminate.
Defined.
End Examples.
