(* ===== verification/EthereumPallet.v ===== *)
(** The Ethereum pallet ([frame/ethereum/src/lib.rs]): Ethereum transactions,
    their validation in the pool and in a block, their execution by the EVM, and
    the Ethereum block that is assembled from the pending transactions when the
    block ends. *)

From Stdlib Require Import ZArith Lia.
From stdpp Require Import base option list gmap fin_maps.
From S2P Require Import Prelude Interfaces Ethereum EvmAccounts Revenue.
#[local] Open Scope Z_scope.

(** * Data

    [H160] and [H256] are fixed-size byte strings; a [U256] is a number below
    2^256. *)

Abbreviation H160 := EthereumAddress (only parsing).
Abbreviation H256 := EthereumTxHash (only parsing).

(** [H256::default()] *)
Definition H256_default : H256 := {| hash_bytes := replicate 32 0 |}.

(** [unique_saturated_into] an unsigned type of [w] bits. *)
Definition saturate (w x : Z) : Z := Z.min x (umax w).

Inductive TransactionAction := ActionCall (target : H160) | ActionCreate.

Record AccessListItem := { item_address : H160; storage_keys : list H256 }.

(** A signature of a legacy transaction, by what the pallet reads of it. *)
Record TransactionSignature := {
  sig_r : bytes;
  sig_s : bytes;
  standard_v : Z;
  sig_chain_id : option Z;
}.

Record LegacyTransaction := {
  l_nonce : Z; l_gas_price : Z; l_gas_limit : Z; l_action : TransactionAction;
  l_value : Z; l_input : bytes; l_signature : TransactionSignature;
}.

Record EIP2930Transaction := {
  a_chain_id : Z; a_nonce : Z; a_gas_price : Z; a_gas_limit : Z;
  a_action : TransactionAction; a_value : Z; a_input : bytes;
  a_access_list : list AccessListItem; a_odd_y_parity : bool; a_r : bytes; a_s : bytes;
}.

Record EIP1559Transaction := {
  d_chain_id : Z; d_nonce : Z; d_max_priority_fee_per_gas : Z; d_max_fee_per_gas : Z;
  d_gas_limit : Z; d_action : TransactionAction; d_value : Z; d_input : bytes;
  d_access_list : list AccessListItem; d_odd_y_parity : bool; d_r : bytes; d_s : bytes;
}.

Inductive Transaction :=
  | Legacy (t : LegacyTransaction)
  | EIP2930 (t : EIP2930Transaction)
  | EIP1559 (t : EIP1559Transaction).

Record TransactionData := {
  action : TransactionAction;
  input : bytes;
  nonce : Z;
  gas_limit : Z;
  gas_price : option Z;
  max_fee_per_gas : option Z;
  max_priority_fee_per_gas : option Z;
  tx_value : Z;
  chain_id : option Z;
  access_list : list (H160 * list H256);
}.

Definition access_pairs (l : list AccessListItem) : list (H160 * list H256) :=
  map (λ d, (item_address d, storage_keys d)) l.

Definition transaction_data (transaction : Transaction) : TransactionData :=
  match transaction with
  | Legacy t => {|
      action := l_action t; input := l_input t; nonce := l_nonce t; gas_limit := l_gas_limit t;
      gas_price := Some (l_gas_price t); max_fee_per_gas := None;
      max_priority_fee_per_gas := None; tx_value := l_value t;
      chain_id := sig_chain_id (l_signature t); access_list := [] |}
  | EIP2930 t => {|
      action := a_action t; input := a_input t; nonce := a_nonce t; gas_limit := a_gas_limit t;
      gas_price := Some (a_gas_price t); max_fee_per_gas := None;
      max_priority_fee_per_gas := None; tx_value := a_value t;
      chain_id := Some (a_chain_id t); access_list := access_pairs (a_access_list t) |}
  | EIP1559 t => {|
      action := d_action t; input := d_input t; nonce := d_nonce t; gas_limit := d_gas_limit t;
      gas_price := None; max_fee_per_gas := Some (d_max_fee_per_gas t);
      max_priority_fee_per_gas := Some (d_max_priority_fee_per_gas t); tx_value := d_value t;
      chain_id := Some (d_chain_id t); access_list := access_pairs (d_access_list t) |}
  end.

Record Log := { log_address : H160; log_topics : list H256; log_data : bytes }.

(** Bloom filters ([ethereum_types::Bloom]). *)
Class BloomFilter := {
  bloom : Type;
  bloom_default : bloom;
  accrue : bytes → bloom → bloom;
}.

Section Records.
Context `{BloomFilter}.

Record TransactionStatus := {
  transaction_hash : H256;
  transaction_index : Z;
  status_from : H160;
  status_to : option H160;
  contract_address : option H160;
  status_logs : list Log;
  status_bloom : bloom;
}.

Record ReceiptData := {
  status_code : Z;
  used_gas : Z;
  receipt_bloom : bloom;
  receipt_logs : list Log;
}.

Inductive Receipt :=
  | ReceiptLegacy (d : ReceiptData)
  | ReceiptEIP2930 (d : ReceiptData)
  | ReceiptEIP1559 (d : ReceiptData).

Definition receipt_data (r : Receipt) : ReceiptData :=
  match r with ReceiptLegacy d | ReceiptEIP2930 d | ReceiptEIP1559 d => d end.

Record PartialHeader := {
  parent_hash : H256;
  beneficiary : H160;
  state_root : H256;
  receipts_root : H256;
  logs_bloom_field : bloom;
  difficulty : Z;
  number : Z;
  header_gas_limit : Z;
  gas_used : Z;
  header_timestamp : Z;
  extra_data : bytes;
}.

(** [ethereum::Block::new]: the header is completed from the transactions and
    the ommers, of which there are none. *)
Record Block := { partial_header : PartialHeader; block_transactions : list Transaction }.

(** What the EVM returns for a call and for a creation. *)
Record ExecutionInfo (exit_reason : Type) := {
  info_exit : exit_reason;
  info_used_gas : Z;
  info_logs : list Log;
}.
End Records.
Arguments info_exit {exit_reason} e.
Arguments info_used_gas {exit_reason} e.
Arguments info_logs {exit_reason} e.

(** * What the pallet is configured with

    [world] is the rest of the storage of the runtime: the accounts of the EVM,
    the system, the timestamp and the white list of the revenue pallet. *)
Class EthereumConfig `{BloomFilter} := {
  world : Type;
  exit_reason : Type;
  exit_succeed : exit_reason → bool;
  message_hash : Transaction → bytes;
  tx_hash : Transaction → H256;
  ordered_trie_root : list Receipt → H256;
  header_hash : Block → H256;
  record_transaction : Z → TransactionAction → bytes → list (H160 * list H256) → bool;
  runner_call : H160 → H160 → bytes → Z → Z → option Z → option Z → option Z →
    list (H160 * list H256) → world → option (ExecutionInfo exit_reason) * world;
  runner_create : H160 → bytes → Z → Z → option Z → option Z → option Z →
    list (H160 * list H256) → world → option (ExecutionInfo exit_reason * H160) * world;
  account_balance : H160 → world → Z;
  account_evm_nonce : H160 → world → Z;
  min_gas_price : world → Z;
  gas_to_weight : Z → Z;
  ChainId : Z;
  BlockGasLimit : Z;
  BlockHashCount : Z;
  find_author : world → H160;
  get_state_root : world → H256;
  timestamp : world → Z;
  find_pre_log : world → option (list Transaction);
  white_list : world → WhiteList.ListStore;
}.

Inductive EthOrigin := EthereumTransaction (source : H160) | OtherOrigin.

Inductive EthError :=
  | EthBadOrigin | GasPriceTooLow | RunnerFailed
  (* a panic: the block is invalid *)
  | Panic.

Inductive EthInvalid := Payment | Stale | Future | CustomInvalid (code : Z).

Inductive TransactionValidationError :=
  | UnknownError | InvalidChainId | InvalidEthSignature | InvalidGasLimit.

Definition validation_code (e : TransactionValidationError) : Z :=
  match e with
  | UnknownError => 0 | InvalidChainId => 1 | InvalidEthSignature => 2 | InvalidGasLimit => 3
  end.

Inductive EthereumStorageSchema := Undefined | SchemaV1 | SchemaV2 | SchemaV3.

Section Pallet.
Context `{EthereumCrypto, EthereumConfig}.

Inductive EthEvent := Executed (from to : H160) (tx : H256) (reason : exit_reason).

Record EthStore := {
  pending : list (Transaction * TransactionStatus * Receipt);
  current_block : option Block;
  current_receipts : option (list Receipt);
  current_transaction_statuses : option (list TransactionStatus);
  block_hash_map : gmap Z H256;
  schema : EthereumStorageSchema;
  env : world;
  eth_events : list EthEvent;
  digest_logs : list Block;
}.

#[export] Instance EthStore_eta : Eta EthStore := λ s, {|
  pending := pending s;
  current_block := current_block s;
  current_receipts := current_receipts s;
  current_transaction_statuses := current_transaction_statuses s;
  block_hash_map := block_hash_map s;
  schema := schema s;
  env := env s;
  eth_events := eth_events s;
  digest_logs := digest_logs s;
|}.

Abbreviation EthCall := (M EthStore EthError).

Definition get_block_hash (n : Z) (s : EthStore) : H256 := default H256_default (block_hash_map s !! n).

(** ** Signatures *)

Definition recover_signer (transaction : Transaction) : option H160 :=
  let sig :=
    match transaction with
    | Legacy t => sig_r (l_signature t) ++ sig_s (l_signature t) ++ [standard_v (l_signature t)]
    | EIP2930 t => a_r t ++ a_s t ++ [Z.b2z (a_odd_y_parity t)]
    | EIP1559 t => d_r t ++ d_s t ++ [Z.b2z (d_odd_y_parity t)]
    end in
  pubkey ← secp256k1_ecdsa_recover sig (message_hash transaction);
  Some {| address_bytes := drop 12 (keccak_256 pubkey) |}.

(** ** Validation *)

(** The checks the pool and the block share: the nonce of the account and the
    priority of the transaction. *)
Definition validate_transaction_common (w : world) (origin : H160) (d : TransactionData)
    : result EthInvalid (Z * Z) :=
  if negb (record_transaction (saturate 64 (gas_limit d)) (action d) (input d) (access_list d))
  then Err (CustomInvalid (validation_code InvalidGasLimit)) else
  if match chain_id d with Some c => bool_decide (c ≠ ChainId) | None => false end
  then Err (CustomInvalid (validation_code InvalidChainId)) else
  if decide (BlockGasLimit ≤ gas_limit d)
  then Err (CustomInvalid (validation_code InvalidGasLimit)) else
  let base_fee := min_gas_price w in
  match
    match gas_price d with
    | Some p => Some (p, saturate 64 (sat_sub p base_fee))
    | None => match max_fee_per_gas d with Some p => Some (p, 0) | None => None end
    end
  with
  | None => Err Payment
  | Some (price, priority) =>
      if decide (price < base_fee) then Err Payment else
      let fee := sat_mul 256 price (gas_limit d) in
      let '(fee, priority) :=
        match max_priority_fee_per_gas d with
        | Some p => (sat_add 256 fee (sat_mul 256 p (gas_limit d)), saturate 64 p)
        | None => (fee, priority)
        end in
      let total_payment := sat_add 256 (tx_value d) fee in
      if decide (account_balance origin w < total_payment) then Err Payment else
      let is_lower_priority :=
        match action d with
        | ActionCall address =>
            negb (bool_decide (length (input d) = 0%nat))
            && negb (WhiteList.is_in_white_list (white_list w) address)
        | ActionCreate => false
        end in
      let priority :=
        wsub 64 (priority / (if is_lower_priority then 20000 else 10000))
                (gas_to_weight (saturate 64 (gas_limit d))) in
      Ok (account_evm_nonce origin w, priority)
  end.

Record PoolTransaction := {
  pt_priority : Z;
  pt_requires : list (H160 * Z);
  pt_provides : list (H160 * Z);
  pt_longevity : Z;
  pt_propagate : bool;
}.

(** The tags of a transaction are its sender and its nonce; one whose nonce is
    ahead of the account waits for the nonce before it. *)
Definition validate_transaction_in_pool (w : world) (origin : H160) (transaction : Transaction)
    : result EthInvalid PoolTransaction :=
  let d := transaction_data transaction in
  match validate_transaction_common w origin d with
  | Err e => Err e
  | Ok (account_nonce, priority) =>
      if decide (nonce d < account_nonce) then Err Stale
      else Ok {|
        pt_priority := priority;
        pt_requires :=
          if decide (account_nonce < nonce d)
          then match checked_sub (nonce d) 1 with Some prev => [(origin, prev)] | None => [] end
          else [];
        pt_provides := [(origin, nonce d)];
        pt_longevity := umax 64;
        pt_propagate := true |}
  end.

Definition validate_transaction_in_block (w : world) (origin : H160) (transaction : Transaction)
    : result EthInvalid unit :=
  let d := transaction_data transaction in
  match validate_transaction_common w origin d with
  | Err e => Err e
  | Ok (account_nonce, _) =>
      if decide (account_nonce < nonce d) then Err Future
      else if decide (nonce d < account_nonce) then Err Stale
      else Ok tt
  end.

(** ** Execution *)

Inductive CallOrCreateInfo :=
  | InfoCall (info : ExecutionInfo exit_reason)
  | InfoCreate (info : ExecutionInfo exit_reason) (value : H160).

(** What the runner is called with: the fee cap and the tip of a legacy
    transaction are computed from its gas price. *)
Definition runner_fees (w : world) (transaction : Transaction)
    : option (option Z * option Z * list (H160 * list H256)) :=
  let base_fee := min_gas_price w in
  match transaction with
  | Legacy t =>
      tip ← checked_sub (l_gas_price t) base_fee; Some (Some base_fee, Some tip, [])
  | EIP2930 t =>
      tip ← checked_sub (a_gas_price t) base_fee;
      Some (Some base_fee, Some tip, access_pairs (a_access_list t))
  | EIP1559 t =>
      Some (Some (d_max_fee_per_gas t), Some (d_max_priority_fee_per_gas t),
            access_pairs (d_access_list t))
  end.

Definition eth_execute (from : H160) (transaction : Transaction)
    : EthCall (option H160 * option H160 * CallOrCreateInfo) :=
  gets id ≫= λ s,
  ok_or (runner_fees (env s) transaction) GasPriceTooLow ≫= λ '(max_fee, max_priority, list),
  let d := transaction_data transaction in
  let gas := saturate 64 (gas_limit d) in
  match action d with
  | ActionCall target =>
      let '(res, w) := runner_call from target (input d) (tx_value d) gas max_fee max_priority
                         (Some (nonce d)) list (env s) in
      modify (λ s, s <| env := w |>) ≫= λ _,
      ok_or res RunnerFailed ≫= λ info,
      mret (Some target, None, InfoCall info)
  | ActionCreate =>
      let '(res, w) := runner_create from (input d) (tx_value d) gas max_fee max_priority
                         (Some (nonce d)) list (env s) in
      modify (λ s, s <| env := w |>) ≫= λ _,
      ok_or res RunnerFailed ≫= λ '(info, address),
      mret (None, Some address, InfoCreate info address)
  end.

(** [expect]: an error of the computation is a panic. *)
Definition expect {A} (m : EthCall A) : EthCall A := λ s,
  match m s with
  | (Ok a, s') => (Ok a, s')
  | (Err _, s') => (Err Panic, s')
  end.

Definition logs_bloom (logs : list Log) (b : bloom) : bloom :=
  foldl (λ b log,
    foldl (λ b topic, accrue (hash_bytes topic) b)
      (accrue (address_bytes (log_address log)) b) (log_topics log)) b logs.

(** The receipt of a transaction has its kind and the gas used so far. *)
Definition receipt_of (transaction : Transaction) (d : ReceiptData) : Receipt :=
  match transaction with
  | Legacy _ => ReceiptLegacy d
  | EIP2930 _ => ReceiptEIP2930 d
  | EIP1559 _ => ReceiptEIP1559 d
  end.

Definition cumulative_gas (l : list (Transaction * TransactionStatus * Receipt)) (used : Z) : Z :=
  match last l with
  | Some (_, _, r) => sat_add 256 (used_gas (receipt_data r)) used
  | None => used
  end.

Record PostDispatchInfo := { actual_weight : option Z; pays_fee : bool }.

Definition apply_validated_transaction (source : H160) (transaction : Transaction)
    : EthCall PostDispatchInfo :=
  gets id ≫= λ s0,
  let index := Z.of_nat (length (pending s0)) mod 2 ^ 32 in
  expect (eth_execute source transaction) ≫= λ '(to, _, info),
  let '(exec, contract, dest) :=
    match info with
    | InfoCall i => (i, None, to)
    | InfoCreate i a => (i, Some a, Some a)
    end in
  let status := {|
    transaction_hash := tx_hash transaction;
    transaction_index := index;
    status_from := source;
    status_to := to;
    contract_address := contract;
    status_logs := info_logs exec;
    status_bloom := logs_bloom (info_logs exec) bloom_default |} in
  let receipt := receipt_of transaction {|
    status_code := if exit_succeed (info_exit exec) then 1 else 0;
    used_gas := cumulative_gas (pending s0) (info_used_gas exec);
    receipt_bloom := status_bloom status;
    receipt_logs := status_logs status |} in
  modify (λ s, s <| pending ::= λ l, l ++ [(transaction, status, receipt)] |>) ≫= λ _,
  modify (λ s, s <| eth_events ::= cons
    (Executed source (default EthereumAddress_default dest) (tx_hash transaction)
       (info_exit exec)) |>) ≫= λ _,
  mret {| actual_weight := Some (gas_to_weight (saturate 64 (info_used_gas exec)));
          pays_fee := false |}.

Definition ensure_ethereum_transaction (o : EthOrigin) : EthCall H160 :=
  match o with EthereumTransaction n => mret n | OtherOrigin => throw EthBadOrigin end.

Definition transact (o : EthOrigin) (transaction : Transaction) : EthCall PostDispatchInfo :=
  ensure_ethereum_transaction o ≫= λ source,
  gets id ≫= λ s,
  ensure (find_pre_log (env s) = None) Panic ≫= λ _,
  apply_validated_transaction source transaction.

(** ** Blocks *)

Definition current_block_hash (s : EthStore) : option H256 := header_hash <$> current_block s.

Definition store_block (post_log : bool) (block_number : Z) : EthCall unit :=
  gets id ≫= λ s,
  let transactions := map (λ p, p.1.1) (pending s) in
  let statuses := map (λ p, p.1.2) (pending s) in
  let receipts := map snd (pending s) in
  let bloom := foldl (λ b r, logs_bloom (receipt_logs (receipt_data r)) b) bloom_default receipts in
  let cumulative_gas_used :=
    match last receipts with Some r => used_gas (receipt_data r) | None => 0 end in
  let block := {|
    partial_header := {|
      parent_hash := default H256_default (current_block_hash s);
      beneficiary := find_author (env s);
      state_root := get_state_root (env s);
      receipts_root := ordered_trie_root receipts;
      logs_bloom_field := bloom;
      difficulty := 0;
      number := block_number;
      header_gas_limit := BlockGasLimit;
      gas_used := cumulative_gas_used;
      header_timestamp := saturate 64 (timestamp (env s));
      extra_data := [] |};
    block_transactions := transactions |} in
  modify (λ s, s <| current_block := Some block |> <| current_receipts := Some receipts |>
                 <| current_transaction_statuses := Some statuses |>
                 <| block_hash_map ::= <[block_number := header_hash block]> |>) ≫= λ _,
  when (post_log = true) (modify (λ s, s <| digest_logs ::= λ l, l ++ [block] |>)).

Definition eth_on_finalize (n : Z) : EthCall unit :=
  gets id ≫= λ s,
  store_block (bool_decide (find_pre_log (env s) = None)) (saturate 128 n) ≫= λ _,
  let to_remove := sat_sub (sat_sub n BlockHashCount) 1 in
  when (to_remove ≠ 0) (modify (λ s, s <| block_hash_map ::= delete (saturate 32 to_remove) |>)).

(** A transaction of an imported block: it must be signed and valid. *)
Definition import_transaction (transaction : Transaction) : EthCall unit :=
  gets id ≫= λ s,
  ok_or (recover_signer transaction) Panic ≫= λ source,
  match validate_transaction_in_block (env s) source transaction with
  | Ok _ => apply_validated_transaction source transaction ≫= λ _, mret tt
  | Err _ => throw Panic
  end.

Definition eth_on_initialize (n : Z) : EthCall unit :=
  modify (λ s, s <| pending := [] |>) ≫= λ _,
  gets id ≫= λ s,
  match find_pre_log (env s) with
  | Some transactions => for_each transactions import_transaction
  | None => mret tt
  end.

Definition eth_on_runtime_upgrade : EthCall unit := modify (λ s, s <| schema := SchemaV3 |>).

Definition eth_genesis_build : EthCall unit :=
  store_block false 0 ≫= λ _, modify (λ s, s <| schema := SchemaV3 |>).

(** ** The self-contained call *)

Definition check_self_contained (transaction : Transaction) : result EthInvalid H160 :=
  match recover_signer transaction with
  | Some origin => Ok origin
  | None => Err (CustomInvalid (validation_code InvalidEthSignature))
  end.

(** A transaction as an extrinsic: its signer is recovered, it is validated
    against the storage, and dispatched with the signer as its origin. *)
Definition apply_self_contained (transaction : Transaction) : EthCall (result EthInvalid PostDispatchInfo) :=
  gets id ≫= λ s,
  match check_self_contained transaction with
  | Err e => mret (Err e)
  | Ok origin =>
      match validate_transaction_in_block (env s) origin transaction with
      | Err e => mret (Err e)
      | Ok _ => transact (EthereumTransaction origin) transaction ≫= λ i, mret (Ok i)
      end
  end.

(** [EthereumBlockHashMapping::block_hash] *)
Definition block_hash (s : EthStore) (n : Z) : H256 := get_block_hash n s.
End Pallet.
