(* ===== verification/EthereumCorrect.v ===== *)
(** What the Ethereum pallet guarantees: the pool and the block agree on a
    transaction, a validated transaction is executed with the nonce and the fees
    it was validated for, the receipts of a block are consistent with its
    transactions, and the hashes of the last blocks are kept.  The priority of a
    transaction is shown to wrap. *)

From Stdlib Require Import ZArith Lia.
From stdpp Require Import base option list gmap fin_maps.
From S2P Require Import Prelude Interfaces Ethereum EvmAccounts Revenue EthereumPallet.
#[local] Open Scope Z_scope.

(** The runner reports the gas it used as a [U256]; nonces, prices and weights
    are not negative. *)
Class EthereumLaws `{EthereumConfig} := {
  call_gas f t i v g m p n l w r w' :
    runner_call f t i v g m p n l w = (Some r, w') → in_u 256 (info_used_gas r);
  create_gas f i v g m p n l w r a w' :
    runner_create f i v g m p n l w = (Some (r, a), w') → in_u 256 (info_used_gas r);
  nonce_nonneg o w : 0 ≤ account_evm_nonce o w;
  weight_range g : in_u 64 (gas_to_weight g);
}.

Section Validation.
Context `{EthereumCrypto, EthereumConfig}.

(** The price a transaction offers, its tip and the fee it has to cover. *)
Definition offered_price (d : TransactionData) : option Z :=
  match gas_price d with Some p => Some p | None => max_fee_per_gas d end.

Definition tip (w : world) (d : TransactionData) : Z :=
  match max_priority_fee_per_gas d with
  | Some p => saturate 64 p
  | None =>
      match gas_price d with Some p => saturate 64 (sat_sub p (min_gas_price w)) | None => 0 end
  end.

Definition max_payment (d : TransactionData) (price : Z) : Z :=
  let fee := sat_mul 256 price (gas_limit d) in
  sat_add 256 (tx_value d)
    (match max_priority_fee_per_gas d with
     | Some p => sat_add 256 fee (sat_mul 256 p (gas_limit d))
     | None => fee
     end).

Definition divisor (w : world) (d : TransactionData) : Z :=
  match action d with
  | ActionCall a =>
      if negb (bool_decide (length (input d) = 0%nat))
         && negb (WhiteList.is_in_white_list (white_list w) a) then 20000 else 10000
  | ActionCreate => 10000
  end.

Lemma validate_common_Ok w o d n p :
  validate_transaction_common w o d = Ok (n, p) →
  (∀ c, chain_id d = Some c → c = ChainId) ∧ gas_limit d < BlockGasLimit ∧
  (∃ price, offered_price d = Some price ∧ min_gas_price w ≤ price ∧
     max_payment d price ≤ account_balance o w) ∧
  n = account_evm_nonce o w ∧
  p = wsub 64 (tip w d / divisor w d) (gas_to_weight (saturate 64 (gas_limit d))).
Proof.
  unfold validate_transaction_common, offered_price, tip, max_payment, divisor.
  destruct (record_transaction _ _ _ _); cbn [negb]; [|discriminate].
  destruct (match chain_id d with Some _ => _ | None => _ end) eqn:Hc; [discriminate|].
  case_decide as Hg; [discriminate|].
  assert (∀ c, chain_id d = Some c → c = ChainId) as Hchain.
  { intros c Hd. rewrite Hd in Hc. by apply bool_decide_eq_false, dec_stable in Hc. }
  destruct (gas_price d) as [gp|]; [|destruct (max_fee_per_gas d) as [mf|]; [|discriminate]];
    (case_decide as Hp; [discriminate|]);
    destruct (max_priority_fee_per_gas d) as [mp|];
    (case_decide as Hb; [discriminate|]); intros [= <- <-];
    (split_and!; [done | lia | eexists; split_and!; [reflexivity | lia | lia] | done | by destruct (action d)]).
Qed.

Lemma validate_common_invalid w o d e : validate_transaction_common w o d = Err e → e ≠ Future ∧ e ≠ Stale.
Proof.
  unfold validate_transaction_common. repeat case_match; intros [= <-]; done.
Qed.

(** C29: the pool and the block agree on every transaction: what is valid in a
    block is accepted by the pool and waits for nothing; the pool accepts one
    more kind, a transaction ahead of its account, which the block refuses and
    which waits for the nonce before its own; every other error is the same. *)
Theorem pool_block_agree `{!EthereumLaws} w o t :
  let n := nonce (transaction_data t) in
  match validate_transaction_in_block w o t with
  | Ok _ => n = account_evm_nonce o w ∧
      ∃ v, validate_transaction_in_pool w o t = Ok v ∧ pt_requires v = [] ∧ pt_provides v = [(o, n)]
  | Err Future => account_evm_nonce o w < n ∧
      ∃ v, validate_transaction_in_pool w o t = Ok v ∧
        pt_requires v = [(o, n - 1)] ∧ pt_provides v = [(o, n)]
  | Err e => validate_transaction_in_pool w o t = Err e
  end.
Proof.
  intros n. unfold validate_transaction_in_block, validate_transaction_in_pool. fold n.
  destruct (validate_transaction_common w o (transaction_data t)) as [[an p]|e] eqn:Hv.
  - apply validate_common_Ok in Hv as (_ & _ & _ & -> & _). pose proof (nonce_nonneg o w).
    case_decide as Hlt.
    + rewrite decide_False by lia. split; [done|]. eexists. split; [done|]. cbn.
      unfold checked_sub. by rewrite decide_True by lia.
    + case_decide; [done|]. split; [lia|]. eexists. split; [done|]. done.
  - apply validate_common_invalid in Hv as [? ?]. by destruct e.
Qed.

(** The priority of a valid transaction is computed with a subtraction that
    wraps: when the tip does not cover the weight of the gas limit, the
    transaction gets a priority above that of every transaction whose tip does,
    so a smaller tip can come first. *)
Theorem priority_wraps `{!EthereumLaws} w o o' t t' v v'
  (Hv : validate_transaction_in_pool w o t = Ok v)
  (Hv' : validate_transaction_in_pool w o' t' = Ok v') :
  let d := transaction_data t in let d' := transaction_data t' in
  let weight d := gas_to_weight (saturate 64 (gas_limit d)) in
  0 ≤ tip w d → 0 ≤ tip w d' →
  tip w d / divisor w d < weight d → weight d < 2 ^ 63 →
  weight d' ≤ tip w d' / divisor w d' →
  pt_priority v = 2 ^ 64 - (weight d - tip w d / divisor w d) ∧
  pt_priority v' = tip w d' / divisor w d' - weight d' ∧
  pt_priority v' < pt_priority v.
Proof.
  intros d d' weight Htip Htip' Hlow Hw Hhigh.
  assert (∀ x ox vx, validate_transaction_in_pool w ox x = Ok vx →
    let dx := transaction_data x in
    pt_priority vx = wsub 64 (tip w dx / divisor w dx) (weight dx)) as Hprio.
  { intros x ox vx. unfold validate_transaction_in_pool.
    destruct (validate_transaction_common _ _ _) as [[an p]|e] eqn:Hc; [|done].
    apply validate_common_Ok in Hc as (_ & _ & _ & _ & ->). case_decide; [done|]. by intros [= <-]. }
  assert (∀ dx, 0 ≤ tip w dx → 0 ≤ tip w dx / divisor w dx < 2 ^ 63) as Hdiv.
  { intros dx Hx. assert (10000 ≤ divisor w dx) by (unfold divisor; repeat case_match; lia).
    assert (tip w dx ≤ umax 64) by (unfold tip, saturate, umax; repeat case_match; lia).
    unfold umax in *. split; [apply Z.div_pos; lia|]. apply Z.div_lt_upper_bound; lia. }
  rewrite (Hprio _ _ _ Hv), (Hprio _ _ _ Hv').
  pose proof (Hdiv d Htip). pose proof (Hdiv d' Htip').
  pose proof (weight_range (saturate 64 (gas_limit d'))) as Hw'. unfold in_u in Hw'.
  fold d d'. fold (weight d') in Hw'.
  unfold wsub.
  assert ((tip w d / divisor w d - weight d) mod 2 ^ 64
    = 2 ^ 64 - (weight d - tip w d / divisor w d)) as ->.
  { rewrite <- (Z.mod_add _ 1) by done. rewrite Z.mod_small; lia. }
  rewrite Z.mod_small by lia. lia.
Qed.
End Validation.

(** * Execution *)

Section Execution.
Context `{EthereumCrypto, EthereumLaws}.
Implicit Types s : EthStore.

(** What the runner answers to a transaction with the given fees. *)
Definition runs (w : world) (source : H160) (t : Transaction)
    (fees : option Z * option Z * list (H160 * list H256))
    : option (ExecutionInfo exit_reason * option H160) * world :=
  let d := transaction_data t in
  let gas := saturate 64 (gas_limit d) in
  let '(cap, tip, l) := fees in
  match action d with
  | ActionCall a =>
      let '(r, w') := runner_call source a (input d) (tx_value d) gas cap tip (Some (nonce d)) l w in
      (i ← r; Some (i, None), w')
  | ActionCreate =>
      let '(r, w') := runner_create source (input d) (tx_value d) gas cap tip (Some (nonce d)) l w in
      ('(i, a) ← r; Some (i, Some a), w')
  end.

(** An entry of the pending transactions, after [before]. *)
Definition entry_of (before : list (Transaction * TransactionStatus * Receipt)) (source : H160)
    (t : Transaction) (exec : ExecutionInfo exit_reason) (st : TransactionStatus) (r : Receipt) : Prop :=
  let data := receipt_data r in
  transaction_index st = Z.of_nat (length before) mod 2 ^ 32 ∧
  transaction_hash st = tx_hash t ∧ status_from st = source ∧
  status_logs st = info_logs exec ∧ status_bloom st = logs_bloom (status_logs st) bloom_default ∧
  r = receipt_of t data ∧ receipt_logs data = status_logs st ∧ receipt_bloom data = status_bloom st ∧
  status_code data = (if exit_succeed (info_exit exec) then 1 else 0) ∧
  used_gas data = cumulative_gas before (info_used_gas exec).

(** The storage of the pallet but for the pending transactions, the events and
    the rest of the world. *)
Definition same_blocks s s' : Prop :=
  current_block s' = current_block s ∧ current_receipts s' = current_receipts s ∧
  current_transaction_statuses s' = current_transaction_statuses s ∧
  block_hash_map s' = block_hash_map s.

Lemma receipt_data_of t d : receipt_data (receipt_of t d) = d.
Proof. by destruct t. Qed.

Lemma apply_wp source t s :
  wp (apply_validated_transaction source t) s (λ r s', same_blocks s s' ∧
    match r with
    | Ok _ => ∃ fees exec addr w' st rc, runner_fees (env s) t = Some fees ∧
        runs (env s) source t fees = (Some (exec, addr), w') ∧
        env s' = w' ∧ contract_address st = addr ∧ entry_of (pending s) source t exec st rc ∧
        pending s' = pending s ++ [(t, st, rc)]
    | Err e => e = Panic ∧ pending s' = pending s ∧
        ∀ fees, runner_fees (env s) t = Some fees → fst (runs (env s) source t fees) = None
    end).
Proof.
  unfold apply_validated_transaction, wp. unfold mbind, M_bind, gets, id, expect, eth_execute.
  unfold mbind, M_bind, gets, id, ok_or, modify, mret, M_ret, throw, runs.
  destruct (runner_fees (env s) t) as [[[cap tp] l]|] eqn:Hf; cbn [fst snd].
  2:{ split; [done|]. by split_and!. }
  destruct (action (transaction_data t)) as [a|] eqn:Ha.
  - destruct (runner_call _ _ _ _ _ _ _ _ _ _) as [[x|] w'] eqn:Hr; cbn.
    2:{ split; [done|]. split_and!; [done..|]. intros fees [= <-]. cbn. by rewrite Hr. }
    split; [done|]. eexists _, x, None, w', _, _. split; [done|]. cbn. rewrite Hr.
    split_and!; [done | done | | |reflexivity]; [done|].
    unfold entry_of. rewrite receipt_data_of. by split_and!.
  - destruct (runner_create _ _ _ _ _ _ _ _ _) as [[[x a]|] w'] eqn:Hr; cbn.
    2:{ split; [done|]. split_and!; [done..|]. intros fees [= <-]. cbn. by rewrite Hr. }
    split; [done|]. eexists _, x, (Some a), w', _, _. split; [done|]. cbn. rewrite Hr.
    split_and!; [done | done | | |reflexivity]; [done|].
    unfold entry_of. rewrite receipt_data_of. by split_and!.
Qed.

(** A valid transaction names the chain, has the nonce of its sender, and its
    sender can pay for it. *)
Definition payable (w : world) (source : H160) (t : Transaction) : Prop :=
  let d := transaction_data t in
  nonce d = account_evm_nonce source w ∧
  (∀ c, chain_id d = Some c → c = ChainId) ∧ gas_limit d < BlockGasLimit ∧
  ∃ price, offered_price d = Some price ∧ min_gas_price w ≤ price ∧
    max_payment d price ≤ account_balance source w.

Lemma validate_in_block_Ok w source t :
  validate_transaction_in_block w source t = Ok tt → payable w source t.
Proof.
  unfold validate_transaction_in_block, payable.
  destruct (validate_transaction_common _ _ _) as [[an p]|] eqn:Hc; [|done].
  apply validate_common_Ok in Hc as (Hch & Hg & (price & Hp & Hb & Hm) & -> & _).
  case_decide; [done|]. case_decide; [done|]. intros _. split_and!; [lia | done | done | by exists price].
Qed.

Lemma payable_fees w source t : payable w source t → is_Some (runner_fees w t).
Proof.
  intros (_ & _ & _ & price & Hp & Hb & _). unfold offered_price in Hp.
  destruct t as [x|x|x]; cbn in *; simplify_eq; unfold checked_sub;
    rewrite ?decide_True by lia; cbn; eauto.
Qed.

(** C11: an Ethereum extrinsic is refused with the error of its validation and
    changes nothing, or its signer is recovered, it is valid for the signer in
    the state it is executed in, and it reaches the runner with the nonce of the
    signer, once: it panics only when the block already holds an imported block
    or the runner refuses it, and else appends exactly one entry, the one the
    runner's answer determines, to the pending transactions. *)
Theorem validated_execution t s r s'
  (Hrun : apply_self_contained t s = (r, s')) :
  match r with
  | Ok (Err e) => s' = s ∧ (recover_signer t = None ∧ e = CustomInvalid 2 ∨
      ∃ source, recover_signer t = Some source ∧ validate_transaction_in_block (env s) source t = Err e)
  | _ => ∃ source fees, recover_signer t = Some source ∧ payable (env s) source t ∧
      runner_fees (env s) t = Some fees ∧
      match r with
      | Ok _ => find_pre_log (env s) = None ∧
          ∃ exec addr w' st rc, runs (env s) source t fees = (Some (exec, addr), w') ∧
            env s' = w' ∧ contract_address st = addr ∧ entry_of (pending s) source t exec st rc ∧
            pending s' = pending s ++ [(t, st, rc)]
      | Err e => e = Panic ∧ pending s' = pending s ∧
          (find_pre_log (env s) ≠ None ∨ fst (runs (env s) source t fees) = None)
      end
  end.
Proof.
  revert Hrun. unfold apply_self_contained, check_self_contained, mbind, M_bind, gets, id.
  destruct (recover_signer t) as [source|]; cbn; [|intros [= <- <-]; auto].
  destruct (validate_transaction_in_block (env s) source t) as [[]|e] eqn:Hv;
    [|intros [= <- <-]; split; [done|]; right; by exists source].
  apply validate_in_block_Ok in Hv. destruct (payable_fees _ _ _ Hv) as [fees Hf].
  unfold transact, ensure_ethereum_transaction, mbind, M_bind, gets, id, mret, M_ret, ensure.
  case_decide as Hpre; cbn.
  2:{ intros [= <- <-]. exists source, fees. cbn. split_and!; auto. }
  pose proof (apply_wp source t s) as Ha. unfold wp in Ha.
  destruct (apply_validated_transaction source t s) as [[i|e] s1]; cbn in Ha |- *;
    intros [= <- <-]; exists source, fees; cbn; (split; [done|]; split; [done|]; split; [done|]);
    destruct Ha as [_ Ha].
  - split; [done|]. destruct Ha as (fees' & exec & addr & w' & st & rc & Hf' & Ha).
    rewrite Hf in Hf'. injection Hf' as <-. by exists exec, addr, w', st, rc.
  - destruct Ha as (-> & Hp & Hfail). auto.
Qed.

(** * The entries of a block *)

Abbreviation entries := (list (Transaction * TransactionStatus * Receipt)) (only parsing).

(** Every entry was made by an execution after the entries before it. *)
Definition pending_wf (l : entries) : Prop :=
  ∀ i t st r, l !! i = Some (t, st, r) →
    ∃ source exec, entry_of (take i l) source t exec st r ∧ in_u 256 (info_used_gas exec).

Lemma pending_wf_snoc l source t exec st r :
  pending_wf l → entry_of l source t exec st r → in_u 256 (info_used_gas exec) →
  pending_wf (l ++ [(t, st, r)]).
Proof.
  intros Hl He Hg i t' st' r' [Hi|[Hlen Hi]]%lookup_app_Some.
  - pose proof (lookup_lt_Some _ _ _ Hi). rewrite take_app_le by lia. by apply Hl.
  - apply list_lookup_singleton_Some in Hi as [Hz [= <- <- <-]].
    replace i with (length l) by lia. rewrite take_app_length. by exists source, exec.
Qed.

Lemma runs_gas w source t fees exec addr w' :
  runs w source t fees = (Some (exec, addr), w') → in_u 256 (info_used_gas exec).
Proof.
  unfold runs. destruct fees as [[cap tp] l]. destruct (action _).
  - destruct (runner_call _ _ _ _ _ _ _ _ _ _) as [[x|] w1] eqn:Hr; intros [= <- <- <-].
    by eapply call_gas.
  - destruct (runner_create _ _ _ _ _ _ _ _ _) as [[[x a]|] w1] eqn:Hr; intros [= <- <- <-].
    by eapply create_gas.
Qed.

Lemma pending_gas l t st r : pending_wf l → (t, st, r) ∈ l → in_u 256 (used_gas (receipt_data r)).
Proof.
  intros Hl [i Hi]%list_elem_of_lookup. revert t st r Hi.
  induction i as [i IH] using lt_wf_ind. intros t st r Hi.
  destruct (Hl i t st r Hi) as (source & exec & He & Hg).
  destruct He as (_ & _ & _ & _ & _ & _ & _ & _ & _ & ->). unfold cumulative_gas.
  destruct (last (take i l)) as [[[t1 st1] r1]|] eqn:Hlast; [|done].
  rewrite last_lookup in Hlast. pose proof (lookup_lt_Some _ _ _ Hlast) as Hlt.
  rewrite length_take in *. apply lookup_take_Some in Hlast as [Hlast Hlt'].
  specialize (IH _ Hlt' _ _ _ Hlast). ulia.
Qed.

(** The gas of the receipts adds up from one to the next. *)
Lemma pending_gas_mono l i j ti si ri tj sj rj :
  pending_wf l → (i ≤ j)%nat → l !! i = Some (ti, si, ri) → l !! j = Some (tj, sj, rj) →
  used_gas (receipt_data ri) ≤ used_gas (receipt_data rj).
Proof.
  intros Hl Hij Hi. revert tj sj rj. induction Hij as [|j Hij IH]; intros tj sj rj Hj.
  { by rewrite Hi in Hj; simplify_eq. }
  pose proof (lookup_lt_Some _ _ _ Hj) as Hlt.
  destruct (lookup_lt_is_Some_2 l j) as [[[t1 s1] r1] H1']; [lia|].
  specialize (IH _ _ _ H1'). etrans; [exact IH|].
  destruct (Hl _ _ _ _ Hj) as (source & exec & He & Hg).
  destruct He as (_ & _ & _ & _ & _ & _ & _ & _ & _ & ->). unfold cumulative_gas.
  rewrite last_lookup, length_take, lookup_take_lt by lia.
  replace (Nat.pred (S j `min` length l)) with j by lia. rewrite H1'.
  pose proof (pending_gas l t1 s1 r1 Hl (list_elem_of_lookup_2 _ _ _ H1')). ulia.
Qed.

(** The stored block, receipts and statuses are those of one list of entries. *)
Definition snapshot (l : entries) s : Prop :=
  pending_wf l ∧
  current_transaction_statuses s = Some (map (λ p, p.1.2) l) ∧
  current_receipts s = Some (map snd l) ∧
  ∃ b, current_block s = Some b ∧ block_transactions b = map (λ p, p.1.1) l ∧
    gas_used (partial_header b) =
      from_option (λ p : Transaction * TransactionStatus * Receipt, used_gas (receipt_data p.2)) 0 (last l).

Definition eth_wf s : Prop := pending_wf (pending s) ∧ ∃ l, snapshot l s.

(** What happens to the storage of the pallet: the hooks of a block, its
    extrinsics, and changes elsewhere. *)
Inductive eth_step : EthStore → EthStore → Prop :=
  | eth_initialize n s : eth_step s (run (eth_on_initialize n) s)
  | eth_extrinsic t s : eth_step s (run (apply_self_contained t) s)
  | eth_transact o t s : eth_step s (run (transact o t) s)
  | eth_finalize n s : eth_step s (run (eth_on_finalize n) s)
  | eth_upgrade s : eth_step s (run eth_on_runtime_upgrade s)
  | eth_world w s : eth_step s (s <| env := w |>).

Lemma snapshot_same l s s' : same_blocks s s' → snapshot l s → snapshot l s'.
Proof.
  intros (Hb & Hr & Hs & _) (Hl & Hst & Hrc & b & Hbl & Ht & Hg).
  split_and!; [done | congruence | congruence |]. exists b. split_and!; [congruence | done..].
Qed.

Lemma keeps_apply source t : preserves eth_wf (apply_validated_transaction source t).
Proof.
  apply preserves_wp. intros s [Hp [l Hs]]. eapply wp_mono; [apply apply_wp|].
  intros r s' [Hsame Hr]. split; [|exists l; by eapply snapshot_same].
  destruct r as [i|e].
  - destruct Hr as (fees & exec & addr & w' & st & rc & _ & Hx & _ & _ & Hent & ->).
    by eapply pending_wf_snoc; [| |eapply runs_gas].
  - by destruct Hr as (_ & -> & _).
Qed.

Lemma last_map_entries (l : entries) :
  match last (map snd l) with Some r => used_gas (receipt_data r) | None => 0 end =
  from_option (λ p : Transaction * TransactionStatus * Receipt, used_gas (receipt_data p.2)) 0 (last l).
Proof.
  change (map snd l) with (snd <$> l). rewrite fmap_last. by destruct (last l) as [[[? ?] ?]|].
Qed.

Lemma keeps_store_block b n : preserves eth_wf (store_block b n).
Proof.
  apply preserves_wp. intros s [Hp _].
  unfold store_block. wp_auto; (split; [done|]; exists (pending s);
    split_and!; [done | done | done |]; eexists; split_and!; [done | done |]; apply last_map_entries).
Qed.

#[local] Hint Extern 1 (keeps _ (apply_validated_transaction _ _) _) => apply keeps_apply : keeps.
#[local] Hint Extern 1 (keeps _ (store_block _ _) _) => apply keeps_store_block : keeps.

Lemma keeps_eth_step_ops :
  (∀ n, preserves eth_wf (eth_on_initialize n)) ∧ (∀ t, preserves eth_wf (apply_self_contained t)) ∧
  (∀ o t, preserves eth_wf (transact o t)) ∧ (∀ n, preserves eth_wf (eth_on_finalize n)).
Proof.
  assert (∀ t, preserves eth_wf (import_transaction t)) as Himp.
  { intros t. unfold import_transaction, preserves. keeps_auto. }
  assert (∀ o t, preserves eth_wf (transact o t)) as Htr.
  { intros o t. unfold transact, ensure_ethereum_transaction, preserves. keeps_auto. }
  split_and!; [intros n|intros t|done|intros n].
  - unfold eth_on_initialize, preserves. keeps_auto; [|apply Himp].
    match goal with Hx : eth_wf _ |- _ => destruct Hx as [_ Hs] end. split; [|exact Hs].
    intros i ? ? ? Hi. by destruct i.
  - unfold apply_self_contained, preserves. keeps_auto. apply Htr.
  - unfold eth_on_finalize, preserves. keeps_auto.
Qed.

Lemma eth_step_wf s s' : eth_step s s' → eth_wf s → eth_wf s'.
Proof.
  destruct keeps_eth_step_ops as (Hi & He & Ht & Hf). intros [n t|t t'|o t t'|n t|t|w t] Hwf.
  - by apply (preserves_run _ _ _ (Hi n)).
  - by apply (preserves_run _ _ _ (He t)).
  - by apply (preserves_run _ _ _ (Ht o t)).
  - by apply (preserves_run _ _ _ (Hf n)).
  - exact Hwf.
  - exact Hwf.
Qed.

(** The block, the statuses and the receipts in the storage describe the same
    transactions, in the same order. *)
Definition block_consistent s : Prop :=
  ∃ b statuses receipts,
    current_block s = Some b ∧ current_transaction_statuses s = Some statuses ∧
    current_receipts s = Some receipts ∧
    length statuses = length (block_transactions b) ∧ length receipts = length (block_transactions b) ∧
    ∀ i t st r, block_transactions b !! i = Some t → statuses !! i = Some st → receipts !! i = Some r →
      transaction_hash st = tx_hash t ∧ transaction_index st = Z.of_nat i mod 2 ^ 32 ∧
      r = receipt_of t (receipt_data r) ∧ receipt_logs (receipt_data r) = status_logs st ∧
      in_u 256 (used_gas (receipt_data r)) ∧
      used_gas (receipt_data r) ≤ gas_used (partial_header b) ∧
      ∀ j r', (i ≤ j)%nat → receipts !! j = Some r' →
        used_gas (receipt_data r) ≤ used_gas (receipt_data r').

Lemma snapshot_consistent l s : snapshot l s → block_consistent s.
Proof.
  intros (Hl & Hst & Hrc & b & Hb & Ht & Hg). exists b, (map (λ p, p.1.2) l), (map snd l).
  rewrite Ht, !length_map. split_and!; try done. intros i t st r.
  change (map ?f l) with (f <$> l). rewrite !list_lookup_fmap.
  destruct (l !! i) as [[[t0 st0] r0]|] eqn:Hi; cbn; [|done]. intros [= <-] [= <-] [= <-].
  destruct (Hl _ _ _ _ Hi) as (source & exec & He & Hu).
  pose proof (lookup_lt_Some _ _ _ Hi) as Hlt.
  destruct He as (Hix & Hh & _ & _ & _ & Hr & Hlog & _). rewrite length_take in Hix.
  split_and!; try done.
  - rewrite Hix. by replace (i `min` length l)%nat with i by lia.
  - eapply pending_gas; [done | by eapply list_elem_of_lookup_2].
  - rewrite Hg. destruct (last l) as [[[t1 st1] r1]|] eqn:Hlast; rewrite last_lookup in Hlast.
    + eapply pending_gas_mono; [done | | exact Hi | exact Hlast]. lia.
    + apply lookup_ge_None in Hlast. lia.
  - intros j r'. rewrite list_lookup_fmap. destruct (l !! j) as [[[tj sj] rj]|] eqn:Hj; cbn; [|done].
    intros Hij [= <-]. by eapply pending_gas_mono.
Qed.

(** C13: from genesis, whatever blocks and extrinsics follow, the block, the
    statuses and the receipts in the storage are those of the same transactions
    in the same order: hashes, indices, kinds and logs match, and the gas of the
    receipts adds up to at most the gas of the header. *)
Theorem eth_reachable_consistent s0 s
  (Hempty : pending s0 = []) (Hreach : rtc eth_step (run eth_genesis_build s0) s) :
  block_consistent s ∧ pending_wf (pending s).
Proof.
  enough (eth_wf s) as [Hp [l Hl]] by (split; [by eapply snapshot_consistent | done]).
  assert (eth_wf (run eth_genesis_build s0)) as Hgen.
  { change (wp eth_genesis_build s0 (λ _, eth_wf)). unfold eth_genesis_build, store_block. wp_auto;
      (split; cbn; rewrite ?Hempty; [intros i ? ? ? Hi; by destruct i|]);
      exists []; (split_and!; [intros i ? ? ? Hi; by destruct i | done | done |]);
      eexists; by split_and!. }
  induction Hreach as [|s1 s2 s3 Hstep _ IH]; [done|]. by apply IH, (eth_step_wf _ _ Hstep).
Qed.
End Execution.

(** * The window of block hashes *)

Section Window.
Context `{EthereumCrypto, EthereumConfig}.
Implicit Types s : EthStore.

(** The chain up to block [n]: genesis stores block zero, and the end of each
    block stores it; in between nothing touches the stored block and hashes. *)
Inductive chain : Z → EthStore → Prop :=
  | chain_genesis s : block_hash_map s = ∅ → chain 0 (run eth_genesis_build s)
  | chain_block n s s1 :
      chain n s → current_block s1 = current_block s → block_hash_map s1 = block_hash_map s →
      n + 1 < 2 ^ 32 → chain (n + 1) (run (eth_on_finalize (n + 1)) s1).

Lemma store_block_spec b n s : ∃ s' blk, store_block b n s = (Ok tt, s') ∧
  current_block s' = Some blk ∧ number (partial_header blk) = n ∧
  parent_hash (partial_header blk) = default H256_default (current_block_hash s) ∧
  block_hash_map s' = <[n := header_hash blk]> (block_hash_map s).
Proof.
  unfold store_block. rewrite (bind_step _ _ s s s) by done. cbv zeta.
  erewrite bind_step by reflexivity. unfold when.
  destruct (decide (b = true)); eexists _, _; (split; [reflexivity|]); by split_and!.
Qed.

Lemma on_finalize_spec n s : 0 ≤ n < 2 ^ 32 → 0 ≤ BlockHashCount →
  ∃ s' blk, eth_on_finalize n s = (Ok tt, s') ∧
    current_block s' = Some blk ∧ number (partial_header blk) = n ∧
    parent_hash (partial_header blk) = default H256_default (current_block_hash s) ∧
    block_hash_map s' =
      if decide (BlockHashCount + 1 < n)
      then delete (n - BlockHashCount - 1) (<[n := header_hash blk]> (block_hash_map s))
      else <[n := header_hash blk]> (block_hash_map s).
Proof.
  intros Hn Hcount. unfold eth_on_finalize. rewrite (bind_step _ _ s s s) by done.
  destruct (store_block_spec (bool_decide (find_pre_log (env s) = None)) (saturate 128 n) s)
    as (s1 & blk & Hs1 & Hb & Hnum & Hp & Hm).
  rewrite (bind_step _ _ _ _ _ Hs1). unfold when.
  assert (saturate 128 n = n) as Hsat by (unfold saturate, umax; lia). rewrite Hsat in *.
  set (k := sat_sub (sat_sub n BlockHashCount) 1).
  destruct (decide (k ≠ 0)) as [Hk|Hk]; eexists _, blk; (split; [reflexivity|]).
  - split_and!; [done..|]. rewrite decide_True by (unfold k in Hk; ulia). cbn. rewrite Hm. f_equal.
    unfold saturate, umax. unfold k in *. ulia.
  - split_and!; [done..|]. rewrite decide_False by (unfold k in Hk; ulia). done.
Qed.

Definition in_window (n k : Z) : Prop := 0 ≤ k ≤ n ∧ (k = 0 ∨ n - BlockHashCount ≤ k).

Definition chain_inv n s : Prop :=
  0 ≤ n ∧ (∀ k, is_Some (block_hash_map s !! k) ↔ in_window n k) ∧
  (∀ k h, block_hash_map s !! k = Some h → ∃ b, number (partial_header b) = k ∧ h = header_hash b) ∧
  ∃ b, current_block s = Some b ∧ number (partial_header b) = n ∧ block_hash s n = header_hash b ∧
    (0 < n → parent_hash (partial_header b) = block_hash s (n - 1)).

Lemma chain_inv_genesis s : block_hash_map s = ∅ → chain_inv 0 (run eth_genesis_build s).
Proof.
  intros Hempty. unfold run, eth_genesis_build.
  destruct (store_block_spec false 0 s) as (s1 & blk & Hs1 & Hb & Hnum & _ & Hm).
  rewrite (bind_step _ _ _ _ _ Hs1). unfold chain_inv, block_hash, get_block_hash, in_window.
  cbn. rewrite Hm, Hempty, insert_empty. split_and!; [done|..].
  - intros k. rewrite lookup_singleton. case_decide; [subst; split; [lia | by eauto]|].
    split; [by intros [? [=]]|lia].
  - intros k h [<- <-]%lookup_singleton_Some. by exists blk.
  - exists blk. rewrite lookup_singleton_eq. split_and!; [done..|lia].
Qed.

Lemma chain_inv_step n s s1 :
  1 ≤ BlockHashCount → chain_inv n s → current_block s1 = current_block s →
  block_hash_map s1 = block_hash_map s → n + 1 < 2 ^ 32 →
  chain_inv (n + 1) (run (eth_on_finalize (n + 1)) s1).
Proof.
  intros Hcount (Hn & Hiff & Hval & b0 & Hb0 & Hnum0 & Hh0 & _) Hcur Hmap Hlt. unfold run.
  destruct (on_finalize_spec (n + 1) s1) as (s2 & blk & Heq & Hb & Hnum & Hp & Hm); [lia..|].
  rewrite Heq. cbn [snd]. rewrite Hmap in Hm. unfold current_block_hash in Hp.
  rewrite Hcur, Hb0 in Hp. cbn in Hp.
  assert (∀ k, block_hash_map s2 !! k =
    if decide (BlockHashCount + 1 < n + 1 ∧ k = n + 1 - BlockHashCount - 1) then None
    else if decide (k = n + 1) then Some (header_hash blk) else block_hash_map s !! k) as Hlook.
  { intros k. rewrite Hm. destruct (decide (BlockHashCount + 1 < n + 1)).
    - rewrite lookup_delete, lookup_insert. repeat case_decide; lia || done.
    - rewrite lookup_insert. repeat case_decide; lia || done. }
  unfold chain_inv, block_hash, get_block_hash in *. split_and!; [lia|..].
  - intros k. rewrite Hlook. clear Hlook Hm. unfold in_window in *. specialize (Hiff k).
    case_decide; [split; [by intros [? [=]]|lia]|].
    case_decide; [split; [lia | by eauto]|]. rewrite Hiff. lia.
  - intros k h. rewrite Hlook. clear Hlook Hm. case_decide; [done|]. case_decide; [|apply Hval].
    intros [= <-]. subst. by exists blk.
  - exists blk. split_and!; [done..| |intros _].
    + rewrite Hlook. rewrite decide_False by lia. by rewrite decide_True.
    + rewrite Hlook, decide_False by lia. rewrite decide_False by lia.
      rewrite Hp, <- Hh0. by replace (n + 1 - 1) with n by lia.
Qed.

(** C16: the hashes of the genesis block and of the last [BlockHashCount] blocks
    before the current one are kept and no others, each under the number of its
    block, and the current block names the hash of the block before it. *)
Theorem block_hash_window n s (Hcount : 1 ≤ BlockHashCount) (Hchain : chain n s) :
  (∀ k, is_Some (block_hash_map s !! k) ↔ 0 ≤ k ≤ n ∧ (k = 0 ∨ n - BlockHashCount ≤ k)) ∧
  (∀ k h, block_hash_map s !! k = Some h → ∃ b, number (partial_header b) = k ∧ h = header_hash b) ∧
  (∀ k, ¬ (0 ≤ k ≤ n ∧ (k = 0 ∨ n - BlockHashCount ≤ k)) → block_hash s k = H256_default) ∧
  ∃ b, current_block s = Some b ∧ number (partial_header b) = n ∧ block_hash s n = header_hash b ∧
    (0 < n → parent_hash (partial_header b) = block_hash s (n - 1)).
Proof.
  assert (chain_inv n s) as (_ & Hiff & Hval & Hb).
  { induction Hchain as [s0 Hempty|m s0 s1 _ IH Hcur Hmap Hlt];
      [by apply chain_inv_genesis | by apply (chain_inv_step m s0)]. }
  split_and!; [exact Hiff | exact Hval | | exact Hb].
  intros k Hk. unfold block_hash, get_block_hash.
  destruct (block_hash_map s !! k) eqn:Hl; [|done]. destruct Hk. apply Hiff. by rewrite Hl.
Qed.
End Window.

(** * A concrete configuration

    The world is the nonces of the accounts; everybody is rich, and the runner
    succeeds with the gas of a transfer. *)

Definition TestBloom : BloomFilter := {|
  bloom := list bytes; bloom_default := []; accrue b l := b :: l |}.

Section Examples.
#[local] Existing Instances TestBloom TestEthereum.

Definition ok_info : ExecutionInfo bool :=
  {| info_exit := true; info_used_gas := 21000; info_logs := [] |}.
Definition bump (a : EthereumAddress) (w : gmap EthereumAddress Z) : gmap EthereumAddress Z :=
  <[a := 1 + Z.max 0 (default 0 (w !! a))]> w.
Definition nobody_listed : WhiteList.ListStore :=
  {| WhiteList.whitelist := ∅; WhiteList.admin_address := None; WhiteList.l_events := [] |}.

Definition TestEthConfig : EthereumConfig := {|
  world := gmap EthereumAddress Z;
  exit_reason := bool;
  exit_succeed b := b;
  message_hash _ := [];
  tx_hash t := {| hash_bytes := [nonce (transaction_data t)] |};
  ordered_trie_root _ := H256_default;
  header_hash b := {| hash_bytes := [number (partial_header b)] |};
  record_transaction g _ _ _ := bool_decide (21000 ≤ g);
  runner_call f _ _ _ _ _ _ _ _ w := (Some ok_info, bump f w);
  runner_create f _ _ _ _ _ _ _ w := (Some (ok_info, f), bump f w);
  account_balance _ _ := 10 ^ 30;
  account_evm_nonce a w := Z.max 0 (default 0 (w !! a));
  min_gas_price _ := 10 ^ 10;
  gas_to_weight g := Z.max 0 (Z.min (umax 64) (g * 31250));
  ChainId := 2160;
  BlockGasLimit := 2 ^ 32 - 1;
  BlockHashCount := 2;
  find_author _ := EthereumAddress_default;
  get_state_root _ := H256_default;
  timestamp _ := 0;
  find_pre_log _ := None;
  white_list _ := nobody_listed;
|}.
#[local] Existing Instance TestEthConfig.

Lemma TestEthLaws : EthereumLaws.
Proof.
  split; cbn [runner_call runner_create account_evm_nonce gas_to_weight TestEthConfig]; intros *.
  - intros _ _ _ _ _ _ _ _ w r w'. by intros [= <- <-].
  - intros _ _ _ _ _ _ _ w r a w'. by intros [= <- <- <-].
  - lia.
  - unfold in_u, umax. lia.
Qed.

Definition addr (b : Z) : EthereumAddress := {| address_bytes := replicate 20 b |}.

(** A transfer whose signature names its sender, with a price and a nonce. *)
Definition transfer_tx (sender price n : Z) : Transaction := Legacy {|
  l_nonce := n; l_gas_price := price; l_gas_limit := 21000; l_action := ActionCall (addr 9);
  l_value := 5; l_input := [];
  l_signature := {| sig_r := replicate 32 sender; sig_s := replicate 32 sender;
                    standard_v := sender; sig_chain_id := Some 2160 |} |}.

Definition eth_empty : EthStore := {|
  pending := []; current_block := None; current_receipts := None;
  current_transaction_statuses := None; block_hash_map := ∅; schema := Undefined;
  env := ∅; eth_events := []; digest_logs := [] |}.

Definition eth_start : EthStore := run eth_genesis_build eth_empty.

Lemma pool_block_agree_witness :
  is_ok (validate_transaction_in_block (env eth_start) (addr 5) (transfer_tx 5 (10 ^ 11) 0)) = true ∧
  account_evm_nonce (addr 5) (env eth_start) < 4 ∧
  ∃ v, validate_transaction_in_pool (env eth_start) (addr 5) (transfer_tx 5 (10 ^ 11) 4) = Ok v ∧
    pt_requires v = [(addr 5, 3)].
Proof.
  split; [by vm_compute|]. split; [by vm_compute|].
  assert (validate_transaction_in_block (env eth_start) (addr 5) (transfer_tx 5 (10 ^ 11) 4) = Err Future)
    as Heq by (vm_compute; reflexivity).
  pose proof (@pool_block_agree _ _ TestEthLaws (env eth_start) (addr 5) (transfer_tx 5 (10 ^ 11) 4)) as Hagree.
  cbv zeta in Hagree. rewrite Heq in Hagree. destruct Hagree as (_ & v & Hv & Hreq & _).
  exists v. split; [exact Hv | exact Hreq].
Defined.

(** Two valid transfers: the one with the larger tip gets the smaller priority. *)
Lemma priority_wraps_witness :
  let t := transfer_tx 5 (2 * 10 ^ 10) 0 in
  let t' := transfer_tx 6 (10 ^ 14) 0 in
  ∃ v v', validate_transaction_in_pool (env eth_start) (addr 5) t = Ok v ∧
    validate_transaction_in_pool (env eth_start) (addr 6) t' = Ok v' ∧
    tip (env eth_start) (transaction_data t) < tip (env eth_start) (transaction_data t') ∧
    pt_priority v' < pt_priority v.
Proof.
  eexists _, _. split; [vm_compute; reflexivity|]. split; [vm_compute; reflexivity|].
  split; [by vm_compute|].
  eapply (@priority_wraps _ _ TestEthLaws (env eth_start) (addr 5) (addr 6)
    (transfer_tx 5 (2 * 10 ^ 10) 0) (transfer_tx 6 (10 ^ 14) 0));
    first [vm_compute; reflexivity | vm_compute; congruence].
Defined.

Lemma validated_execution_witness :
  let t := transfer_tx 5 (10 ^ 11) 0 in
  ∃ st rc, pending (run (apply_self_contained t) eth_start) = [(t, st, rc)] ∧
    used_gas (receipt_data rc) = 21000.
Proof.
  intros t.
  assert (fst (apply_self_contained t eth_start)
    = Ok (Ok {| actual_weight := Some 656250000; pays_fee := false |})) as Hok by (vm_compute; reflexivity).
  pose proof (validated_execution t eth_start _ _ (run_result _ _ _ Hok))
    as (source & fees & _ & _ & _ & _ & exec & a & w' & st & rc & _ & _ & _ & _ & Hp).
  exists st, rc. split; [exact Hp|].
  assert (map (λ p, used_gas (receipt_data p.2))
    (pending (run (apply_self_contained t) eth_start)) = [21000]) as Hg
    by (vm_compute; reflexivity).
  rewrite Hp in Hg. by injection Hg.
Defined.

Lemma eth_reachable_consistent_witness :
  let t := transfer_tx 5 (10 ^ 11) 0 in
  let s := run (eth_on_finalize 1) (run (apply_self_contained t) (run (eth_on_initialize 1) eth_start)) in
  (length <$> current_receipts s) = Some 1%nat ∧ block_consistent s.
Proof.
  intros t s. split; [vm_compute; reflexivity|].
  assert (rtc eth_step eth_start s) as Hreach.
  { exact (rtc_l _ _ _ _ (eth_initialize 1 _) (rtc_l _ _ _ _ (eth_extrinsic t _)
      (rtc_once _ _ (eth_finalize 1 _)))). }
  apply (@eth_reachable_consistent _ _ _ TestEthLaws eth_empty s); [done | exact Hreach].
Defined.

Definition eth_chain3 : EthStore :=
  run (eth_on_finalize 3) (run (eth_on_finalize 2) (run (eth_on_finalize 1) eth_start)).

Lemma block_hash_window_witness :
  map (λ n, bool_decide (block_hash (run (eth_on_finalize 4) eth_chain3) n = H256_default))
    [0; 1; 2; 3; 4; 5] = [false; true; false; false; false; true] ∧
  block_hash (run (eth_on_finalize 4) eth_chain3) 1 = H256_default.
Proof.
  assert (chain 4 (run (eth_on_finalize 4) eth_chain3)) as Hchain.
  { apply (chain_block 3 eth_chain3); [|done|done|done].
    apply (chain_block 2 (run (eth_on_finalize 2) (run (eth_on_finalize 1) eth_start))); [|done|done|done].
    apply (chain_block 1 (run (eth_on_finalize 1) eth_start)); [|done|done|done].
    apply (chain_block 0 eth_start); [|done|done|done]. by apply chain_genesis. }
  split; [by vm_compute|]. generalize (run (eth_on_finalize 4) eth_chain3), Hchain. intros s Hs.
  assert (1 ≤ BlockHashCount) as Hcount by done.
  pose proof (block_hash_window 4 s Hcount Hs) as (_ & _ & Hout & _).
  apply Hout. unfold BlockHashCount, TestEthConfig. lia.
Defined.
End Examples.
