(* ===== verification/BridgeSpec.v ===== *)
(** An abstract bridge, and the claims pallet as an implementation of it: every
    successful call is a step of the abstract bridge labelled with the event the
    call deposits, and every step of the abstract bridge is a call. *)

From Stdlib Require Import ZArith Lia.
From stdpp Require Import base option list gmap fin_maps strings.
From S2P Require Import Prelude Interfaces Ethereum Claims ClaimsCorrect.
#[local] Open Scope Z_scope.

(** * The abstract bridge *)

(** The life of a transaction of another chain: it is minted for an owner, who
    is paid. *)
Inductive Life := Absent | Waiting (owner : EthereumAddress) (v : Z) | Settled (owner : EthereumAddress) (v : Z).

Record Bridge := {
  operator : BridgeNetworks → option AccountId;
  limit : BridgeNetworks → Z;
  fees : BridgeNetworks → Z * Z;
  life : BridgeNetworks * EthereumTxHash → Life;
}.

#[export] Instance Bridge_eta : Eta Bridge := λ b,
  {| operator := operator b; limit := limit b; fees := fees b; life := life b |}.

(** Bridges are compared pointwise. *)
#[export] Instance bridge_equiv : Equiv Bridge := λ b c,
  (∀ n, operator b n = operator c n) ∧ (∀ n, limit b n = limit c n) ∧
  (∀ n, fees b n = fees c n) ∧ (∀ k, life b k = life c k).

#[export] Instance bridge_equivalence : Equivalence (≡@{Bridge}).
Proof.
  split.
  - intros b. by split_and!.
  - intros b c (?&?&?&?). by split_and!.
  - intros b c d (?&?&?&?) (?&?&?&?). split_and!; intros; etrans; eauto.
Qed.

Definition upd {K V} `{EqDecision K} (k : K) (v : V) (f : K → V) : K → V :=
  λ k', if decide (k = k') then v else f k'.

(** A mint moves an amount from the limit to a transaction. *)
Definition mints (n : BridgeNetworks) (tx : EthereumTxHash) (v : Z) (l : Life) (b : Bridge) : Bridge :=
  b <| limit ::= upd n (limit b n - v) |> <| life ::= upd (n, tx) l |>.

(** What a mint of [v] requires: an operator, a new transaction, and a limit
    that covers the amount and the fee. *)
Definition may_mint (n : BridgeNetworks) (tx : EthereumTxHash) (v : Z) (b : Bridge) : Prop :=
  is_Some (operator b n) ∧ life b (n, tx) = Absent ∧
  v + Z.max 0 (fst (fees b n)) ≤ limit b n ∧ (0 < fst (fees b n) → 0 < v).

Section Spec.
Context `{Currency, EthereumCrypto, ClaimsConfig}.

Inductive bridge_step (b : Bridge) : ClaimsEvent → Bridge → Prop :=
  | spec_operator n a :
      bridge_step b (ElasticBridgeAccountChanged n a) (b <| operator ::= upd n (Some a) |>)
  | spec_limit n l : bridge_step b (ElasticClaimLimitUpdated n l) (b <| limit ::= upd n l |>)
  | spec_fees n mint burn :
      bridge_step b (ElasticFeeUpdated n mint burn) (b <| fees ::= upd n (mint, burn) |>)
  | spec_mint n tx who v :
      may_mint n tx v b →
      bridge_step b (ElasticMintSuccess n tx who v) (mints n tx v (Waiting who v) b)
  | spec_send n tx v :
      may_mint n tx v b →
      bridge_step b (ElasticMintSuccess n tx EthereumAddress_default v)
        (mints n tx v (Settled EthereumAddress_default v) b)
  | spec_claim n tx dest sig owner v :
      life b (n, tx) = Waiting owner v → claim_signer dest tx sig = Some owner →
      bridge_step b (ElasticClaimed n dest owner v) (b <| life ::= upd (n, tx) (Settled owner v) |>)
  | spec_burn n who dest v :
      (0 < snd (fees b n) → 0 < v) → bridge_step b (ElasticBurned n who dest v) b.

(** Runs of the abstract bridge, with the latest event first. *)
Inductive bridge_run : Bridge → list ClaimsEvent → Bridge → Prop :=
  | run_done b c : b ≡ c → bridge_run b [] c
  | run_step b e c c' es d :
      bridge_step b e c → c ≡ c' → bridge_run c' es d → bridge_run b (es ++ [e]) d.

(** The bridge a storage represents. *)
Definition life_of (i : option ClaimInfo) : Life :=
  match i with
  | None => Absent
  | Some i => (if ci_claimed i then Settled else Waiting) (ci_address i) (ci_amount i)
  end.

Definition bridge_of (s : ClaimsStore) : Bridge := {|
  operator n := get_bridge_account n s;
  limit n := get_claim_limit n s;
  fees n := get_bridge_fees n s;
  life k := life_of (elastic_claims s !! k);
|}.
End Spec.

(** * The claims pallet refines the bridge *)

Section Refinement.
Context `{Currency, EthereumCrypto, ClaimsConfig}.
Implicit Types (s : ClaimsStore) (b c : Bridge).

Lemma lookup_default_insert {A} (d : A) (m : gmap BridgeNetworks A) k v k' :
  default d (<[k := v]> m !! k') = upd k v (λ j, default d (m !! j)) k'.
Proof. unfold upd. rewrite lookup_insert. by case_decide. Qed.

(** A change of the storage that the event [e] of the bridge explains. *)
Definition refines s (e : ClaimsEvent) s' : Prop :=
  ∃ b, bridge_step (bridge_of s) e b ∧ b ≡ bridge_of s'.

(** The writes of the pallet, as changes of the bridge. *)
Lemma bridge_of_mint s s' n tx v i :
  elastic_claims s' = <[(n, tx) := i]> (elastic_claims s) →
  elastic_claim_limits s' = <[n := sat_sub (get_claim_limit n s) v]> (elastic_claim_limits s) →
  v ≤ get_claim_limit n s → elastic_bridge_accounts s' = elastic_bridge_accounts s →
  bridge_fees s' = bridge_fees s →
  mints n tx v (life_of (Some i)) (bridge_of s) ≡ bridge_of s'.
Proof.
  intros Hc Hl Hv Ho Hf. unfold bridge_of, get_bridge_account, get_bridge_fees. split_and!; cbn.
  - by rewrite Ho.
  - intros m. unfold get_claim_limit in *. rewrite Hl, lookup_default_insert.
    unfold upd. case_decide; [by rewrite sat_sub_exact|done].
  - by rewrite Hf.
  - intros k. rewrite Hc, lookup_insert. unfold upd. by case_decide.
Qed.

Lemma mint_refines s s' n tx from value claimed who :
  let v := after_fee value (fst (get_bridge_fees n s)) in
  Some from = get_bridge_account n s → elastic_claims s !! (n, tx) = None →
  value ≤ get_claim_limit n s → (0 < fst (get_bridge_fees n s) → fst (get_bridge_fees n s) < value) →
  elastic_claims s' =
    <[(n, tx) := {| ci_address := who; ci_amount := v; ci_claimed := claimed |}]> (elastic_claims s) →
  elastic_claim_limits s' = <[n := sat_sub (get_claim_limit n s) v]> (elastic_claim_limits s) →
  elastic_bridge_accounts s' = elastic_bridge_accounts s → bridge_fees s' = bridge_fees s →
  (claimed = true → who = EthereumAddress_default) →
  refines s (ElasticMintSuccess n tx who v) s'.
Proof.
  intros v Ha Hc Hl Hf Hc' Hl' Ho' Hf' Hwho.
  assert (may_mint n tx v (bridge_of s)) as Hmay.
  { unfold may_mint, v, after_fee; cbn. rewrite <- Ha, Hc.
    split_and!; [by eexists|done|..]; case_decide; ulia. }
  eexists. split; [|eapply bridge_of_mint; [exact Hc'|exact Hl'| |done|done]].
  - destruct claimed; cbn; [rewrite Hwho by done|]; by constructor.
  - unfold v, after_fee. case_decide; ulia.
Qed.

(** Equivalences of bridges, component by component. *)
Ltac solve_bridge :=
  split_and!; cbn; intros; try done; unfold get_bridge_account, get_claim_limit, get_bridge_fees; cbn;
  try by rewrite lookup_default_insert.

Ltac unfold_claims :=
  unfold set_bridge_account_elastic, set_claim_limit_elastic, set_bridge_fee_elastic,
    mint_claim_elastic, claim_elastic, burn_elastic, mint_and_send_claim_elastic,
    c_ensure_root, c_ensure_signed, c_ensure_none, do_mint_claim, do_mint_and_send_claim,
    do_claim, do_burn, c_deposit, c_deposit_event.

(** One call: an event of the bridge, or nothing. *)
Lemma dispatch_refines o call s :
  wp (claims_dispatch o call) s (λ r s', match r with
    | Err _ => s' = s
    | Ok _ => ∃ e, c_events s' = e :: c_events s ∧ refines s e s'
    end).
Proof.
  destruct call; cbn [claims_dispatch]; unfold_claims; wp_auto; try done.
  all: eexists; split; [reflexivity|].
  all: try by eapply (mint_refines s _ n tx _ value); [..|lia| | | | |].
  1-3: eexists; split; [constructor|]; solve_bridge.
  2-5: exists (bridge_of s); split; [constructor; cbn; case_decide; ulia | solve_bridge].
  match goal with Hs : claim_signer _ _ _ = Some ?w, He : _ = ?w |- _ => subst w end.
  destruct a as [who v b]; cbn in *; subst b. eexists. split.
  - eapply (spec_claim _ n tx); [|done]. cbn.
    by match goal with Hc : elastic_claims _ !! _ = _ |- _ => rewrite Hc end.
  - solve_bridge. rewrite lookup_insert. unfold upd. by case_decide.
Qed.

(** C6: the claims pallet refines the abstract bridge: whatever calls are
    dispatched, the events they deposit are a run of the abstract bridge from the
    bridge the first storage represents to the one the last represents; a call
    that fails is no step. *)
Theorem bridge_refines cs s :
  ∃ es, c_events (execute cs s) = es ++ c_events s ∧
    bridge_run (bridge_of s) es (bridge_of (execute cs s)).
Proof.
  revert s. induction cs as [|[o call] cs IH]; intros s; cbn [execute].
  { exists []. split; [done|by constructor]. }
  destruct (IH (run (claims_dispatch o call) s)) as (es & Hes & Hrun).
  pose proof (dispatch_refines o call s) as Hd. unfold wp, run in *.
  destruct (claims_dispatch o call s) as [[[]|err] s1]; cbn in *; [|subst s1; by exists es].
  destruct Hd as (e & He & b & Hb & Heq). exists (es ++ [e]). split.
  - by rewrite Hes, He, <- app_assoc.
  - by eapply run_step.
Qed.

(** A call that goes through as the event [e] into the bridge [b]. *)
Definition realises o call s (e : ClaimsEvent) b : Prop :=
  wp (claims_dispatch o call) s (λ r s',
    r = Ok tt ∧ c_events s' = e :: c_events s ∧ b ≡ bridge_of s').

Lemma minted_bridge s s' n tx who value v claimed :
  let v' := after_fee value (fst (get_bridge_fees n s)) in
  v' = v → v ≤ get_claim_limit n s →
  c_events s' = ElasticMintSuccess n tx who v' :: c_events s →
  elastic_claims s' =
    <[(n, tx) := {| ci_address := who; ci_amount := v'; ci_claimed := claimed |}]> (elastic_claims s) →
  elastic_claim_limits s' = <[n := sat_sub (get_claim_limit n s) v']> (elastic_claim_limits s) →
  elastic_bridge_accounts s' = elastic_bridge_accounts s → bridge_fees s' = bridge_fees s →
  c_events s' = ElasticMintSuccess n tx who v :: c_events s ∧
  mints n tx v ((if claimed then Settled else Waiting) who v) (bridge_of s) ≡ bridge_of s'.
Proof.
  intros v' -> Hle He Hc Hl Ho Hf. split; [done|].
  by apply (bridge_of_mint _ _ _ _ _ _ Hc Hl).
Qed.

(** What the abstract conditions of a mint mean for the value minted. *)
Lemma may_mint_call s n tx v : may_mint n tx v (bridge_of s) →
  ∃ from value, let fee := fst (get_bridge_fees n s) in
    Some from = get_bridge_account n s ∧ elastic_claims s !! (n, tx) = None ∧
    value ≤ get_claim_limit n s ∧ (0 < fee → fee < value) ∧ after_fee value fee = v ∧
    v ≤ get_claim_limit n s.
Proof.
  intros ([a Ha] & Hl & Hv & Hf). cbn in Ha, Hl, Hv, Hf.
  exists a, (v + Z.max 0 (fst (get_bridge_fees n s))). unfold after_fee.
  split_and!; [done| |lia|lia| |lia].
  - by destruct (elastic_claims s !! (n, tx)) as [[? ? []]|].
  - case_decide; ulia.
Qed.

Lemma realise_mint s n tx who v : may_mint n tx v (bridge_of s) →
  ∃ o call, realises o call s (ElasticMintSuccess n tx who v) (mints n tx v (Waiting who v) (bridge_of s)).
Proof.
  intros (a & value & Ha & Hn & Hv & Hfee & Hv' & Hle)%may_mint_call.
  exists (Signed a), (MintClaim n tx who value). unfold realises. cbn [claims_dispatch].
  unfold_claims. wp_auto; try done; try lia.
  all: split; [done|]; by apply (minted_bridge s _ n tx who value v false).
Qed.

Lemma realise_send s n tx v : may_mint n tx v (bridge_of s) →
  ∃ o call, realises o call s (ElasticMintSuccess n tx EthereumAddress_default v)
    (mints n tx v (Settled EthereumAddress_default v) (bridge_of s)).
Proof.
  intros (a & value & Ha & Hn & Hv & Hfee & Hv' & Hle)%may_mint_call.
  exists (Signed a), (MintAndSendClaim n tx a value). unfold realises. cbn [claims_dispatch].
  unfold_claims. wp_auto; try done; try lia.
  all: split; [done|]; by apply (minted_bridge s _ n tx EthereumAddress_default value v true).
Qed.

(** A claim with the owner's signature pays the owner out. *)
Lemma claim_pays s n tx dest sig owner v :
  life_of (elastic_claims s !! (n, tx)) = Waiting owner v → claim_signer dest tx sig = Some owner →
  wp (claims_dispatch NoOrigin (ClaimElastic n dest tx sig)) s (λ r s', r = Ok tt ∧
    c_events s' = ElasticClaimed n dest owner v :: c_events s ∧
    elastic_claims s' = <[(n, tx) := {| ci_address := owner; ci_amount := v; ci_claimed := true |}]>
      (elastic_claims s) ∧
    elastic_claim_limits s' = elastic_claim_limits s ∧ bridge_fees s' = bridge_fees s ∧
    elastic_bridge_accounts s' = elastic_bridge_accounts s ∧
    c_currency s' = (let '(imbalance, c) := deposit_creating dest v (c_currency s) in
                     drop_positive imbalance c)).
Proof.
  intros Hl Hs. destruct (elastic_claims s !! (n, tx)) as [i|] eqn:Hc; [|done].
  assert (ci_claimed i = false ∧ ci_address i = owner ∧ ci_amount i = v) as (Hu & <- & <-)
    by (destruct i as [? ? []]; by simplify_eq/=).
  cbn [claims_dispatch]. unfold_claims. wp_auto; try congruence. by simplify_eq.
Qed.

Lemma realise_claim s n tx dest sig owner v :
  life_of (elastic_claims s !! (n, tx)) = Waiting owner v → claim_signer dest tx sig = Some owner →
  realises NoOrigin (ClaimElastic n dest tx sig) s (ElasticClaimed n dest owner v)
    ((bridge_of s) <| life ::= upd (n, tx) (Settled owner v) |>).
Proof.
  intros Hl Hs. eapply wp_mono; [by apply claim_pays|]. cbn.
  intros r s' (-> & He & Hc & Hlim & Hf & Ha & _). split; [done|]; split; [done|].
  split_and!; cbn; intros; unfold get_bridge_account, get_claim_limit, get_bridge_fees.
  - by rewrite Ha.
  - by rewrite Hlim.
  - by rewrite Hf.
  - rewrite Hc, lookup_insert. unfold upd. by case_decide.
Qed.

Ltac realise_set :=
  unfold realises; cbn [claims_dispatch]; unfold_claims; wp_auto; try done;
  split; [done|]; split; [done|]; solve_bridge.

(** C7: nothing the abstract bridge allows is out of reach: every step of it but
    a burn, which needs the balance, is a successful call with that event, from
    any storage that represents its first state. *)
Theorem bridge_realised s e b
  (Hstep : bridge_step (bridge_of s) e b)
  (Hburn : match e with ElasticBurned _ _ _ _ => False | _ => True end) :
  ∃ o call, let s' := run (claims_dispatch o call) s in
    fst (claims_dispatch o call s) = Ok tt ∧ c_events s' = e :: c_events s ∧ b ≡ bridge_of s'.
Proof.
  change (∃ o call, realises o call s e b).
  destruct Hstep as [n a|n l|n mint burn| | | |]; [..|done].
  - exists Root, (SetBridgeAccount n a). realise_set.
  - exists Root, (SetClaimLimit n l). realise_set.
  - exists Root, (SetBridgeFee n mint burn). realise_set.
  - by apply realise_mint.
  - by apply realise_send.
  - eexists _, _. by apply realise_claim.
Qed.

(** Once it waits, a transaction waits for the same owner and amount until it is
    settled. *)
Lemma waiting_kept cs s n tx owner v :
  life_of (elastic_claims s !! (n, tx)) = Waiting owner v →
  life_of (elastic_claims (execute cs s) !! (n, tx)) = Waiting owner v ∨
  life_of (elastic_claims (execute cs s) !! (n, tx)) = Settled owner v.
Proof.
  intros Hl. destruct (elastic_claims s !! (n, tx)) as [i|] eqn:Hi; [|done].
  assert (ci_address i = owner ∧ ci_amount i = v) as [<- <-] by (destruct i as [? ? []]; by simplify_eq/=).
  clear Hl. revert s i Hi. induction cs as [|[o call] cs IH]; intros s i Hi; cbn [execute].
  - rewrite Hi. destruct i as [? ? []]; cbn; auto.
  - destruct (claim_step o call s n tx) as (_ & _ & Hkeep).
    destruct (Hkeep i Hi) as (i' & Hi' & <- & <-). by apply IH.
Qed.

(** C8: a claim can always be collected: whatever calls are dispatched after a
    transaction was minted, either its owner has been settled or the owner's
    signature pays the amount to the account it names. *)
Theorem claim_collectable cs s n tx owner v dest sig
  (Hwait : life_of (elastic_claims s !! (n, tx)) = Waiting owner v)
  (Hsig : claim_signer dest tx sig = Some owner) :
  let s' := execute cs s in
  life_of (elastic_claims s' !! (n, tx)) = Settled owner v ∨
  (let s'' := execute [(NoOrigin, ClaimElastic n dest tx sig)] s' in
   life_of (elastic_claims s'' !! (n, tx)) = Settled owner v ∧
   c_events s'' = ElasticClaimed n dest owner v :: c_events s' ∧
   c_currency s'' = (let '(imbalance, c) := deposit_creating dest v (c_currency s') in
                     drop_positive imbalance c)).
Proof.
  intros s'. destruct (waiting_kept cs s n tx owner v Hwait) as [Hw|]; [right|by left].
  fold s' in Hw. clearbody s'. cbn [execute]. unfold run.
  destruct (claim_pays s' n tx dest sig owner v Hw Hsig) as (_ & He & Hc & _ & _ & _ & Hcur).
  split_and!; [by rewrite Hc, lookup_insert_eq | done | done].
Qed.
End Refinement.

(** * Concrete runs *)

#[local] Existing Instances TestCurrency TestEthereum ex_claims_config.

Lemma bridge_realised_witness :
  ∃ o call, c_events (run (claims_dispatch o call) ex_minted) =
    ElasticClaimed Ethereum 7 ex_address 47 :: c_events ex_minted.
Proof.
  edestruct (bridge_realised ex_minted (ElasticClaimed Ethereum 7 ex_address 47)) as (o & call & _ & He & _).
  - apply (spec_claim _ Ethereum ex_tx 7 ex_signature); vm_compute; reflexivity.
  - exact Logic.I.
  - exists o, call. exact He.
Defined.

Lemma claim_collectable_witness :
  let s' := execute [(Root, SetBridgeFee Ethereum 9 9); (NoOrigin, ClaimElastic Ethereum 8 ex_tx ex_signature)]
              ex_minted in
  life_of (elastic_claims s' !! (Ethereum, ex_tx)) = Settled ex_address 47 ∨
  free_balance 7 (c_currency (execute [(NoOrigin, ClaimElastic Ethereum 7 ex_tx ex_signature)] s')) = 47.
Proof.
  edestruct (claim_collectable
    [(Root, SetBridgeFee Ethereum 9 9); (NoOrigin, ClaimElastic Ethereum 8 ex_tx ex_signature)]
    ex_minted Ethereum ex_tx ex_address 47 7 ex_signature) as [Hs|(_ & _ & Hc)];
    [vm_compute; reflexivity | vm_compute; reflexivity | left; exact Hs | right].
  rewrite Hc. vm_compute. reflexivity.
Defined.
