(* ===== verification/Assets.v ===== *)
(** Foreign assets: their registry ([modules/asset-config/src/lib.rs]), the
    locations it is used with ([runtime/src/asset_location.rs]), the trader that
    sells execution weight for them ([runtime/src/asset_trader.rs]) and the
    registry of native ERC20 assets ([modules/erc20-precompile/src/lib.rs]). *)

From Stdlib Require Import ZArith Lia.
From stdpp Require Import base option list gmap fin_maps.
From S2P Require Import Prelude Interfaces Ethereum EvmAccounts.
#[local] Open Scope Z_scope.

(** * Locations *)

(** [xcm::v1::MultiLocation] *)
Class XcmLocation := {
  MultiLocation : Type;
  #[global] MultiLocation_eq_dec :: EqDecision MultiLocation;
  #[global] MultiLocation_countable :: Countable MultiLocation;
  here : MultiLocation;
}.

Section Locations.
Context `{XcmLocation}.

Inductive AssetLocation := Current | Para (l : MultiLocation).

Definition AssetLocation_default : AssetLocation := Current.

#[export] Instance AssetLocation_eq_dec : EqDecision AssetLocation.
Proof. solve_decision. Defined.
#[export] Instance AssetLocation_countable : Countable AssetLocation.
Proof.
  apply (inj_countable' (λ x, match x with Current => None | Para l => Some l end)
    (λ o, match o with None => Current | Some l => Para l end)).
  by intros [].
Defined.

Definition normalize (a : AssetLocation) : AssetLocation :=
  match a with
  | Current => a
  | Para l => if decide (l = here) then Current else a
  end.

(** [From<MultiLocation>] and [Into<Option<MultiLocation>>] *)
Definition location_from (f : MultiLocation) : AssetLocation := normalize (Para f).
Definition location_into (a : AssetLocation) : option MultiLocation :=
  match a with Current => Some here | Para l => Some l end.
End Locations.

(** * The registry *)

Abbreviation AssetId := Z (only parsing).

Inductive AssetError := AssetAlreadyRegistered | AssetBadOrigin.

Section Registry.
Context `{XcmLocation}.

Inductive AssetEvent :=
  | FeeRateChanged (a : AssetId) (rate : option Z)
  | AssetLocationRegistered (a : AssetId) (l : AssetLocation).

Record AssetStore := {
  asset_id_location : gmap AssetId AssetLocation;
  asset_location_id : gmap AssetLocation AssetId;
  fee_rate_per_second : gmap AssetId (option Z);
  asset_events : list AssetEvent;
}.

#[export] Instance AssetStore_eta : Eta AssetStore := λ s, {|
  asset_id_location := asset_id_location s;
  asset_location_id := asset_location_id s;
  fee_rate_per_second := fee_rate_per_second s;
  asset_events := asset_events s;
|}.

Abbreviation ACall := (M AssetStore AssetError).

Definition set_fee_rate (o : Origin) (asset_id : AssetId) (fee_rate : option Z) : ACall unit :=
  match o with
  | Root =>
      match fee_rate with
      | Some _ => modify (λ s, s <| fee_rate_per_second ::= <[asset_id := fee_rate]> |>)
      | None => modify (λ s, s <| fee_rate_per_second ::= delete asset_id |>)
      end ≫= λ _,
      modify (λ s, s <| asset_events ::= cons (FeeRateChanged asset_id fee_rate) |>)
  | _ => throw AssetBadOrigin
  end.

Definition register_asset_location (o : Origin) (location : AssetLocation) (asset_id : AssetId)
    : ACall unit :=
  match o with
  | Root =>
      gets id ≫= λ s,
      ensure (asset_id_location s !! asset_id = None) AssetAlreadyRegistered ≫= λ _,
      ensure (asset_location_id s !! location = None) AssetAlreadyRegistered ≫= λ _,
      modify (λ s, s <| asset_id_location ::= <[asset_id := location]> |>) ≫= λ _,
      modify (λ s, s <| asset_location_id ::= <[location := asset_id]> |>) ≫= λ _,
      modify (λ s, s <| asset_events ::= cons (AssetLocationRegistered asset_id location) |>)
  | _ => throw AssetBadOrigin
  end.

Definition get_asset_location (s : AssetStore) (a : AssetId) : option AssetLocation :=
  asset_id_location s !! a.
Definition get_asset_id (s : AssetStore) (l : AssetLocation) : option AssetId :=
  asset_location_id s !! l.

(** [ConfigurableAssetWeight::get_units_per_second] *)
Definition get_units_per_second (s : AssetStore) (a : AssetId) : option Z :=
  default None (fee_rate_per_second s !! a).

Inductive AssetCall :=
  | SetFeeRate (a : AssetId) (rate : option Z)
  | RegisterAssetLocation (l : AssetLocation) (a : AssetId).

Definition asset_dispatch (o : Origin) (c : AssetCall) : ACall unit :=
  match c with
  | SetFeeRate a rate => set_fee_rate o a rate
  | RegisterAssetLocation l a => register_asset_location o l a
  end.

Inductive asset_step : AssetStore → AssetStore → Prop :=
  | asset_call o c s : asset_step s (run (asset_dispatch o c) s).
End Registry.

(** * The trader *)

Inductive XcmError := TooExpensive | AssetNotFound.

(** [xcm_executor::Assets]: a holding of assets, its first fungible one, and
    taking an amount out.  [convert] is the location converter, [units] the
    configured price of a second of weight. *)
Class XcmAssets `{XcmLocation} := {
  Assets : Type;
  first_fungible : Assets → option (option MultiLocation);
  assets_checked_sub : Assets → MultiLocation → Z → option Assets;
  holding : Assets → MultiLocation → Z;
  convert : MultiLocation → option AssetId;
  units_per_second : AssetId → option Z;
  weight_per_second : Z;
}.

(** Taking an amount out of a holding takes that amount of that asset. *)
Class XcmAssetsLaws `{XcmAssets} := {
  checked_sub_holding a l v a' l' :
    assets_checked_sub a l v = Some a' →
    v ≤ holding a l ∧ holding a' l' = holding a l' - (if decide (l = l') then v else 0);
  weight_per_second_pos : 0 < weight_per_second;
}.

Section Trader.
Context `{XcmAssets}.

(** The weight bought, and the asset, the amount and the price of it. *)
Record Trader := { t_weight : Z; t_paid : option (MultiLocation * Z * Z) }.

#[export] Instance Trader_eta : Eta Trader := λ t, {| t_weight := t_weight t; t_paid := t_paid t |}.

Definition new_trader : Trader := {| t_weight := 0; t_paid := None |}.

Abbreviation TCall := (M Trader XcmError).

Definition price_of (units weight : Z) : Z := sat_mul 128 units weight / weight_per_second.

Definition buy_weight (weight : Z) (payment : Assets) : TCall Assets :=
  ok_or (first_fungible payment) TooExpensive ≫= λ first,
  ok_or first TooExpensive ≫= λ loc,
  ok_or (convert loc) AssetNotFound ≫= λ asset_id,
  ok_or (units_per_second asset_id) TooExpensive ≫= λ units,
  let amount := price_of units weight in
  if decide (amount = 0) then mret payment else
  ok_or (assets_checked_sub payment loc amount) TooExpensive ≫= λ unused,
  modify (λ t, t <| t_weight ::= λ w, sat_add 64 w weight |>) ≫= λ _,
  gets t_paid ≫= λ paid,
  match paid with
  | Some (prev_loc, prev_amount, prev_units) =>
      if decide (prev_loc = loc) then
        ensure (units = prev_units) TooExpensive ≫= λ _,
        mret (Some (loc, sat_add 128 prev_amount amount, units))
      else mret None
  | None => mret (Some (loc, amount, units))
  end ≫= λ new_info,
  match new_info with
  | Some info =>
      modify (λ t, t <| t_weight ::= λ w, sat_add 64 w weight |>) ≫= λ _,
      modify (λ t, t <| t_paid := Some info |>)
  | None => mret tt
  end ≫= λ _,
  mret unused.

Definition refund_weight (weight : Z) (t : Trader) : option (MultiLocation * Z) * Trader :=
  match t_paid t with
  | Some (loc, prev_amount, units) =>
      let weight := Z.min weight (t_weight t) in
      let amount := wmul 128 units weight / weight_per_second in
      (Some (loc, amount),
       {| t_weight := t_weight t - weight;
          t_paid := Some (loc, sat_sub prev_amount amount, units) |})
  | None => (None, t)
  end.

(** [Drop]: what is left goes to the revenue. *)
Definition drop_trader (t : Trader) : option (MultiLocation * Z) :=
  match t_paid t with Some (loc, amount, _) => Some (loc, amount) | None => None end.
End Trader.

(** [XcmPayToAccount::take_revenue]: the revenue is minted into an account. *)
Definition take_revenue {Loc Bank : Type} (matches_fungibles : Loc → Z → option (AssetId * Z))
    (mint_into : AssetId → AccountId → Z → Bank → option Bank) (beneficial : AccountId)
    (revenue : Loc * Z) (b : Bank) : Bank :=
  match matches_fungibles (fst revenue) (snd revenue) with
  | Some (asset_id, amount) =>
      if decide (amount = 0) then b else default b (mint_into asset_id beneficial amount b)
  | None => b
  end.

(** * Native ERC20 assets *)

Inductive Erc20Error := InvalidAddress | InvalidAsset | AddressRegistered | Erc20BadOrigin.
Inductive Erc20Event := NativeErc20AssetRegistered (a : EthereumAddress) (id : AssetId).

Record Erc20Store := {
  native_erc20_assets : gmap EthereumAddress (option AssetId);
  erc20_events : list Erc20Event;
}.

#[export] Instance Erc20Store_eta : Eta Erc20Store := λ s, {|
  native_erc20_assets := native_erc20_assets s; erc20_events := erc20_events s |}.

(** Addresses are compared as big-endian numbers. *)
Definition be_value (l : bytes) : Z := foldl (λ v b, v * 256 + b) 0 l.

Definition NATIVE_ERC20_ID_RANGE : Z * Z := (1024, 2048).

Definition register_native_erc20_asset (total_issuance : AssetId → Z) (o : Origin)
    (evm_address : EthereumAddress) (asset_id : AssetId) : M Erc20Store Erc20Error unit :=
  match o with
  | Root =>
      gets id ≫= λ s,
      ensure (fst NATIVE_ERC20_ID_RANGE ≤ be_value (address_bytes evm_address)
              < snd NATIVE_ERC20_ID_RANGE) InvalidAddress ≫= λ _,
      ensure (native_erc20_assets s !! evm_address = None) AddressRegistered ≫= λ _,
      ensure (total_issuance asset_id ≠ 0) InvalidAsset ≫= λ _,
      modify (λ s, s <| native_erc20_assets ::= <[evm_address := Some asset_id]> |>) ≫= λ _,
      modify (λ s, s <| erc20_events ::= cons (NativeErc20AssetRegistered evm_address asset_id) |>)
  | _ => throw Erc20BadOrigin
  end.

(** * Theorems *)

Section RegistryCorrect.
Context `{XcmLocation}.
Implicit Types s : AssetStore.

(** The two maps are inverse to each other. *)
Definition synced s : Prop := ∀ a l, asset_id_location s !! a = Some l ↔ asset_location_id s !! l = Some a.

Lemma synced_insert s a l :
  synced s → asset_id_location s !! a = None → asset_location_id s !! l = None →
  synced (s <| asset_id_location ::= <[a := l]> |> <| asset_location_id ::= <[l := a]> |>).
Proof.
  intros Hs Ha Hl b k. cbn. rewrite !lookup_insert.
  pose proof (Hs b k). pose proof (Hs a k). pose proof (Hs b l).
  repeat case_decide; subst; naive_solver.
Qed.

Lemma asset_dispatch_wp o c s :
  synced s →
  wp (asset_dispatch o c) s (λ _ s', synced s' ∧ asset_id_location s ⊆ asset_id_location s').
Proof.
  intros Hs. destruct c as [a rate|l a]; cbn [asset_dispatch];
    unfold set_fee_rate, register_asset_location; destruct o; wp_auto; try done.
  split; [by apply synced_insert | by apply insert_subseteq].
Qed.

(** C36: in every storage the registry can reach from an empty one, the two maps
    are inverse to each other, so a location and its asset are found from one
    another, a registration is never changed, and a location survives the
    conversion to its stored form and back. *)
Theorem asset_registry_roundtrip s0 s1 s2
  (Hempty : asset_id_location s0 = ∅ ∧ asset_location_id s0 = ∅)
  (Hreach : rtc asset_step s0 s1) (Hlater : rtc asset_step s1 s2) :
  (∀ a l, get_asset_location s1 a = Some l ↔ get_asset_id s1 l = Some a) ∧
  (∀ a l, get_asset_location s1 a = Some l →
     get_asset_location s2 a = Some l ∧ get_asset_id s2 l = Some a) ∧
  (∀ m, location_into (location_from m) = Some m) ∧
  (∀ x, location_from <$> location_into x = Some (normalize x)).
Proof.
  assert (∀ s s', rtc asset_step s s' → synced s → synced s' ∧ asset_id_location s ⊆ asset_id_location s')
    as Hsteps.
  { intros s s' Hr. induction Hr as [|x y z [o c t] _ IH]; intros Hsy; [done|].
    destruct (asset_dispatch_wp o c t Hsy) as [Hsy' Hsub]. unfold run in *.
    destruct (IH Hsy') as [? Hsub']. split; [done | by etrans]. }
  assert (synced s0) as Hs0 by (destruct Hempty as [Ha Hl]; intros a l; by rewrite Ha, Hl, !lookup_empty).
  destruct (Hsteps _ _ Hreach Hs0) as [Hs1 _]. destruct (Hsteps _ _ Hlater Hs1) as [Hs2 Hsub].
  unfold get_asset_location, get_asset_id. split_and!.
  - exact Hs1.
  - intros a l Ha. assert (asset_id_location s2 !! a = Some l) by by eapply lookup_weaken.
    split; [done | by apply Hs2].
  - intros m. unfold location_from. cbn. by case_decide; subst.
  - intros [|l]; cbn; [unfold location_from; cbn; by rewrite decide_True | done].
Qed.
End RegistryCorrect.

Section TraderCorrect.
Context `{XcmAssetsLaws}.

(** A purchase by a trader that has sold nothing yet either finds the weight
    worth nothing, or takes its price out of the payment. *)
Lemma buy_weight_wp weight payment :
  wp (buy_weight weight payment) new_trader (λ r t', match r with
    | Ok unused => (unused = payment ∧ t' = new_trader) ∨
        ∃ loc asset units, units_per_second asset = Some units ∧
          assets_checked_sub payment loc (price_of units weight) = Some unused ∧
          t' = {| t_weight := sat_add 64 (sat_add 64 0 weight) weight;
                  t_paid := Some (loc, price_of units weight, units) |}
    | Err _ => t' = new_trader
    end).
Proof.
  unfold buy_weight. wp_auto; try done; [by left | right; by eauto 10].
Qed.

(** The price of a part of the weight, and of twice the weight. *)
Lemma price_mono units w w' :
  0 ≤ units → 0 ≤ w ≤ w' → units * w / weight_per_second ≤ units * w' / weight_per_second.
Proof. intros. apply Z.div_le_mono; [apply weight_per_second_pos | nia]. Qed.

Lemma price_double units w :
  2 * (units * w / weight_per_second) ≤ units * (2 * w) / weight_per_second.
Proof.
  apply Z.div_le_lower_bound; [apply weight_per_second_pos|].
  pose proof (Z.mul_div_le (units * w) weight_per_second weight_per_second_pos). nia.
Qed.

(** C37: a new trader that sells a weight takes the weight's price, and refunding
    no more than that weight gives back at most the price; but the purchase
    counts the weight twice, so a refund of twice the weight is granted and gives
    back at least twice what was paid. *)
Theorem trader_refund weight payment unused t
  (Hweight : 0 ≤ weight ∧ 2 * weight ≤ umax 64)
  (Hunits : ∀ a u, units_per_second a = Some u → 0 ≤ u ∧ u * (2 * weight) ≤ umax 128)
  (Hbuy : buy_weight weight payment new_trader = (Ok unused, t))
  (Hsold : t_paid t ≠ None) :
  ∃ loc taken, taken = holding payment loc - holding unused loc ∧
    (∀ w, 0 ≤ w ≤ weight → ∃ back, fst (refund_weight w t) = Some (loc, back) ∧ 0 ≤ back ≤ taken) ∧
    t_weight t = 2 * weight ∧
    ∃ back, fst (refund_weight (2 * weight) t) = Some (loc, back) ∧ 2 * taken ≤ back.
Proof.
  destruct (wp_elim _ _ _ _ _ (buy_weight_wp weight payment) Hbuy)
    as [[-> ->]|(loc & asset & units & Hu & Hsub & ->)]; [done|].
  destruct (Hunits _ _ Hu) as [Hu0 Hmax]. apply (checked_sub_holding _ _ _ _ loc) in Hsub.
  rewrite decide_True in Hsub by done. unfold price_of in *. pose proof weight_per_second_pos.
  assert (sat_mul 128 units weight = units * weight) as Hmul by (unfold sat_mul; nia).
  rewrite Hmul in *.
  assert (Hback : ∀ w, 0 ≤ w ≤ 2 * weight →
    wmul 128 units (Z.min w (2 * weight)) = units * w).
  { intros w Hw. rewrite Z.min_l by lia. unfold wmul. apply Z.mod_small. unfold umax in *. nia. }
  replace (sat_add 64 (sat_add 64 0 weight) weight) with (2 * weight)
    by (unfold sat_add; lia).
  exists loc, (units * weight / weight_per_second). unfold refund_weight; cbn.
  split_and!; [lia|..|done|]; [intros w Hw|]; rewrite Hback by lia; eexists; (split; [done|]).
  - split; [apply Z.div_pos; nia | by apply price_mono].
  - apply price_double.
Qed.
End TraderCorrect.

(** * Witnesses *)

Module AssetsTest.

(** Locations are numbered, 0 is here; a holding is a map from them to amounts. *)
#[export] Instance TestLocation : XcmLocation := {| MultiLocation := Z; here := 0 |}.

Definition holding_of (a : gmap Z Z) (l : Z) : Z := default 0 (a !! l).

#[export] Instance TestAssets : XcmAssets := {|
  Assets := gmap Z Z;
  first_fungible a := match map_to_list a with [] => None | (l, _) :: _ => Some (Some l) end;
  assets_checked_sub a l v :=
    if decide (v ≤ holding_of a l) then Some (<[l := holding_of a l - v]> a) else None;
  holding := holding_of;
  convert l := Some l;
  units_per_second _ := Some 5000;
  weight_per_second := 1000;
|}.

#[export] Instance TestAssetsLaws : XcmAssetsLaws.
Proof.
  split; [|done]. intros a l v a' l'. cbn. case_decide as Hv; intros [= <-].
  split; [done|]. unfold holding_of. rewrite lookup_insert. case_decide; subst; cbn; lia.
Qed.

Definition asset_empty : AssetStore :=
  {| asset_id_location := ∅; asset_location_id := ∅; fee_rate_per_second := ∅; asset_events := [] |}.

Definition wallet (v : Z) : Assets := {[7 := v]} : gmap Z Z.

Definition registered : AssetStore :=
  run (asset_dispatch Root (RegisterAssetLocation (location_from (7 : Z)) 3)) asset_empty.
End AssetsTest.

Section AssetWitnesses.
Import AssetsTest.

Lemma asset_registry_roundtrip_witness :
  get_asset_location registered 3 = Some (Para 7) ∧
  get_asset_id registered (Para 7) = Some 3 ∧
  (∀ m : Z, location_into (location_from m) = Some m).
Proof.
  assert (rtc asset_step asset_empty registered) as Hr by (apply rtc_once; constructor).
  destruct (asset_registry_roundtrip asset_empty registered registered
    (conj eq_refl eq_refl) Hr (rtc_refl _ _)) as (H1 & H2 & H3 & H4).
  assert (get_asset_location registered 3 = Some (Para 7)) as Hl by (vm_compute; reflexivity).
  split; [exact Hl | split; [by apply H1 | exact H3]].
Defined.

Lemma trader_refund_witness :
  ∃ loc back, fst (refund_weight 40
    (snd (buy_weight 20 (wallet 1000) new_trader))) = Some (loc, back) ∧ 200 ≤ back.
Proof.
  destruct (trader_refund 20 (wallet 1000) (wallet 900)
    (snd (buy_weight 20 (wallet 1000) new_trader)))
    as (loc & taken & Htaken & _ & _ & back & Hback & Hmore);
    [vm_compute; split; discriminate | | vm_compute; reflexivity | vm_compute; discriminate |].
  - intros a u [= <-]. vm_compute. split; discriminate.
  - exists loc, back. split; [exact Hback|].
    assert (loc = 7) as -> by (vm_compute in Hback; congruence).
    vm_compute in Htaken. subst taken. lia.
Defined.
End AssetWitnesses.
