(* ===== verification/Runtime.v ===== *)
(** What the runtime adds to the pallets it is made of ([runtime/src/lib.rs],
    [impls.rs], [precompiles.rs], [bag_thresholds.rs], [parachains_common.rs]):
    the exchange of gas and weight, of balances and votes, where fees and merged
    accounts go, the precompiled contracts, the author of an Ethereum block, the
    self-contained calls and the thresholds of the bags. *)

From Stdlib Require Import ZArith Lia.
From stdpp Require Import base option list gmap.
From S2P Require Import Prelude Interfaces Ethereum EthereumPallet.
#[local] Open Scope Z_scope.

(** * Constants *)

Definition WEIGHT_PER_SECOND : Z := 10 ^ 12.
Definition MAXIMUM_BLOCK_WEIGHT : Z := 2 * WEIGHT_PER_SECOND.
Definition DOLLARS : Z := 10 ^ 18.
Definition CENTS : Z := DOLLARS / 100.
Definition SECS_PER_BLOCK : Z := 6.
Definition MINUTES : Z := 60 / SECS_PER_BLOCK.
Definition HOURS : Z := MINUTES * 60.
Definition DAYS : Z := HOURS * 24.
Definition EPOCH_DURATION_IN_BLOCKS : Z := 4 * HOURS.
Definition RuntimeSessionsPerEra : Z := 6.
Definition RuntimeBondingDuration : Z := 28.
Definition RuntimeSlashDeferDuration : Z := 27.
Definition GlitchTestnetChainId : Z := 2160.
Definition RuntimeBlockGasLimit : Z := umax 32.

(** [deposit]: the price of storage. *)
Definition deposit (items bytes : Z) : Z := items * 15 * CENTS + bytes * 6 * CENTS.

(** * Gas and weight ([GlitchGasWeightMapping], [FixedGasPrice]) *)

Definition GAS_PER_SECOND : Z := 32000000.
Definition WEIGHT_PER_GAS : Z := WEIGHT_PER_SECOND / GAS_PER_SECOND.

Definition glitch_gas_to_weight (gas : Z) : Z := sat_mul 64 gas WEIGHT_PER_GAS.
Definition glitch_weight_to_gas (weight : Z) : Z := weight / WEIGHT_PER_GAS.

Definition fixed_min_gas_price : Z := 10000000000.

(** * Balances and votes ([CurrencyToVoteHandler], [CurrencyToVoteHandler2]) *)

Definition handler_to_vote (x : Z) : Z := Z.min x (umax 64).
Definition handler_to_currency (x : Z) : Z := x.

Definition vote_factor (issuance : Z) : Z := Z.max (issuance / umax 64) 1.
(** [as u64] keeps the low bits. *)
Definition handler2_to_vote (issuance x : Z) : Z := (x / vote_factor issuance) mod 2 ^ 64.
Definition handler2_to_currency (issuance x : Z) : Z := wmul 128 x (vote_factor issuance).

(** * Fees ([FundBalance], [DealWithFees]) *)

Section Fees.
Context `{Currency}.

(** [Fund::account_id()] *)
Variable fund_account : AccountId.

Definition fund_balance_on_nonzero_unbalanced (amount : Z) (c : cur) : cur :=
  resolve_creating fund_account amount c.

(** [OnUnbalanced::on_unbalanced] passes only a nonzero imbalance on. *)
Definition fund_balance_on_unbalanced (amount : Z) (c : cur) : cur :=
  if decide (amount = 0) then c else fund_balance_on_nonzero_unbalanced amount c.

Definition deal_with_fees (fees_then_tips : list Z) (c : cur) : cur :=
  match fees_then_tips with
  | [] => c
  | fees :: rest =>
      let amount := match rest with tips :: _ => sat_add 128 fees tips | [] => fees end in
      fund_balance_on_unbalanced amount c
  end.

(** * Merging accounts ([MergeAccountEvm::merge_account])

    [reserved_balance] and [unreserve] are those of [ReservableCurrency]. *)
Variable reserved_balance : AccountId → cur → Z.
Variable unreserve : AccountId → Z → cur → cur.

Inductive MergeError := TransferFailed.

Definition merge_account_evm (source dest : AccountId) : M cur MergeError unit := transactional (
  modify (λ c, unreserve source (reserved_balance source c) c) ≫= λ _,
  gets id ≫= λ c,
  ok_or (transfer source dest (free_balance source c) AllowDeath c) TransferFailed ≫= λ c',
  modify (λ _, c')).
End Fees.

(** * Precompiled contracts ([CloverPrecompiles]) *)

(** [H160::from_low_u64_be] *)
Definition low_u64_be (a : Z) : H160 :=
  {| address_bytes := replicate 12 0 ++
       map (λ i, a / 256 ^ i mod 256) [7; 6; 5; 4; 3; 2; 1; 0] |}.

Inductive PrecompiledContract := ECRecover | Sha256 | Ripemd160 | IdentityContract.

Definition used_addresses : list H160 := map low_u64_be [1; 2; 3; 4].

Definition precompile_at (a : H160) : option PrecompiledContract :=
  if decide (a = low_u64_be 1) then Some ECRecover else
  if decide (a = low_u64_be 2) then Some Sha256 else
  if decide (a = low_u64_be 3) then Some Ripemd160 else
  if decide (a = low_u64_be 4) then Some IdentityContract else None.

Definition is_precompile (a : H160) : bool := bool_decide (a ∈ used_addresses).

(** * The author of a block ([EthereumFindAuthor]) *)

(** The index of the author comes from the digest; an index without an
    authority is a panic. *)
Definition ethereum_find_author (authorities : list bytes) (author_index : option nat)
    : option (option H160) :=
  match author_index with
  | None => Some None
  | Some i =>
      match authorities !! i with
      | Some id => Some (Some {| address_bytes := take 20 (drop 4 id) |})
      | None => None
      end
  end.

(** * The iterations of the election miner ([OffchainRandomBalancing]) *)

Definition MINER_MAX_ITERATIONS : Z := 10.

Definition balancing_iterations (max random : Z) : Z :=
  if decide (max = 0) then 0 else random mod (sat_add 32 max 1).

(** The period of a signed transaction ([create_transaction]): half of the next
    power of two. *)
Definition next_power_of_two (n : Z) : Z := if decide (n ≤ 1) then 1 else 2 ^ Z.log2_up n.

Definition transaction_period (block_hash_count : Z) : Z :=
  if decide (next_power_of_two block_hash_count ≤ umax 32)
  then next_power_of_two block_hash_count / 2 else 2.

(** * Assets with an issuance ([NonZeroIssuance]) *)

Definition non_zero_issuance (total_issuance : Z → Z) (id : Z) : bool :=
  negb (bool_decide (total_issuance id = 0)).

(** * Self-contained calls *)

Section SelfContained.
Context `{EthereumCrypto, EthereumConfig}.

(** A call of the runtime: one of the Ethereum pallet, or of another pallet. *)
Inductive RuntimeCall := CallEthereum (t : Transaction) | CallOther.

Definition call_is_self_contained (c : RuntimeCall) : bool :=
  match c with CallEthereum _ => true | CallOther => false end.

Definition call_check_self_contained (c : RuntimeCall) : option (result EthInvalid H160) :=
  match c with CallEthereum t => Some (check_self_contained t) | CallOther => None end.

Definition call_validate_self_contained (w : world) (c : RuntimeCall) (info : H160)
    : option (result EthInvalid PoolTransaction) :=
  match c with CallEthereum t => Some (validate_transaction_in_pool w info t) | CallOther => None end.

Definition call_pre_dispatch_self_contained (w : world) (c : RuntimeCall) (info : H160)
    : option (result EthInvalid unit) :=
  match c with CallEthereum t => Some (validate_transaction_in_block w info t) | CallOther => None end.

Definition call_apply_self_contained (c : RuntimeCall) (info : H160)
    : option (M EthStore EthError PostDispatchInfo) :=
  match c with CallEthereum t => Some (transact (EthereumTransaction info) t) | CallOther => None end.
End SelfContained.

(** * The bags of the voter list *)

Definition EXISTENTIAL_WEIGHT : Z := 10000000000.
(** [CONSTANT_RATIO], in units of 10^-16 *)
Definition CONSTANT_RATIO : Z := 11131723507077667.

Definition THRESHOLDS : list Z := [
    10000000000; 11131723507; 12391526824; 13793905044; 15354993703; 17092754435; 19027181634;
    21180532507; 23577583160; 26245913670; 29216225417; 32522694326; 36203364094; 40300583912;
    44861495728; 49938576656; 55590242767; 61881521217; 68884798439; 76680653006; 85358782760;
    95019036859; 105772564622; 117743094401; 131068357174; 145901671259; 162413706368;
    180794447305; 201255379901; 224031924337; 249386143848; 277609759981; 309027509097;
    344000878735; 382932266827; 426269611626; 474511545609; 528213132664; 587992254562;
    654536720209; 728612179460; 811070932564; 902861736593; 1005040721687; 1118783542717;
    1245398906179; 1386343627960; 1543239395225; 1717891425287; 1912309236147; 2128729767682;
    2369643119512; 2637821201686; 2936349627828; 3268663217709; 3638585517729; 4050372794022;
    4508763004364; 5019030312352; 5587045771074; 6219344874498; 6923202753807; 7706717883882;
    8578905263043; 9549800138161; 10630573468586; 11833660457397; 13172903628838; 14663712098160;
    16323238866411; 18170578180087; 20226985226447; 22516120692255; 25064322999817;
    27900911352605; 31058523077268; 34573489143434; 38486252181966; 42841831811331;
    47690342626046; 53087570807094; 59095615988698; 65783605766662; 73228491069308;
    81515931542404; 90741281135191; 101010685227495; 112442301921293; 125167661548718;
    139333180038781; 155101843555358; 172655083789626; 192194865483744; 213946010204502;
    238158783103893; 265111772429462; 295115094915607; 328513963936552; 365692661475578;
    407078959611349; 453149042394237; 504432984742966; 561520851400862; 625069486125324;
    695810069225823; 774556530406243; 862214913708369; 959793802308039; 1068415923109985;
    1189331064661951; 1323930457019515; 1473762779014021; 1640551977100649; 1826217100807404;
    2032894383008501; 2262961819074188; 2519066527700738; 2804155208229882; 3121508044894685;
    3474776448088622; 3868025066902796; 4305778556320752; 4793073637166665; 5335517047800242;
    5939350054341159; 6611520261667250; 7359761551432161; 8192683066856378; 9119868268136230;
    10151985198186376; 11300909227415580; 12579859689817292; 14003551982487792; 15588366878604342;
    17352539001951086; 19316366631550092; 21502445250375680; 23935927525325748; 26644812709737600;
    29660268798266784; 33016991140790860; 36753601641491664; 40913093136236104; 45543324061189736;
    50697569104240168; 56435132174936472; 62822028745677552; 69931745415056768; 77846085432775824;
    86656109914600688; 96463185576826656; 107380151045315664; 119532615158469088;
    133060402202199856; 148119160705543712; 164882154307451552; 183542255300186560;
    204314163786713728; 227436877985347776; 253176444104585088; 281829017427734464;
    313724269827691328; 349229182918168832; 388752270484770624; 432748278778513664;
    481723418752617984; 536241190443833600; 596928866512693376; 664484709541257600;
    739686006129409280; 823398010228713984; 916583898614395264; 1020315853041475584;
    1135787396594579584; 1264327126171442688; 1407413999103859968; 1566694349801462272;
    1744000832209069824; 1941373506026471680; 2161083309305266176; 2405658187494662656;
    2677912179572818944; 2980977795924034048; 3318342060496414208; 3693886631935247360;
    4111932465319354368; 4577289528371127808; 5095312144166932480; 5671960597112134656;
    6313869711009142784; 7028425188266614784; 7823848588596424704; 8709291924949524480;
    9694942965096232960; 10792142450433898496; 12013514580722579456; 13373112266084982784;
    14886578817516689408; 16571327936291497984; 18446744073709551615
].

(** * Theorems *)

(** ** Gas and weight *)

Lemma weight_per_gas : WEIGHT_PER_GAS = 31250.
Proof. reflexivity. Qed.

(** Gas and weight are exchanged at one rate: gas whose weight fits comes back
    unchanged, weight comes back less than one gas short, the weight of gas
    saturates, and every gas limit below that of a block has its exact weight. *)
Theorem gas_weight_roundtrip :
  (∀ g, 0 ≤ g → g * WEIGHT_PER_GAS ≤ umax 64 →
     glitch_weight_to_gas (glitch_gas_to_weight g) = g) ∧
  (∀ w, in_u 64 w → let w' := glitch_gas_to_weight (glitch_weight_to_gas w) in
     w' ≤ w < w' + WEIGHT_PER_GAS) ∧
  (∀ g h, g ≤ h → glitch_gas_to_weight g ≤ glitch_gas_to_weight h ≤ umax 64) ∧
  (∀ g, 0 ≤ g < RuntimeBlockGasLimit → glitch_gas_to_weight g = g * WEIGHT_PER_GAS).
Proof.
  rewrite weight_per_gas. unfold glitch_gas_to_weight, glitch_weight_to_gas. rewrite weight_per_gas.
  split_and!.
  - intros g Hg Hfit. unfold sat_mul. rewrite Z.min_l by lia. by rewrite Z.div_mul.
  - intros w Hw. pose proof (Z.mul_div_le w 31250). pose proof (Z.mul_succ_div_gt w 31250). ulia.
  - intros g h Hle. ulia.
  - intros g Hg. unfold RuntimeBlockGasLimit in Hg. ulia.
Qed.

(** ** Balances and votes *)

Lemma vote_factor_pos i : 1 ≤ vote_factor i.
Proof. unfold vote_factor. lia. Qed.

(** A balance within the issuance whose vote fits 64 bits comes back from its
    vote less than the factor short, without overflow; but when the issuance is
    just below a multiple of 2^64 - 1 the conversion keeps the low 64 bits only,
    and balances close to the whole issuance have next to no vote. *)
Theorem votes_roundtrip :
  (∀ issuance x, u128 issuance → 0 ≤ x ≤ issuance → x / vote_factor issuance ≤ umax 64 →
     let y := handler2_to_currency issuance (handler2_to_vote issuance x) in
     y ≤ x < y + vote_factor issuance) ∧
  (∀ issuance, 2 ^ 64 ≤ issuance < 2 * umax 64 → handler2_to_vote issuance (2 ^ 64) = 0).
Proof.
  split.
  - intros i x Hi Hx Hfit. unfold handler2_to_currency, handler2_to_vote.
    pose proof (vote_factor_pos i) as Hf. set (f := vote_factor i) in *.
    assert (0 ≤ x / f) by (apply Z.div_pos; lia).
    pose proof (Z.mul_div_le x f). pose proof (Z.mul_succ_div_gt x f).
    rewrite (Z.mod_small (x / f)) by ulia. unfold wmul. rewrite Z.mod_small by (unfold in_u in *; nia). nia.
  - intros i Hi. unfold handler2_to_vote, vote_factor.
    assert (i / umax 64 = 1) as -> by (symmetry; apply (Z.div_unique i (umax 64) 1 (i - umax 64)); ulia).
    done.
Qed.

(** ** Merging accounts *)

Section Merge.
Context `{CurrencyLaws}.
Variable reserved_balance : AccountId → cur → Z.
Variable unreserve : AccountId → Z → cur → cur.
(** Unreserving all that is reserved makes it free. *)
Hypothesis unreserve_all : ∀ a b c, free_balance b (unreserve a (reserved_balance a c) c) =
  free_balance b c + (if decide (a = b) then reserved_balance a c else 0).

(** Merging an account either changes nothing, or moves all that is free and
    all that is reserved in it to the other account, and nothing else. *)
Theorem merge_account_correct source dest c r c'
  (Hne : source ≠ dest)
  (Hrun : merge_account_evm reserved_balance unreserve source dest c = (r, c')) :
  match r with
  | Err _ => c' = c
  | Ok _ => free_balance source c' = 0 ∧
      free_balance dest c' = free_balance dest c + free_balance source c + reserved_balance source c ∧
      ∀ b, b ≠ source → b ≠ dest → free_balance b c' = free_balance b c
  end.
Proof.
  pattern r, c'. revert Hrun. apply wp_elim. unfold merge_account_evm. wp_auto; [|done].
  match goal with Ht : transfer _ _ _ _ _ = Some _ |- _ => apply transfer_spec in Ht as [_ Hfree] end.
  2:{ match goal with |- 0 ≤ free_balance ?a ?x => pose proof (free_range a x) end. ulia. }
  split_and!.
  - rewrite Hfree, decide_True, decide_False by done. lia.
  - rewrite Hfree, decide_False, decide_True, !unreserve_all, decide_False, decide_True by done. lia.
  - intros b Hs Hd. rewrite Hfree, !decide_False, unreserve_all, decide_False by done. lia.
Qed.
End Merge.

(** ** Precompiled contracts *)

(** The addresses that are announced as precompiled are exactly those with a
    contract. *)
Lemma precompiles_agree a : is_precompile a = true ↔ is_Some (precompile_at a).
Proof.
  unfold is_precompile, used_addresses. rewrite bool_decide_eq_true. cbn [map].
  rewrite !elem_of_cons, elem_of_nil. unfold precompile_at.
  repeat case_decide; split; intros Ha; try (by eexists); try tauto. by destruct Ha.
Qed.

(** ** Bags *)

(** Each threshold is the one before times the ratio, up to rounding. *)
Definition ratio_ok (a b : Z) : bool :=
  (a <? b) && (Z.abs (b * 10 ^ 16 - a * CONSTANT_RATIO) <=? a * 10 ^ 6).

Fixpoint chain_ok (l : list Z) : bool :=
  match l with
  | a :: ((b :: _) as l') => ratio_ok a b && chain_ok l'
  | _ => true
  end.

Lemma thresholds_checked :
  chain_ok THRESHOLDS = true ∧ length THRESHOLDS = 200%nat ∧
  head THRESHOLDS = Some EXISTENTIAL_WEIGHT ∧ last THRESHOLDS = Some (umax 64).
Proof. split_and!; vm_compute; reflexivity. Qed.

(** In a chain, every score between the first and the last element is just below
    an element. *)
Lemma chain_covers l : ∀ a z score,
  chain_ok (a :: l) = true → last (a :: l) = Some z → 0 ≤ a → a < score ≤ z →
  ∃ i lo hi, (a :: l) !! i = Some lo ∧ (a :: l) !! S i = Some hi ∧ lo < score ≤ hi ∧
    hi * 10 ^ 16 ≤ score * (CONSTANT_RATIO + 10 ^ 6).
Proof.
  induction l as [|b l IH]; intros a z score Hok Hlast Ha Hs.
  { cbn in Hlast. injection Hlast as ->. lia. }
  change (chain_ok (a :: b :: l)) with (ratio_ok a b && chain_ok (b :: l)) in Hok.
  apply andb_true_iff in Hok as [Hab Hok]. apply andb_true_iff in Hab as [Hlt Hr].
  apply Z.ltb_lt in Hlt. apply Z.leb_le in Hr.
  destruct (decide (score ≤ b)) as [Hb|Hb].
  - exists 0%nat, a, b. split_and!; [done|done|lia|lia|]. unfold CONSTANT_RATIO in *. lia.
  - destruct (IH b z score Hok Hlast) as (i & lo & hi & Hi & Hj & Hrest); [lia|lia|].
    exists (S i), lo, hi. split; [exact Hi|]. split; [exact Hj | exact Hrest].
Qed.

(** The bags are tight: there are 200 of them, their thresholds start at the
    existential weight and end at the largest score, and the threshold of the
    bag of a score between the two exceeds it by at most the constant ratio. *)
Theorem bags_tight score (Hscore : EXISTENTIAL_WEIGHT < score ≤ umax 64) :
  length THRESHOLDS = 200%nat ∧
  ∃ i lo hi, THRESHOLDS !! i = Some lo ∧ THRESHOLDS !! S i = Some hi ∧ lo < score ≤ hi ∧
    hi * 10 ^ 16 ≤ score * (CONSTANT_RATIO + 10 ^ 6).
Proof.
  destruct thresholds_checked as (Hok & Hlen & Hhead & Hlast). split; [done|].
  destruct THRESHOLDS as [|a l]; [done|]. cbn in Hhead. injection Hhead as ->.
  by apply (chain_covers l EXISTENTIAL_WEIGHT (umax 64)).
Qed.

(** ** The parameters the pallets assume of each other *)

Example slash_defer_below_bonding : RuntimeSlashDeferDuration < RuntimeBondingDuration.
Proof. reflexivity. Qed.

Example era_is_a_day : RuntimeSessionsPerEra * EPOCH_DURATION_IN_BLOCKS = DAYS.
Proof. reflexivity. Qed.

Lemma balancing_bounded max random : 0 ≤ max < umax 32 → 0 ≤ balancing_iterations max random ≤ max.
Proof.
  intros Hm. unfold balancing_iterations. case_decide; [lia|].
  rewrite sat_add_exact by ulia. pose proof (Z.mod_pos_bound random (max + 1)). lia.
Qed.

Example period_of_runtime : transaction_period 2400 = 2048.
Proof. reflexivity. Qed.

(** ** Witnesses *)

Section Witnesses.
#[local] Existing Instances TestCurrency TestCurrency_laws.

Lemma merge_account_correct_witness :
  let c := TestCur {[1 := 70; 2 := 30]} 100 ∅ in
  free_balance 2 (run (merge_account_evm (λ _ _, 0) (λ _ _ c, c) 1 2) c) = 100 ∧
  free_balance 1 (run (merge_account_evm (λ _ _, 0) (λ _ _ c, c) 1 2) c) = 0.
Proof.
  intros c.
  assert (fst (merge_account_evm (λ _ _, 0) (λ _ _ c, c) 1 2 c) = Ok tt) as Hok by (vm_compute; reflexivity).
  destruct (merge_account_correct (λ _ _, 0) (λ _ _ c, c)
    ltac:(intros a b c'; cbv beta; destruct (decide (a = b)); lia) 1 2 c (Ok tt) _
    ltac:(discriminate) (run_result _ _ _ Hok)) as (H1 & H2 & _).
  split; [rewrite H2; vm_compute; reflexivity | exact H1].
Defined.

Lemma bags_tight_witness :
  ∃ i lo hi, THRESHOLDS !! i = Some lo ∧ THRESHOLDS !! S i = Some hi ∧ lo < 10 ^ 18 ≤ hi.
Proof.
  destruct (bags_tight (10 ^ 18)) as (_ & i & lo & hi & Hi & Hj & Hlo & _);
    [vm_compute; split; [reflexivity | discriminate]|].
  exists i, lo, hi. split; [exact Hi|]. split; [exact Hj | exact Hlo].
Defined.
End Witnesses.
