(* ===== verification/RuntimeApi.v ===== *)
(** What the runtime offers to the node ([runtime/src/lib.rs],
    [clover_evm_config.rs]): the queries of the Ethereum RPC, dry runs of the EVM
    with and without estimation, the conversion of Ethereum transactions to
    extrinsics and back, the replay of a block for tracing, and the extrinsics the
    off-chain workers sign. *)

From Stdlib Require Import ZArith Lia.
From stdpp Require Import base option list.
From S2P Require Import Prelude Interfaces Ethereum EthereumPallet Runtime.
#[local] Open Scope Z_scope.

(** * Equality of transactions *)

#[export] Instance TransactionAction_eq_dec : EqDecision TransactionAction.
Proof. solve_decision. Defined.
#[export] Instance AccessListItem_eq_dec : EqDecision AccessListItem.
Proof. solve_decision. Defined.
#[export] Instance TransactionSignature_eq_dec : EqDecision TransactionSignature.
Proof. solve_decision. Defined.
#[export] Instance LegacyTransaction_eq_dec : EqDecision LegacyTransaction.
Proof. solve_decision. Defined.
#[export] Instance EIP2930Transaction_eq_dec : EqDecision EIP2930Transaction.
Proof. solve_decision. Defined.
#[export] Instance EIP1559Transaction_eq_dec : EqDecision EIP1559Transaction.
Proof. solve_decision. Defined.
#[export] Instance Transaction_eq_dec : EqDecision Transaction.
Proof. solve_decision. Defined.

(** * The configuration of the EVM ([CloverEvmConfig::config]) *)

Record EvmConfig := {
  gas_ext_code : Z; gas_ext_code_hash : Z; gas_balance : Z; gas_sload : Z; gas_sload_cold : Z;
  gas_sstore_set : Z; gas_sstore_reset : Z; refund_sstore_clears : Z; max_refund_quotient : Z;
  gas_suicide : Z; gas_suicide_new_account : Z; gas_call : Z; gas_expbyte : Z;
  gas_transaction_create : Z; gas_transaction_call : Z; gas_transaction_zero_data : Z;
  gas_transaction_non_zero_data : Z; gas_access_list_address : Z;
  gas_access_list_storage_key : Z; gas_account_access_cold : Z; gas_storage_read_warm : Z;
  sstore_gas_metering : bool; sstore_revert_under_stipend : bool;
  increase_state_access_gas : bool; decrease_clears_refund : bool;
  disallow_executable_format : bool; err_on_call_with_more_gas : bool;
  empty_considered_exists : bool; create_increase_nonce : bool; call_l64_after_gas : bool;
  stack_limit : Z; memory_limit : Z; call_stack_limit : Z; create_contract_limit : option Z;
  call_stipend : Z; has_delegate_call : bool; has_create2 : bool; has_revert : bool;
  has_return_data : bool; has_bitwise_shifting : bool; has_chain_id : bool;
  has_self_balance : bool; has_ext_code_hash : bool; has_base_fee : bool;
  estimate : bool;
}.

(** [usize::max_value()] on a machine with words of [word] bits. *)
Definition CloverEvmConfig_config (word : Z) : EvmConfig := {|
  gas_ext_code := 700; gas_ext_code_hash := 700; gas_balance := 700; gas_sload := 800;
  gas_sload_cold := 0; gas_sstore_set := 20000; gas_sstore_reset := 5000;
  refund_sstore_clears := 15000; max_refund_quotient := 2; gas_suicide := 5000;
  gas_suicide_new_account := 25000; gas_call := 700; gas_expbyte := 50;
  gas_transaction_create := 53000; gas_transaction_call := 21000;
  gas_transaction_zero_data := 4; gas_transaction_non_zero_data := 16;
  gas_access_list_address := 0; gas_access_list_storage_key := 0;
  gas_account_access_cold := 0; gas_storage_read_warm := 0;
  sstore_gas_metering := true; sstore_revert_under_stipend := true;
  increase_state_access_gas := false; decrease_clears_refund := false;
  disallow_executable_format := false; err_on_call_with_more_gas := false;
  empty_considered_exists := false; create_increase_nonce := true;
  call_l64_after_gas := true; stack_limit := 1024; memory_limit := umax word;
  call_stack_limit := 1024; create_contract_limit := None; call_stipend := 2300;
  has_delegate_call := true; has_create2 := true; has_revert := true;
  has_return_data := true; has_bitwise_shifting := true; has_chain_id := true;
  has_self_balance := true; has_ext_code_hash := true; has_base_fee := false;
  estimate := false;
|}.

#[export] Instance EvmConfig_eta : Eta EvmConfig := λ c, {|
  gas_ext_code := gas_ext_code c; gas_ext_code_hash := gas_ext_code_hash c;
  gas_balance := gas_balance c; gas_sload := gas_sload c; gas_sload_cold := gas_sload_cold c;
  gas_sstore_set := gas_sstore_set c; gas_sstore_reset := gas_sstore_reset c;
  refund_sstore_clears := refund_sstore_clears c; max_refund_quotient := max_refund_quotient c;
  gas_suicide := gas_suicide c; gas_suicide_new_account := gas_suicide_new_account c;
  gas_call := gas_call c; gas_expbyte := gas_expbyte c;
  gas_transaction_create := gas_transaction_create c;
  gas_transaction_call := gas_transaction_call c;
  gas_transaction_zero_data := gas_transaction_zero_data c;
  gas_transaction_non_zero_data := gas_transaction_non_zero_data c;
  gas_access_list_address := gas_access_list_address c;
  gas_access_list_storage_key := gas_access_list_storage_key c;
  gas_account_access_cold := gas_account_access_cold c;
  gas_storage_read_warm := gas_storage_read_warm c;
  sstore_gas_metering := sstore_gas_metering c;
  sstore_revert_under_stipend := sstore_revert_under_stipend c;
  increase_state_access_gas := increase_state_access_gas c;
  decrease_clears_refund := decrease_clears_refund c;
  disallow_executable_format := disallow_executable_format c;
  err_on_call_with_more_gas := err_on_call_with_more_gas c;
  empty_considered_exists := empty_considered_exists c;
  create_increase_nonce := create_increase_nonce c; call_l64_after_gas := call_l64_after_gas c;
  stack_limit := stack_limit c; memory_limit := memory_limit c;
  call_stack_limit := call_stack_limit c; create_contract_limit := create_contract_limit c;
  call_stipend := call_stipend c; has_delegate_call := has_delegate_call c;
  has_create2 := has_create2 c; has_revert := has_revert c;
  has_return_data := has_return_data c; has_bitwise_shifting := has_bitwise_shifting c;
  has_chain_id := has_chain_id c; has_self_balance := has_self_balance c;
  has_ext_code_hash := has_ext_code_hash c; has_base_fee := has_base_fee c;
  estimate := estimate c;
|}.

(** * Queries of the EVM ([EthereumRuntimeRPCApi]) *)

Section EvmApi.
Context {account_info call_info create_info dispatch_error : Type}.

(** The storage of an EVM account ([EVM::account_storages]). *)
Variable account_storages : H160 → H256 → H256.

(** The EVM's [Runner], which takes its configuration as the last argument. *)
Variable Runner_call : H160 → H160 → bytes → Z → Z → option Z → option Z → option Z →
  list (H160 * list H256) → EvmConfig → result dispatch_error call_info.
Variable Runner_create : H160 → bytes → Z → Z → option Z → option Z → option Z →
  list (H160 * list H256) → EvmConfig → result dispatch_error create_info.

(** The configuration of the pallet ([<Runtime as pallet_evm::Config>::config()]). *)
Variable config : EvmConfig.

(** [index.to_big_endian(&mut tmp)] with 32 bytes *)
Definition to_big_endian (x : Z) : bytes := reverse (le_bytes 32 x).

Definition storage_at (address : H160) (index : Z) : H256 :=
  account_storages address {| hash_bytes := to_big_endian index |}.

(** [config.as_ref().unwrap_or(...)], where [config] is a clone of the
    configuration whose estimation is switched on, or nothing. *)
Definition run_config (est : bool) : EvmConfig :=
  default config (if est then Some (config <| estimate := true |>) else None).

Definition api_call (from to : H160) (data : bytes) (value gas_limit : Z)
    (max_fee max_priority_fee nonce : option Z) (est : bool)
    (access_list : option (list (H160 * list H256))) : result dispatch_error call_info :=
  Runner_call from to data value (saturate 64 gas_limit) max_fee max_priority_fee nonce
    (default [] access_list) (run_config est).

Definition api_create (from : H160) (data : bytes) (value gas_limit : Z)
    (max_fee max_priority_fee nonce : option Z) (est : bool)
    (access_list : option (list (H160 * list H256))) : result dispatch_error create_info :=
  Runner_create from data value (saturate 64 gas_limit) max_fee max_priority_fee nonce
    (default [] access_list) (run_config est).

(** Two slots of an account are two keys. *)
Lemma to_big_endian_inj x y :
  in_u 256 x → in_u 256 y → to_big_endian x = to_big_endian y → x = y.
Proof. intros Hx Hy Heq%(inj reverse). by apply (le_bytes_inj 32) in Heq. Qed.

(** A dry run that does not estimate runs with the configuration of the chain,
    and one that does differs in nothing but the flag. *)
Lemma run_config_chain : run_config false = config.
Proof. done. Qed.

Lemma run_config_estimate :
  estimate (run_config true) = true ∧ (run_config true) <| estimate := estimate config |> = config.
Proof. split; [done|]. unfold run_config. cbn. by destruct config as []. Qed.
End EvmApi.

(** What the Ethereum pallet keeps of the last block. *)
Definition current_all `{EthereumConfig} `{EthereumCrypto} (s : EthStore)
    : option Block * option (list Receipt) * option (list TransactionStatus) :=
  (current_block s, current_receipts s, current_transaction_statuses s).

(** * Extrinsics and Ethereum transactions

    Extrinsics are those of [fp_self_contained]; an unsigned one is made from a
    call, and its call can be read back ([xt.0.function]). *)

Class Extrinsics := {
  Extrinsic : Type;
  ext_function : Extrinsic → RuntimeCall;
  new_unsigned : RuntimeCall → Extrinsic;
}.

Class ExtrinsicsLaws `{Extrinsics} := {
  function_new_unsigned c : ext_function (new_unsigned c) = c;
}.

Section Conversion.
Context `{Extrinsics}.

Definition convert_transaction (t : Transaction) : Extrinsic := new_unsigned (CallEthereum t).

Definition eth_call (xt : Extrinsic) : option Transaction :=
  match ext_function xt with CallEthereum t => Some t | CallOther => None end.

Definition extrinsic_filter (xts : list Extrinsic) : list Transaction := omap eth_call xts.

Lemma eth_call_Some xt t : eth_call xt = Some t ↔ ext_function xt = CallEthereum t.
Proof.
  unfold eth_call. split.
  - by destruct (ext_function xt); intros [= ->].
  - by intros ->.
Qed.

Lemma elem_of_extrinsic_filter t xts :
  t ∈ extrinsic_filter xts ↔ ∃ xt, xt ∈ xts ∧ ext_function xt = CallEthereum t.
Proof.
  unfold extrinsic_filter. rewrite list_elem_of_omap.
  by split; intros (xt & Hin & Ht); exists xt; rewrite eth_call_Some in *.
Qed.

Lemma extrinsic_filter_app xs ys :
  extrinsic_filter (xs ++ ys) = extrinsic_filter xs ++ extrinsic_filter ys.
Proof. apply omap_app. Qed.

(** The node finds in a block the transactions it put into it. *)
Lemma filter_convert `{!ExtrinsicsLaws} ts : extrinsic_filter (convert_transaction <$> ts) = ts.
Proof.
  unfold extrinsic_filter, convert_transaction. induction ts as [|t ts IH]; [done|]. cbn.
  unfold eth_call at 1. rewrite function_new_unsigned. cbn. by f_equal.
Qed.
End Conversion.

(** * Replaying a block ([DebugRuntimeApi])

    The host is the storage of the runtime with the listeners of the node:
    [apply_extrinsic] is [Executive::apply_extrinsic], whose result the replay drops,
    [trace] runs a closure while the tracer listens ([EvmTracer::new().trace]) and
    [emit_new] opens a call stack in the trace. *)

Class Tracing `{Extrinsics} := {
  host : Type;
  apply_extrinsic : Extrinsic → host → host;
  trace : (host → host) → host → host;
  emit_new : host → host;
}.

(** Listening does not change the storage of the chain ([chain]), and only
    [emit_new] opens a call stack. *)
Class TracingLaws `{Tracing} := {
  chain_state : Type;
  chain : host → chain_state;
  stacks : host → nat;
  chain_trace f h : chain (trace f h) = chain (f h);
  stacks_trace f h : stacks (trace f h) = stacks (f h);
  chain_emit h : chain (emit_new h) = chain h;
  stacks_emit h : stacks (emit_new h) = S (stacks h);
  chain_apply xt h h' : chain h = chain h' →
    chain (apply_extrinsic xt h) = chain (apply_extrinsic xt h');
  stacks_apply xt h : stacks (apply_extrinsic xt h) = stacks h;
}.

Inductive TraceError := FailedToFind.

Section Trace.
Context `{EthereumCrypto} `{Tracing}.

Fixpoint trace_transaction (extrinsics : list Extrinsic) (traced : Transaction)
    : M host TraceError unit :=
  match extrinsics with
  | [] => throw FailedToFind
  | ext :: rest =>
      match ext_function ext with
      | CallEthereum t =>
          if decide (t = traced) then modify (trace (apply_extrinsic ext))
          else modify (apply_extrinsic ext) ≫= λ _, trace_transaction rest traced
      | CallOther => modify (apply_extrinsic ext) ≫= λ _, trace_transaction rest traced
      end
  end.

(** [rlp::encode] *)
Variable rlp_encode : Transaction → bytes.

Definition eth_extrinsic_hash (t : Transaction) : H256 :=
  {| hash_bytes := keccak_256 (rlp_encode t) |}.

Definition trace_block (extrinsics : list Extrinsic) (known : list H256) : M host TraceError unit :=
  for_each extrinsics (λ ext,
    match ext_function ext with
    | CallEthereum t =>
        if decide (eth_extrinsic_hash t ∈ known)
        then modify emit_new ≫= λ _, modify (trace (apply_extrinsic ext))
        else modify (apply_extrinsic ext)
    | CallOther => modify (apply_extrinsic ext)
    end).

(** Executing the block as it was imported. *)
Definition replay (extrinsics : list Extrinsic) (h : host) : host :=
  foldl (λ h ext, apply_extrinsic ext h) h extrinsics.

(** C39: asking for the trace of a transaction replays the extrinsics that came
    before its first occurrence in the block, of whatever kind, and then runs that
    occurrence under the tracer and nothing after it.  A transaction that the
    block does not contain is an error, and it is the only error. *)
Theorem trace_transaction_correct xts t h :
  if decide (t ∈ extrinsic_filter xts) then
    ∃ before xt after, xts = (before ++ xt :: after) ∧ ext_function xt = CallEthereum t
      ∧ ¬ (t ∈ extrinsic_filter before)
      ∧ trace_transaction xts t h = (Ok tt, trace (apply_extrinsic xt) (replay before h))
  else trace_transaction xts t h = (Err FailedToFind, replay xts h).
Proof.
  revert h. induction xts as [|xt xts IH]; intros h; [done|].
  assert (∀ (skip : ∀ u, eth_call xt = Some u → u ≠ t),
    trace_transaction (xt :: xts) t h = trace_transaction xts t (apply_extrinsic xt h)) as Hskip.
  { intros skip. cbn. unfold eth_call in skip. destruct (ext_function xt) as [u|]; [|done].
    by rewrite decide_False by by apply skip. }
  change (extrinsic_filter (xt :: xts)) with (omap eth_call (xt :: xts)). cbn [omap list_omap].
  destruct (decide (eth_call xt = Some t)) as [Hxt|Hxt].
  - rewrite Hxt, decide_True by apply list_elem_of_here.
    apply eth_call_Some in Hxt. exists [], xt, xts.
    split_and!; [done | done | apply not_elem_of_nil |].
    cbn. by rewrite Hxt, decide_True.
  - rewrite Hskip by congruence. specialize (IH (apply_extrinsic xt h)).
    assert ((t ∈ match eth_call xt with Some u => u :: omap eth_call xts | None => omap eth_call xts end)
            ↔ t ∈ extrinsic_filter xts) as Hiff.
    { unfold extrinsic_filter. destruct (eth_call xt); [|done]. rewrite elem_of_cons. naive_solver. }
    destruct (decide (t ∈ extrinsic_filter xts)) as [Hin|Hin].
    + rewrite decide_True by by apply Hiff.
      destruct IH as (before & xt' & after & -> & Hf & Hno & Heq).
      exists (xt :: before), xt', after. split_and!; [done | done | | done].
      unfold extrinsic_filter in *. cbn. destruct (eth_call xt); [|done].
      rewrite not_elem_of_cons. split; [congruence | done].
    + rewrite decide_False by (by rewrite Hiff). done.
Qed.

(** Tracing a block cannot fail, leaves the chain as executing the block does, and
    opens one call stack for each transaction of the block that is known. *)
Theorem trace_block_replays `{!TracingLaws} xts known h :
  ∃ h', trace_block xts known h = (Ok tt, h') ∧ chain h' = chain (replay xts h)
    ∧ stacks h' = (stacks h +
        length (filter (λ t, eth_extrinsic_hash t ∈ known) (extrinsic_filter xts)))%nat.
Proof.
  enough (∀ h1 h2, chain h1 = chain h2 →
    ∃ h', trace_block xts known h1 = (Ok tt, h') ∧ chain h' = chain (replay xts h2)
      ∧ stacks h' = (stacks h1 +
          length (filter (λ t, eth_extrinsic_hash t ∈ known) (extrinsic_filter xts)))%nat)
    as Hall by by apply Hall.
  unfold trace_block, extrinsic_filter. induction xts as [|xt xts IH]; intros h1 h2 Hc.
  { exists h1. cbn. split_and!; [done | done | lia]. }
  pose proof (chain_apply xt h1 h2 Hc) as Hplain.
  cbn [for_each omap list_omap replay foldl].
  assert (eth_call xt = match ext_function xt with CallEthereum t => Some t | CallOther => None end)
    as -> by done.
  destruct (ext_function xt) as [t|].
  - rewrite filter_cons. destruct (decide (eth_extrinsic_hash t ∈ known)) as [Hk|Hk].
    + destruct (IH (trace (apply_extrinsic xt) (emit_new h1)) (apply_extrinsic xt h2))
        as (h' & Heq & Hch & Hst).
      { rewrite chain_trace. apply chain_apply. by rewrite chain_emit. }
      exists h'. split_and!; [exact Heq | exact Hch |].
      rewrite Hst, stacks_trace, stacks_apply, stacks_emit. cbn [length].
      lia.
    + destruct (IH _ _ Hplain) as (h' & Heq & Hch & Hst).
      exists h'. split_and!; [exact Heq | exact Hch |]. by rewrite Hst, stacks_apply.
  - destruct (IH _ _ Hplain) as (h' & Heq & Hch & Hst).
    exists h'. split_and!; [exact Heq | exact Hch |]. by rewrite Hst, stacks_apply.
Qed.
End Trace.

(** * Extrinsics signed by the off-chain workers ([CreateSignedTransaction]) *)

(** What the signed extensions of the extrinsic say: its mortality, the nonce of
    its author and the tip; the other extensions have no data. *)
Record SignedExtra (Era : Type) := { extra_era : Era; extra_nonce : Z; extra_tip : Z }.
Arguments extra_era {Era} s.
Arguments extra_nonce {Era} s.
Arguments extra_tip {Era} s.

Section Offchain.
(** [generic::Era], calls, keys and addresses. *)
Context {Era Call Public Signature Address Additional : Type}.

Variable era_mortal : Z → Z → Era.
Variable account_address : AccountId → Address.

(** [SignedPayload::new] asks the extensions for the data that is signed but not
    sent, which may fail; the payload is encoded and signed. *)
Variable additional_signed : SignedExtra Era → option Additional.
Variable encode_payload : Call → SignedExtra Era → Additional → bytes.
Variable sign : bytes → Public → option Signature.

Definition create_transaction (block_hash_count block_number : Z)
    (call : Call) (public : Public) (account : AccountId) (nonce : Z)
    : option (Call * (Address * Signature * SignedExtra Era)) :=
  let period := transaction_period block_hash_count in
  let current_block := sat_sub block_number 1 in
  let extra := {| extra_era := era_mortal period current_block;
                  extra_nonce := nonce; extra_tip := 0 |} in
  additional ← additional_signed extra;
  signature ← sign (encode_payload call extra additional) public;
  Some (call, (account_address account, signature, extra)).

(** How an extrinsic is checked when it arrives ([UncheckedExtrinsic::check]): the
    address is looked up and the signature verified for the payload. *)
Context (lookup_address : Address → option AccountId).
Context (verify : Signature → bytes → AccountId → Prop).

Definition check_signed (call : Call) (address : Address) (signature : Signature)
    (extra : SignedExtra Era) (account : AccountId) : Prop :=
  lookup_address address = Some account ∧
  ∃ additional, additional_signed extra = Some additional
    ∧ verify signature (encode_payload call extra additional) account.

(** Signatures verify for the account of the key, and addresses of accounts are
    looked up to them. *)
Context (identifies : Public → AccountId → Prop).
Hypothesis verify_sign : ∀ m public account signature,
  identifies public account → sign m public = Some signature → verify signature m account.
Hypothesis lookup_account : ∀ account, lookup_address (account_address account) = Some account.

(** What is created is what was asked for, and is accepted by the check. *)
Theorem created_transaction_checks count n call public account nonce
    call' address signature extra :
  identifies public account →
  create_transaction count n call public account nonce = Some (call', (address, signature, extra)) →
  call' = call ∧ extra_nonce extra = nonce ∧ extra_tip extra = 0
  ∧ extra_era extra = era_mortal (transaction_period count) (sat_sub n 1)
  ∧ check_signed call' address signature extra account.
Proof.
  intros Hid. unfold create_transaction. cbv zeta.
  set (ex := {| extra_era := _; extra_nonce := _; extra_tip := _ |}).
  intros (additional & Hadd & (sig & Hsign & [= <- <- <- <-])%bind_Some)%bind_Some.
  split_and!; try done. split; [apply lookup_account|]. exists additional. eauto.
Qed.
End Offchain.

(** The period is the greatest power of two below the number of block hashes the
    chain remembers, so the block an extrinsic refers to is still known while the
    extrinsic is alive. *)
Theorem transaction_period_remembered n :
  2 ≤ n ≤ 2 ^ 31 →
  ∃ k, 0 ≤ k ∧ transaction_period n = 2 ^ k ∧ transaction_period n < n ≤ 2 * transaction_period n.
Proof.
  intros Hn. unfold transaction_period, next_power_of_two.
  rewrite !(decide_False (P := n ≤ 1)) by lia.
  assert (0 < Z.log2_up n) as Hpos by (apply Z.log2_up_pos; lia).
  assert (Z.log2_up n ≤ 31) as Hle
    by (replace 31 with (Z.log2_up (2 ^ 31)) by done; apply Z.log2_up_le_mono; lia).
  assert (2 ^ Z.log2_up n ≤ 2 ^ 31) by (apply Z.pow_le_mono_r; lia).
  rewrite decide_True by ulia.
  pose proof (Z.log2_up_spec n ltac:(lia)) as [Hlow Hup].
  replace (2 ^ Z.log2_up n / 2) with (2 ^ Z.pred (Z.log2_up n)).
  - exists (Z.pred (Z.log2_up n)). split_and!; [lia | done | done |].
    rewrite <- Z.pow_succ_r by lia. by rewrite Z.succ_pred.
  - replace (Z.log2_up n) with (Z.succ (Z.pred (Z.log2_up n))) at 2 by lia.
    rewrite Z.pow_succ_r by lia. symmetry. rewrite Z.mul_comm. by apply Z.div_mul.
Qed.

(** * Concrete inputs *)

Section Examples.
#[local] Instance TestExtrinsics : Extrinsics :=
  {| Extrinsic := RuntimeCall; ext_function := id; new_unsigned := id |}.

Definition api_transaction (n : Z) : Transaction := Legacy {|
  l_nonce := n; l_gas_price := 1; l_gas_limit := 21000; l_action := ActionCreate; l_value := 0;
  l_input := []; l_signature := {| sig_r := []; sig_s := []; standard_v := 27; sig_chain_id := None |} |}.

(** A chain that logs the nonces of its transactions, and the trace of the host. *)
#[local] Instance TestTracing : Tracing := {|
  host := list Z * list (list Z);
  apply_extrinsic xt h :=
    match xt with CallEthereum (Legacy t) => (h.1 ++ [l_nonce t], h.2) | _ => (h.1 ++ [-1], h.2) end;
  trace f h := f h;
  emit_new h := (h.1, [] :: h.2);
|}.

Definition api_block : list Extrinsic :=
  [CallOther; CallEthereum (api_transaction 0); CallEthereum (api_transaction 1); CallOther].

(** The block is replayed up to the transaction that is traced. *)
Example trace_second :
  trace_transaction api_block (api_transaction 1) ([], []) = (Ok tt, ([-1; 0; 1], []))
  ∧ trace_transaction api_block (api_transaction 2) ([], []) = (Err FailedToFind, ([-1; 0; 1; -1], [])).
Proof. by vm_compute. Qed.

Example trace_known :
  @trace_block TestEthereum _ _ (λ t, match t with Legacy t => [l_nonce t] | _ => [] end) api_block
    [@eth_extrinsic_hash TestEthereum (λ t, match t with Legacy t => [l_nonce t] | _ => [] end)
       (api_transaction 1)] ([], [])
  = (Ok tt, ([-1; 0; 1; -1], [[]])).
Proof. by vm_compute. Qed.

(** With the 2400 hashes of the runtime the period is 2048 blocks. *)
Example transaction_period_2400 : transaction_period 2400 = 2048.
Proof. done. Qed.
End Examples.
