(* ===== verification/RuntimeConfig.v ===== *)
(** The parameters the runtime gives to its pallets ([runtime/src/lib.rs],
    [constants.rs], [impls.rs]) and what they have to agree on: the weight of a
    block is split without remainder, the phases of an election fit into a
    session, reports are accepted for as long as stake is bonded, and the staking
    pallet passes its integrity test. *)

From Stdlib Require Import ZArith Lia.
From stdpp Require Import base option list.
From S2P Require Import Prelude Interfaces StakingState SlashDeferral EthereumPallet Runtime.
#[local] Open Scope Z_scope.

(** * The parameters

    A [Perbill] is its number of parts in 10^9, a [Permill] in 10^6. *)

Module Parameters.

(** ** Time *)
Definition MILLISECS_PER_BLOCK : Z := SECS_PER_BLOCK * 1000.
Definition SLOT_DURATION : Z := MILLISECS_PER_BLOCK.
Definition PRIMARY_PROBABILITY : Z * Z := (1, 4).
(** The floating point ratio of the durations of a block and of a slot is one. *)
Definition EPOCH_DURATION_IN_SLOTS : Z :=
  EPOCH_DURATION_IN_BLOCKS * MILLISECS_PER_BLOCK / SLOT_DURATION.
Definition MinimumPeriod : Z := SLOT_DURATION / 2.
Definition ExpectedBlockTime : Z := MILLISECS_PER_BLOCK.
Definition SessionDuration : Z := EPOCH_DURATION_IN_BLOCKS.
Definition EpochDuration : Z := EPOCH_DURATION_IN_SLOTS.

(** ** Money *)
Definition MILLICENTS : Z := CENTS / 1000.
Definition MICROCENTS : Z := MILLICENTS / 1000.
Definition ExistentialDeposit : Z := 10 * CENTS.
Definition BasicDeposit : Z := 10 * DOLLARS.
Definition FieldDeposit : Z := 250 * CENTS.
Definition SubAccountDeposit : Z := 2 * DOLLARS.
Definition MinVestedTransfer : Z := 100 * DOLLARS.
Definition SUPPLY_FACTOR : Z := 100.
Definition GIGAWEI : Z := 1000000000.
Definition DefaultBaseFeePerGas : Z := 1 * GIGAWEI * SUPPLY_FACTOR.

(** ** Blocks *)
Definition NORMAL_DISPATCH_RATIO : Z := 75 * 10 ^ 7.
Definition AVERAGE_ON_INITIALIZE_RATIO : Z := 25 * 10 ^ 6.

(** ** Staking and elections *)
Definition MaxElectingVoters : Z := 22500.
Definition ElectionLookahead : Z := EPOCH_DURATION_IN_BLOCKS / 4.
Definition RuntimeMaxNominatorRewarded : Z := 256.
Definition StakingUnsignedPriority : Z := umax 64 / 2.
Definition RuntimeOffendingThreshold : Z := 17 * 10 ^ 7.
(** The number of votes of [NposCompactSolution16]. *)
Definition RuntimeMaxNominations : nat := 16.
Definition SignedPhase : Z := saturate 32 (EPOCH_DURATION_IN_SLOTS / 4).
Definition UnsignedPhase : Z := saturate 32 (EPOCH_DURATION_IN_SLOTS / 4).
Definition SignedMaxSubmissions : Z := 16.
Definition SignedMaxRefunds : Z := 16 / 4.
Definition SignedRewardBase : Z := 1000000000000.
Definition SignedDepositBase : Z := deposit 2 0.
Definition SignedDepositByte : Z := deposit 0 10 / 1024.
Definition OffchainRepeat : Z := UnsignedPhase / 32.
Definition ReportLongevity : Z := RuntimeBondingDuration * RuntimeSessionsPerEra * EpochDuration.

(** ** Governance *)
Definition LaunchPeriod : Z := 28 * DAYS.
Definition VotingPeriod : Z := 28 * DAYS.
Definition FastTrackVotingPeriod : Z := 3 * HOURS.
Definition MinimumDeposit : Z := 100 * DOLLARS.
Definition EnactmentPeriod : Z := 28 * DAYS.
Definition CooloffPeriod : Z := 7 * DAYS.
Definition PreimageByteDeposit : Z := 10 * MILLICENTS.
Definition DepositBase : Z := deposit 1 88.
Definition DepositFactor : Z := deposit 0 32.
Definition CouncilMotionDuration : Z := 7 * DAYS.
Definition CandidacyBond : Z := 100 * DOLLARS.
Definition VotingBondBase : Z := deposit 1 64.
Definition VotingBondFactor : Z := deposit 0 32.
Definition TermDuration : Z := 7 * DAYS.
Definition TechnicalMotionDuration : Z := 7 * DAYS.
Definition ProposalBondMinimum : Z := 100 * DOLLARS.
Definition SpendPeriod : Z := 24 * DAYS.
Definition TipCountdown : Z := 1 * DAYS.
Definition TipReportDepositBase : Z := 1 * DOLLARS.
Definition DataDepositPerByte : Z := 10 * MILLICENTS.
Definition BountyDepositBase : Z := 1 * DOLLARS.
Definition BountyDepositPayoutDelay : Z := 8 * DAYS.
Definition BountyUpdatePeriod : Z := 90 * DAYS.
Definition BountyValueMinimum : Z := 10 * DOLLARS.
Definition CuratorDepositMin : Z := 100 * DOLLARS.
Definition CuratorDepositMax : Z := 10000 * DOLLARS.

(** ** Assets, contracts and sessions *)
Definition AssetDeposit : Z := 10000 * DOLLARS.
Definition MetadataDepositBase : Z := deposit 1 68.
Definition MetadataDepositPerByte : Z := deposit 0 1.
Definition IndexDeposit : Z := 10 * DOLLARS.
Definition DepositPerItem : Z := deposit 1 0.
Definition DepositPerByte : Z := deposit 0 1.
Definition TombstoneDeposit : Z := 16 * MILLICENTS.
Definition SurchargeReward : Z := 150 * MILLICENTS.
Definition RentByteFee : Z := 4 * MILLICENTS.
Definition RentDepositOffset : Z := 1000 * MILLICENTS.
Definition TransactionByteFee : Z := 10 * MILLICENTS.
Definition KickPeriod : Z := 6 * HOURS.
End Parameters.
Import Parameters.

(** * The weight of a block *)

Section Weights.
Context `{PerThingLaws}.

Definition normal_max_total : Z := perbill_mul NORMAL_DISPATCH_RATIO MAXIMUM_BLOCK_WEIGHT.
Definition operational_max_total : Z := MAXIMUM_BLOCK_WEIGHT.
Definition operational_reserved : Z :=
  wsub 64 MAXIMUM_BLOCK_WEIGHT (perbill_mul NORMAL_DISPATCH_RATIO MAXIMUM_BLOCK_WEIGHT).

(** What normal extrinsics may use and what is reserved for operational ones are
    the whole block. *)
Lemma weights_add_up :
  0 ≤ normal_max_total ∧ 0 ≤ operational_reserved
  ∧ normal_max_total + operational_reserved = operational_max_total.
Proof.
  assert (is_perbill NORMAL_DISPATCH_RATIO) as Hr by by split.
  pose proof (perbill_mul_range NORMAL_DISPATCH_RATIO MAXIMUM_BLOCK_WEIGHT Hr ltac:(done)).
  unfold operational_reserved, operational_max_total, normal_max_total.
  rewrite wsub_small; [lia | by split | lia].
Qed.
End Weights.

(** * Fees ([WeightToFee], [ConstantFeeUpdate], [StaticFeeMultiplierUpdate]) *)

(** A term of the polynomial that turns weight into a fee. *)
Record WeightToFeeCoefficient := {
  coeff_integer : Z;
  coeff_frac : Z;
  negative : bool;
  degree : nat;
}.

Definition weight_to_fee_polynomial : list WeightToFeeCoefficient :=
  [ {| coeff_integer := 10000; coeff_frac := 0; negative := false; degree := 1 |} ].

(** The multiplier of the fees, a [FixedU128]: it never changes, or is put back
    to one. *)
Definition ConstantFeeUpdate_convert (previous : Z) : Z := previous.
Definition StaticFeeMultiplierUpdate_convert (_previous : Z) : Z := 10 ^ 18.

(** The thresholds of the base fee, in parts of a million ([BaseFeeThreshold]). *)
Definition BaseFeeThreshold_lower : Z := 0.
Definition BaseFeeThreshold_ideal : Z := 500000.
Definition BaseFeeThreshold_upper : Z := 1000000.

(** * What the parameters agree on *)

(** Two election phases leave room in a session, which is an epoch; six sessions
    are a day; a report may be as old as stake is bonded. *)
Lemma durations_agree :
  EpochDuration = SessionDuration
  ∧ SignedPhase + UnsignedPhase < SessionDuration
  ∧ RuntimeSessionsPerEra * SessionDuration = DAYS
  ∧ ReportLongevity = RuntimeBondingDuration * DAYS.
Proof. done. Qed.

Section Staking.
Context `{StakingConfig}.

(** The staking pallet of the runtime. *)
Class RuntimeStaking : Prop := {
  runtime_bonding : BondingDuration = RuntimeBondingDuration;
  runtime_defer : SlashDeferDuration = RuntimeSlashDeferDuration;
  runtime_nominations : MaxNominations = RuntimeMaxNominations;
}.

(** It passes its integrity test, but leaves no slack: a slash is sure to find the
    stake that was unbonded in its era only while the planned era is the active
    one. *)
Lemma runtime_integrity `{!RuntimeStaking} : integrity_test = true ∧ deferral_slack = 0.
Proof.
  unfold integrity_test, deferral_slack, MaxVotesPerVoter.
  by rewrite runtime_bonding, runtime_defer, runtime_nominations.
Qed.
End Staking.
