(* ===== verification/ChainSpec.v ===== *)
(** The genesis of the chain and the networks it is started on
    ([node/src/chain_spec.rs]): how the supply is divided between the endowed
    accounts and the authorities ([glitch_genesis]), the table of balances of
    the main network ([glitch_genesis_mainnet]), and the five configurations.

    Keys are derived from seeds by [sp_core], which is a parameter; a key, like
    an account, is the number of its 32 bytes.  A panic is [None].  The pallets
    whose genesis is [Default::default()] of third-party code are left out of
    the record; boot nodes are the texts of the source, and the properties what
    their JSON says. *)

From Stdlib Require Import ZArith Lia.
From stdpp Require Import base option list gmap strings.
From S2P Require Import Prelude Interfaces StakingState Governance Ethereum Runtime.
#[local] Open Scope Z_scope.

(** * Keys *)

Record SessionKeys := {
  grandpa : Z;
  babe : Z;
  im_online : Z;
  authority_discovery : Z;
}.

Definition session_keys (grandpa babe im_online authority_discovery : Z) : SessionKeys :=
  {| grandpa := grandpa; babe := babe; im_online := im_online;
     authority_discovery := authority_discovery |}.

(** Account, grandpa, babe, im-online and authority-discovery key. *)
Definition Authority : Type := AccountId * Z * Z * Z * Z.

Definition auth_account (x : Authority) : AccountId := x.1.1.1.1.

Inductive KeyScheme := Sr25519 | GrandpaId | BabeId | ImOnlineId | AuthorityDiscoveryId.

(** [Pair::from_string] with [public], and the account of a public key
    ([IdentifyAccount]). *)
Class Keys := {
  pair_from_string : KeyScheme → string → Z;
  into_account : Z → AccountId;
}.

Section Seeds.
Context `{Keys}.

Definition get_from_seed (scheme : KeyScheme) (seed : string) : Z :=
  pair_from_string scheme ("//" +:+ seed).

Definition get_account_id_from_seed (seed : string) : AccountId :=
  into_account (get_from_seed Sr25519 seed).

Definition authority_keys_from_seed (s : string) : Authority :=
  (get_account_id_from_seed (s +:+ "//stash"),
   get_from_seed GrandpaId s,
   get_from_seed BabeId s,
   get_from_seed ImOnlineId s,
   get_from_seed AuthorityDiscoveryId s).
End Seeds.

(** * Accounts of the EVM *)

Record GenesisAccount := {
  ga_nonce : Z;
  ga_balance : Z;
  ga_storage : gmap Z Z;
  ga_code : list Z;
}.

Definition get_endowed_evm_accounts (endowed_account : list Z) : gmap Z GenesisAccount :=
  foldl (λ evm_accounts account,
    <[account := {| ga_nonce := 0; ga_balance := 0 * DOLLARS; ga_storage := ∅; ga_code := [] |}]>
      evm_accounts) ∅ endowed_account.

Definition endowed_evm_account : gmap Z GenesisAccount := get_endowed_evm_accounts [].

Definition dev_endowed_evm_accounts : gmap Z GenesisAccount :=
  get_endowed_evm_accounts
    [ 0x8097c3C354652CB1EEed3E5B65fBa2576470678A;
      0x6be02d1d3665660d22ff9624b7be0551ee1ac91b;
      0xe6206C7f064c7d77C6d8e3eD8601c9AA435419cE;
      0xaed40f2261ba43b4dffe484265ce82d8ffe2b4db ].

(** * The genesis configuration *)

(** [Default] of the genesis of the staking pallet. *)
Definition GenesisConfig_default : GenesisConfig := {|
  g_history_depth := 84; g_validator_count := 0; g_minimum_validator_count := 0;
  g_invulnerables := []; g_force_era := Forcing_default; g_slash_reward_fraction := 0;
  g_canceled_payout := 0; g_stakers := []; g_min_nominator_bond := 0; g_min_validator_bond := 0;
  g_max_validator_count := None; g_max_nominator_count := None |}.

Record RuntimeGenesis := {
  system_code : list Z;
  balances : list (AccountId * Z);
  evm_accounts : gmap Z GenesisAccount;
  indices : list (Z * AccountId);
  collator_invulnerables : list AccountId;
  candidacy_bond : Z;
  session_keys_of : list (AccountId * AccountId * SessionKeys);
  sudo_key : option AccountId;
  staking : GenesisConfig;
  babe_authorities : list (Z * Z);
  grandpa_authorities : list (Z * Z);
  discovery_keys : list Z;
  admin_genesis : option AccountId;
}.

#[export] Instance RuntimeGenesis_eta : Eta RuntimeGenesis := λ g, {|
  system_code := system_code g; balances := balances g; evm_accounts := evm_accounts g;
  indices := indices g; collator_invulnerables := collator_invulnerables g;
  candidacy_bond := candidacy_bond g; session_keys_of := session_keys_of g;
  sudo_key := sudo_key g; staking := staking g; babe_authorities := babe_authorities g;
  grandpa_authorities := grandpa_authorities g; discovery_keys := discovery_keys g;
  admin_genesis := admin_genesis g |}.

Definition TOTAL_SUPPLY : Z := 88888888 * DOLLARS.
Definition STASH : Z := 88888 * DOLLARS.
Definition AUTHOR_BALANCE : Z := 330000 * DOLLARS.

(** The supply that is left for the endowed accounts, in [u128]. *)
Definition total_endowment (validator_count : Z) : Z :=
  wsub 128 (wsub 128 TOTAL_SUPPLY (wmul 128 AUTHOR_BALANCE validator_count)) (3 * DOLLARS / 10).

(** What each endowed account gets; [None] is the panic. *)
Definition endowment (validator_count endowed_count : Z) : option Z :=
  if decide (endowed_count ≠ 0) then
    if decide (total_endowment validator_count mod endowed_count ≠ 0) then None
    else Some (total_endowment validator_count / endowed_count)
  else Some 0.

Definition staking_genesis (initial_authorities : list Authority) : GenesisConfig := {|
  g_history_depth := g_history_depth GenesisConfig_default;
  g_validator_count := Z.of_nat (length initial_authorities) mod 2 ^ 32;
  g_minimum_validator_count := Z.of_nat (length initial_authorities) mod 2 ^ 32;
  g_invulnerables := [];
  g_force_era := NotForcing;
  g_slash_reward_fraction := 10 * perbill_one / 100;
  g_canceled_payout := g_canceled_payout GenesisConfig_default;
  g_stakers := map (λ x, (auth_account x, auth_account x, STASH, StatusValidator)) initial_authorities;
  g_min_nominator_bond := g_min_nominator_bond GenesisConfig_default;
  g_min_validator_bond := g_min_validator_bond GenesisConfig_default;
  g_max_validator_count := g_max_validator_count GenesisConfig_default;
  g_max_nominator_count := g_max_nominator_count GenesisConfig_default |}.

Definition glitch_genesis (wasm_binary : list Z) (initial_authorities : list Authority)
    (root_key : AccountId) (endowed_accounts : list AccountId) (_enable_println : bool)
    (endowed_eth_accounts : gmap Z GenesisAccount) : option RuntimeGenesis :=
  let validator_count := Z.of_nat (length initial_authorities) mod 2 ^ 32 in
  let endowed_count := Z.of_nat (length endowed_accounts) mod 2 ^ 32 in
  e ← endowment validator_count endowed_count;
  Some {|
    system_code := wasm_binary;
    balances := map (λ k, (k, e)) endowed_accounts
      ++ map (λ x, (auth_account x, AUTHOR_BALANCE)) initial_authorities;
    evm_accounts := endowed_eth_accounts;
    indices := [];
    collator_invulnerables := map auth_account initial_authorities;
    candidacy_bond := 1 * DOLLARS;
    session_keys_of :=
      map (λ '(acc, grandpa, babe, im_online, authority_discovery),
        (acc, acc, session_keys grandpa babe im_online authority_discovery)) initial_authorities;
    sudo_key := Some root_key;
    staking := staking_genesis initial_authorities;
    babe_authorities := [];
    grandpa_authorities := [];
    discovery_keys := [];
    admin_genesis := Some 0x88b4fc7317577d1582969bbc2c3e179926e07c88a7507302fec5fd4f662a9567
  |}.

(** The balances of the main network. *)
Definition initial_balances : list (AccountId * Z) :=
  [
   (0x004028fd0cf9675e2c1698c5c539f5b273e73c490cd3fb54f32923e630e66922, 8789888770000000000000000);
   (0x1290c0fa454d01631a80f6b62dd080ed4e1a76c9cdef6045594dc7e2d226eb44, 8789888770000000000000000);
   (0x1c282c8b1e00a3b7ba2d7a4466a23420cb398aa6e53ca8a3ec75f92cfd93e97b, 8789888770000000000000000);
   (0x4e5b90d22cb365beeed1a96ffea8175e30daacb628898998810f57ec65cf7969, 8789888770000000000000000);
   (0x501934c8d7b257fbadd003bb4a29a5adb9fce7fa8d659e28d473002f5fffcf65, 8789888770000000000000000);
   (0x66b4c4464cfd187ae8206a29fe7079ec156d37af10d763e5171da19d66bca742, 8789888770000000000000000);
   (0x9c5f9d91b99f8b1f25cf075ba57839734f3e249b72adcf04899a46c8cfd95b4e, 8789888770000000000000000);
   (0xc4a01a3a57602229e112de1449d83cfbbfbc6d423da7e0ab7baeacfcf83f1d2f, 8789888770000000000000000);
   (0xd8412bac516c4c079016a8ae6eefb983837274d884868dc9528e6a2a27dfbb0d, 8789888770000000000000000);
   (0x1608a5e4d16f4b694a164372e1fd5af8944514d7cec9263fec457bac96e25565, 7529883938533221586000000);
   (0x5c790cbdc11a4bf8934250eb27bf26f2ea05db67b4f5fa48a760bcfd9ef43b49, 330000000200000000000000);
   (0x2600c75f5fe2ddb65676361769e637069cb2041622979ba118a68993279deb0b, 330000000100000000000000);
   (0x68f1d67412d6528992d391025dbc36a3261c1efaf22066dff692b2e4c1fb726a, 178416986451253370000000);
   (0x42db32bc3741422b85c021bddfac3a558a83528143b1be501cb8e2c87dd3136f, 139956475391367500000000);
   (0x2cc43f0eb835443c7c6c01ed86095a2235ac8f53674f81ac1a71ed98187f5615, 100624997082378040000000);
   (0x065647e8ae29ae3f696f1c4087852a60bfb2ba05d46c59d123b7767a90ed8c6d, 89999997082378040000000);
   (0x068e505204f46e1fc793b82f64bab6d64c05e783fa93c37a147a9a527c66d174, 89999997082378040000000);
   (0x0a567658e49a30fd7b4cb5055cfea38fda48f93b758aeb5090cf19a7fa3ff64e, 89999997082378040000000);
   (0x407308fc2f0166f6b0b6162f1103078b453cbefb0650374b119e899b2832f368, 89999997082378040000000);
   (0x4ae8af1430acada6f9d7bc7ce63ab57ac22ecd3d703438e5d365b3eff3f8da28, 89999997082378040000000);
   (0x5e6c33f6942d7d02f3600ac9f22ff3f1744c32db75ee472d6aa7c36a024e6d1c, 89999997082378040000000);
   (0x76799daa6ed897dfaff6df7eb2bec97e0d20f193af8d6b05725cc9413c7b7068, 89999997082378040000000);
   (0x7c9be668773083c243b11beeaef3c43cdb20a3c0c4945d0abf69e15261541808, 89999997082378040000000);
   (0x84f86df3cec9c1fafec26637ba3c31a5a949d7dc53c7a464648269b7da7d8310, 89999997082378040000000);
   (0x8a40b984a216c8ab3b8344eb504de0d898039861adeae0469c50c3eeeaacbf51, 89999997082378040000000);
   (0xa0df6d97e02ace0afee5119fe25896e70a51895b577d6250870741ab0c2d290f, 89999997082378040000000);
   (0xd0e58b65a141d28ea3a302bab6c825087f9f7ed424cc26c673c7985f8fad5a41, 89999997082378040000000);
   (0xf6c7b0308ab0fb7be7ec8d381814bf911fe57d2166d3cfa21d9286c4b94eaa3c, 89999997082378040000000);
   (0xaaa67949d58eb167f493f3d5c6c22f9dfba5d4e183292f9809a1031a199b6702, 981996332215200000000);
   (0xb2b6c5fa937df57b3adf244bf284fa10113cdc96b680c7e28e4ba86e723ad562, 11758539674242000000);
   (0xd8d222c44e7b678dc07a1136ca146c8cf71d46d7327b67ab3d6abe3b4f83cb3d, 5000000000000000000);
   (0x9234b3143cfcde6c6a67fc601513c54ae069e9eb1e5ff3636d3c664602844e4e, 4189464809180000000);
   (0x0a276900bee9d28fa31728814afa5194cb3e6b21b55370a1ece060e5ec6d5f01, 1000000000000000000);
   (0xa40aa48af6589f95ca378e1bc3eac36f4447b09c748d56409bd4968f46fc405f, 1000000000000000000);
   (0x4aa44e08b891d389fb0c1d56630437830785b5ff9083c9b4e4cc0ac5793b272d, 987727686650000000);
   (0x8e65621224b9e3109d4826c62ef8e349a214f4111d73457d98dc72cc6a30ed7d, 478106479712000000);
   (0x6d6f646c66756e64726576650000000000000000000000000000000000000000, 100000000000000000);
   (0x6d6f646c70792f74727372790000000000000000000000000000000000000000, 100000000000000000)
  ].

Definition glitch_genesis_mainnet (wasm_binary : list Z) (initial_authorities : list Authority)
    (root_key : AccountId) (endowed_accounts : list AccountId) (enable_println : bool)
    (endowed_eth_accounts : gmap Z GenesisAccount) : option RuntimeGenesis :=
  ret ← glitch_genesis wasm_binary initial_authorities root_key endowed_accounts enable_println
    endowed_eth_accounts;
  Some (ret <| balances := initial_balances |>).

(** * The networks *)

Inductive ChainType := Development | Local | Live.

(** The JSON of the properties. *)
Record Properties := {
  tokenSymbol : string;
  tokenDecimals : Z;
  ss58Format : Z;
}.

Definition DEFAULT_PROPERTIES_TESTNET : Properties :=
  {| tokenSymbol := "GLCH"; tokenDecimals := 18; ss58Format := 42 |}.
Definition DEFAULT_PROPERTIES_MAINNET : Properties :=
  {| tokenSymbol := "GLCH"; tokenDecimals := 18; ss58Format := 42 |}.

(** The light sync state is a JSON value of [sc_sync_state_rpc], absent by default. *)
Record Extensions := {
  relay_chain : string;
  para_id : Z;
  light_sync_state : option string;
}.

Definition Extensions_default : Extensions :=
  {| relay_chain := ""; para_id := 0; light_sync_state := None |}.

(** [ChainSpec::from_genesis]: the genesis is built when the chain is started. *)
Record ChainSpec := {
  cs_name : string;
  cs_id : string;
  cs_type : ChainType;
  cs_genesis : option RuntimeGenesis;
  cs_boot_nodes : list string;
  cs_telemetry : option string;
  cs_protocol_id : option string;
  cs_fork_id : option string;
  cs_properties : option Properties;
  cs_extensions : Extensions;
}.

Section Networks.
Context `{Keys}.

(** The runtime built into the node, if it was built ([WASM_BINARY]). *)
Variable wasm_binary : option (list Z).

Definition with_wasm (spec : list Z → ChainSpec) : result string ChainSpec :=
  match wasm_binary with
  | Some wasm => Ok (spec wasm)
  | None => Err "Development wasm binary not available"%string
  end.

Definition development_config : result string ChainSpec := with_wasm (λ wasm, {|
  cs_name := "Development"; cs_id := "dev"; cs_type := Development;
  cs_genesis := glitch_genesis wasm [authority_keys_from_seed "Alice"]
    (get_account_id_from_seed "Alice") [] true dev_endowed_evm_accounts;
  cs_boot_nodes := []; cs_telemetry := None; cs_protocol_id := Some "glitch_nodelocal"%string; cs_fork_id := None;
  cs_properties := Some DEFAULT_PROPERTIES_TESTNET; cs_extensions := Extensions_default |}).

Definition local_testnet_config : result string ChainSpec := with_wasm (λ wasm, {|
  cs_name := "glitch_node"; cs_id := "local_testnet"; cs_type := Local;
  cs_genesis := glitch_genesis wasm
    [authority_keys_from_seed "Alice"; authority_keys_from_seed "Bob"]
    (get_account_id_from_seed "Alice")
    [ get_account_id_from_seed "Alice"; get_account_id_from_seed "Bob";
      get_account_id_from_seed "Charlie"; get_account_id_from_seed "Dave";
      get_account_id_from_seed "Eve"; get_account_id_from_seed "Ferdie";
      get_account_id_from_seed "Charlie//stash"; get_account_id_from_seed "Dave//stash";
      get_account_id_from_seed "Eve//stash"; get_account_id_from_seed "Ferdie//stash" ]
    true endowed_evm_account;
  cs_boot_nodes := []; cs_telemetry := None; cs_protocol_id := Some "glitch_nodelocal"%string; cs_fork_id := None;
  cs_properties := Some DEFAULT_PROPERTIES_TESTNET; cs_extensions := Extensions_default |}).

Definition testnet_authorities : list Authority :=
  [
   (0xaee0df231aed47a99beb26960d156de55751a48741b1cfcfa99e42a5f499e63f,
    0x04315411f66a58e838690017ac4102374e4f1dd3f429176ebaa15d55d61d9e80,
    0x2eed8720f0cc2697ef251da006980c0873cfc108f4c91a96744eedf1b59aff44,
    0xa86ab6e2458078bc49f7277ba00642c1ba2336f8001dd7de6494fd0751a1c057,
    0x1eaa69cbee5e16337c52440455fbc97b839d01bdc4e6d158cf3061d44ba4fc7b);
   (0x5a44973835f643d6d2c45c4490e1c0095755d469ae5db20d480c937588abd164,
    0x72f22b083c995d0c4bf07a46f7ad326bcc25780483c8eb0523f53ed2a5b7915d,
    0x381bab65c6c3c0a9bfb06e7a6c8a3b109bed9e97303b22fcd0157ba0871a6566,
    0x46bd8c5f164df0a6db9199a74376aea3cf8f0d4ecc8b4da5289ebf70c6d0496a,
    0x98a818de9aa0ea6d376a8690bfebb24b1d5d7d9c6f36e1ab45983b0fa7f2e328);
   (0x94f1d376734418cc137900c7ad4bb5a4911af24d00e4fd72803e3817a50c334d,
    0x0b9f59981f7b9a654f9819c7cb774f3fe39fc9e4c5ac22202f77be52677a5fd3,
    0x6eb9b6f2680b69714d38d0d34108288c9498616589afa6ca453f7a71a88cc64c,
    0x1efe62dcf7953227eb99413539b2d58c584f8568ab72d847310a17030882ef0d,
    0x82aba2132ab4ff2e7fcafeb4d4932f73413d08b7f3a54e18ea2c8d4cffa88e2b)
  ].

Definition testnet_endowed : list AccountId :=
  [
   0x2cba3a171f0eac2c17fb96e1172de8bdfb5977d687be988c8c9c424e89ccf017;
   0xdeb9e399fc7a8dbfdb3afdded6d944001f06d34f2ee44f221214e5f651d72d0c;
   0x86fe730862e66d0843fd26317cdc8982e964411c6b567ede64f5b75256e3ae02;
   0x5a4eee4225fdfeea0affc8b3898b6473aa5da97acb5cb77eff87e85da9cd442a;
   0x3c4f9141446d18bc60cde8b084fff57830de18e05657a113b7eb55a89cf1ba77;
   0x60df6b11a2d8d6460fd583e491a52f0518b515d29b63ae0fca6ad04dd99c9820;
   0x7889d159ed22e156047c91c03c49d0fdb97db5aa121dd248fc9143ae58605a78;
   0xcafc729c1e7c5d13065c41e39dba17f81f2c37ffa59d55a058bcc1eea3a7bd0d;
   0xac878ad7a137e325872d74022e85fe976d26c5b51a172821b7a8ca6526a34928;
   0xf0f15284b61f6ed6a3fc292395e0fa3195e79052b1ec8bca74298f5de5134754
  ].

Definition glitch_testnet_config : result string ChainSpec := with_wasm (λ wasm, {|
  cs_name := "Glitch"; cs_id := "glitch_testnet"; cs_type := Local;
  cs_genesis := glitch_genesis wasm testnet_authorities
    0x2cba3a171f0eac2c17fb96e1172de8bdfb5977d687be988c8c9c424e89ccf017
    testnet_endowed true endowed_evm_account;
  cs_boot_nodes :=
    ["/dns/glitch-bootnode.sotatek.works/tcp/30333/p2p/12D3KooWFKSEVZGNrS6THQ6J2vSgLDePdXXz9HYE6TtgopZV22T1";
     "/ip4/10.2.15.53/tcp/30333/p2p/12D3KooWFKSEVZGNrS6THQ6J2vSgLDePdXXz9HYE6TtgopZV22T1"]%string;
  cs_telemetry := None; cs_protocol_id := Some "glitch_testnet"%string; cs_fork_id := None;
  cs_properties := Some DEFAULT_PROPERTIES_TESTNET; cs_extensions := Extensions_default |}).

Definition mainnet_authorities : list Authority :=
  [
   (0x68f1d67412d6528992d391025dbc36a3261c1efaf22066dff692b2e4c1fb726a,
    0x04315411f66a58e838690017ac4102374e4f1dd3f429176ebaa15d55d61d9e80,
    0x2eed8720f0cc2697ef251da006980c0873cfc108f4c91a96744eedf1b59aff44,
    0xa86ab6e2458078bc49f7277ba00642c1ba2336f8001dd7de6494fd0751a1c057,
    0x1eaa69cbee5e16337c52440455fbc97b839d01bdc4e6d158cf3061d44ba4fc7b);
   (0x2600c75f5fe2ddb65676361769e637069cb2041622979ba118a68993279deb0b,
    0x72f22b083c995d0c4bf07a46f7ad326bcc25780483c8eb0523f53ed2a5b7915d,
    0x381bab65c6c3c0a9bfb06e7a6c8a3b109bed9e97303b22fcd0157ba0871a6566,
    0x46bd8c5f164df0a6db9199a74376aea3cf8f0d4ecc8b4da5289ebf70c6d0496a,
    0x98a818de9aa0ea6d376a8690bfebb24b1d5d7d9c6f36e1ab45983b0fa7f2e328);
   (0x5c790cbdc11a4bf8934250eb27bf26f2ea05db67b4f5fa48a760bcfd9ef43b49,
    0x0b9f59981f7b9a654f9819c7cb774f3fe39fc9e4c5ac22202f77be52677a5fd3,
    0x6eb9b6f2680b69714d38d0d34108288c9498616589afa6ca453f7a71a88cc64c,
    0x1efe62dcf7953227eb99413539b2d58c584f8568ab72d847310a17030882ef0d,
    0x82aba2132ab4ff2e7fcafeb4d4932f73413d08b7f3a54e18ea2c8d4cffa88e2b)
  ].

Definition mainnet_endowed : list AccountId :=
  [
   0x1608a5e4d16f4b694a164372e1fd5af8944514d7cec9263fec457bac96e25565;
   0x9c5f9d91b99f8b1f25cf075ba57839734f3e249b72adcf04899a46c8cfd95b4e;
   0x501934c8d7b257fbadd003bb4a29a5adb9fce7fa8d659e28d473002f5fffcf65;
   0xc4a01a3a57602229e112de1449d83cfbbfbc6d423da7e0ab7baeacfcf83f1d2f;
   0xd8412bac516c4c079016a8ae6eefb983837274d884868dc9528e6a2a27dfbb0d;
   0x1c282c8b1e00a3b7ba2d7a4466a23420cb398aa6e53ca8a3ec75f92cfd93e97b;
   0x1290c0fa454d01631a80f6b62dd080ed4e1a76c9cdef6045594dc7e2d226eb44;
   0x4e5b90d22cb365beeed1a96ffea8175e30daacb628898998810f57ec65cf7969;
   0x66b4c4464cfd187ae8206a29fe7079ec156d37af10d763e5171da19d66bca742;
   0x004028fd0cf9675e2c1698c5c539f5b273e73c490cd3fb54f32923e630e66922
  ].

Definition glitch_mainnet_config : result string ChainSpec := with_wasm (λ wasm, {|
  cs_name := "Glitch"; cs_id := "glitch_mainnet"; cs_type := Live;
  cs_genesis := glitch_genesis_mainnet wasm mainnet_authorities
    0xd8d222c44e7b678dc07a1136ca146c8cf71d46d7327b67ab3d6abe3b4f83cb3d
    mainnet_endowed true endowed_evm_account;
  cs_boot_nodes :=
    ["/dns/fullnodes-mainnet-1.glitch.finance/tcp/30333/p2p/12D3KooWFKSEVZGNrS6THQ6J2vSgLDePdXXz9HYE6TtgopZV22T1";
     "/dns/validatornodes-mainnet-1.glitch.finance/tcp/30333/p2p/12D3KooWPRSGH3LnwG5Uhj9Nm7qY7hkdrhd4vg4znb49ix9ADZwD";
     "/dns/validatornodes-mainnet-2.glitch.finance/tcp/30333/p2p/12D3KooWBEyY6ySQqjniaqVHH1JtiMVU5KmSPvoPgqkpp6XhBjEt";
     "/dns/validatornodes-mainnet-3.glitch.finance/tcp/30333/p2p/12D3KooWKwDVXckeQ86PrNFCyrbaA4sEkg9hPY9a5fe2yZ3gSRX1";
     "/dns/validatornodes-mainnet-4.glitch.finance/tcp/30333/p2p/12D3KooWRYMq2fD7cRikXXc9doocmBNw37tfQTKSnPfEfqeaMyG3"]%string;
  cs_telemetry := None; cs_protocol_id := Some "glitch_mainnet"%string; cs_fork_id := None;
  cs_properties := Some DEFAULT_PROPERTIES_MAINNET; cs_extensions := Extensions_default |}).

Definition uat_authorities : list Authority :=
  [
   (0xa25483fe9cca2461c83a00513f07377f34116fc35f5fefec53fca9e59d1d2f06,
    0x04315411f66a58e838690017ac4102374e4f1dd3f429176ebaa15d55d61d9e80,
    0x2eed8720f0cc2697ef251da006980c0873cfc108f4c91a96744eedf1b59aff44,
    0xa86ab6e2458078bc49f7277ba00642c1ba2336f8001dd7de6494fd0751a1c057,
    0x1eaa69cbee5e16337c52440455fbc97b839d01bdc4e6d158cf3061d44ba4fc7b);
   (0x1408fed1c2d32cf914326b1ec33edbeb4427fdaf411e27f9dd77b6bcaf280f54,
    0x72f22b083c995d0c4bf07a46f7ad326bcc25780483c8eb0523f53ed2a5b7915d,
    0x381bab65c6c3c0a9bfb06e7a6c8a3b109bed9e97303b22fcd0157ba0871a6566,
    0x46bd8c5f164df0a6db9199a74376aea3cf8f0d4ecc8b4da5289ebf70c6d0496a,
    0x98a818de9aa0ea6d376a8690bfebb24b1d5d7d9c6f36e1ab45983b0fa7f2e328);
   (0x3443862d2ff8f750e46ff0424ad541b8a34896a3112babf96054362325c49977,
    0x0b9f59981f7b9a654f9819c7cb774f3fe39fc9e4c5ac22202f77be52677a5fd3,
    0x6eb9b6f2680b69714d38d0d34108288c9498616589afa6ca453f7a71a88cc64c,
    0x1efe62dcf7953227eb99413539b2d58c584f8568ab72d847310a17030882ef0d,
    0x82aba2132ab4ff2e7fcafeb4d4932f73413d08b7f3a54e18ea2c8d4cffa88e2b)
  ].

Definition uat_endowed : list AccountId :=
  [0x88b4fc7317577d1582969bbc2c3e179926e07c88a7507302fec5fd4f662a9567].

Definition glitch_uat_config : result string ChainSpec := with_wasm (λ wasm, {|
  cs_name := "Glitch UAT"; cs_id := "glitch_uat"; cs_type := Live;
  cs_genesis := glitch_genesis wasm uat_authorities
    0x88b4fc7317577d1582969bbc2c3e179926e07c88a7507302fec5fd4f662a9567
    uat_endowed true endowed_evm_account;
  cs_boot_nodes :=
    ["/ip4/127.0.0.1/tcp/30333/p2p/12D3KooWE9d5iYYuom8HZnPVcBcWZ9vdJQrM8pSjJJuGBJywcWDx"]%string;
  cs_telemetry := None; cs_protocol_id := Some "glitch_uat"%string; cs_fork_id := None;
  cs_properties := Some DEFAULT_PROPERTIES_MAINNET; cs_extensions := Extensions_default |}).
End Networks.
