(* ===== verification/ChainSpecCorrect.v ===== *)
(** What the genesis of the chain promises: the endowed accounts, the
    authorities and the accounts of the pallets share out exactly the total
    supply, the balances of every network pass the checks of the balances
    pallet, and the staking pallet starts with every authority bonded and
    validating. *)

From Stdlib Require Import ZArith Lia.
From stdpp Require Import base option list gmap fin_maps strings.
From S2P Require Import Prelude Interfaces StakingLedger StakingState Bonding Governance Payout.
From S2P Require Import StakingInvariant Migrations Runtime ChainSpec.
#[local] Open Scope Z_scope.

(** * The supply *)

(** The total issuance after the genesis of all pallets: the accounts [pots] of
    the fund, the wallet and the treasury are given the existential deposit. *)
Definition balance_in (l : list (AccountId * Z)) (a : AccountId) : Z :=
  zsum (λ b, if decide (b.1 = a) then b.2 else 0) l.

Definition genesis_issuance (pots : list AccountId) (g : RuntimeGenesis) : Z :=
  zsum snd (balances g) + zsum (λ p, EXISTENTIAL_DEPOSIT - balance_in (balances g) p) pots.

Lemma balance_in_absent l a : a ∉ map fst l → balance_in l a = 0.
Proof.
  unfold balance_in. induction l as [|[b v] l IH]; cbn; [done|].
  intros [Hne Hl]%not_elem_of_cons. rewrite decide_False by congruence. rewrite IH by done. done.
Qed.

Lemma zsum_const {A} (v : Z) (l : list A) : zsum (λ _, v) l = Z.of_nat (length l) * v.
Proof. induction l as [|a l IH]; cbn [zsum]; [done|]. rewrite IH, length_cons. lia. Qed.

(** The counts and balances fit in their integers. *)
Record sizes_ok (n k : nat) : Prop := {
  so_authorities : AUTHOR_BALANCE * Z.of_nat n + 3 * DOLLARS / 10 ≤ TOTAL_SUPPLY;
  so_endowed : Z.of_nat k < 2 ^ 32;
}.

Lemma total_endowment_exact n k :
  sizes_ok n k →
  total_endowment (Z.of_nat n mod 2 ^ 32) = TOTAL_SUPPLY - AUTHOR_BALANCE * Z.of_nat n - 3 * DOLLARS / 10.
Proof.
  intros [Hn _]. unfold total_endowment, TOTAL_SUPPLY, AUTHOR_BALANCE, DOLLARS in *.
  change (3 * 10 ^ 18 / 10) with 300000000000000000 in *.
  rewrite Z.mod_small by lia. unfold wmul. rewrite Z.mod_small by lia.
  rewrite (wsub_small 128 (88888888 * 10 ^ 18)) by (unfold in_u; lia).
  rewrite wsub_small by (unfold in_u; lia). done.
Qed.

(** With at least one endowed account the genesis either panics, exactly
    when the rest of the supply cannot be divided evenly, or shares out the
    total supply to the unit: equal endowments, a fixed balance for each
    authority, and the deposits of the pallets' accounts. *)
Theorem genesis_total_supply wasm auths root endowed b evm pots
    (Hsizes : sizes_ok (length auths) (length endowed)) (Hend : endowed ≠ [])
    (Hpots : length pots = 3%nat)
    (Hfresh : Forall (λ p, (p ∉ endowed) ∧ (p ∉ map auth_account auths)) pots) :
  match glitch_genesis wasm auths root endowed b evm with
  | None => ((TOTAL_SUPPLY - AUTHOR_BALANCE * Z.of_nat (length auths) - 3 * DOLLARS / 10)
              mod Z.of_nat (length endowed)) ≠ 0
  | Some g => genesis_issuance pots g = TOTAL_SUPPLY
      ∧ ∃ e, (∀ a, a ∈ endowed → (a, e) ∈ balances g)
        ∧ e * Z.of_nat (length endowed) =
            TOTAL_SUPPLY - AUTHOR_BALANCE * Z.of_nat (length auths) - 3 * DOLLARS / 10
  end.
Proof.
  unfold glitch_genesis. cbn zeta.
  assert (0 < Z.of_nat (length endowed) < 2 ^ 32) as Hk.
  { destruct Hsizes as [_ Hk]. destruct endowed; [done|]. rewrite length_cons in *. lia. }
  rewrite (Z.mod_small (Z.of_nat (length endowed))) by lia. unfold endowment.
  rewrite (total_endowment_exact _ _ Hsizes). set (rest := TOTAL_SUPPLY - _ - _).
  rewrite decide_True by lia. destruct (decide _) as [Hmod|Hmod]; cbn; [done|].
  apply dec_stable in Hmod. set (e := rest / Z.of_nat (length endowed)).
  assert (e * Z.of_nat (length endowed) = rest) as He.
  { unfold e. pose proof (Z.div_mod rest (Z.of_nat (length endowed)) ltac:(lia)). lia. }
  split.
  - unfold genesis_issuance. cbn [balances]. set (l := _ ++ _).
    assert (∀ p, p ∈ pots → balance_in l p = 0) as Hp.
    { intros p Hin. rewrite Forall_forall in Hfresh. destruct (Hfresh p Hin) as [H1 H2].
      apply balance_in_absent. unfold l. rewrite map_app, !map_map, elem_of_app. cbn.
      rewrite map_id. tauto. }
    rewrite (zsum_ext _ (λ _, EXISTENTIAL_DEPOSIT) pots)
      by (intros p Hin; rewrite Hp by done; lia).
    rewrite zsum_const, Hpots. unfold l. rewrite zsum_app, !zsum_map. cbn [snd].
    rewrite !zsum_const. fold e. unfold rest in He.
    change EXISTENTIAL_DEPOSIT with (10 ^ 17). unfold DOLLARS in He.
    change (3 * 10 ^ 18 / 10) with (3 * 10 ^ 17) in He. lia.
  - exists e. split; [|done]. intros a Ha. rewrite elem_of_app. left.
    apply list_elem_of_fmap. by exists a.
Qed.

(** * The networks *)

(** The accounts of the fund, the wallet and the treasury
    ([into_account_truncating]): the bytes of "modl" and of the identifier of
    the pallet, and zeros. *)
Definition fund_pot : AccountId := 0x6d6f646c66756e6472657665 * 256 ^ 20.
Definition wallet_pot : AccountId := 0x6d6f646c77616c7466756e64 * 256 ^ 20.
Definition treasury_pot : AccountId := 0x6d6f646c70792f7472737279 * 256 ^ 20.
Definition runtime_pots : list AccountId := [fund_pot; wallet_pot; treasury_pot].

(** What the genesis of the balances pallet asserts: no account twice, and no
    balance below the existential deposit. *)
Definition balances_valid (l : list (AccountId * Z)) : Prop :=
  NoDup (map fst l) ∧ Forall (λ b, EXISTENTIAL_DEPOSIT ≤ b.2) l.
#[export] Instance balances_valid_dec l : Decision (balances_valid l).
Proof. apply _. Defined.

(** The stakers are different accounts and have the balance they bond. *)
Definition stakers_funded (l : list (AccountId * Z)) (g : GenesisConfig) : Prop :=
  NoDup (map (λ st, st.1.1.1) (g_stakers g))
  ∧ Forall (λ st, st.1.2 ≤ balance_in l st.1.1.1) (g_stakers g).
#[export] Instance stakers_funded_dec l g : Decision (stakers_funded l g).
Proof. apply _. Defined.

(** A network whose chain can be started: its genesis does not panic and the
    balances pass the checks. *)
Definition network_starts (c : result string ChainSpec) : Prop :=
  ∃ spec g, c = Ok spec ∧ cs_genesis spec = Some g
    ∧ balances_valid (balances g) ∧ stakers_funded (balances g) (staking g).

Definition network_supply (c : result string ChainSpec) : option Z :=
  match c with
  | Ok spec => genesis_issuance runtime_pots <$> cs_genesis spec
  | Err _ => None
  end.

Lemma genesis_spec wasm auths root endowed b evm e :
  endowment (Z.of_nat (length auths) mod 2 ^ 32) (Z.of_nat (length endowed) mod 2 ^ 32) = Some e →
  ∃ g, glitch_genesis wasm auths root endowed b evm = Some g
    ∧ balances g = map (λ k, (k, e)) endowed ++ map (λ x, (auth_account x, AUTHOR_BALANCE)) auths
    ∧ staking g = staking_genesis auths.
Proof. intros He. unfold glitch_genesis. cbn zeta. rewrite He. eexists. by split_and!. Qed.

(** Different accounts with the endowment, and authorities that are different
    from them. *)
Lemma endowed_valid (l : list AccountId) auths e :
  NoDup (l ++ map auth_account auths) → EXISTENTIAL_DEPOSIT ≤ e →
  let bs := map (λ k, (k, e)) l ++ map (λ x, (auth_account x, AUTHOR_BALANCE)) auths in
  balances_valid bs ∧ stakers_funded bs (staking_genesis auths).
Proof.
  intros Hnd He bs. assert (map fst bs = l ++ map auth_account auths) as Hfst.
  { unfold bs. rewrite map_app, !map_map. cbn. by rewrite map_id. }
  assert (∀ bs a v, (a, v) ∈ bs → Forall (λ b, 0 ≤ b.2) bs → v ≤ balance_in bs a) as Hin.
  { clear. unfold balance_in. induction bs as [|[b w] bs IH]; intros a v; [by intros ?%not_elem_of_nil|].
    intros [[= -> ->]|Hin]%elem_of_cons Hpos; apply Forall_cons in Hpos as [Hw Hpos]; cbn [zsum fst snd] in *.
    - rewrite decide_True by done.
      pose proof (zsum_nonneg (λ c : AccountId * Z, if decide (c.1 = b) then c.2 else 0) bs) as Hz.
      rewrite Forall_forall in Hz. assert (0 ≤ zsum (λ c : Z * Z, if decide (c.1 = b) then c.2 else 0) bs); [|lia].
      apply Hz. intros c Hc. rewrite Forall_forall in Hpos. destruct (decide _); [by apply Hpos | lia].
    - specialize (IH a v Hin Hpos). destruct (decide _); lia. }
  assert (Forall (λ b, EXISTENTIAL_DEPOSIT ≤ b.2) bs) as Hed.
  { apply Forall_app. split; apply Forall_map, Forall_true; cbn; [done|]. intros _. by vm_compute. }
  split; [split; [by rewrite Hfst | exact Hed]|]. split.
  - cbn. rewrite map_map. cbn. by apply NoDup_app in Hnd as (_ & _ & ?).
  - cbn. apply Forall_map, Forall_forall. intros x Hx. cbn.
    transitivity AUTHOR_BALANCE; [by vm_compute|]. apply Hin.
    + apply elem_of_app. right. apply list_elem_of_fmap. by exists x.
    + eapply Forall_impl; [exact Hed|]. cbn. intros c Hc. change EXISTENTIAL_DEPOSIT with (10 ^ 17) in Hc. lia.
Qed.

(** A network with the plain genesis starts. *)
Lemma network_of_genesis spec wasm auths root endowed b evm e :
  cs_genesis spec = glitch_genesis wasm auths root endowed b evm →
  endowment (Z.of_nat (length auths) mod 2 ^ 32) (Z.of_nat (length endowed) mod 2 ^ 32) = Some e →
  NoDup (endowed ++ map auth_account auths) → endowed = [] ∨ EXISTENTIAL_DEPOSIT ≤ e →
  network_starts (Ok spec).
Proof.
  intros Hspec He Hnd Hor. destruct (genesis_spec wasm auths root endowed b evm e He)
    as (g & Hg & Hb & Hs).
  exists spec, g. split; [done|]. rewrite Hspec. split; [done|]. rewrite Hb, Hs.
  destruct Hor as [->|Hle]; [|by apply endowed_valid].
  apply (endowed_valid [] auths EXISTENTIAL_DEPOSIT Hnd). done.
Qed.

(** The issuance of a genesis is that of its balances. *)
Lemma network_supply_of spec g bs :
  cs_genesis spec = Some g → balances g = bs →
  zsum snd bs + zsum (λ p, EXISTENTIAL_DEPOSIT - balance_in bs p) runtime_pots = TOTAL_SUPPLY →
  network_supply (Ok spec) = Some TOTAL_SUPPLY.
Proof. intros Hg <- <-. unfold network_supply. by rewrite Hg. Qed.

Section Networks.
Context `{Keys}.

Definition dev_seeds : list string :=
  ["Alice"; "Bob"; "Charlie"; "Dave"; "Eve"; "Ferdie"; "Charlie//stash"; "Dave//stash";
   "Eve//stash"; "Ferdie//stash"; "Alice//stash"; "Bob//stash"]%string.

Lemma mainnet_genesis wasm :
  ∃ g, glitch_genesis_mainnet wasm mainnet_authorities
      0xd8d222c44e7b678dc07a1136ca146c8cf71d46d7327b67ab3d6abe3b4f83cb3d
      mainnet_endowed true endowed_evm_account = Some g
    ∧ balances g = initial_balances ∧ staking g = staking_genesis mainnet_authorities.
Proof.
  destruct (genesis_spec wasm mainnet_authorities
    0xd8d222c44e7b678dc07a1136ca146c8cf71d46d7327b67ab3d6abe3b4f83cb3d mainnet_endowed true
    endowed_evm_account 8789888770000000000000000) as (g & Hg & _ & Hs); [vm_compute; reflexivity|].
  exists (g <| balances := initial_balances |>). unfold glitch_genesis_mainnet. rewrite Hg. by split_and!.
Qed.

Lemma mainnet_balances :
  balances_valid initial_balances
  ∧ stakers_funded initial_balances (staking_genesis mainnet_authorities).
Proof.
  split; [apply (bool_decide_eq_true_1 (balances_valid _)) | apply (bool_decide_eq_true_1 (stakers_funded _ _))];
    vm_compute; reflexivity.
Qed.

Lemma published_accounts :
  NoDup (testnet_endowed ++ map auth_account testnet_authorities)
  ∧ NoDup (uat_endowed ++ map auth_account uat_authorities).
Proof. split; apply (bool_decide_eq_true_1 (NoDup _)); vm_compute; reflexivity. Qed.

(** C26: Every network starts: with a runtime in the node, the genesis of none of
    the five configurations panics, no account is listed twice, every balance
    reaches the existential deposit, and every authority has what it bonds; and
    the test network, the main network and the acceptance network have exactly
    the total supply. *)
Theorem networks_start wasm (Hseeds : NoDup (map get_account_id_from_seed dev_seeds)) :
  Forall network_starts
    [ development_config (Some wasm); local_testnet_config (Some wasm);
      glitch_testnet_config (Some wasm); glitch_mainnet_config (Some wasm);
      glitch_uat_config (Some wasm) ]
  ∧ Forall (λ c, network_supply c = Some TOTAL_SUPPLY)
    [ glitch_testnet_config (Some wasm); glitch_mainnet_config (Some wasm);
      glitch_uat_config (Some wasm) ].
Proof.
  destruct published_accounts as [Ht Hu]. destruct (mainnet_genesis wasm) as (gm & Hgm & Hbm & Hsm).
  destruct mainnet_balances as [Hmv Hmf].
  split; (repeat (apply Forall_cons; split); [..|by apply Forall_nil]).
  - eapply network_of_genesis; [reflexivity | reflexivity | apply NoDup_singleton | by left].
  - eapply network_of_genesis; [reflexivity | vm_compute; reflexivity | exact Hseeds | right].
    vm_compute. discriminate.
  - eapply network_of_genesis; [reflexivity | vm_compute; reflexivity | exact Ht | right].
    vm_compute. discriminate.
  - eexists _, gm. split; [reflexivity|]. split; [exact Hgm|]. rewrite Hbm, Hsm. exact (conj Hmv Hmf).
  - eapply network_of_genesis; [reflexivity | vm_compute; reflexivity | exact Hu | right].
    vm_compute. discriminate.
  - destruct (genesis_spec wasm testnet_authorities
      0x2cba3a171f0eac2c17fb96e1172de8bdfb5977d687be988c8c9c424e89ccf017 testnet_endowed true
      endowed_evm_account 8789888770000000000000000 ltac:(vm_compute; reflexivity)) as (g & Hg & Hb & _).
    eapply network_supply_of; [exact Hg | exact Hb | vm_compute; reflexivity].
  - eapply network_supply_of; [exact Hgm | exact Hbm | vm_compute; reflexivity].
  - destruct (genesis_spec wasm uat_authorities
      0x88b4fc7317577d1582969bbc2c3e179926e07c88a7507302fec5fd4f662a9567 uat_endowed true
      endowed_evm_account 87898887700000000000000000 ltac:(vm_compute; reflexivity)) as (g & Hg & Hb & _).
    eapply network_supply_of; [exact Hg | exact Hb | vm_compute; reflexivity].
Qed.
End Networks.

(** * The first validators *)

Section FirstValidators.
Context `{PerThingLaws} {cr : Currency} `{!CurrencyLaws} `{!StakingConfig} `{!VoterListRegenerate}.
Context `{!VoterListLaws}.
Implicit Types s : Store.

(** The addresses of accounts are looked up, and an account may be referred to. *)
Context (Hlookup : ∀ a, 0 ≤ a → lookup (unlookup a) = Some a).
Context (Hcons : ∀ a sy, inc_consumers a sy ≠ None).
Context (Hmin : minimum_balance ≤ STASH).

Definition first_ledger (a : AccountId) : StakingLedger :=
  {| stash := a; total := STASH; active := STASH; unlocking := []; claimed_rewards := [] |}.

(** The storage in which the accounts [l] bonded and validate, and nobody else. *)
Record validating (c : cur) (n : Z) (l : list AccountId) s : Prop := {
  va_bonded : bonded s = list_to_map (map (λ a, (a, a)) l);
  va_ledger : ledger s = list_to_map (map (λ a, (a, first_ledger a)) l);
  va_validators : validators_map s = list_to_map (map (λ a, (a, ValidatorPrefs_default)) l);
  va_nominators : nominators s = ∅;
  va_contains b : vl_contains b (voter_list s) = bool_decide (b ∈ l);
  va_count : vl_count (voter_list s) = length l;
  va_era : current_era s = None;
  va_limits : min_validator_bond s = 0 ∧ min_commission s = 0 ∧ max_validators_count s = None
    ∧ 0 ≤ history_depth s;
  va_counts : validator_count s = n ∧ minimum_validator_count s = n;
  va_free b : free_balance b (currency s) = free_balance b c;
}.

Lemma first_lookup {V} (f : AccountId → V) l a :
  a ∉ l → (list_to_map (map (λ a, (a, f a)) l) : gmap AccountId V) !! a = None.
Proof.
  intros Ha. apply not_elem_of_list_to_map. change (map (λ a, (a, f a)) l) with ((λ a, (a, f a)) <$> l).
  rewrite <- list_fmap_compose. cbn. by rewrite list_fmap_id.
Qed.

(** What bonding changes of the storage. *)
Definition bonded_one (a : AccountId) s s' : Prop :=
  bonded s' = <[a := a]> (bonded s) ∧ ledger s' = <[a := first_ledger a]> (ledger s)
  ∧ validators_map s' = validators_map s ∧ nominators s' = nominators s
  ∧ voter_list s' = voter_list s ∧ current_era s' = current_era s
  ∧ min_validator_bond s' = min_validator_bond s ∧ min_commission s' = min_commission s
  ∧ max_validators_count s' = max_validators_count s ∧ history_depth s' = history_depth s
  ∧ validator_count s' = validator_count s ∧ minimum_validator_count s' = minimum_validator_count s
  ∧ ∀ b, free_balance b (currency s') = free_balance b (currency s).

Lemma bond_validating c n l a s :
  validating c n l s → a ∉ l → 0 ≤ a → STASH ≤ free_balance a c →
  ∃ s', bond (Signed a) (unlookup a) STASH Staked s = (Ok tt, s') ∧ bonded_one a s s'.
Proof.
  intros [Hb Hl Hv Hn Hc Hct He (Hmb & Hmc & Hmx & Hhd) _ Hf] Ha Hpos Hfree. unfold bond. cbn [ensure_signed].
  rewrite (bind_step _ _ a s s) by done. rewrite (bind_step _ _ s s s) by done.
  rewrite (bind_step _ _ tt s s) by (apply ensure_true; rewrite Hb; by apply first_lookup).
  rewrite Hlookup by done. rewrite (bind_step _ _ a s s) by done.
  rewrite (bind_step _ _ tt s s) by (apply ensure_true; rewrite Hl; by apply first_lookup).
  rewrite (bind_step _ _ tt s s) by (by apply ensure_true).
  destruct (inc_consumers a (system s)) as [sy|] eqn:Hsy; [|by destruct (Hcons a (system s))].
  rewrite (bind_step _ _ sy s s) by done.
  eexists. split; [reflexivity|]. unfold bonded_one. cbn. rewrite He, Hf, Z.min_l by done. cbn [default].
  unfold sat_sub. rewrite Z.max_r by lia. split_and!; try done. intros b. apply set_lock_free.
Qed.

Lemma validate_validating a s vl :
  ledger s !! a = Some (first_ledger a) → validators_map s !! a = None → nominators s = ∅ →
  vl_on_insert a (weight_of s a) (voter_list s) = Some vl →
  min_validator_bond s = 0 ∧ min_commission s = 0 ∧ max_validators_count s = None ∧ 0 ≤ history_depth s →
  validate (Signed a) ValidatorPrefs_default s = (Ok tt,
    s <| voter_list := vl |> <| validators_map ::= insert a ValidatorPrefs_default |>
      <| events ::= λ l, l ++ [ValidatorPrefsSet a ValidatorPrefs_default] |>).
Proof.
  intros Hl Hv Hn Hvl (Hmb & Hmc & Hmx & Hhd). unfold validate. cbn [ensure_signed].
  rewrite (bind_step _ _ a s s) by done. rewrite (bind_step _ _ s s s) by done.
  rewrite Hl. rewrite (bind_step _ _ (first_ledger a) s s) by done. cbn [active stash first_ledger].
  rewrite (bind_step _ _ tt s s) by (apply ensure_true; rewrite Hmb; by vm_compute).
  rewrite (bind_step _ _ tt s s) by (apply ensure_true; rewrite Hmc; by vm_compute).
  rewrite (bind_step _ _ tt s s).
  2:{ unfold when. rewrite decide_True by done. by rewrite Hmx. }
  rewrite (bind_step _ _ false s s).
  2:{ unfold do_remove_nominator. rewrite (bind_step _ _ s s s) by done. by rewrite Hn, lookup_empty. }
  set (s1 := s <| voter_list := vl |> <| validators_map ::= insert a ValidatorPrefs_default |>).
  rewrite (bind_step _ _ tt s s1); [done|]. unfold do_add_validator.
  rewrite (bind_step _ _ s s s) by done. rewrite (bind_step _ _ tt s (s <| voter_list := vl |>)); [done|].
  unfold when. rewrite decide_True by done.
  trans (Ok tt : result Error unit, s <| voter_list :=
    default (voter_list s) (vl_on_insert a (weight_of s a) (voter_list s)) |>); [done|].
  by rewrite Hvl.
Qed.

Lemma staker_validating c n l a s :
  validating c n l s → a ∉ l → 0 ≤ a → STASH ≤ free_balance a c →
  ∃ s', genesis_staker s (a, a, STASH, StatusValidator) = Some s' ∧ validating c n (a :: l) s'.
Proof.
  intros Hs Ha Hpos Hfree. pose proof Hs as [Hb Hl Hv Hn Hc Hct He Hlim Hnum Hf].
  destruct (bond_validating c n l a s Hs Ha Hpos Hfree) as (s1 & Hbond & Hone).
  destruct Hone as (Hb1 & Hl1 & Hv1 & Hn1 & Hvl1 & He1 & Hmb1 & Hmc1 & Hmx1 & Hhd1 & Hvc1 & Hmv1 & Hf1).
  assert (vl_contains a (voter_list s1) = false) as Hout
    by (rewrite Hvl1, Hc; by apply bool_decide_eq_false).
  destruct (vl_on_insert a (weight_of s1 a) (voter_list s1)) as [vl|] eqn:Hvl.
  2:{ apply vl_insert_member in Hvl. congruence. }
  destruct (vl_insert_contains _ _ _ _ Hvl) as (_ & Hcount & Hcont).
  unfold genesis_staker. rewrite decide_True by (rewrite Hf; lia). unfold assert_ok. rewrite Hbond.
  cbn [mbind option_bind]. rewrite (validate_validating a s1 vl).
  - eexists. split; [reflexivity|]. split; cbn.
    + by rewrite Hb1, Hb.
    + by rewrite Hl1, Hl.
    + by rewrite Hv1, Hv.
    + by rewrite Hn1.
    + intros b. rewrite Hcont, Hvl1, Hc. by rewrite bool_decide_cons.
    + rewrite Hcount, Hvl1. by rewrite Hct.
    + by rewrite He1.
    + rewrite Hmb1, Hmc1, Hmx1, Hhd1. exact Hlim.
    + rewrite Hvc1, Hmv1. exact Hnum.
    + intros b. by rewrite Hf1.
  - by rewrite Hl1, lookup_insert_eq.
  - rewrite Hv1, Hv. by apply first_lookup.
  - by rewrite Hn1.
  - exact Hvl.
  - rewrite Hmb1, Hmc1, Hmx1, Hhd1. exact Hlim.
Qed.

Lemma stakers_validating c n accs : ∀ l s,
  validating c n l s → NoDup (reverse accs ++ l) → Forall (λ a, 0 ≤ a ∧ STASH ≤ free_balance a c) accs →
  ∃ s', genesis_stakers s (map (λ a, (a, a, STASH, StatusValidator)) accs) = Some s'
    ∧ validating c n (reverse accs ++ l) s'.
Proof.
  induction accs as [|a accs IH]; intros l s Hs Hnd Hfree; [by exists s|].
  rewrite reverse_cons, <- app_assoc in *. cbn [app] in *.
  apply Forall_cons in Hfree as [[Hpos Ha] Hfree].
  assert (a ∉ l) as Hal.
  { apply NoDup_app in Hnd as (_ & _ & Hnd). by apply NoDup_cons in Hnd as [? _]. }
  destruct (staker_validating c n l a s Hs Hal Hpos Ha) as (s1 & Hone & Hs1).
  destruct (IH (a :: l) s1 Hs1 Hnd Hfree) as (s' & Hs' & Hv').
  exists s'. split; [|done]. cbn [map genesis_stakers]. by rewrite Hone.
Qed.

(** C24: The staking pallet starts from the genesis of the chain: for different
    authorities that have the stash they bond, its genesis does not panic, and
    leaves each of them bonded with itself as controller, its whole stash
    active, and in the set of validators; nobody else is bonded. *)
Theorem genesis_authorities_validate auths c vl ss sy
    (Hempty : vl_count vl = 0%nat ∧ ∀ b, vl_contains b vl = false)
    (Hnd : NoDup (map auth_account auths)) (Hlen : Z.of_nat (length auths) < 2 ^ 32)
    (Hfunded : Forall (λ x, 0 ≤ auth_account x ∧ STASH ≤ free_balance (auth_account x) c) auths) :
  ∃ s, genesis_build (staking_genesis auths) (store_default c vl ss sy) = Some s
    ∧ staking_wf s
    ∧ (∀ x, x ∈ auths → let a := auth_account x in
         bonded s !! a = Some a ∧ validators_map s !! a = Some ValidatorPrefs_default
         ∧ ledger s !! a = Some (first_ledger a))
    ∧ (∀ a, a ∉ map auth_account auths → bonded s !! a = None)
    ∧ validator_count s = Z.of_nat (length auths) ∧ minimum_validator_count s = Z.of_nat (length auths).
Proof.
  set (accs := map auth_account auths) in *. set (g := staking_genesis auths).
  set (s0 := genesis_values g (store_default c vl ss sy)).
  assert ((Z.of_nat (length auths)) mod 2 ^ 32 = Z.of_nat (length auths)) as Hmod by (apply Z.mod_small; lia).
  assert (validating c (Z.of_nat (length auths)) [] s0) as Hs0.
  { destruct Hempty as [Hct Hc]. by split. }
  assert (Forall (λ a, 0 ≤ a ∧ STASH ≤ free_balance a c) accs) as Hfree by (by apply Forall_map).
  destruct (stakers_validating c _ accs [] s0 Hs0) as (s & Hst & Hv); [by rewrite app_nil_r, reverse_Permutation|done|].
  rewrite app_nil_r in Hv.
  assert (g_stakers g = map (λ a, (a, a, STASH, StatusValidator)) accs) as Hg.
  { unfold g, accs. cbn. by rewrite map_map. }
  assert (genesis_build g (store_default c vl ss sy) = Some s) as Hbuild.
  { unfold genesis_build. rewrite Hg. fold s0. rewrite Hst. cbn [mbind option_bind].
    destruct Hv as [_ _ Hval Hnom _ Hct _ _ _ _].
    rewrite decide_True; [done|]. rewrite Hct, Hval, Hnom. unfold count.
    rewrite map_size_list_to_map.
    2:{ change (map ?f (reverse accs)) with (f <$> reverse accs).
        rewrite <- list_fmap_compose. cbn. rewrite list_fmap_id. by rewrite reverse_Permutation. }
    rewrite map_size_empty, length_map, length_reverse. unfold wadd, accs. rewrite length_map.
    rewrite Z.add_0_l. done. }
  exists s. split; [exact Hbuild|]. split; [apply (genesis_wf g c vl ss sy); [|exact Hbuild]|].
  { unfold stakers_ok. rewrite Hg. apply Forall_map, Forall_true. intros a. cbn. vm_compute.
    split; congruence. }
  destruct Hv as [Hb Hl Hval _ _ _ _ _ [Hvc Hmv] _].
  assert (∀ {V} (f : AccountId → V) a, a ∈ accs →
    (list_to_map (map (λ a, (a, f a)) (reverse accs)) : gmap AccountId V) !! a = Some (f a)) as Hin.
  { intros V f a Ha. apply elem_of_list_to_map.
    - change (map ?h (reverse accs)) with (h <$> reverse accs).
      rewrite <- list_fmap_compose. cbn. rewrite list_fmap_id. by rewrite reverse_Permutation.
    - apply list_elem_of_fmap. exists a. by rewrite elem_of_reverse. }
  split_and!; [|intros a Ha|exact Hvc|exact Hmv].
  - intros x Hx a. assert (a ∈ accs) as Ha by (apply list_elem_of_fmap; by exists x).
    rewrite Hb, Hval, Hl. split_and!; [by apply (Hin _ id) | | by apply Hin].
    by apply (Hin _ (λ _, ValidatorPrefs_default)).
  - rewrite Hb. apply first_lookup. by rewrite elem_of_reverse.
Qed.
End FirstValidators.

(** * Concrete inputs *)

Section Examples.
#[local] Instance ex_keys : Keys := {| pair_from_string _ s := Zpos (encode s); into_account := id |}.

(** The networks of the examples have different accounts for different seeds. *)
Lemma networks_start_witness : network_supply (glitch_mainnet_config (Some [])) = Some TOTAL_SUPPLY.
Proof.
  assert (NoDup (map get_account_id_from_seed dev_seeds)) as Hseeds.
  { apply (bool_decide_eq_true_1 (NoDup _)). vm_compute. reflexivity. }
  destruct (networks_start [] Hseeds) as [_ Hall].
  apply Forall_cons in Hall as [_ Hall]. by apply Forall_cons in Hall as [Hmain _].
Defined.

Lemma genesis_total_supply_witness :
  match glitch_genesis [] uat_authorities 0 uat_endowed true ∅ with
  | Some g => genesis_issuance runtime_pots g = TOTAL_SUPPLY
  | None => False
  end.
Proof.
  pose proof (genesis_total_supply [] uat_authorities 0 uat_endowed true ∅ runtime_pots) as Ht.
  destruct (genesis_spec [] uat_authorities 0 uat_endowed true ∅ 87898887700000000000000000)
    as (g & Hg & _); [vm_compute; reflexivity|].
  rewrite Hg in *. apply Ht.
  - split; vm_compute; congruence.
  - discriminate.
  - reflexivity.
  - apply (bool_decide_eq_true_1 (Forall _ _)). vm_compute. reflexivity.
Defined.

#[local] Existing Instances TestPerThing TestPerThing_laws TestCurrency TestCurrency_laws
  ex_staking ex_regenerate ex_voter_list_laws.

Definition uat_cur : test_cur :=
  TestCur (list_to_map (map (λ x, (auth_account x, AUTHOR_BALANCE)) uat_authorities)) TOTAL_SUPPLY ∅.

Lemma genesis_authorities_validate_witness :
  ∃ s, genesis_build (staking_genesis uat_authorities) (store_default uat_cur [] ([], []) ∅) = Some s
    ∧ staking_wf s ∧ bonded s !! 0x1408fed1c2d32cf914326b1ec33edbeb4427fdaf411e27f9dd77b6bcaf280f54
        = Some 0x1408fed1c2d32cf914326b1ec33edbeb4427fdaf411e27f9dd77b6bcaf280f54.
Proof.
  assert (∀ a, 0 ≤ a → lookup (unlookup a) = Some a) as Hlookup
    by (intros a Ha; cbn; by rewrite decide_True).
  assert (∀ a sy, inc_consumers a sy ≠ None) as Hcons by done.
  assert (minimum_balance ≤ STASH) as Hmin by (vm_compute; discriminate).
  destruct (genesis_authorities_validate Hlookup Hcons Hmin uat_authorities uat_cur [] ([], []) ∅)
    as (s & Hs & Hwf & Hin & _).
  - split; [reflexivity|]. intros b. by apply bool_decide_eq_false, not_elem_of_nil.
  - apply (bool_decide_eq_true_1 (NoDup _)). vm_compute. reflexivity.
  - vm_compute. reflexivity.
  - apply (bool_decide_eq_true_1 (Forall _ _)). vm_compute. reflexivity.
  - exists s. split; [exact Hs|]. split; [exact Hwf|].
    refine (proj1 (Hin (nth 1 uat_authorities (0, 0, 0, 0, 0)) _)).
    unfold uat_authorities. cbn [nth]. apply list_elem_of_further, list_elem_of_here.
Defined.
End Examples.
