(* ===== verification/Node.v ===== *)
(** What the node decides itself before it hands over to third-party services
    ([node/src/command.rs], [rpc.rs], [service.rs], [cli.rs]): which chain a name
    on the command line stands for, the code that is exported from a chain, which
    tracing services are offered, how long a log filter lives, and the defaults of
    the command line. *)

From Stdlib Require Import ZArith Lia.
From stdpp Require Import base option list gmap strings.
From S2P Require Import Prelude Interfaces ChainSpec.
#[local] Open Scope Z_scope.

(** * Chains ([load_spec], [extract_genesis_wasm]) *)

Section Chains.
Context `{Keys}.

(** The runtime built into the node, and chains described by a file. *)
Variable wasm_binary : option (list Z).
Variable from_json_file : string → result string ChainSpec.

Definition load_spec (id : string) : result string ChainSpec :=
  if decide (id = "dev"%string) then development_config wasm_binary else
  if decide (id = "local"%string) then local_testnet_config wasm_binary else
  if decide (id = "glitch_testnet"%string) then glitch_testnet_config wasm_binary else
  if decide (id = "glitch_mainnet"%string) then glitch_mainnet_config wasm_binary else
  if decide (id = "glitch_uat"%string) then glitch_uat_config wasm_binary else
  if decide (id = EmptyString ∨ id = "testnet"%string) then glitch_testnet_config wasm_binary else
  if decide (id = "mainnet"%string) then glitch_mainnet_config wasm_binary else
  if decide (id = "uat"%string) then glitch_uat_config wasm_binary else
  from_json_file id.

(** The storage of the genesis by its keys, and the key of the code. *)
Variable build_storage : ChainSpec → result string (gmap (list Z) (list Z)).
Variable CODE : list Z.

Definition extract_genesis_wasm (chain_spec : ChainSpec) : result string (list Z) :=
  match build_storage chain_spec with
  | Err e => Err e
  | Ok storage =>
      match storage !! CODE with
      | Some wasm => Ok wasm
      | None => Err "Could not find wasm file in genesis state!"%string
      end
  end.

(** The names the node knows; every other one is a path. *)
Definition network_names : list string :=
  ["dev"; "local"; "glitch_testnet"; "glitch_mainnet"; "glitch_uat"; EmptyString; "testnet";
   "mainnet"; "uat"]%string.

Lemma load_spec_path id : id ∉ network_names → load_spec id = from_json_file id.
Proof.
  unfold network_names. intros Hid. repeat (apply not_elem_of_cons in Hid as [? Hid]).
  unfold load_spec. by rewrite !decide_False by tauto.
Qed.

(** The genesis of a chain has the code of its runtime under the key. *)
Hypothesis build_storage_code : ∀ spec g,
  cs_genesis spec = Some g →
  ∃ storage, build_storage spec = Ok storage ∧ storage !! CODE = Some (system_code g).

Lemma glitch_genesis_code wasm auths root endowed println eth g :
  glitch_genesis wasm auths root endowed println eth = Some g → system_code g = wasm.
Proof. unfold glitch_genesis. by intros (e & _ & [= <-])%bind_Some. Qed.

Lemma glitch_genesis_mainnet_code wasm auths root endowed println eth g :
  glitch_genesis_mainnet wasm auths root endowed println eth = Some g → system_code g = wasm.
Proof.
  unfold glitch_genesis_mainnet. intros (g0 & Hg & [= <-])%bind_Some.
  by apply glitch_genesis_code in Hg.
Qed.

(** The genesis of each network carries the runtime of the node. *)
Definition carries (wasm : list Z) (r : result string ChainSpec) : Prop :=
  ∃ spec, r = Ok spec ∧ ∀ g, cs_genesis spec = Some g → system_code g = wasm.

Lemma networks_carry wasm :
  carries wasm (development_config (Some wasm)) ∧ carries wasm (local_testnet_config (Some wasm))
  ∧ carries wasm (glitch_testnet_config (Some wasm)) ∧ carries wasm (glitch_mainnet_config (Some wasm))
  ∧ carries wasm (glitch_uat_config (Some wasm)).
Proof.
  split_and!; eexists; (split; [reflexivity|]); intros g Hg; cbn [cs_genesis] in Hg.
  - eapply glitch_genesis_code; exact Hg.
  - eapply glitch_genesis_code; exact Hg.
  - eapply glitch_genesis_code; exact Hg.
  - eapply glitch_genesis_mainnet_code; exact Hg.
  - eapply glitch_genesis_code; exact Hg.
Qed.

Lemma networks_absent :
  is_ok (development_config None) = false ∧ is_ok (local_testnet_config None) = false
  ∧ is_ok (glitch_testnet_config None) = false ∧ is_ok (glitch_mainnet_config None) = false
  ∧ is_ok (glitch_uat_config None) = false.
Proof. done. Qed.

(** A name of a network is the name of one of the five. *)
Lemma load_spec_network (P : result string ChainSpec → Prop) id :
  P (development_config wasm_binary) ∧ P (local_testnet_config wasm_binary)
  ∧ P (glitch_testnet_config wasm_binary) ∧ P (glitch_mainnet_config wasm_binary)
  ∧ P (glitch_uat_config wasm_binary) → id ∈ network_names → P (load_spec id).
Proof.
  unfold load_spec, network_names. rewrite !elem_of_cons.
  generalize (development_config wasm_binary), (local_testnet_config wasm_binary),
    (glitch_testnet_config wasm_binary), (glitch_mainnet_config wasm_binary),
    (glitch_uat_config wasm_binary).
  intros dev local test main uat (Hd & Hl & Ht & Hm & Hu) Hin.
  repeat case_decide; try assumption. pose proof (not_elem_of_nil id). tauto.
Qed.

(** A node with a runtime knows every network by its names, and what it exports
    from one is its runtime. *)
Theorem export_network wasm id :
  wasm_binary = Some wasm → id ∈ network_names →
  ∃ spec, load_spec id = Ok spec ∧
    (is_Some (cs_genesis spec) → extract_genesis_wasm spec = Ok wasm).
Proof.
  intros Hw Hin.
  assert (carries wasm (load_spec id)) as (spec & Hspec & Hcode).
  { apply load_spec_network; [|done]. rewrite Hw. apply networks_carry. }
  exists spec. split; [done|]. intros [g Hg].
  destruct (build_storage_code spec g Hg) as (st & Hb & Hl).
  unfold extract_genesis_wasm. by rewrite Hb, Hl, (Hcode g Hg).
Qed.

(** A node without a runtime knows no network. *)
Lemma load_spec_no_wasm id :
  wasm_binary = None → id ∈ network_names → is_ok (load_spec id) = false.
Proof.
  intros Hw Hin. apply (load_spec_network (λ r, is_ok r = false)); [|done].
  rewrite Hw. exact networks_absent.
Qed.
End Chains.

(** * Tracing services ([EthApiCmd], [create_rpc_requesters]) *)

Inductive EthApiCmd := DebugApi | TraceApi.

#[export] Instance EthApiCmd_eq_dec : EqDecision EthApiCmd.
Proof. solve_decision. Defined.

Definition EthApiCmd_from_str (s : string) : result string EthApiCmd :=
  if decide (s = "debug"%string) then Ok DebugApi else
  if decide (s = "trace"%string) then Ok TraceApi else
  Err ("`" +:+ s +:+ "` is not recognized as a supported Ethereum Api")%string.

Record RpcConfig := {
  ethapi : list EthApiCmd;
  ethapi_max_permits : Z;
  ethapi_trace_max_count : Z;
  ethapi_trace_cache_duration : Z;
  eth_log_block_cache : Z;
  max_past_logs : Z;
}.

(** The defaults of the command line. *)
Definition RunCmd_default : RpcConfig := {|
  ethapi := []; ethapi_max_permits := 10; ethapi_trace_max_count := 500;
  ethapi_trace_cache_duration := 300; eth_log_block_cache := 3000; max_past_logs := 10000 |}.
Definition fee_history_limit_default : Z := 2048.
Definition p2p_listen_port : Z := 30333.
Definition rpc_ws_listen_port : Z := 9944.
Definition rpc_http_listen_port : Z := 9933.
Definition prometheus_listen_port : Z := 9615.

Section Requesters.
(** The requesters of the tasks, started with a pool of permits and, for the trace
    filter, the time a block stays in its cache. *)
Context {DebugRequester TraceRequester : Type}.
Variable DebugTask_task : Z → DebugRequester.
Variable CacheTask_create : Z → Z → TraceRequester.

Record RpcRequesters := {
  req_debug : option DebugRequester;
  req_trace : option TraceRequester;
}.

Definition create_rpc_requesters (c : RpcConfig) : RpcRequesters :=
  if decide (DebugApi ∈ ethapi c ∨ TraceApi ∈ ethapi c) then
    let permit_pool := ethapi_max_permits c in
    let trace := if decide (TraceApi ∈ ethapi c)
                 then Some (CacheTask_create (ethapi_trace_cache_duration c) permit_pool) else None in
    let debug := if decide (DebugApi ∈ ethapi c)
                 then Some (DebugTask_task permit_pool) else None in
    {| req_debug := debug; req_trace := trace |}
  else {| req_debug := None; req_trace := None |}.

(** A service is offered if and only if it was asked for. *)
Lemma requesters_offered c :
  (is_Some (req_debug (create_rpc_requesters c)) ↔ DebugApi ∈ ethapi c)
  ∧ (is_Some (req_trace (create_rpc_requesters c)) ↔ TraceApi ∈ ethapi c).
Proof.
  unfold create_rpc_requesters. rewrite <- !not_eq_None_Some.
  repeat case_decide; cbn; split; split; intuition congruence.
Qed.
End Requesters.

(** * Log filters ([start_node_impl]) *)

Section Filters.
Context {Filter : Type} (at_block : Filter → Z).

(** The filters an RPC client left, by their number. *)
Abbreviation FilterPool := (gmap Z Filter).

Definition FILTER_RETAIN_THRESHOLD : Z := 100.

(** What happens when a block is imported: the loop over a clone of the pool. *)
Definition retain_step (imported_number : Z) (pool : FilterPool) (kv : Z * Filter) : FilterPool :=
  let lifespan_limit := wadd 64 (at_block kv.2) FILTER_RETAIN_THRESHOLD in
  if decide (lifespan_limit ≤ imported_number) then delete kv.1 pool else pool.

Definition retain_filters (imported_number : Z) (pool : FilterPool) : FilterPool :=
  foldl (retain_step imported_number) pool (map_to_list pool).

Lemma retain_fold n l : ∀ (pool : FilterPool) k,
  foldl (retain_step n) pool l !! k =
    if decide (k ∈ fst <$> filter (λ kv, wadd 64 (at_block kv.2) FILTER_RETAIN_THRESHOLD ≤ n) l)
    then None else pool !! k.
Proof.
  induction l as [|[i f] l IH]; intros pool k; cbn [foldl].
  { by rewrite decide_False by apply not_elem_of_nil. }
  rewrite IH, filter_cons. unfold retain_step. cbn [fst snd].
  destruct (decide (wadd 64 (at_block f) FILTER_RETAIN_THRESHOLD ≤ n)) as [Hd|Hd]; [|done].
  rewrite fmap_cons, lookup_delete. cbn [fst].
  destruct (decide (k ∈ fst <$> _)) as [Hin|Hin].
  - by rewrite decide_True by by apply elem_of_cons; right.
  - destruct (decide (i = k)) as [->|Hne].
    + by rewrite decide_True by apply list_elem_of_here.
    + rewrite decide_False; [done|]. rewrite elem_of_cons. naive_solver.
Qed.

(** A filter is kept for a hundred blocks: it is there after a block was imported
    if it was there before and is younger than that. *)
Theorem retain_filters_correct n pool k f
    (Hat : 0 ≤ at_block f) (Hfar : at_block f + FILTER_RETAIN_THRESHOLD < 2 ^ 64) :
  pool !! k = Some f →
  retain_filters n pool !! k =
    if decide (n < at_block f + FILTER_RETAIN_THRESHOLD) then Some f else None.
Proof.
  intros Hk. unfold retain_filters. rewrite retain_fold, Hk.
  assert (wadd 64 (at_block f) FILTER_RETAIN_THRESHOLD = at_block f + FILTER_RETAIN_THRESHOLD) as Hw
    by (apply wadd_small; unfold FILTER_RETAIN_THRESHOLD in *; ulia).
  assert (k ∈ fst <$> filter (λ kv, wadd 64 (at_block kv.2) FILTER_RETAIN_THRESHOLD ≤ n)
            (map_to_list pool) ↔ at_block f + FILTER_RETAIN_THRESHOLD ≤ n) as Hiff.
  { rewrite <- Hw. rewrite list_elem_of_fmap. split.
    - intros ([k' f'] & -> & [Hle Hin]%list_elem_of_filter). apply elem_of_map_to_list in Hin.
      cbn in *. congruence.
    - intros Hle. exists (k, f). split; [done|]. apply list_elem_of_filter. split; [done|].
      by apply elem_of_map_to_list. }
  destruct (decide (_ ∈ _)) as [Hin|Hin]; rewrite Hiff in Hin.
  - by rewrite decide_False by lia.
  - by rewrite decide_True by lia.
Qed.

(** And none appears. *)
Lemma retain_filters_none n pool k : pool !! k = None → retain_filters n pool !! k = None.
Proof. intros Hk. unfold retain_filters. rewrite retain_fold, Hk. by case_decide. Qed.
End Filters.
