(* ===== verification/Weights.v ===== *)
(** The weights of the calls of the staking pallet: what they declare before
    they run ([#[pallet::weight(..)]] of [frame/staking/src/pallet/mod.rs]), the
    interface the pallet asks them from ([trait WeightInfo] of
    [frame/staking/src/weights.rs]) and its three implementations: the one of the
    pallet's benchmarks, the one for tests ([()]), and the one the runtime uses
    ([runtime/src/weights/pallet_staking.rs]).  The weight of storage accesses,
    [T::DbWeight], is a parameter. *)

From Stdlib Require Import ZArith Lia.
From stdpp Require Import base option list.
From S2P Require Import Prelude Interfaces StakingState StakingInvariant.
#[local] Open Scope Z_scope.

(** * Weights *)

Declare Scope weight_scope.
Delimit Scope weight_scope with weight.
(** A weight is a [u64], a count a [u32] cast to it. *)
Abbreviation Weight := Z (only parsing).
Notation "a ⊕ b" := (sat_add 64 a b) (at level 50, left associativity) : weight_scope.
Notation "a ⊗ b" := (sat_mul 64 a b) (at level 40, left associativity) : weight_scope.
#[local] Open Scope weight_scope.

(** [RuntimeDbWeight]: the weight of a number of reads or writes. *)
Class DbWeight := {
  reads : Z → Weight;
  writes : Z → Weight;
}.

(** More accesses weigh more, and the weight of a number of accesses is a
    [u64]. *)
Class DbWeightLaws `{DbWeight} := {
  reads_range n : 0 ≤ n → in_u 64 (reads n);
  writes_range n : 0 ≤ n → in_u 64 (writes n);
  reads_mono a b : 0 ≤ a ≤ b → reads a ≤ reads b;
  writes_mono a b : 0 ≤ a ≤ b → writes a ≤ writes b;
}.

(** * The interface *)

Class WeightInfo := {
  w_bond : Weight;
  w_bond_extra : Weight;
  w_unbond : Weight;
  w_withdraw_unbonded_update : Z → Weight;
  w_withdraw_unbonded_kill : Z → Weight;
  w_validate : Weight;
  w_kick : Z → Weight;
  w_nominate : Z → Weight;
  w_chill : Weight;
  w_set_payee : Weight;
  w_set_controller : Weight;
  w_set_validator_count : Weight;
  w_force_no_eras : Weight;
  w_force_new_era : Weight;
  w_force_new_era_always : Weight;
  w_set_invulnerables : Z → Weight;
  w_force_unstake : Z → Weight;
  w_cancel_deferred_slash : Z → Weight;
  w_payout_stakers_dead_controller : Z → Weight;
  w_payout_stakers_alive_staked : Z → Weight;
  w_rebond : Z → Weight;
  w_set_history_depth : Z → Weight;
  w_reap_stash : Z → Weight;
  w_new_era : Z → Z → Weight;
  w_get_npos_voters : Z → Z → Z → Weight;
  w_get_npos_targets : Z → Weight;
  w_set_staking_configs_all_set : Weight;
  w_set_staking_configs_all_remove : Weight;
  w_chill_other : Weight;
  w_force_apply_min_commission : Weight;
}.

(** * The benchmarks of the pallet ([SubstrateWeight]) *)

Section Substrate.
Context `{DbWeight}.

Definition substrate_bond : Weight := 43992000 ⊕ reads 5 ⊕ writes 4.
Definition substrate_bond_extra : Weight := 75827000 ⊕ reads 8 ⊕ writes 7.
Definition substrate_unbond : Weight := 81075000 ⊕ reads 12 ⊕ writes 8.
Definition substrate_withdraw_unbonded_update (s : Z) : Weight :=
  35763000 ⊕ 57000 ⊗ s ⊕ reads 4 ⊕ writes 3.
Definition substrate_withdraw_unbonded_kill (_s : Z) : Weight := 66938000 ⊕ reads 13 ⊕ writes 11.
Definition substrate_validate : Weight := 52943000 ⊕ reads 11 ⊕ writes 5.
Definition substrate_kick (k : Z) : Weight :=
  23264000 ⊕ 8006000 ⊗ k ⊕ reads 1 ⊕ reads (1 ⊗ k) ⊕ writes (1 ⊗ k).
Definition substrate_nominate (n : Z) : Weight :=
  56596000 ⊕ 3644000 ⊗ n ⊕ reads 12 ⊕ reads (1 ⊗ n) ⊕ writes 6.
Definition substrate_chill : Weight := 51117000 ⊕ reads 8 ⊕ writes 6.
Definition substrate_set_payee : Weight := 11223000 ⊕ reads 1 ⊕ writes 1.
Definition substrate_set_controller : Weight := 19826000 ⊕ reads 3 ⊕ writes 3.
Definition substrate_set_validator_count : Weight := 3789000 ⊕ writes 1.
Definition substrate_force_no_eras : Weight := 3793000 ⊕ writes 1.
Definition substrate_force_new_era : Weight := 3802000 ⊕ writes 1.
Definition substrate_force_new_era_always : Weight := 3762000 ⊕ writes 1.
Definition substrate_set_invulnerables (v : Z) : Weight := 4318000 ⊕ 10000 ⊗ v ⊕ writes 1.
Definition substrate_force_unstake (s : Z) : Weight :=
  65265000 ⊕ 1029000 ⊗ s ⊕ reads 11 ⊕ writes 12 ⊕ writes (1 ⊗ s).
Definition substrate_cancel_deferred_slash (s : Z) : Weight :=
  903312000 ⊕ 4968000 ⊗ s ⊕ reads 1 ⊕ writes 1.
Definition substrate_payout_stakers_dead_controller (n : Z) : Weight :=
  87569000 ⊕ 24232000 ⊗ n ⊕ reads 10 ⊕ reads (3 ⊗ n) ⊕ writes 2 ⊕ writes (1 ⊗ n).
Definition substrate_payout_stakers_alive_staked (n : Z) : Weight :=
  98839000 ⊕ 34480000 ⊗ n ⊕ reads 11 ⊕ reads (5 ⊗ n) ⊕ writes 3 ⊕ writes (3 ⊗ n).
Definition substrate_rebond (l : Z) : Weight := 74865000 ⊕ 64000 ⊗ l ⊕ reads 9 ⊕ writes 8.
Definition substrate_set_history_depth (e : Z) : Weight :=
  0 ⊕ 22829000 ⊗ e ⊕ reads 2 ⊕ writes 4 ⊕ writes (7 ⊗ e).
Definition substrate_reap_stash (s : Z) : Weight :=
  70933000 ⊕ 1021000 ⊗ s ⊕ reads 12 ⊕ writes 12 ⊕ writes (1 ⊗ s).
Definition substrate_new_era (v : Z) (n : Z) : Weight :=
  0 ⊕ 213100000 ⊗ v ⊕ 31123000 ⊗ n ⊕ reads 208 ⊕ reads (5 ⊗ v) ⊕ reads (4 ⊗ n) ⊕ writes 3
    ⊕ writes (3 ⊗ v).
Definition substrate_get_npos_voters (v : Z) (n : Z) (s : Z) : Weight :=
  0 ⊕ 23745000 ⊗ v ⊕ 22497000 ⊗ n ⊕ 20676000 ⊗ s ⊕ reads 202 ⊕ reads (5 ⊗ v) ⊕ reads (4 ⊗ n)
    ⊕ reads (1 ⊗ s).
Definition substrate_get_npos_targets (v : Z) : Weight := 0 ⊕ 8097000 ⊗ v ⊕ reads 1 ⊕ reads (1 ⊗ v).
Definition substrate_set_staking_configs_all_set : Weight := 7041000 ⊕ writes 6.
Definition substrate_set_staking_configs_all_remove : Weight := 6495000 ⊕ writes 6.
Definition substrate_chill_other : Weight := 62014000 ⊕ reads 11 ⊕ writes 6.
Definition substrate_force_apply_min_commission : Weight := 12814000 ⊕ reads 2 ⊕ writes 1.

Definition SubstrateWeight : WeightInfo := {|
  w_bond := substrate_bond;
  w_bond_extra := substrate_bond_extra;
  w_unbond := substrate_unbond;
  w_withdraw_unbonded_update := substrate_withdraw_unbonded_update;
  w_withdraw_unbonded_kill := substrate_withdraw_unbonded_kill;
  w_validate := substrate_validate;
  w_kick := substrate_kick;
  w_nominate := substrate_nominate;
  w_chill := substrate_chill;
  w_set_payee := substrate_set_payee;
  w_set_controller := substrate_set_controller;
  w_set_validator_count := substrate_set_validator_count;
  w_force_no_eras := substrate_force_no_eras;
  w_force_new_era := substrate_force_new_era;
  w_force_new_era_always := substrate_force_new_era_always;
  w_set_invulnerables := substrate_set_invulnerables;
  w_force_unstake := substrate_force_unstake;
  w_cancel_deferred_slash := substrate_cancel_deferred_slash;
  w_payout_stakers_dead_controller := substrate_payout_stakers_dead_controller;
  w_payout_stakers_alive_staked := substrate_payout_stakers_alive_staked;
  w_rebond := substrate_rebond;
  w_set_history_depth := substrate_set_history_depth;
  w_reap_stash := substrate_reap_stash;
  w_new_era := substrate_new_era;
  w_get_npos_voters := substrate_get_npos_voters;
  w_get_npos_targets := substrate_get_npos_targets;
  w_set_staking_configs_all_set := substrate_set_staking_configs_all_set;
  w_set_staking_configs_all_remove := substrate_set_staking_configs_all_remove;
  w_chill_other := substrate_chill_other;
  w_force_apply_min_commission := substrate_force_apply_min_commission
|}.
End Substrate.

(** * The weights for tests ([()]), with the storage weights of RocksDB *)

Section Unit.
Context (RocksDbWeight : DbWeight).
#[local] Existing Instance RocksDbWeight.

Definition unit_bond : Weight := 43992000 ⊕ reads 5 ⊕ writes 4.
Definition unit_bond_extra : Weight := 75827000 ⊕ reads 8 ⊕ writes 7.
Definition unit_unbond : Weight := 81075000 ⊕ reads 12 ⊕ writes 8.
Definition unit_withdraw_unbonded_update (s : Z) : Weight :=
  35763000 ⊕ 57000 ⊗ s ⊕ reads 4 ⊕ writes 3.
Definition unit_withdraw_unbonded_kill (_s : Z) : Weight := 66938000 ⊕ reads 13 ⊕ writes 11.
Definition unit_validate : Weight := 52943000 ⊕ reads 11 ⊕ writes 5.
Definition unit_kick (k : Z) : Weight :=
  23264000 ⊕ 8006000 ⊗ k ⊕ reads 1 ⊕ reads (1 ⊗ k) ⊕ writes (1 ⊗ k).
Definition unit_nominate (n : Z) : Weight :=
  56596000 ⊕ 3644000 ⊗ n ⊕ reads 12 ⊕ reads (1 ⊗ n) ⊕ writes 6.
Definition unit_chill : Weight := 51117000 ⊕ reads 8 ⊕ writes 6.
Definition unit_set_payee : Weight := 11223000 ⊕ reads 1 ⊕ writes 1.
Definition unit_set_controller : Weight := 19826000 ⊕ reads 3 ⊕ writes 3.
Definition unit_set_validator_count : Weight := 3789000 ⊕ writes 1.
Definition unit_force_no_eras : Weight := 3793000 ⊕ writes 1.
Definition unit_force_new_era : Weight := 3802000 ⊕ writes 1.
Definition unit_force_new_era_always : Weight := 3762000 ⊕ writes 1.
Definition unit_set_invulnerables (v : Z) : Weight := 4318000 ⊕ 10000 ⊗ v ⊕ writes 1.
Definition unit_force_unstake (s : Z) : Weight :=
  65265000 ⊕ 1029000 ⊗ s ⊕ reads 11 ⊕ writes 12 ⊕ writes (1 ⊗ s).
Definition unit_cancel_deferred_slash (s : Z) : Weight :=
  903312000 ⊕ 4968000 ⊗ s ⊕ reads 1 ⊕ writes 1.
Definition unit_payout_stakers_dead_controller (n : Z) : Weight :=
  87569000 ⊕ 24232000 ⊗ n ⊕ reads 10 ⊕ reads (3 ⊗ n) ⊕ writes 2 ⊕ writes (1 ⊗ n).
Definition unit_payout_stakers_alive_staked (n : Z) : Weight :=
  98839000 ⊕ 34480000 ⊗ n ⊕ reads 11 ⊕ reads (5 ⊗ n) ⊕ writes 3 ⊕ writes (3 ⊗ n).
Definition unit_rebond (l : Z) : Weight := 74865000 ⊕ 64000 ⊗ l ⊕ reads 9 ⊕ writes 8.
Definition unit_set_history_depth (e : Z) : Weight :=
  0 ⊕ 22829000 ⊗ e ⊕ reads 2 ⊕ writes 4 ⊕ writes (7 ⊗ e).
Definition unit_reap_stash (s : Z) : Weight :=
  70933000 ⊕ 1021000 ⊗ s ⊕ reads 12 ⊕ writes 12 ⊕ writes (1 ⊗ s).
Definition unit_new_era (v : Z) (n : Z) : Weight :=
  0 ⊕ 213100000 ⊗ v ⊕ 31123000 ⊗ n ⊕ reads 208 ⊕ reads (5 ⊗ v) ⊕ reads (4 ⊗ n) ⊕ writes 3
    ⊕ writes (3 ⊗ v).
Definition unit_get_npos_voters (v : Z) (n : Z) (s : Z) : Weight :=
  0 ⊕ 23745000 ⊗ v ⊕ 22497000 ⊗ n ⊕ 20676000 ⊗ s ⊕ reads 202 ⊕ reads (5 ⊗ v) ⊕ reads (4 ⊗ n)
    ⊕ reads (1 ⊗ s).
Definition unit_get_npos_targets (v : Z) : Weight := 0 ⊕ 8097000 ⊗ v ⊕ reads 1 ⊕ reads (1 ⊗ v).
Definition unit_set_staking_configs_all_set : Weight := 7041000 ⊕ writes 6.
Definition unit_set_staking_configs_all_remove : Weight := 6495000 ⊕ writes 6.
Definition unit_chill_other : Weight := 62014000 ⊕ reads 11 ⊕ writes 6.
Definition unit_force_apply_min_commission : Weight := 12814000 ⊕ reads 2 ⊕ writes 1.

Definition UnitWeight : WeightInfo := {|
  w_bond := unit_bond;
  w_bond_extra := unit_bond_extra;
  w_unbond := unit_unbond;
  w_withdraw_unbonded_update := unit_withdraw_unbonded_update;
  w_withdraw_unbonded_kill := unit_withdraw_unbonded_kill;
  w_validate := unit_validate;
  w_kick := unit_kick;
  w_nominate := unit_nominate;
  w_chill := unit_chill;
  w_set_payee := unit_set_payee;
  w_set_controller := unit_set_controller;
  w_set_validator_count := unit_set_validator_count;
  w_force_no_eras := unit_force_no_eras;
  w_force_new_era := unit_force_new_era;
  w_force_new_era_always := unit_force_new_era_always;
  w_set_invulnerables := unit_set_invulnerables;
  w_force_unstake := unit_force_unstake;
  w_cancel_deferred_slash := unit_cancel_deferred_slash;
  w_payout_stakers_dead_controller := unit_payout_stakers_dead_controller;
  w_payout_stakers_alive_staked := unit_payout_stakers_alive_staked;
  w_rebond := unit_rebond;
  w_set_history_depth := unit_set_history_depth;
  w_reap_stash := unit_reap_stash;
  w_new_era := unit_new_era;
  w_get_npos_voters := unit_get_npos_voters;
  w_get_npos_targets := unit_get_npos_targets;
  w_set_staking_configs_all_set := unit_set_staking_configs_all_set;
  w_set_staking_configs_all_remove := unit_set_staking_configs_all_remove;
  w_chill_other := unit_chill_other;
  w_force_apply_min_commission := unit_force_apply_min_commission
|}.
End Unit.

(** * The weights of the runtime *)

Section RuntimeWeights.
Context `{DbWeight}.

Definition runtime_bond : Weight := 40217000 ⊕ reads 5 ⊕ writes 4.
Definition runtime_bond_extra : Weight := 70563000 ⊕ reads 8 ⊕ writes 7.
Definition runtime_unbond : Weight := 74967000 ⊕ reads 12 ⊕ writes 8.
Definition runtime_withdraw_unbonded_update (s : Z) : Weight :=
  31513000 ⊕ 31000 ⊗ s ⊕ reads 4 ⊕ writes 3.
Definition runtime_withdraw_unbonded_kill (_s : Z) : Weight := 61331000 ⊕ reads 13 ⊕ writes 11.
Definition runtime_validate : Weight := 50296000 ⊕ reads 11 ⊕ writes 5.
Definition runtime_kick (k : Z) : Weight :=
  10749000 ⊕ 8498000 ⊗ k ⊕ reads 1 ⊕ reads (1 ⊗ k) ⊕ writes (1 ⊗ k).
Definition runtime_nominate (n : Z) : Weight :=
  51848000 ⊕ 3265000 ⊗ n ⊕ reads 12 ⊕ reads (1 ⊗ n) ⊕ writes 6.
Definition runtime_chill : Weight := 46431000 ⊕ reads 8 ⊕ writes 6.
Definition runtime_set_payee : Weight := 10156000 ⊕ reads 1 ⊕ writes 1.
Definition runtime_set_controller : Weight := 17521000 ⊕ reads 3 ⊕ writes 3.
Definition runtime_set_validator_count : Weight := 3564000 ⊕ writes 1.
Definition runtime_force_no_eras : Weight := 3724000 ⊕ writes 1.
Definition runtime_force_new_era : Weight := 3718000 ⊕ writes 1.
Definition runtime_force_new_era_always : Weight := 3663000 ⊕ writes 1.
Definition runtime_set_invulnerables (v : Z) : Weight := 4107000 ⊕ 10000 ⊗ v ⊕ writes 1.
Definition runtime_force_unstake (s : Z) : Weight :=
  57750000 ⊕ 907000 ⊗ s ⊕ reads 11 ⊕ writes 12 ⊕ writes (1 ⊗ s).
Definition runtime_cancel_deferred_slash (s : Z) : Weight :=
  2566116000 ⊕ 15027000 ⊗ s ⊕ reads 1 ⊕ writes 1.
Definition runtime_payout_stakers_dead_controller (n : Z) : Weight :=
  74643000 ⊕ 25571000 ⊗ n ⊕ reads 10 ⊕ reads (3 ⊗ n) ⊕ writes 2 ⊕ writes (1 ⊗ n).
Definition runtime_payout_stakers_alive_staked (n : Z) : Weight :=
  91918000 ⊕ 34698000 ⊗ n ⊕ reads 11 ⊕ reads (5 ⊗ n) ⊕ writes 3 ⊕ writes (3 ⊗ n).
Definition runtime_rebond (l : Z) : Weight := 69433000 ⊕ 45000 ⊗ l ⊕ reads 9 ⊕ writes 8.
Definition runtime_set_history_depth (e : Z) : Weight :=
  0 ⊕ 22219000 ⊗ e ⊕ reads 2 ⊕ writes 4 ⊕ writes (7 ⊗ e).
Definition runtime_reap_stash (s : Z) : Weight :=
  64455000 ⊕ 917000 ⊗ s ⊕ reads 12 ⊕ writes 12 ⊕ writes (1 ⊗ s).
Definition runtime_new_era (v : Z) (n : Z) : Weight :=
  0 ⊕ 302796000 ⊗ v ⊕ 39733000 ⊗ n ⊕ reads 187 ⊕ reads (5 ⊗ v) ⊕ reads (4 ⊗ n) ⊕ writes 4
    ⊕ writes (3 ⊗ v).
Definition runtime_get_npos_voters (v : Z) (n : Z) (s : Z) : Weight :=
  0 ⊕ 24666000 ⊗ v ⊕ 22376000 ⊗ n ⊕ 54274000 ⊗ s ⊕ reads 181 ⊕ reads (5 ⊗ v) ⊕ reads (4 ⊗ n)
    ⊕ reads (1 ⊗ s) ⊕ writes 1.
Definition runtime_get_npos_targets (v : Z) : Weight :=
  0 ⊕ 7661000 ⊗ v ⊕ reads 2 ⊕ reads (1 ⊗ v) ⊕ writes 1.
Definition runtime_set_staking_configs_all_set : Weight := 6456000 ⊕ writes 6.
Definition runtime_set_staking_configs_all_remove : Weight := 6214000 ⊕ writes 6.
Definition runtime_chill_other : Weight := 56053000 ⊕ reads 11 ⊕ writes 6.
Definition runtime_force_apply_min_commission : Weight := 11053000 ⊕ reads 2 ⊕ writes 1.

Definition RuntimeWeightInfo : WeightInfo := {|
  w_bond := runtime_bond;
  w_bond_extra := runtime_bond_extra;
  w_unbond := runtime_unbond;
  w_withdraw_unbonded_update := runtime_withdraw_unbonded_update;
  w_withdraw_unbonded_kill := runtime_withdraw_unbonded_kill;
  w_validate := runtime_validate;
  w_kick := runtime_kick;
  w_nominate := runtime_nominate;
  w_chill := runtime_chill;
  w_set_payee := runtime_set_payee;
  w_set_controller := runtime_set_controller;
  w_set_validator_count := runtime_set_validator_count;
  w_force_no_eras := runtime_force_no_eras;
  w_force_new_era := runtime_force_new_era;
  w_force_new_era_always := runtime_force_new_era_always;
  w_set_invulnerables := runtime_set_invulnerables;
  w_force_unstake := runtime_force_unstake;
  w_cancel_deferred_slash := runtime_cancel_deferred_slash;
  w_payout_stakers_dead_controller := runtime_payout_stakers_dead_controller;
  w_payout_stakers_alive_staked := runtime_payout_stakers_alive_staked;
  w_rebond := runtime_rebond;
  w_set_history_depth := runtime_set_history_depth;
  w_reap_stash := runtime_reap_stash;
  w_new_era := runtime_new_era;
  w_get_npos_voters := runtime_get_npos_voters;
  w_get_npos_targets := runtime_get_npos_targets;
  w_set_staking_configs_all_set := runtime_set_staking_configs_all_set;
  w_set_staking_configs_all_remove := runtime_set_staking_configs_all_remove;
  w_chill_other := runtime_chill_other;
  w_force_apply_min_commission := runtime_force_apply_min_commission
|}.
End RuntimeWeights.

Create HintDb runtime_weights.
#[export] Hint Unfold
  runtime_bond runtime_bond_extra runtime_unbond runtime_withdraw_unbonded_update
  runtime_withdraw_unbonded_kill runtime_validate runtime_kick runtime_nominate runtime_chill
  runtime_set_payee runtime_set_controller runtime_set_validator_count runtime_force_no_eras
  runtime_force_new_era runtime_force_new_era_always runtime_set_invulnerables
  runtime_force_unstake runtime_cancel_deferred_slash runtime_payout_stakers_dead_controller
  runtime_payout_stakers_alive_staked runtime_rebond runtime_set_history_depth
  runtime_reap_stash runtime_new_era runtime_get_npos_voters runtime_get_npos_targets
  runtime_set_staking_configs_all_set runtime_set_staking_configs_all_remove runtime_chill_other
  runtime_force_apply_min_commission
  : runtime_weights.
