(* ===== verification/StakingWeights.v ===== *)
(** What the calls of the staking pallet declare to weigh and what they report
    after they ran: a payout never reports more than it declared, because in
    every storage the chain can reach at most [MaxNominatorRewardedPerValidator]
    nominators are paid; a rebond can exceed its declaration by one chunk, and a
    withdrawal by any number of slashing spans; and what the runtime's calls
    declare fits into a block. *)

From Stdlib Require Import ZArith Lia.
From stdpp Require Import base option list gmap fin_maps fin_sets.
From S2P Require Import Prelude Interfaces StakingLedger SlashingSpans StakingState Slashing.
From S2P Require Import Bonding Governance Payout Eras StakingInvariant ErasCorrect PayoutCorrect.
From S2P Require Import EraView EraClock FundSolvency ExposureHistory Runtime RuntimeConfig Weights.
Import RuntimeConfig.Parameters.
#[local] Open Scope Z_scope.
#[local] Open Scope weight_scope.

(** * Laws of the weights

    What the pallet needs: more nominators or chunks weigh more. *)
Class WeightInfoLaws `{WeightInfo} := {
  alive_staked_mono a b :
    0 ≤ a ≤ b → w_payout_stakers_alive_staked a ≤ w_payout_stakers_alive_staked b;
  rebond_mono a b : 0 ≤ a ≤ b → w_rebond a ≤ w_rebond b;
}.

Lemma sat_add_mono w a b c d : a ≤ b → c ≤ d → sat_add w a c ≤ sat_add w b d.
Proof. unfold sat_add. lia. Qed.
Lemma sat_mul_mono w a b c : 0 ≤ a → b ≤ c → sat_mul w a b ≤ sat_mul w a c.
Proof. unfold sat_mul. nia. Qed.
Lemma sat_mul_nonneg w a b : 0 ≤ w → 0 ≤ a → 0 ≤ b → 0 ≤ sat_mul w a b.
Proof. unfold sat_mul, umax. intros. pose proof (Z.pow_pos_nonneg 2 w). nia. Qed.

Ltac weight_mono :=
  repeat first [ reflexivity | apply sat_add_mono | apply sat_mul_mono; [lia|lia]
    | apply reads_mono; split; [apply sat_mul_nonneg; lia|]
    | apply writes_mono; split; [apply sat_mul_nonneg; lia|] ].

#[export] Instance runtime_weight_laws `{DbWeightLaws} : @WeightInfoLaws RuntimeWeightInfo.
Proof.
  split; cbn; intros a b Hab.
  - unfold runtime_payout_stakers_alive_staked. weight_mono.
  - unfold runtime_rebond. weight_mono.
Qed.

#[export] Instance substrate_weight_laws `{DbWeightLaws} : @WeightInfoLaws SubstrateWeight.
Proof.
  split; cbn; intros a b Hab.
  - unfold substrate_payout_stakers_alive_staked. weight_mono.
  - unfold substrate_rebond. weight_mono.
Qed.

(** The weights for tests are those of the benchmarks. *)
#[local] Opaque sat_add sat_mul.
Lemma unit_is_substrate (RocksDbWeight : DbWeight) : UnitWeight RocksDbWeight = SubstrateWeight.
Proof. reflexivity. Qed.
#[local] Transparent sat_add sat_mul.

(** * What the calls declare *)

Section Declared.
Context `{PerThing} `{StakingConfig} `{WeightInfo}.

(** The [#[pallet::weight(..)]] attributes of the calls.  [set_history_depth]
    comes with a count of the eras it deletes, which it does not use otherwise. *)
Definition declared_weight (_era_items_deleted : Z) (c : StakingCall) : Weight :=
  match c with
  | CBond _ _ _ => w_bond
  | CBondExtra _ => w_bond_extra
  | CUnbond _ => w_unbond
  | CWithdrawUnbonded num_slashing_spans => w_withdraw_unbonded_kill num_slashing_spans
  | CValidate _ => w_validate
  | CNominate targets => w_nominate (Z.of_nat (length targets))
  | CChill => w_chill
  | CSetPayee _ => w_set_payee
  | CSetController _ => w_set_controller
  | CSetValidatorCount _ | CIncreaseValidatorCount _ | CScaleValidatorCount _ =>
      w_set_validator_count
  | CForceNoEras => w_force_no_eras
  | CForceNewEra => w_force_new_era
  | CForceNewEraAlways => w_force_new_era_always
  | CSetInvulnerables invulnerables => w_set_invulnerables (Z.of_nat (length invulnerables))
  | CForceUnstake _ num_slashing_spans => w_force_unstake num_slashing_spans
  | CCancelDeferredSlash _ slash_indices =>
      w_cancel_deferred_slash (Z.of_nat (length slash_indices))
  | CRebond _ => w_rebond (Z.of_nat MaxUnlockingChunks)
  | CSetHistoryDepth _ => w_set_history_depth _era_items_deleted
  | CReapStash _ num_slashing_spans => w_reap_stash num_slashing_spans
  | CKick who => w_kick (Z.of_nat (length who))
  | CSetStakingConfigs _ _ _ _ _ _ =>
      Z.max w_set_staking_configs_all_set w_set_staking_configs_all_remove
  | CChillOther _ => w_chill_other
  | CForceApplyMinCommission _ => w_force_apply_min_commission
  end.

(** * What they report

    The weight of [withdraw_unbonded] if the ledger, once consolidated, stays. *)
Definition withdraw_post_weight (l : StakingLedger) (num_slashing_spans : Z) : option Weight :=
  if decide (unlocking l = [] ∧ active l < minimum_balance) then None
  else Some (w_withdraw_unbonded_update num_slashing_spans).

(** [removed_chunks] of [rebond]: one more than the chunks that went, for the one
    that may have been reduced. *)
Definition removed_chunks (initial_unlocking : nat) (l : StakingLedger) : Z :=
  sat_sub (sat_add 32 1 (Z.of_nat initial_unlocking)) (Z.of_nat (length (unlocking l))).
Definition rebond_post_weight (initial_unlocking : nat) (l : StakingLedger) : option Weight :=
  Some (w_rebond (removed_chunks initial_unlocking l)).

(** The payouts to the nominators, with the number of those that were made. *)
Fixpoint payout_nominators_counted (exposure_total validator_leftover_payout : Z)
    (noms : list IndividualExposure) (total_imbalance : Z) (nominator_payout_count : Z)
    : Call (Z * Z) :=
  match noms with
  | [] => mret (total_imbalance, nominator_payout_count)
  | nominator :: noms' =>
      let nominator_exposure_part :=
        perbill_from_rational (ie_value nominator) exposure_total in
      let nominator_reward := perbill_mul nominator_exposure_part validator_leftover_payout in
      r ← make_payout (who nominator) nominator_reward;
      match r with
      | Some imbalance =>
          deposit_event (Rewarded (who nominator) imbalance) ≫= λ _,
          payout_nominators_counted exposure_total validator_leftover_payout noms'
            (sat_add 128 total_imbalance imbalance) (wadd 32 nominator_payout_count 1)
      | None =>
          payout_nominators_counted exposure_total validator_leftover_payout noms'
            total_imbalance nominator_payout_count
      end
  end.

Definition do_payout_stakers_counted (validator_stash : AccountId) (e : EraIndex) : Call Z :=
  s ← gets id;
  '(controller, l, era_payout) ← of_result (claim_era s validator_stash e);
  let exposure := eras_stakers_clipped s e (stash l) in
  modify (λ s, s <| ledger ::= insert controller l |>) ≫= λ _,
  let points := eras_reward_points s e in
  let validator_reward_points := default 0 (individual points !! stash l) in
  if decide (validator_reward_points = 0) then mret 0
  else
    let '(validator_payout, validator_leftover_payout) :=
      validator_payouts s validator_stash e exposure validator_reward_points
        (rp_total points) era_payout in
    deposit_event (PayoutStarted e (stash l)) ≫= λ _,
    total1 ← payout_one (stash l) validator_payout 0;
    '(value, nominator_payout_count) ←
      payout_nominators_counted (exp_total exposure) validator_leftover_payout
        (others exposure) total1 0;
    settle_payouts value ≫= λ _,
    update_not_claimed_reward e value ≫= λ _,
    mret nominator_payout_count.

Definition payout_stakers_counted (o : Origin) (validator_stash : AccountId) (e : EraIndex)
    : Call Z :=
  ensure_signed o ≫= λ _, do_payout_stakers_counted validator_stash e.

(** The weight a payout reports, with its result or with its error: only a bad
    origin and a stash without a ledger come without one. *)
Definition payout_post_weight (r : result Error Z) : option Weight :=
  match r with
  | Ok nominator_payout_count => Some (w_payout_stakers_alive_staked nominator_payout_count)
  | Err NotController | Err BadOrigin => None
  | Err _ => Some (w_payout_stakers_alive_staked 0)
  end.

(** [on_initialize] returns the weight of [on_finalize]. *)
Definition on_initialize_weight `{DbWeight} : Weight := reads 1.
End Declared.

(** ** The count changes nothing *)

Section Counted.
Context `{PerThingLaws} `{CurrencyLaws} `{!StakingConfig}.
Implicit Types s : Store.

Lemma nominators_counted et left noms : ∀ t n s,
  payout_nominators et left noms t s
  = (r ← payout_nominators_counted et left noms t n; mret r.1) s.
Proof.
  induction noms as [|nom noms IH]; intros t n s; [done|].
  cbn [payout_nominators payout_nominators_counted]. unfold payout_one, mbind, M_bind. cbn zeta.
  destruct (make_payout _ _ s) as [[[imb|]|er] s1]; [| apply IH | done].
  destruct (deposit_event _ s1) as [[[]|er] s2]; [apply IH | done].
Qed.

(** A payout is the counted one without its count. *)
Lemma payout_counted o v e s :
  payout_stakers o v e s = (n ← payout_stakers_counted o v e; mret tt) s.
Proof.
  unfold payout_stakers, payout_stakers_counted, do_payout_stakers, do_payout_stakers_counted.
  destruct o as [|w|]; [done| |done]. unfold mbind, M_bind. cbn [ensure_signed mret M_ret gets id].
  destruct (claim_era s v e) as [[[c l] ep]|er]; [|done]. cbn [of_result mret M_ret].
  set (s1 := s <| ledger ::= insert c l |>).
  change (modify (λ s, s <| ledger ::= insert c l |>) s) with (Ok tt : result Error unit, s1). cbn zeta.
  destruct (decide _); [done|]. destruct (validator_payouts _ _ _ _ _ _ _) as [a left].
  destruct (deposit_event _ s1) as [[[]|er] s2]; [|done].
  destruct (payout_one _ _ _ s2) as [[t|er] s3]; [|done].
  rewrite (nominators_counted _ _ _ t 0). unfold mbind, M_bind.
  destruct (payout_nominators_counted _ _ _ _ _ s3) as [[[value cnt]|er] s4]; [|done].
  cbn [mret M_ret fst]. destruct (settle_payouts value s4) as [[[]|er] s5]; [|done].
  by destruct (update_not_claimed_reward e value s5) as [[[]|er] s6].
Qed.

(** At most every nominator of the exposure is counted. *)
Lemma nominators_count et left noms : ∀ t n,
  0 ≤ n → n + Z.of_nat (length noms) < 2 ^ 32 →
  keeps (λ _, True) (payout_nominators_counted et left noms t n)
    (λ r, n ≤ r.2 ≤ n + Z.of_nat (length noms)).
Proof.
  induction noms as [|nom noms IH]; intros t n Hn Hlen; cbn in *.
  { apply keeps_ret. cbn. lia. }
  eapply (keeps_bind _ _ _ (λ _, True)); [by intros s _|]. intros [imb|] _.
  - eapply (keeps_bind _ _ _ (λ _, True)); [by intros s _|]. intros _ _.
    rewrite wadd_small by ulia. eapply keeps_weaken; [apply IH; lia|]. cbn. lia.
  - eapply keeps_weaken; [apply IH; lia|]. cbn. lia.
Qed.

Lemma payout_count o v e s n s' :
  Z.of_nat (length (others (eras_stakers_clipped s e v))) < 2 ^ 32 → staking_wf s →
  payout_stakers_counted o v e s = (Ok n, s') →
  0 ≤ n ≤ Z.of_nat (length (others (eras_stakers_clipped s e v))).
Proof.
  intros Hlen Hs Hok. set (m := Z.of_nat _) in *.
  assert (wp (payout_stakers_counted o v e) s (λ r _, match r with Ok n => 0 ≤ n ≤ m | Err _ => True end)) as Hwp.
  { unfold payout_stakers_counted. destruct o as [|w|]; [done| |done].
    apply wp_bind, wp_ret. unfold do_payout_stakers_counted.
    apply wp_get, wp_bind, wp_of_result; [|done]. intros [[c l] ep] Hclaim.
    destruct (claim_era_spec _ _ _ _ _ _ Hs Hclaim) as (l0 & _ & _ & _ & Hst & _). rewrite Hst. cbn zeta.
    apply wp_bind, wp_modify. destruct (decide _); [apply wp_ret; lia|].
    destruct (validator_payouts _ _ _ _ _ _ _) as [a left].
    unfold wp. set (k := (deposit_event _ ≫= _ : Call Z)). set (s1 := s <| ledger ::= _ |>).
    assert (keeps (λ _, True) k (λ n, 0 ≤ n ≤ m)) as Hk.
    { unfold k. eapply (keeps_bind _ _ _ (λ _, True)); [by intros ? _|]. intros _ _.
      eapply (keeps_bind _ _ _ (λ _, True)); [by intros ? _|]. intros t _.
      eapply keeps_bind; [apply nominators_count; lia|]. intros [value n'] Hn'. cbn in Hn'.
      eapply (keeps_bind _ _ _ (λ _, True)); [by intros ? _|]. intros _ _.
      eapply (keeps_bind _ _ _ (λ _, True)); [by intros ? _|]. intros _ _.
      apply keeps_ret. lia. }
    destruct (k s1) as [[n'|er] s2] eqn:Hr; [|done]. exact (proj2 (Hk s1 Logic.I) _ _ Hr). }
  unfold wp in Hwp. by rewrite Hok in Hwp.
Qed.
End Counted.

(** * What is paid out is clipped *)

Section Clipped.
Context `{PerThingLaws} `{CurrencyLaws} `{!StakingConfig} `{!FundLaws}.
Context (elect : bool → Store → option (list (AccountId * list (AccountId * Z)))).
Implicit Types s : Store.

Context `{WeightInfo, !WeightInfoLaws}.

(** C15: In every storage the chain can reach, a payout pays at most
    [MaxNominatorRewardedPerValidator] nominators, as the pallet asserts in debug
    builds, and the weight it reports, with its result or with its error, is at
    most the weight the call declared. *)
Theorem payout_weight_covered g c vl ss sy i k s o v e
    (Hg : genesis_ok g) (Hreach : reachable elect g c vl ss sy i k s)
    (Hmax : u32 (Z.of_nat MaxNominatorRewardedPerValidator)) :
  let '(r, s') := payout_stakers_counted o v e s in
  run (payout_stakers o v e) s = s'
  ∧ (∀ n, r = Ok n → 0 ≤ n ≤ Z.of_nat MaxNominatorRewardedPerValidator)
  ∧ ∀ w, payout_post_weight r = Some w →
      w ≤ w_payout_stakers_alive_staked (Z.of_nat MaxNominatorRewardedPerValidator).
Proof.
  pose proof (so_wf _ _ _ (reachable_solvent _ _ _ _ _ _ _ _ _ Hg Hreach)) as Hwf.
  assert (Z.of_nat (length (others (eras_stakers_clipped s e v)))
    ≤ Z.of_nat MaxNominatorRewardedPerValidator) as Hlen.
  { apply inj_le. exact (reachable_short elect _ _ _ _ _ _ _ s e v Hreach). }
  pose proof (payout_counted o v e s) as Hrun. pose proof (λ n s', payout_count o v e s n s') as Hn.
  destruct (payout_stakers_counted o v e s) as [r s'] eqn:Heq.
  assert (∀ n, r = Ok n → 0 ≤ n ≤ Z.of_nat MaxNominatorRewardedPerValidator) as Hcount.
  { intros n ->. specialize (Hn n s' ltac:(ulia) Hwf eq_refl). lia. }
  split_and!; [|done|].
  - unfold run. rewrite Hrun. unfold mbind, M_bind. rewrite Heq. by destruct r.
  - intros w. destruct r as [n|[]]; cbn; intros [= <-]; apply alive_staked_mono; try lia.
    by apply Hcount.
Qed.
End Clipped.

(** * The other reports *)

Section Reports.
Context `{PerThing} `{StakingConfig} `{DbWeightLaws}.
#[local] Existing Instance RuntimeWeightInfo.

(** Withdrawing with as many slashing spans as the benchmarks allow, and some
    more, reports no more than it declared. *)
Lemma withdraw_weight_covered l n w :
  0 ≤ n ≤ 961 → withdraw_post_weight l n = Some w →
  w ≤ declared_weight 0 (CWithdrawUnbonded n).
Proof.
  intros Hn. unfold withdraw_post_weight. case_decide; [done|]. intros [= <-]. cbn.
  unfold runtime_withdraw_unbonded_update, runtime_withdraw_unbonded_kill.
  repeat apply sat_add_mono; [|apply reads_mono; lia | apply writes_mono; lia].
  unfold sat_add, sat_mul, umax. lia.
Qed.

(** A rebond removes at most the chunks there were, and counts one more. *)
Lemma removed_chunks_bound n (l : StakingLedger) :
  (length (unlocking l) ≤ n ≤ MaxUnlockingChunks)%nat →
  removed_chunks n l = 1 + Z.of_nat n - Z.of_nat (length (unlocking l)).
Proof. unfold removed_chunks, MaxUnlockingChunks. intros. ulia. Qed.
End Reports.

(** * What fits into a block *)

Section Fits.
#[local] Arguments sat_add : simpl never.
#[local] Arguments sat_mul : simpl never.
Context `{PerThing} `{StakingConfig} `{DbWeight}.
#[local] Existing Instance RuntimeWeightInfo.

(** The bounds of the runtime and of the benchmarks on the arguments. *)
Definition call_bounded (era_items_deleted : Z) (c : StakingCall) : Prop :=
  match c with
  | CNominate ts => (length ts ≤ 16)%nat
  | CKick whos => (length whos ≤ 128)%nat
  | CSetInvulnerables l => (length l ≤ 1000)%nat
  | CCancelDeferredSlash _ idxs => (length idxs ≤ 1000)%nat
  | CForceUnstake _ n | CReapStash _ n => 0 ≤ n ≤ 1000
  | CSetHistoryDepth _ => 0 ≤ era_items_deleted ≤ 100
  | _ => True
  end.

Lemma sat_add_bound w a b x y : a ≤ x → b ≤ y → sat_add w a b ≤ x + y.
Proof. unfold sat_add. lia. Qed.
Lemma sat_mul_bound w a b : sat_mul w a b ≤ a * b.
Proof. unfold sat_mul. lia. Qed.
Lemma accesses_bound (f : Z → Z) r w a b :
  (∀ n, 0 ≤ n → f n ≤ r * n) → 0 ≤ r → 0 ≤ w → 0 ≤ a → 0 ≤ b → f (sat_mul w a b) ≤ r * (a * b).
Proof.
  intros Hf Hr Hw Ha Hb. pose proof (sat_mul_nonneg w a b Hw Ha Hb).
  etrans; [by apply Hf|]. pose proof (sat_mul_bound w a b). nia.
Qed.

(** Bound a weight by the sum of its parts. *)
Ltac weigh Hreads Hwrites Hr Hw :=
  repeat first
    [ apply Hr; lia | apply Hw; lia | apply Hreads; lia | apply Hwrites; lia
    | apply sat_mul_bound | apply sat_add_bound | reflexivity ].

(** C35: With a read of the database weighing 25 and a write 100 microseconds, as
    for the RocksDB of the runtime, and three quarters of a block for normal
    extrinsics, what any call of the staking pallet declares to weigh fits into
    a block, for arguments within the bounds of the runtime and the benchmarks;
    and so does a payout to [MaxNominatorRewardedPerValidator] = 256 nominators. *)
Theorem staking_calls_fit items c
    (Hreads : ∀ n, 0 ≤ n → reads n ≤ 25000000 * n)
    (Hwrites : ∀ n, 0 ≤ n → writes n ≤ 100000000 * n)
    (Hratio : normal_max_total = 3 * MAXIMUM_BLOCK_WEIGHT / 4)
    (Hc : call_bounded items c) :
  declared_weight items c ≤ normal_max_total
  ∧ w_payout_stakers_alive_staked RuntimeMaxNominatorRewarded ≤ normal_max_total.
Proof.
  rewrite Hratio. change (3 * MAXIMUM_BLOCK_WEIGHT / 4) with 1500000000000.
  assert (∀ a b, 0 ≤ a → 0 ≤ b → reads (a ⊗ b) ≤ 25000000 * (a * b)) as Hr
    by (intros; by apply accesses_bound).
  assert (∀ a b, 0 ≤ a → 0 ≤ b → writes (a ⊗ b) ≤ 100000000 * (a * b)) as Hw
    by (intros; by apply accesses_bound).
  assert (∀ x y, x ≤ y → y ≤ 1500000000000 → x ≤ 1500000000000) as Hle by (intros; lia).
  split.
  2:{ unfold RuntimeMaxNominatorRewarded.
      eapply Hle; [cbn; unfold runtime_payout_stakers_alive_staked; weigh Hreads Hwrites Hr Hw | lia]. }
  destruct c; cbn in Hc |- *; try (apply Z.max_lub).
  all: eapply Hle;
    [ autounfold with runtime_weights; weigh Hreads Hwrites Hr Hw | unfold MaxUnlockingChunks; lia ].
Qed.
End Fits.

(** * Concrete weights *)

Section Examples.
#[local] Existing Instances TestPerThing TestPerThing_laws TestCurrency TestCurrency_laws.
#[local] Existing Instances chain_config chain_fund_laws.

(** A read weighs 25 and a write 100 microseconds. *)
#[local] Instance example_db : DbWeight :=
  {| reads n := sat_mul 64 25000000 n; writes n := sat_mul 64 100000000 n |}.

#[local] Instance example_db_laws : DbWeightLaws.
Proof. split; cbn; intros; unfold sat_mul, in_u, umax; lia. Qed.

#[local] Existing Instance RuntimeWeightInfo.

(** The payout of the chain of [FundSolvency]: one nominator is paid. *)
Example weights_count : fst (payout_stakers_counted (Signed 7) 11 0 chain_3) = Ok 1.
Proof. vm_compute. reflexivity. Qed.

Lemma chain_reachable_3 : reachable chain_elect chain_genesis chain_cur [] ([], []) ∅ 1 0 chain_3.
Proof. exists chain_start. split; [exact chain_builds | exact chain_reaches_3]. Qed.

Lemma payout_weight_covered_witness :
  payout_post_weight (fst (payout_stakers_counted (Signed 7) 11 0 chain_3)) = Some 1126616000
  ∧ 1126616000 ≤ w_payout_stakers_alive_staked (Z.of_nat MaxNominatorRewardedPerValidator).
Proof.
  assert (payout_post_weight (fst (payout_stakers_counted (Signed 7) 11 0 chain_3))
    = Some 1126616000) as Hw by (vm_compute; reflexivity).
  split; [exact Hw|].
  assert (u32 (Z.of_nat MaxNominatorRewardedPerValidator)) as Hmax by (vm_compute; split; congruence).
  pose proof (payout_weight_covered chain_elect chain_genesis chain_cur [] ([], []) ∅ 1 0 chain_3
    (Signed 7) 11 0 chain_genesis_ok chain_reachable_3 Hmax) as Hp.
  destruct (payout_stakers_counted (Signed 7) 11 0 chain_3) as [r s'].
  destruct Hp as (_ & _ & Hp). exact (Hp _ Hw).
Defined.

(** A rebond of all of 32 chunks reports 33 chunks, more than it declared. *)
Definition full_ledger : StakingLedger :=
  {| stash := 11; total := 32; active := 0; unlocking := replicate 32 (Build_UnlockChunk 1 5);
     claimed_rewards := [] |}.

Lemma rebond_over_declared :
  match ledger_rebond full_ledger 32 with
  | Some (l, _) =>
      match rebond_post_weight (length (unlocking full_ledger)) l with
      | Some w => declared_weight 0 (CRebond 32) < w
      | None => False
      end
  | None => False
  end.
Proof. vm_compute. reflexivity. Qed.

(** A withdrawal that names many slashing spans reports more than it declared,
    whose weight does not depend on them. *)
Lemma withdraw_over_declared :
  match withdraw_post_weight full_ledger 40000 with
  | Some w => declared_weight 0 (CWithdrawUnbonded 40000) < w
  | None => False
  end.
Proof. vm_compute. reflexivity. Qed.

Lemma staking_calls_fit_witness :
  declared_weight 0 (CKick [1; 2; 3]) ≤ normal_max_total
  ∧ normal_max_total = 3 * MAXIMUM_BLOCK_WEIGHT / 4.
Proof.
  assert (normal_max_total = 3 * MAXIMUM_BLOCK_WEIGHT / 4) as Hratio by (vm_compute; reflexivity).
  split; [|exact Hratio].
  assert (∀ n, 0 ≤ n → reads n ≤ 25000000 * n) as Hreads by (intros n _; apply Z.le_min_l).
  assert (∀ n, 0 ≤ n → writes n ≤ 100000000 * n) as Hwrites by (intros n _; apply Z.le_min_l).
  refine (proj1 (staking_calls_fit 0 (CKick [1; 2; 3]) Hreads Hwrites Hratio _)).
  vm_compute. repeat constructor.
Defined.
End Examples.
