(* ===== verification/RewardCurve.v ===== *)
(** The reward curve: the integer logarithm ([staking/reward-curve/src/log.rs]),
    the points of the piecewise linear curve the macro generates
    ([staking/reward-curve/src/lib.rs]) and the payout computed from a curve
    ([staking/src/inflation.rs]).  [None] is a panic of the macro. *)

From Stdlib Require Import ZArith Lia.
From stdpp Require Import base option list.
From S2P Require Import Prelude Interfaces.
#[local] Open Scope Z_scope.

Definition MILLION : Z := 1000000.

(** [try_into().unwrap()] to a [u32] *)
Definition to_u32 (x : Z) : option Z := if decide (x ≤ umax 32) then Some x else None.

(** * The logarithm *)

(** The [pow2!] macro: a shift of a [u32]. *)
Definition pow2 (n : Z) : Z := Z.shiftl 1 (n mod 32) mod 2 ^ 32.

(** The [k]-th term of the series of log2, in millionths. *)
Definition taylor_term (k : nat) (y_num y_den : Z) : Z :=
  let _2_div_ln_2 := 2885390 in
  match k with
  | O => _2_div_ln_2 * y_num ^ 1 / y_den ^ 1
  | S j =>
      Nat.iter j (λ res, res * y_num ^ 2 / y_den ^ 2) (_2_div_ln_2 * y_num ^ 3 / y_den ^ 3)
      / (2 * Z.of_nat k + 1)
  end.

(** The loop that finds the power of two; [n] stays below 32. *)
Fixpoint find_power (fuel : nat) (n p q : Z) : option Z :=
  match fuel with
  | O => None
  | S fuel' =>
      if decide (p < wmul 32 (pow2 n) q ∨ p >= wmul 32 (pow2 (n + 1)) q)
      then find_power fuel' (n + 1) p q
      else Some n
  end.

(** The loop over the terms of the series. *)
Fixpoint log_terms (fuel : nat) (k : nat) (y_num y_den res : Z) : option Z :=
  match fuel with
  | O => None
  | S fuel' =>
      term ← to_u32 (taylor_term k y_num y_den);
      if decide (term = 0) then Some res
      else log_terms fuel' (S k) y_num y_den (wadd 32 res term)
  end.

Definition log2 (p q : Z) : option Z :=
  if decide (p >= q ∧ p ≤ umax 32 / 2 ∧ p ≤ 1000000 ∧ q ≤ 1000000) then
    if decide (p = q) then Some 0 else
    n ← find_power 32 0 p q;
    if decide (p < wmul 32 (pow2 (n + 1)) q) then
      let y_num := wsub 32 p (wmul 32 (pow2 n) q) in
      let y_den := wadd 32 p (wmul 32 (pow2 n) q) in
      log_terms 16 0 y_num y_den (wmul 32 n 1000000)
    else None
  else None.

(** * The input of the macro *)

Record INposInput := {
  min_inflation : Z;
  ideal_stake : Z;
  max_inflation : Z;
  falloff : Z;
  max_piece_count : Z;
  test_precision : Z;
}.

Record Bounds := { b_min : Z; b_min_strict : bool; b_max : Z; b_max_strict : bool }.

Definition bounds_check (b : Bounds) (v : Z) : bool :=
  let wrong :=
    (b_min_strict b && (v <=? b_min b)) || (negb (b_min_strict b) && (v <? b_min b))
    || (b_max_strict b && (b_max b <=? v)) || (negb (b_max_strict b) && (b_max b <? v)) in
  negb wrong.

Inductive Field := MinInflation | MaxInflation | IdealStake | Falloff | MaxPieceCount | TestPrecision.

(** The value of a field, checked against its bounds. *)
Definition parse_field (f : Field) (b : Bounds) (v : Z) : result Field Z :=
  if bounds_check b v then Ok v else Err f.

Definition closed (lo hi : Z) : Bounds :=
  {| b_min := lo; b_min_strict := false; b_max := hi; b_max_strict := false |}.
Definition half_open (lo hi : Z) : Bounds :=
  {| b_min := lo; b_min_strict := true; b_max := hi; b_max_strict := false |}.

(** The fields in their order; the first that is out of its bounds is the error. *)
Definition parse_input (min max ideal fall count precision : Z) : result Field INposInput :=
  let check f b v (k : result Field INposInput) :=
    match parse_field f b v with Ok _ => k | Err e => Err e end in
  check MinInflation (half_open 0 1000000) min (
  check MaxInflation (half_open min 1000000) max (
  check IdealStake (closed 100000 900000) ideal (
  check Falloff (closed 10000 1000000) fall (
  check MaxPieceCount (closed 2 1000) count (
  check TestPrecision (closed 0 1000000) precision (
  Ok {| min_inflation := min; ideal_stake := ideal; max_inflation := max; falloff := fall;
        max_piece_count := count; test_precision := precision |})))))).

(** * The points of the curve *)

Record INPoS := { i_0 : Z; i_ideal_times_x_ideal : Z; i_ideal : Z; x_ideal : Z; d : Z }.

Definition from_input (i : INposInput) : option INPoS :=
  ideal ← to_u32 (max_inflation i * MILLION / ideal_stake i);
  Some {| i_0 := min_inflation i; i_ideal_times_x_ideal := max_inflation i; i_ideal := ideal;
          x_ideal := ideal_stake i; d := falloff i |}.

Definition compute_opposite_after_x_ideal (c : INPoS) (y : Z) : option Z :=
  if decide (y = i_0 c) then Some (umax 32) else
  log ← log2 (wsub 32 (i_ideal_times_x_ideal c) (i_0 c)) (wsub 32 y (i_0 c));
  term ← to_u32 (d c * log / 1000000);
  Some (wadd 32 (x_ideal c) term).

(** The [while] loop: [delta_y] is the height of a segment, [y] that of the last
    point. *)
Fixpoint points_loop (fuel : nat) (i : INposInput) (c : INPoS) (max_length delta_y y : Z)
    (points : list (Z * Z)) : option (list (Z * Z)) :=
  match fuel with
  | O => None
  | S fuel' =>
      if decide (delta_y = 0) then Some (points ++ [(1000000, i_0 c)]) else
      next_y ← checked_sub y delta_y;
      if decide (next_y ≤ min_inflation i)
      then points_loop fuel' i c max_length (sat_sub delta_y 1) y points else
      next_x ← compute_opposite_after_x_ideal c next_y;
      prev ← last points;
      if decide (max_length < wsub 32 next_x prev.1)
      then points_loop fuel' i c max_length (sat_sub delta_y 1) y points
      else if decide (1000000 ≤ next_x) then
        delta ← to_u32 ((next_x - 1000000) * (prev.2 - next_y) / (next_x - prev.1));
        Some (points ++ [(1000000, next_y + delta)])
      else points_loop fuel' i c max_length delta_y next_y (points ++ [(next_x, next_y)])
  end.

(** The length no segment exceeds. *)
Definition segment_length (i : INposInput) : Z :=
  (max_inflation i - min_inflation i + 1000000 - ideal_stake i) / (max_piece_count i - 1).

(** Every iteration lowers the height or the last point. *)
Definition loop_fuel (delta_y y : Z) : nat := S (Z.to_nat (delta_y + y)).

Definition compute_points (i : INposInput) : option (list (Z * Z)) :=
  c ← from_input i;
  let points := [(0, i_0 c); (x_ideal c, i_ideal_times_x_ideal c)] in
  let max_length := segment_length i in
  points_loop (loop_fuel max_length (max_inflation i)) i c max_length max_length
    (max_inflation i) points.

(** [PiecewiseLinear]: points and maximum in billionths. *)
Definition generate_piecewise_linear (points : list (Z * Z)) : option (list (Z * Z) * Z) :=
  let highest := foldr (λ p m, Z.max (snd p) m) 0 points in
  let maximum := if decide (highest * 1000 ≤ umax 32) then highest * 1000 else 1000000000 in
  perbill ← mapM (λ p : Z * Z,
    x ← to_u32 (fst p * 1000); y ← to_u32 (snd p * 1000); Some (x, y)) points;
  Some (perbill, maximum).

(** [inflation::compute_total_payout]; [calculate] is
    [PiecewiseLinear::calculate_for_fraction_times_denominator]. *)
Definition MILLISECONDS_PER_YEAR : Z := 1000 * 3600 * 24 * 36525 / 100.

Definition compute_total_payout `{PerThing} (calculate : list (Z * Z) → Z → Z → Z)
    (yearly_inflation : list (Z * Z) * Z) (npos_token_staked total_tokens era_duration : Z) : Z * Z :=
  let portion := perbill_from_rational era_duration MILLISECONDS_PER_YEAR in
  let payout := perbill_mul portion (calculate yearly_inflation.1 npos_token_staked total_tokens) in
  let maximum := perbill_mul portion (perbill_mul yearly_inflation.2 total_tokens) in
  (payout, maximum).

(** The curve of the runtime ([REWARD_CURVE]). *)
Definition REWARD_CURVE : result Field INposInput := parse_input 25000 100000 750000 50000 40 5000.
