(* ===== verification/RewardCurveCorrect.v ===== *)
(** The integer logarithm ends, has the right integer part and is monotone, and
    the points of the reward curve form a well-shaped curve. *)

From Stdlib Require Import ZArith Lia.
From stdpp Require Import base option list.
From S2P Require Import Prelude Interfaces RewardCurve.
#[local] Open Scope Z_scope.

(** * Fractions *)

(** Rounded fractions are monotone. *)
Lemma frac_mono a a' n d n' d' :
  0 ≤ a ≤ a' → 0 ≤ n' → 0 < d → 0 < d' → n * d' ≤ n' * d → a * n / d ≤ a' * n' / d'.
Proof.
  intros Ha Hn' Hd Hd' Hle. apply Z.div_le_lower_bound; [done|].
  assert (d * (a * n / d) ≤ a * n) by (apply Z.mul_div_le; lia).
  set (x := a * n / d) in *.
  assert (d * (d' * x) ≤ d * (a' * n')); [|nia].
  transitivity (a * n * d'); [nia|]. transitivity (a * (n' * d)); nia.
Qed.

Lemma pow_frac k n d n' d' :
  0 ≤ k → 0 ≤ n → 0 < d → 0 < d' → n * d' ≤ n' * d → n ^ k * d' ^ k ≤ n' ^ k * d ^ k.
Proof.
  intros Hk Hn Hd Hd' Hle. rewrite <- !Z.pow_mul_l. apply Z.pow_le_mono_l. nia.
Qed.

(** * The terms of the series *)

Section Terms.
(** The argument of the series is between zero and a third. *)
Definition small_frac (n d : Z) : Prop := 0 ≤ n ∧ 0 < d ∧ 3 * n ≤ d.

Definition frac_le (n d n' d' : Z) : Prop := n * d' ≤ n' * d.

Definition power_term (j : nat) (n d : Z) : Z :=
  Nat.iter j (λ res, res * n ^ 2 / d ^ 2) (2885390 * n ^ 3 / d ^ 3).

Lemma power_term_nonneg j n d : small_frac n d → 0 ≤ power_term j n d.
Proof.
  intros (Hn & Hd & _). induction j as [|j IH]; cbn.
  - apply Z.div_pos; [|by apply Z.pow_pos_nonneg]. pose proof (Z.pow_nonneg n 3 Hn). lia.
  - apply Z.div_pos; [|by apply Z.pow_pos_nonneg].
    apply Z.mul_nonneg_nonneg; [exact IH | by apply Z.pow_nonneg].
Qed.

Lemma power_term_mono j n d n' d' :
  small_frac n d → small_frac n' d' → frac_le n d n' d' → power_term j n d ≤ power_term j n' d'.
Proof.
  intros Hs Hs' Hle. pose proof Hs as (Hn & Hd & _). pose proof Hs' as (Hn' & Hd' & _).
  induction j as [|j IH]; cbn [power_term Nat.iter]; unfold power_term in *; cbn [Nat.iter nat_rect] in *.
  - apply frac_mono; [lia | by apply Z.pow_nonneg | by apply Z.pow_pos_nonneg.. | by apply pow_frac].
  - apply frac_mono; [|by apply Z.pow_nonneg | by apply Z.pow_pos_nonneg.. | by apply pow_frac].
    split; [by apply power_term_nonneg | exact IH].
Qed.

Lemma taylor_term_eq k n d :
  taylor_term k n d = match k with
    | O => 2885390 * n / d
    | S j => power_term j n d / (2 * Z.of_nat k + 1)
    end.
Proof. destruct k; [unfold taylor_term; by rewrite !Z.pow_1_r | done]. Qed.

Lemma taylor_term_nonneg k n d : small_frac n d → 0 ≤ taylor_term k n d.
Proof.
  intros Hs. rewrite taylor_term_eq. destruct k as [|j].
  - destruct Hs as (Hn & Hd & _). apply Z.div_pos; lia.
  - apply Z.div_pos; [by apply power_term_nonneg | lia].
Qed.

Lemma taylor_term_mono k n d n' d' :
  small_frac n d → small_frac n' d' → frac_le n d n' d' → taylor_term k n d ≤ taylor_term k n' d'.
Proof.
  intros Hs Hs' Hle. rewrite !taylor_term_eq. destruct k as [|j].
  - destruct Hs as (? & ? & _), Hs' as (? & ? & _). apply frac_mono; try lia. exact Hle.
  - apply Z.div_le_mono; [lia | by apply power_term_mono].
Qed.

(** The values at a third bound the terms; from the seventh on they vanish. *)
Definition term_bound (k : nat) : Z := nth k [961796; 35622; 2374; 188; 16; 1] 0.

Lemma power_term_third j : power_term j 1 3 =
  nth j [106866; 11874; 1319; 146; 16; 1] 0.
Proof.
  assert (∀ i, power_term (6 + i) 1 3 = 0) as Hzero.
  { induction i as [|i IH]; [by vm_compute|]. unfold power_term in *. rewrite Nat.add_succ_r.
    cbn [Nat.iter nat_rect]. cbn [Nat.add] in IH |- *. unfold Nat.iter in *. by rewrite IH. }
  destruct j as [|[|[|[|[|[|j]]]]]]; [by vm_compute..|]. etrans; [exact (Hzero j)|]. by destruct j.
Qed.

Lemma taylor_term_third k : taylor_term k 1 3 = term_bound k.
Proof.
  rewrite taylor_term_eq. destruct k as [|j]; [done|]. rewrite power_term_third.
  destruct j as [|[|[|[|[|[|j]]]]]]; [by vm_compute..|]. unfold term_bound. cbn.
  destruct j; apply Z.div_0_l; lia.
Qed.

Lemma taylor_term_bound k n d : small_frac n d → 0 ≤ taylor_term k n d ≤ term_bound k.
Proof.
  intros Hs. split; [by apply taylor_term_nonneg|]. rewrite <- taylor_term_third.
  apply taylor_term_mono; [done| |]; unfold small_frac, frac_le in *; lia.
Qed.
End Terms.

(** * The logarithm *)

(** The sum of the terms up to the first that vanishes. *)
Fixpoint terms_from (fuel k : nat) (n d : Z) : Z :=
  match fuel with
  | O => 0
  | S fuel' =>
      let t := taylor_term k n d in if decide (t = 0) then 0 else t + terms_from fuel' (S k) n d
  end.

(** What is left of the bounds from a term on. *)
Definition rest_bound (k : nat) : Z := zsum id (drop k [961796; 35622; 2374; 188; 16; 1]).

Lemma rest_bound_step k : rest_bound k = term_bound k + rest_bound (S k).
Proof.
  destruct k as [|[|[|[|[|[|k]]]]]]; [by vm_compute..|].
  unfold rest_bound, term_bound. cbn. by rewrite !drop_nil; destruct k.
Qed.

Lemma rest_bound_nonneg k : 0 ≤ rest_bound k.
Proof. destruct k as [|[|[|[|[|[|k]]]]]]; [by vm_compute..|]. unfold rest_bound. cbn. by rewrite drop_nil. Qed.

Lemma terms_from_bound fuel : ∀ k n d, small_frac n d → 0 ≤ terms_from fuel k n d ≤ rest_bound k.
Proof.
  induction fuel as [|fuel IH]; intros k n d Hs; cbn; [pose proof (rest_bound_nonneg k); lia|].
  pose proof (taylor_term_bound k n d Hs). specialize (IH (S k) n d Hs).
  rewrite rest_bound_step. case_decide; [pose proof (rest_bound_nonneg (S k))|]; lia.
Qed.

Lemma terms_from_mono fuel : ∀ k n d n' d',
  small_frac n d → small_frac n' d' → frac_le n d n' d' →
  terms_from fuel k n d ≤ terms_from fuel k n' d'.
Proof.
  induction fuel as [|fuel IH]; intros k n d n' d' Hs Hs' Hle; cbn; [lia|].
  pose proof (taylor_term_mono k _ _ _ _ Hs Hs' Hle). pose proof (taylor_term_bound k n d Hs).
  pose proof (terms_from_bound fuel (S k) n' d' Hs').
  specialize (IH (S k) _ _ _ _ Hs Hs' Hle). repeat case_decide; lia.
Qed.

(** The loop ends before the seventh term, and adds the terms up. *)
Lemma log_terms_spec fuel : ∀ k n d res,
  small_frac n d → (7 ≤ k + fuel)%nat → (1 ≤ fuel)%nat → 0 ≤ res → res + rest_bound k ≤ umax 32 →
  log_terms fuel k n d res = Some (res + terms_from fuel k n d).
Proof.
  induction fuel as [|fuel IH]; intros k n d res Hs Hf H1 Hres Hmax; [lia|].
  cbn [log_terms terms_from]. pose proof (taylor_term_bound k n d Hs) as Hb.
  pose proof (rest_bound_nonneg (S k)). rewrite rest_bound_step in Hmax.
  unfold to_u32. rewrite decide_True by lia. cbn [mbind option_bind].
  case_decide as Hz; [f_equal; lia|].
  destruct (decide (7 ≤ S k + fuel)%nat) as [Hk|]; [|lia].
  assert (k < 6)%nat.
  { destruct (decide (k < 6)%nat); [done|]. exfalso. apply Hz.
    assert (term_bound k = 0) by (unfold term_bound; apply nth_overflow; cbn; lia). lia. }
  rewrite wadd_small by ulia. rewrite IH; [f_equal; lia | done | lia | lia | lia | lia].
Qed.

Lemma pow2_small n : 0 ≤ n < 32 → pow2 n = 2 ^ n.
Proof.
  intros Hn. unfold pow2. rewrite (Z.mod_small n) by lia. rewrite Z.shiftl_1_l.
  apply Z.mod_small. split; [by apply Z.pow_nonneg|]. apply Z.pow_lt_mono_r; lia.
Qed.

(** The power of two below a ratio of at most a million. *)
Definition log_floor (n p q : Z) : Prop := 0 ≤ n < 20 ∧ 2 ^ n * q ≤ p < 2 * (2 ^ n * q).

Lemma power_small n p q : 0 ≤ n → 1 ≤ q → p ≤ 1000000 → 2 ^ n * q ≤ p → n < 20.
Proof.
  intros Hn Hq Hp Hle. apply (Z.pow_lt_mono_r_iff 2); [lia..|]. change (2 ^ 20) with 1048576. nia.
Qed.

Lemma wmul_power n p q :
  0 ≤ n ≤ 20 → 1 ≤ q → 2 ^ n * q ≤ 2 * p → p ≤ 1000000 → wmul 32 (pow2 n) q = 2 ^ n * q.
Proof.
  intros Hn Hq Hle Hp. rewrite pow2_small by lia. unfold wmul. apply Z.mod_small.
  pose proof (Z.pow_nonneg 2 n). nia.
Qed.

Lemma find_power_spec fuel : ∀ n p q,
  1 ≤ q → p ≤ 1000000 → 0 ≤ n → 2 ^ n * q ≤ p → 20 ≤ n + Z.of_nat fuel →
  ∃ m, find_power fuel n p q = Some m ∧ n ≤ m ∧ log_floor m p q.
Proof.
  induction fuel as [|fuel IH]; intros n p q Hq Hp Hn Hle Hf;
    pose proof (power_small n p q Hn Hq Hp Hle); [lia|].
  assert (2 ^ (n + 1) = 2 * 2 ^ n) as Hpow by (rewrite Z.pow_add_r by lia; lia).
  cbn [find_power]. rewrite (wmul_power n p), (wmul_power (n + 1) p) by lia.
  case_decide as Hc.
  - destruct (IH (n + 1) p q) as (m & Hm & Hnm & Hl); [lia..|]. exists m. split_and!; [done|lia|done].
  - exists n. unfold log_floor. split_and!; [done|lia|lia|lia|lia|lia].
Qed.

Lemma log_floor_frac n p q : 1 ≤ q → log_floor n p q → small_frac (p - 2 ^ n * q) (p + 2 ^ n * q).
Proof. intros Hq (Hn & Hl). pose proof (Z.pow_pos_nonneg 2 n). unfold small_frac. nia. Qed.

Lemma log2_guard p q : q ≤ p → p ≤ 1000000 →
  p >= q ∧ p ≤ umax 32 / 2 ∧ p ≤ 1000000 ∧ q ≤ 1000000.
Proof. change (umax 32 / 2) with 2147483647. lia. Qed.

Lemma log2_self p : p ≤ 1000000 → log2 p p = Some 0.
Proof. intros Hp. unfold log2. rewrite decide_True by (apply log2_guard; lia). by rewrite decide_True. Qed.

Lemma log2_eq p q : 1 ≤ q → q < p → p ≤ 1000000 →
  ∃ n, log_floor n p q ∧
    log2 p q = Some (n * 1000000 + terms_from 16 0 (p - 2 ^ n * q) (p + 2 ^ n * q)).
Proof.
  intros Hq Hlt Hp. unfold log2. rewrite decide_True by (apply log2_guard; lia).
  rewrite decide_False by lia.
  destruct (find_power_spec 32 0 p q) as (n & Hn & _ & Hl); [lia..|].
  rewrite Hn. cbn [mbind option_bind]. exists n. split; [done|].
  destruct Hl as (Hn20 & Hl). pose proof (log_floor_frac n p q Hq (conj Hn20 Hl)) as Hs.
  assert (2 ^ (n + 1) = 2 * 2 ^ n) as Hpow by (rewrite Z.pow_add_r by lia; lia).
  rewrite (wmul_power n p), (wmul_power (n + 1) p) by lia. rewrite decide_True by lia.
  rewrite wsub_small by ulia. rewrite wadd_small by ulia.
  unfold wmul. rewrite (Z.mod_small (n * 1000000)) by lia.
  apply log_terms_spec; [done|lia|lia|lia|]. change (rest_bound 0) with 999997. ulia.
Qed.

(** C30: for numbers up to a million the logarithm is defined: the search for the
    power of two and the sum of the series end, no step overflows, and the
    integer part of the result is the logarithm rounded down. *)
Theorem log2_spec p q (Hq : 1 ≤ q) (Hle : q ≤ p) (Hp : p ≤ 1000000) :
  ∃ r, log2 p q = Some r ∧ 2 ^ (r / 1000000) * q ≤ p < 2 ^ (r / 1000000 + 1) * q ∧
    0 ≤ r < 20000000.
Proof.
  destruct (decide (p = q)) as [->|Hne].
  - exists 0. change (0 / 1000000) with 0. change (2 ^ 0) with 1. change (2 ^ (0 + 1)) with 2.
    split_and!; [apply log2_self; lia|lia..].
  - destruct (log2_eq p q) as (n & [Hn Hl] & ->); [lia..|].
    pose proof (terms_from_bound 16 0 _ _ (log_floor_frac n p q Hq (conj Hn Hl))) as Hb.
    change (rest_bound 0) with 999997 in Hb. eexists. split; [done|].
    rewrite Z.div_add_l, (Z.div_small (terms_from _ _ _ _)), Z.add_0_r by lia.
    rewrite Z.pow_add_r by lia. lia.
Qed.

(** The logarithm is monotone: a larger denominator has no larger logarithm. *)
Lemma log2_antitone p q q' r r' :
  1 ≤ q → q ≤ q' → q' ≤ p → p ≤ 1000000 → log2 p q = Some r → log2 p q' = Some r' → r' ≤ r.
Proof.
  intros Hq Hqq Hqp Hp Hr Hr'. destruct (decide (q' = q)) as [->|Hne].
  { rewrite Hr in Hr'. injection Hr' as ->. lia. }
  destruct (decide (p = q')) as [->|Hne'].
  { assert (log2 q' q' = Some 0) as Hz by (apply log2_self; lia).
    rewrite Hz in Hr'. injection Hr' as <-.
    destruct (log2_eq q' q) as (n & [Hn Hl] & Heq); [lia..|]. rewrite Heq in Hr. apply (inj Some) in Hr as <-.
    pose proof (terms_from_bound 16 0 _ _ (log_floor_frac n q' q Hq (conj Hn Hl))). lia. }
  destruct (log2_eq p q) as (n & Hl & Heq); [lia..|]. rewrite Heq in Hr. apply (inj Some) in Hr as <-.
  destruct (log2_eq p q') as (n' & Hl' & Heq'); [lia..|]. rewrite Heq' in Hr'. apply (inj Some) in Hr' as <-.
  pose proof (log_floor_frac n p q ltac:(lia) Hl) as Hs.
  pose proof (log_floor_frac n' p q' ltac:(lia) Hl') as Hs'.
  pose proof (terms_from_bound 16 0 _ _ Hs) as Hb. pose proof (terms_from_bound 16 0 _ _ Hs') as Hb'.
  change (rest_bound 0) with 999997 in *. destruct Hl as [Hn Hl], Hl' as [Hn' Hl'].
  assert (n' ≤ n).
  { destruct (decide (n' ≤ n)); [done|]. exfalso.
    assert (2 ^ (n + 1) ≤ 2 ^ n') by (apply Z.pow_le_mono_r; lia).
    rewrite Z.pow_add_r in * by lia. pose proof (Z.pow_pos_nonneg 2 n). nia. }
  destruct (decide (n' = n)) as [->|]; [|lia].
  assert (terms_from 16 0 (p - 2 ^ n * q') (p + 2 ^ n * q') ≤
          terms_from 16 0 (p - 2 ^ n * q) (p + 2 ^ n * q)); [|lia].
  apply terms_from_mono; [exact Hs' | exact Hs|]. unfold frac_le.
  assert (0 ≤ p * 2 ^ n) by (apply Z.mul_nonneg_nonneg; [lia | apply Z.pow_nonneg; lia]).
  assert (p * 2 ^ n * q ≤ p * 2 ^ n * q') as Hm by (by apply Z.mul_le_mono_nonneg_l).
  clear -Hm. nia.
Qed.

(** * The points *)

(** Consecutive elements of a list are related. *)
Definition linked {A} (R : A → A → Prop) (l : list A) : Prop :=
  ∀ j a b, l !! j = Some a → l !! S j = Some b → R a b.

Lemma linked_snoc {A} (R : A → A → Prop) l a b :
  linked R l → last l = Some a → R a b → linked R (l ++ [b]).
Proof.
  intros Hl Hlast Hab j x y Hx Hy. destruct (decide (S j < length l)%nat) as [Hj|Hj].
  - rewrite lookup_app_l in Hx, Hy by lia. by eapply Hl.
  - assert (S j < length (l ++ [b]))%nat as Hlt by by eapply lookup_lt_Some.
    rewrite length_app in Hlt. cbn in Hlt. assert (length l = S j) as Hlen by lia.
    rewrite lookup_app_l in Hx by lia. rewrite last_lookup, Hlen in Hlast. cbn in Hlast.
    rewrite <- Hlen, list_lookup_middle in Hy by done. by simplify_eq.
Qed.

(** What the parser accepts. *)
Definition valid_input (i : INposInput) : Prop :=
  0 < min_inflation i < max_inflation i ∧ max_inflation i ≤ 1000000 ∧
  100000 ≤ ideal_stake i ≤ 900000 ∧ 10000 ≤ falloff i ≤ 1000000 ∧ 2 ≤ max_piece_count i ≤ 1000 ∧
  0 ≤ test_precision i ≤ 1000000.

Lemma bounds_check_closed lo hi v : bounds_check (closed lo hi) v = true → lo ≤ v ≤ hi.
Proof. unfold bounds_check. cbn. rewrite negb_true_iff, orb_false_iff. lia. Qed.

Lemma bounds_check_half_open lo hi v : bounds_check (half_open lo hi) v = true → lo < v ≤ hi.
Proof. unfold bounds_check. cbn. rewrite negb_true_iff, !orb_false_iff. lia. Qed.

Lemma parse_input_valid a b c d e f i : parse_input a b c d e f = Ok i → valid_input i.
Proof.
  unfold parse_input, parse_field.
  repeat (match goal with |- context [bounds_check ?b ?v] =>
    destruct (bounds_check b v) eqn:?; [|done] end).
  intros [= <-]. unfold valid_input; cbn.
  repeat match goal with
    | H : bounds_check (closed _ _) _ = true |- _ => apply bounds_check_closed in H
    | H : bounds_check (half_open _ _) _ = true |- _ => apply bounds_check_half_open in H
    end. lia.
Qed.

Section Points.
Variable i : INposInput.
Hypothesis Hvalid : valid_input i.

Definition curve_of : INPoS := {|
  i_0 := min_inflation i; i_ideal_times_x_ideal := max_inflation i;
  i_ideal := max_inflation i * MILLION / ideal_stake i; x_ideal := ideal_stake i; d := falloff i |}.

Lemma from_input_valid : from_input i = Some curve_of.
Proof.
  destruct Hvalid as (? & ? & ? & _). unfold from_input, to_u32. rewrite decide_True; [done|].
  apply Z.lt_succ_r, Z.div_lt_upper_bound; [lia|]. unfold MILLION, umax. lia.
Qed.

(** The abscissa of a height: at least the ideal stake, and monotone. *)
Lemma opposite_spec y :
  min_inflation i < y ≤ max_inflation i →
  ∃ log, log2 (max_inflation i - min_inflation i) (y - min_inflation i) = Some log ∧ 0 ≤ log < 20000000 ∧
    compute_opposite_after_x_ideal curve_of y = Some (ideal_stake i + falloff i * log / 1000000) ∧
    0 ≤ falloff i * log / 1000000 ≤ 20000000.
Proof.
  intros Hy. destruct Hvalid as (? & ? & ? & ? & _).
  destruct (log2_spec (max_inflation i - min_inflation i) (y - min_inflation i))
    as (log & Hlog & _ & Hr); [lia..|].
  assert (0 ≤ falloff i * log / 1000000 ≤ 20000000) as Hterm.
  { split; [apply Z.div_pos; nia|]. apply Z.lt_succ_r, Z.div_lt_upper_bound; nia. }
  exists log. split_and!; [done|lia|lia| |lia|lia]. unfold compute_opposite_after_x_ideal. cbn.
  rewrite decide_False by lia. rewrite !wsub_small by ulia. rewrite Hlog. cbn.
  unfold to_u32. rewrite decide_True by ulia. cbn. by rewrite wadd_small by ulia.
Qed.

Lemma opposite_antitone y y' x x' :
  min_inflation i < y → y ≤ y' → y' ≤ max_inflation i →
  compute_opposite_after_x_ideal curve_of y = Some x →
  compute_opposite_after_x_ideal curve_of y' = Some x' → x' ≤ x.
Proof.
  intros Hy Hle Hmax Hx Hx'. destruct Hvalid as (? & ? & ? & ? & _).
  destruct (opposite_spec y) as (l & Hl & _ & Heq & _); [lia|].
  destruct (opposite_spec y') as (l' & Hl' & _ & Heq' & _); [lia|].
  rewrite Heq in Hx. rewrite Heq' in Hx'. apply (inj Some) in Hx as <-, Hx' as <-.
  assert (l' ≤ l) by (eapply log2_antitone; [| | | |exact Hl|exact Hl']; lia).
  apply Z.add_le_mono_l, Z.div_le_mono; nia.
Qed.

(** Points to the right of the ideal stake: each is below the one before, at
    most the segment length away, and on the curve. *)
Definition next_point (a b : Z * Z) : Prop :=
  a.1 ≤ b.1 ≤ a.1 + segment_length i ∧ b.2 < a.2.
Definition on_curve (p : Z * Z) : Prop :=
  min_inflation i < p.2 ≤ max_inflation i ∧ ideal_stake i ≤ p.1 < 1000000 ∧
  compute_opposite_after_x_ideal curve_of p.2 = Some p.1.

Definition partial_curve (mid : list (Z * Z)) (px y : Z) : Prop :=
  linked next_point mid ∧ Forall on_curve mid ∧ last mid = Some (px, y).

(** A curve: the points above, closed by one at a million. *)
Definition full_curve (points : list (Z * Z)) : Prop :=
  ∃ mid px py y, points = (0, min_inflation i) :: mid ++ [(1000000, y)] ∧
    partial_curve mid px py ∧ min_inflation i ≤ y ≤ py ∧
    head mid = Some (ideal_stake i, max_inflation i).

Lemma partial_curve_snoc mid px py x y :
  partial_curve mid px py → next_point (px, py) (x, y) → on_curve (x, y) →
  partial_curve (mid ++ [(x, y)]) x y.
Proof.
  intros (Hl & Hc & Hlast) Hn Ho. split_and!; [by eapply linked_snoc | | apply last_snoc].
  apply Forall_app. split; [done | by apply Forall_singleton].
Qed.

Lemma last_cons_partial p mid px y : partial_curve mid px y → last (p :: mid) = Some (px, y).
Proof. intros (_ & _ & Hl). rewrite last_cons, Hl. done. Qed.

Lemma points_loop_spec fuel : ∀ delta mid px y,
  segment_length i ≤ min_inflation i → 0 ≤ delta ≤ segment_length i →
  partial_curve mid px y → head mid = Some (ideal_stake i, max_inflation i) →
  (Z.to_nat (delta + y) < fuel)%nat →
  ∃ points, points_loop fuel i curve_of (segment_length i) delta y ((0, min_inflation i) :: mid)
    = Some points ∧ full_curve points.
Proof.
  induction fuel as [|fuel IH]; intros delta mid px y Hseg Hdelta Hmid Hhead Hfuel; [lia|].
  destruct Hvalid as (Hmin & Hmax & Hideal & _).
  pose proof Hmid as (Hl & Hc & Hlast).
  assert (on_curve (px, y)) as (Hy & Hpx & Hop).
  { rewrite Forall_forall in Hc. apply Hc. apply last_Some_elem_of in Hlast. exact Hlast. }
  cbn [fst snd] in Hy, Hpx, Hop. cbn [points_loop]. case_decide as Hd0.
  { eexists. split; [done|]. exists mid, px, y, (min_inflation i). split_and!; [done..|lia|lia|done]. }
  assert (∃ points, points_loop fuel i curve_of (segment_length i) (sat_sub delta 1) y
    ((0, min_inflation i) :: mid) = Some points ∧ full_curve points) as Hlower.
  { unfold sat_sub. eapply (IH _ mid px y); [done|lia|done|done|lia]. }
  unfold checked_sub. rewrite decide_True by lia. cbn [mbind option_bind].
  case_decide as Hlow; [exact Hlower|].
  destruct (opposite_spec (y - delta)) as (log & _ & _ & Hx & Hxr); [lia|].
  set (x := ideal_stake i + falloff i * log / 1000000) in *.
  assert (px ≤ x) as Hpxx by (eapply (opposite_antitone (y - delta) y); [lia|lia|lia|exact Hx|exact Hop]).
  rewrite Hx. cbn [mbind option_bind]. rewrite (last_cons_partial _ _ _ _ Hmid).
  cbn [mbind option_bind fst snd]. rewrite wsub_small by ulia.
  case_decide as Hfar; [exact Hlower|]. case_decide as Hend.
  - assert (0 ≤ (x - 1000000) * (y - (y - delta)) / (x - px) ≤ delta) as Hr.
    { split; [apply Z.div_pos; nia|]. apply Z.div_le_upper_bound; nia. }
    unfold to_u32. rewrite decide_True by ulia. eexists. split; [done|].
    exists mid, px, y, (y - delta + (x - 1000000) * (y - (y - delta)) / (x - px)).
    split_and!; [done..|lia|lia|done].
  - apply (IH delta (mid ++ [(x, y - delta)]) x (y - delta)); [done|lia| | |lia].
    + eapply partial_curve_snoc; [done|..]; unfold next_point, on_curve; cbn; [lia|].
      split_and!; [lia..|done].
    + destruct mid; [by destruct Hmid as (_ & _ & [=]) | exact Hhead].
Qed.
End Points.

(** C27: for every input the parser accepts whose segment length does not exceed
    the minimal inflation, the macro generates a curve: it ends, nothing
    overflows, the curve starts at the minimal inflation, peaks at the ideal
    stake with the maximal inflation, falls strictly along points of the curve
    at most a segment length apart, and ends at a million, not below the
    minimal inflation. *)
Theorem compute_points_correct i (Hvalid : valid_input i)
  (Hseg : segment_length i ≤ min_inflation i) :
  ∃ points, compute_points i = Some points ∧ full_curve i points.
Proof.
  pose proof Hvalid as (Hmin & Hmax & Hideal & _ & Hcount & _).
  assert (0 ≤ segment_length i) as Hpos by (apply Z.div_pos; lia).
  unfold compute_points. rewrite from_input_valid by done. cbn [mbind option_bind].
  apply (points_loop_spec i Hvalid _ _ [(ideal_stake i, max_inflation i)] (ideal_stake i)
    (max_inflation i)); [done|lia| |done|unfold loop_fuel; lia].
  split_and!; [by intros [|j] a b | apply Forall_singleton | done].
  unfold on_curve. cbn [fst snd]. split_and!; [lia..|].
  destruct (opposite_spec i Hvalid (max_inflation i)) as (log & Hlog & _ & -> & _); [lia|].
  rewrite log2_self in Hlog by lia. apply (inj Some) in Hlog as <-.
  rewrite Z.mul_0_r, Z.add_0_r. done.
Qed.

(** An accepted input whose segment length exceeds the maximal inflation makes the
    height of the first segment larger than the curve: the subtraction
    underflows and the macro panics. *)
Lemma compute_points_underflow i :
  valid_input i → max_inflation i < segment_length i → compute_points i = None.
Proof.
  intros Hvalid Hseg. pose proof Hvalid as (? & _). unfold compute_points.
  rewrite from_input_valid by done. cbn [mbind option_bind]. unfold loop_fuel. cbn [points_loop].
  rewrite decide_False by lia. unfold checked_sub. by rewrite decide_False by lia.
Qed.

Example underflow_input :
  match parse_input 10000 50000 100000 50000 2 0 with
  | Ok i => max_inflation i < segment_length i ∧ compute_points i = None
  | Err _ => False
  end.
Proof. split; vm_compute; reflexivity. Qed.

(** * Concrete curves *)

Lemma log2_spec_witness :
  log2 1000000 333333 = Some 1584962 ∧ ∃ r, log2 1000000 333333 = Some r ∧ 2 ^ (r / 1000000) * 333333 ≤ 1000000.
Proof.
  split; [vm_compute; reflexivity|].
  destruct (log2_spec 1000000 333333) as (r & Hr & [Hle _] & _); [lia|lia|lia|].
  exists r. split; [exact Hr | exact Hle].
Defined.

(** The input of the curve of the runtime. *)
Definition runtime_input : INposInput := {|
  min_inflation := 25000; ideal_stake := 750000; max_inflation := 100000; falloff := 50000;
  max_piece_count := 40; test_precision := 5000 |}.

Lemma compute_points_correct_witness :
  REWARD_CURVE = Ok runtime_input ∧
  ∃ points, compute_points runtime_input = Some points ∧ full_curve runtime_input points.
Proof.
  split; [vm_compute; reflexivity|].
  apply (compute_points_correct runtime_input).
  - apply (parse_input_valid 25000 100000 750000 50000 40 5000). vm_compute. reflexivity.
  - vm_compute. discriminate.
Defined.
