(* ===== verification/RewardFn.v ===== *)
(** The inflation function ([staking/reward-fn/src/lib.rs]): the alternating
    Taylor series of [2^((x_ideal - x) / d)] over big integers, and its
    equivalence with a signed series over the integers. *)

From Stdlib Require Import ZArith Lia.
From stdpp Require Import base option list.
From S2P Require Import Prelude.
#[local] Open Scope Z_scope.

(** * Big integers ([sp_arithmetic::biguint::BigUint])

    A number by its limbs of 32 bits; a stripped number has no leading zero
    limbs. *)
Class BigUint := {
  big : Type;
  big_from : Z → big;
  big_try_u128 : big → option Z;
  lstrip : big → big;
  big_len : big → Z;
  big_get : big → Z → option Z;
  big_leb : big → big → bool;
  big_is_zero : big → bool;
  big_add : big → big → big;
  big_sub : big → big → big + big;
  big_mul : big → big → big;
  div_unit : big → Z → big;
  big_div : big → big → option big;
}.

(** The number a big integer stands for. *)
Class BigUintLaws `{BigUint} := {
  val : big → Z;
  stripped : big → Prop;
  val_nonneg a : 0 ≤ val a;
  val_from x : 0 ≤ x → val (big_from x) = x;
  val_lstrip a : val (lstrip a) = val a;
  lstrip_stripped a : stripped (lstrip a);
  stripped_zero : stripped (big_from 0);
  stripped_len a : stripped a → 0 < val a →
    1 ≤ big_len a ∧ 2 ^ (32 * (big_len a - 1)) ≤ val a < 2 ^ (32 * big_len a);
  stripped_len_zero a : stripped a → val a = 0 → big_len a ≤ 1;
  get_single a : big_len a = 1 → big_get a 0 = Some (val a);
  try_u128 a : stripped a → big_try_u128 a = if decide (val a ≤ umax 128) then Some (val a) else None;
  leb_val a b : big_leb a b = (val a <=? val b);
  is_zero_val a : big_is_zero a = (val a =? 0);
  add_val a b : val (big_add a b) = val a + val b;
  sub_val a b : val b ≤ val a → ∃ c, big_sub a b = inl c ∧ val c = val a - val b;
  sub_underflow a b : val a < val b → ∃ c, big_sub a b = inr c;
  mul_val a b : val (big_mul a b) = val a * val b;
  div_unit_val a u : 0 < u → val (div_unit a u) = val a / u;
  div_val a b : stripped a → stripped b → 1 < big_len b → big_len b < big_len a →
    ∃ q, big_div a b = Some q ∧ val q = val a / val b;
}.

Section Inflation.
Context `{BigUint}.

Definition big_zero : big := big_from 0.

(** The cases of the division by the number of limbs of the divisor. *)
Definition div_by_stripped (a b : big) : big :=
  let a := lstrip a in
  if decide (big_len b = 0) then big_zero else
  if decide (big_len b = 1) then div_unit a (default 1 (big_get b 0)) else
  if decide (big_len a < big_len b) then big_zero else
  if decide (big_len b = big_len a) then
    let new_a := lstrip (big_mul a (big_from (100000 ^ 2))) in
    div_unit (div_unit (default big_zero (big_div new_a b)) 100000) 100000
  else default big_zero (big_div a b).

(** [INPoSParam], all in parts of the accuracy. *)
Record INPoSParam := { ln2_div_d : big; p_x_ideal : big; p_x : big; p_accuracy : big }.

Definition compute_taylor_term (k : Z) (previous_taylor_term : big) (p : INPoSParam) : big :=
  let x_minus_x_ideal :=
    match big_sub (p_x p) (p_x_ideal p) with inl r => r | inr _ => big_zero end in
  let res := div_unit (big_mul (big_mul previous_taylor_term x_minus_x_ideal) (ln2_div_d p)) k in
  lstrip (div_by_stripped (div_by_stripped res (p_accuracy p)) (p_accuracy p)).

Definition unwrap_sub (r : big + big) : big := match r with inl x | inr x => x end.

(** The loop over the terms from [k] on: the sign and the absolute value of the
    sum so far. *)
Fixpoint taylor_loop (n : nat) (k : Z) (p : INPoSParam) (last_taylor_term : big)
    (taylor_sum_positive : bool) (taylor_sum : big) : bool * big :=
  match n with
  | O => (taylor_sum_positive, taylor_sum)
  | S n' =>
      let last_taylor_term := compute_taylor_term k last_taylor_term p in
      if big_is_zero last_taylor_term then (taylor_sum_positive, taylor_sum) else
      let last_taylor_term_positive := k mod 2 =? 0 in
      if Bool.eqb taylor_sum_positive last_taylor_term_positive then
        taylor_loop n' (k + 1) p last_taylor_term taylor_sum_positive
          (big_add taylor_sum last_taylor_term)
      else if big_leb last_taylor_term taylor_sum then
        taylor_loop n' (k + 1) p last_taylor_term taylor_sum_positive
          (unwrap_sub (big_sub taylor_sum last_taylor_term))
      else
        taylor_loop n' (k + 1) p last_taylor_term (negb taylor_sum_positive)
          (unwrap_sub (big_sub last_taylor_term taylor_sum))
  end.

(** [for k in 1..300] *)
Definition compute_taylor_serie_part (p : INPoSParam) : big :=
  let '(positive, sum) := taylor_loop 299 1 p (p_accuracy p) true (p_accuracy p) in
  if positive then lstrip sum else big_zero.

Definition LN2 : Z := 693147180559945309.

(** A [PerThing] by its parts of [ACCURACY]; [from_rational] and [div] are its
    conversion from a ratio and its division. *)
Definition compute_inflation (ACCURACY : Z) (from_rational div : Z → Z → Z)
    (stake ideal_stake falloff : Z) : Z :=
  if decide (stake < ideal_stake) then div stake ideal_stake else
  if decide (falloff < from_rational 1 100) then 0 else
  let accuracy := lstrip (big_from ACCURACY) in
  let falloff := lstrip (big_from falloff) in
  let ln2 := big_from (from_rational LN2 (10 ^ 18)) in
  let ln2_div_d := div_by_stripped (big_mul ln2 accuracy) falloff in
  let inpos_param := {|
    p_x_ideal := big_from ideal_stake;
    p_x := big_from stake;
    p_accuracy := accuracy;
    ln2_div_d := ln2_div_d |} in
  match big_try_u128 (compute_taylor_serie_part inpos_param) with
  | Some res => if decide (res ≤ ACCURACY) then res else 0
  | None => 0
  end.
End Inflation.

(** * The reference: a signed series over the integers *)

(** The terms from [k] on, after the term [t]: each is the one before times
    [c / (k * accuracy^2)], rounded down, with alternating signs, up to the
    first that vanishes. *)
Fixpoint signed_series (n : nat) (k c accuracy t : Z) : Z :=
  match n with
  | O => 0
  | S n' =>
      let t' := t * c / (k * accuracy * accuracy) in
      if decide (t' = 0) then 0
      else (if k mod 2 =? 0 then t' else - t') + signed_series n' (k + 1) c accuracy t'
  end.

Definition series (c accuracy : Z) : Z := accuracy + signed_series 299 1 c accuracy accuracy.

Definition reference_inflation (ACCURACY : Z) (from_rational div : Z → Z → Z)
    (stake ideal_stake falloff : Z) : Z :=
  if decide (stake < ideal_stake) then div stake ideal_stake else
  if decide (falloff < from_rational 1 100) then 0 else
  let res := Z.max 0 (series
    ((stake - ideal_stake) * (from_rational LN2 (10 ^ 18) * ACCURACY / falloff)) ACCURACY) in
  if decide (res ≤ ACCURACY) then res else 0.

Section Correct.
Context `{BigUintLaws}.

Lemma val_zero : val big_zero = 0.
Proof. by apply val_from. Qed.

(** More limbs, a larger number. *)
Lemma len_lt_val a b : stripped a → stripped b → 0 < val b → big_len a < big_len b → val a < val b.
Proof.
  intros Ha Hb Hpos Hlen. destruct (decide (val a = 0)) as [Hz|Hz]; [lia|].
  pose proof (val_nonneg a). destruct (stripped_len a Ha) as (? & _ & Hlt); [lia|].
  destruct (stripped_len b Hb Hpos) as (? & Hle & _).
  assert (2 ^ (32 * big_len a) ≤ 2 ^ (32 * (big_len b - 1))) by (apply Z.pow_le_mono_r; lia). lia.
Qed.

(** Multiplying by more than a limb makes a stripped number longer. *)
Lemma len_mul_limb a b : stripped a → stripped b → 0 < val a → 2 ^ 32 * val a ≤ val b → big_len a < big_len b.
Proof.
  intros Ha Hb Hpos Hle. destruct (decide (big_len a < big_len b)); [done|]. exfalso.
  destruct (stripped_len a Ha Hpos) as (? & Hlo & _). destruct (stripped_len b Hb) as (? & _ & Hhi); [lia|].
  assert (2 ^ (32 * big_len b) ≤ 2 ^ (32 * big_len a)) as Hm by (apply Z.pow_le_mono_r; lia).
  assert (2 ^ (32 * big_len a) = 2 ^ 32 * 2 ^ (32 * (big_len a - 1))) as He
    by (rewrite <- Z.pow_add_r by lia; f_equal; lia). lia.
Qed.

(** The division is the rounded quotient, whatever the number of limbs. *)
Lemma div_by_stripped_val a b :
  stripped b → 0 < val b → val (div_by_stripped a b) = val a / val b.
Proof.
  intros Hb Hpos. unfold div_by_stripped. set (a' := lstrip a).
  assert (val a' = val a) as <- by apply val_lstrip.
  pose proof (lstrip_stripped a : stripped a') as Ha.
  destruct (stripped_len b Hb Hpos) as (Hlen & _). pose proof (val_nonneg a').
  rewrite decide_False by lia. case_decide as Hone.
  { rewrite (get_single b Hone). by apply div_unit_val. }
  case_decide as Hlt.
  { rewrite val_zero, Z.div_small; [done|]. split; [done | by apply len_lt_val]. }
  destruct (decide (big_len b = big_len a')) as [Heq|Hne].
  - destruct (decide (val a' = 0)) as [Hz|Hz]; [pose proof (stripped_len_zero _ Ha Hz); lia|].
    set (new_a := lstrip _).
    assert (val new_a = val a' * 100000 ^ 2) as Hnew by (unfold new_a; by rewrite val_lstrip, mul_val, val_from).
    assert (stripped new_a) as Hsn by apply lstrip_stripped.
    assert (big_len a' < big_len new_a) by (apply len_mul_limb; [done..|lia|rewrite Hnew; lia]).
    destruct (div_val new_a b) as (q & -> & Hq); [done|done|lia|lia|]. cbn [default].
    rewrite !div_unit_val by lia. cbn [from_option id]. rewrite Hq, Hnew, !Z.div_div by lia.
    replace (val b * (100000 * 100000)) with (val b * 100000 ^ 2) by lia.
    rewrite Z.div_mul_cancel_r by lia. done.
  - destruct (div_val a' b) as (q & -> & Hq); [done|done|lia|lia|]. exact Hq.
Qed.

Section Series.
Variable p : INPoSParam.
Hypothesis Hacc : stripped (p_accuracy p).
Hypothesis Hpos : 0 < val (p_accuracy p).
Hypothesis Hx : val (p_x_ideal p) ≤ val (p_x p).

Definition step_factor : Z := (val (p_x p) - val (p_x_ideal p)) * val (ln2_div_d p).

Lemma compute_taylor_term_val k t : 0 < k →
  val (compute_taylor_term k t p) = val t * step_factor / (k * val (p_accuracy p) * val (p_accuracy p)).
Proof.
  intros Hk. unfold compute_taylor_term, step_factor.
  destruct (sub_val _ _ Hx) as (dx & -> & Hdx).
  rewrite val_lstrip, !div_by_stripped_val by done. rewrite div_unit_val by done. rewrite !mul_val, Hdx.
  rewrite !Z.div_div by lia. by rewrite !Z.mul_assoc.
Qed.

(** A sign and an absolute value as an integer. *)
Definition signed (pos : bool) (v : Z) : Z := if pos then v else - v.

Lemma taylor_loop_spec n : ∀ k t pos sum, 0 < k →
  let '(pos', sum') := taylor_loop n k p t pos sum in
  signed pos' (val sum') =
    signed pos (val sum) + signed_series n k step_factor (val (p_accuracy p)) (val t).
Proof.
  induction n as [|n IH]; intros k t pos sum Hk; cbn [taylor_loop signed_series]; [lia|].
  set (t1 := compute_taylor_term k t p).
  assert (val t1 = val t * step_factor / (k * val (p_accuracy p) * val (p_accuracy p))) as <-
    by by apply compute_taylor_term_val.
  rewrite is_zero_val. destruct (Z.eqb_spec (val t1) 0) as [Hz|Hz].
  { rewrite decide_True by done. lia. }
  rewrite decide_False by done. set (tpos := k mod 2 =? 0).
  assert (Hgo : ∀ pos1 sum1, signed pos1 (val sum1) = signed pos (val sum) + signed tpos (val t1) →
    let '(pos', sum') := taylor_loop n (k + 1) p t1 pos1 sum1 in
    signed pos' (val sum') = signed pos (val sum) + ((if tpos then val t1 else - val t1)
      + signed_series n (k + 1) step_factor (val (p_accuracy p)) (val t1))).
  { intros pos1 sum1 Hsum. specialize (IH (k + 1) t1 pos1 sum1 ltac:(lia)).
    destruct (taylor_loop n (k + 1) p t1 pos1 sum1) as [pos' sum'].
    rewrite IH, Hsum. unfold signed. destruct tpos; lia. }
  destruct (Bool.eqb_spec pos tpos) as [->|Hs].
  - apply Hgo. rewrite add_val. unfold signed. destruct tpos; lia.
  - rewrite leb_val. destruct (Z.leb_spec (val t1) (val sum)) as [Hle|Hlt].
    + apply Hgo. destruct (sub_val _ _ Hle) as (c & -> & Hc). cbn [unwrap_sub]. rewrite Hc.
      unfold signed. destruct pos, tpos; try done; lia.
    + apply Hgo. destruct (sub_val t1 sum) as (c & -> & Hc); [lia|]. cbn [unwrap_sub]. rewrite Hc.
      unfold signed. destruct pos, tpos; try done; cbn; lia.
Qed.

Lemma compute_taylor_serie_val :
  stripped (compute_taylor_serie_part p) ∧
  val (compute_taylor_serie_part p) = Z.max 0 (series step_factor (val (p_accuracy p))).
Proof.
  unfold compute_taylor_serie_part, series.
  pose proof (taylor_loop_spec 299 1 (p_accuracy p) true (p_accuracy p) ltac:(lia)) as Hl.
  destruct (taylor_loop 299 1 p (p_accuracy p) true (p_accuracy p)) as [[] sum]; cbn [signed] in Hl.
  - split; [apply lstrip_stripped|]. rewrite val_lstrip, <- Hl. pose proof (val_nonneg sum). lia.
  - split; [apply stripped_zero|]. rewrite val_zero, <- Hl. pose proof (val_nonneg sum). lia.
Qed.
End Series.

(** C28: the inflation is the reference: the limbs, the case distinction of the
    division, the separate sign and the nested roundings of the code compute
    the truncated signed series with one rounding per term. *)
Theorem compute_inflation_reference ACCURACY from_rational div stake ideal_stake falloff
  (Hacc : 0 < ACCURACY ≤ umax 64)
  (Hratio : ∀ p q, 0 ≤ from_rational p q) (Hpercent : 0 < from_rational 1 100)
  (Hparts : 0 ≤ stake ∧ 0 ≤ ideal_stake ∧ 0 ≤ falloff) :
  compute_inflation ACCURACY from_rational div stake ideal_stake falloff =
  reference_inflation ACCURACY from_rational div stake ideal_stake falloff.
Proof.
  unfold compute_inflation, reference_inflation. case_decide as Hlow; [done|].
  case_decide as Hfall; [done|].
  match goal with |- context [compute_taylor_serie_part ?q] => set (p := q) end.
  assert (val (p_accuracy p) = ACCURACY) as Ha by (cbn; rewrite val_lstrip; apply val_from; lia).
  destruct (compute_taylor_serie_val p) as (Hs & Hv); [apply lstrip_stripped | lia | |].
  { cbn. rewrite !val_from by lia. lia. }
  assert (step_factor p = (stake - ideal_stake) * (from_rational LN2 (10 ^ 18) * ACCURACY / falloff)) as Hf.
  { unfold step_factor. cbn. rewrite div_by_stripped_val, mul_val, !val_lstrip, !val_from;
      rewrite ?val_lstrip, ?val_from; try lia; first [apply lstrip_stripped | apply Hratio]. }
  rewrite Ha, Hf in Hv. rewrite <- Hv. rewrite try_u128 by done.
  case_decide as Hbig; [done|]. rewrite decide_False; [done|]. unfold umax in *. lia.
Qed.
End Correct.

(** * A concrete instance: numbers without leading zeros *)

Definition limbs (v : N) : Z := Z.log2 (Z.of_N v) / 32 + 1.

Definition TestBig : BigUint := {|
  big := N;
  big_from := Z.to_N;
  big_try_u128 v := if decide (Z.of_N v ≤ umax 128) then Some (Z.of_N v) else None;
  lstrip := id;
  big_len := limbs;
  big_get v i := if decide (i = 0) then Some (Z.of_N v mod 2 ^ 32) else None;
  big_leb := N.leb;
  big_is_zero := N.eqb 0;
  big_add := N.add;
  big_sub a b := if N.leb b a then inl (a - b)%N else inr (b - a)%N;
  big_mul := N.mul;
  div_unit a u := N.div a (Z.to_N u);
  big_div a b := Some (N.div a b);
|}.

Lemma limbs_bounds v : 0 < Z.of_N v →
  1 ≤ limbs v ∧ 2 ^ (32 * (limbs v - 1)) ≤ Z.of_N v < 2 ^ (32 * limbs v).
Proof.
  intros Hv. unfold limbs. destruct (Z.log2_spec (Z.of_N v) Hv) as [Hlo Hhi].
  pose proof (Z.log2_nonneg (Z.of_N v)).
  pose proof (Z.div_mod (Z.log2 (Z.of_N v)) 32). pose proof (Z.mod_pos_bound (Z.log2 (Z.of_N v)) 32).
  pose proof (Z.div_pos (Z.log2 (Z.of_N v)) 32). split; [lia|]. split.
  - etrans; [|exact Hlo]. apply Z.pow_le_mono_r; lia.
  - eapply Z.lt_le_trans; [exact Hhi|]. apply Z.pow_le_mono_r; lia.
Qed.

Definition TestBig_laws : @BigUintLaws TestBig.
Proof.
  refine {| val := Z.of_N : @big TestBig → Z; stripped := λ _, True |}; cbn; try done; try lia.
  - intros v _. apply limbs_bounds.
  - intros v _ Hv. unfold limbs. rewrite Hv. done.
  - intros v Hv. rewrite Z.mod_small; [done|].
    destruct (decide (Z.of_N v = 0)) as [->|]; [done|].
    destruct (limbs_bounds v) as (_ & _ & Hlt); [lia|]. rewrite Hv in Hlt. lia.
  - intros a b. destruct (N.leb_spec a b), (Z.leb_spec (Z.of_N a) (Z.of_N b)); lia.
  - intros a. by destruct a.
  - intros a b Hle. exists (a - b)%N. split; [|lia]. destruct (N.leb_spec b a); [done|lia].
  - intros a b Hlt. exists (b - a)%N. destruct (N.leb_spec b a); [lia|done].
  - intros a u Hu. rewrite N2Z.inj_div. f_equal. lia.
  - intros a b _ _ _ _. exists (a / b)%N. split; [done | apply N2Z.inj_div].
Defined.

Definition perbill (p q : Z) : Z := Z.min (p * 10 ^ 9 / q) (10 ^ 9).

(** Ten percent above an ideal stake of a half, with a falloff of five percent:
    about a quarter. *)
Lemma compute_inflation_reference_witness :
  reference_inflation (10 ^ 9) (λ p q, Z.max 0 (perbill p q)) perbill 600000000 500000000 50000000 = 250000002 ∧
  @compute_inflation TestBig (10 ^ 9) (λ p q, Z.max 0 (perbill p q)) perbill 600000000 500000000 50000000
    = 250000002.
Proof.
  assert (reference_inflation (10 ^ 9) (λ p q, Z.max 0 (perbill p q)) perbill 600000000 500000000 50000000
    = 250000002) as Href by (vm_compute; reflexivity).
  split; [exact Href|].
  rewrite (@compute_inflation_reference TestBig TestBig_laws); [exact Href|unfold umax; lia|lia|by vm_compute|lia].
Defined.
