(* ===== verification/RewardPool.v ===== *)
(** The reward pool ([modules/reward-pool/src/lib.rs] and [traits.rs]) and the
    incentives of the exchange that are built on it
    ([modules/incentives/src/lib.rs], [modules/traits/src/incentive_ops.rs]).

    A pool splits the rewards it accrues among the shares held in it.  Who adds
    shares also adds the reward these shares would be due to the total of the
    pool, as a "virtual" amount the account has borrowed; a payout is what the
    shares are due less what the account borrowed.  The pool knows the source
    of its rewards by the trait [RewardHandler], which the incentives implement,
    and the incentives know the pool by the trait [RewardPoolOps]; the currency
    is a parameter, [MultiCurrency]. *)

From Stdlib Require Import ZArith Lia.
From stdpp Require Import base option list gmap fin_maps.
From S2P Require Import Prelude Interfaces.
#[local] Open Scope Z_scope.

(** * The code outside the crate *)

(** [MultiCurrencyExtended]: the balance of an account in a currency is changed
    by a signed amount, or moved.  The rewards are all in the native currency. *)
Class MultiCurrency := {
  mcur : Type;
  mc_balance : Z → AccountId → mcur → Z;
  mc_update_balance : Z → AccountId → Z → mcur → option mcur;
  mc_transfer : Z → AccountId → AccountId → Z → mcur → option mcur;
}.

Class MultiCurrencyLaws `{MultiCurrency} := {
  mc_balance_nonneg i a c : 0 ≤ mc_balance i a c;
  mc_update_spec i a v c c' :
    mc_update_balance i a v c = Some c' → 0 ≤ v →
    ∀ b, mc_balance i b c' = mc_balance i b c + (if decide (a = b) then v else 0);
  mc_transfer_spec i a b v c c' :
    mc_transfer i a b v c = Some c' → 0 ≤ v →
    ∀ d, mc_balance i d c' = mc_balance i d c
           - (if decide (a = d) then v else 0) + (if decide (b = d) then v else 0);
}.

(** [RewardHandler]: what a pool accrued between two blocks, given its shares.
    The laws bound it by what fits the signed [Amount] of the currency. *)
Class RewardHandler (PoolId : Type) :=
  caculate_reward : PoolId → Z → Z → Z → Z.

Definition amount_max : Z := 2 ^ 127 - 1.

Class RewardHandlerLaws {PoolId} (H : RewardHandler PoolId) :=
  caculate_reward_range p sh a b :
    in_u 32 a → in_u 32 b → 0 ≤ caculate_reward p sh a b ≤ amount_max.

(** The sub account of a pool, the native currency and the least reward that is
    sent ([Trait::ModuleId], [GetNativeCurrencyId] and [ExistentialReward]). *)
Class RewardPoolConfig (PoolId : Type) := {
  sub_account_id : PoolId → AccountId;
  GetNativeCurrencyId : Z;
  ExistentialReward : Z;
}.

(** * Data and storage *)

Record PoolInfo := {
  total_shares : Z;
  total_rewards : Z;
  total_rewards_useable : Z;
  last_update_block : Z;
}.

Record PoolAccountInfo := { pa_shares : Z; borrowed_amount : Z }.

Definition PoolInfo_default : PoolInfo :=
  {| total_shares := 0; total_rewards := 0; total_rewards_useable := 0; last_update_block := 0 |}.
Definition PoolAccountInfo_default : PoolAccountInfo := {| pa_shares := 0; borrowed_amount := 0 |}.

#[export] Instance PoolInfo_eta : Eta PoolInfo := λ s, {|
  total_shares := total_shares s; total_rewards := total_rewards s;
  total_rewards_useable := total_rewards_useable s; last_update_block := last_update_block s |}.
#[export] Instance PoolAccountInfo_eta : Eta PoolAccountInfo := λ s, {|
  pa_shares := pa_shares s; borrowed_amount := borrowed_amount s |}.

Inductive RewardPoolError :=
  | RewardCaculationError | InsufficientShares | InvalidAmount | InvalidRewards
  | RewardCurrencyError.

(** The storage of the pallet, with the balances and the block number it reads. *)
Record PoolStore (PoolId : Type) `{Countable PoolId, MultiCurrency} := {
  Pools : gmap PoolId PoolInfo;
  PoolAccountData : gmap PoolId (gmap AccountId PoolAccountInfo);
  rp_currency : mcur;
  rp_block_number : Z;
}.
Arguments Pools {PoolId _ _ _} _.
Arguments PoolAccountData {PoolId _ _ _} _.
Arguments rp_currency {PoolId _ _ _} _.
Arguments rp_block_number {PoolId _ _ _} _.

(** * The reward pool *)
Section RewardPool.
Context {PoolId : Type} `{Countable PoolId, MultiCurrency, !FixedPoint}.
Context `{!RewardHandler PoolId, !RewardPoolConfig PoolId}.
Abbreviation RPStore := (PoolStore PoolId).
Abbreviation RP := (M RPStore RewardPoolError).

#[export] Instance PoolStore_eta : Eta RPStore := λ s, {|
  Pools := Pools s; PoolAccountData := PoolAccountData s;
  rp_currency := rp_currency s; rp_block_number := rp_block_number s |}.

Definition get_pool_info (s : RPStore) (p : PoolId) : PoolInfo :=
  default PoolInfo_default (Pools s !! p).

Definition pool_accounts (s : RPStore) (p : PoolId) : gmap AccountId PoolAccountInfo :=
  default ∅ (PoolAccountData s !! p).

Definition get_pool_account_info (s : RPStore) (p : PoolId) (who : AccountId) : PoolAccountInfo :=
  default PoolAccountInfo_default (pool_accounts s p !! who).

Definition put_pool (p : PoolId) (info : PoolInfo) : RP unit :=
  modify (λ s, s <| Pools ::= <[p := info]> |>).

Definition put_account (p : PoolId) (who : AccountId) (info : PoolAccountInfo) : RP unit :=
  modify (λ s, s <| PoolAccountData ::= <[p := <[who := info]> (pool_accounts s p)]> |>).

Definition calc_reward_by_shares (info : PoolInfo) (amount : Z) : RP Z :=
  if decide (total_shares info = 0 ∨ amount = 0) then mret 0
  else
    ensure (amount ≤ total_shares info) InsufficientShares ≫= λ _,
    ok_or (checked_from_rational amount (total_shares info)
             ≫= λ n, checked_mul_int n (total_rewards info)) RewardCaculationError
      ≫= λ reward_with_virtual,
    ensure (reward_with_virtual ≤ total_rewards info) RewardCaculationError ≫= λ _,
    mret reward_with_virtual.

Definition get_rewards_by_account_shares (pool_info : PoolInfo) (account_info : PoolAccountInfo)
    (amount : Z) : RP (PoolInfo * PoolAccountInfo * Z) :=
  ensure (0 < amount ∧ amount ≤ total_shares pool_info ∧ amount ≤ pa_shares account_info)
    InsufficientShares ≫= λ _,
  calc_reward_by_shares pool_info amount ≫= λ reward_with_virtual,
  ok_or (checked_from_rational amount (pa_shares account_info)
           ≫= λ n, checked_mul_int n (borrowed_amount account_info)) RewardCaculationError
    ≫= λ account_balance_to_remove,
  ok_or (checked_sub (borrowed_amount account_info) account_balance_to_remove)
    RewardCaculationError ≫= λ new_balance,
  ok_or (checked_sub reward_with_virtual account_balance_to_remove)
    RewardCaculationError ≫= λ reward,
  ensure (reward ≤ total_rewards_useable pool_info ∧ new_balance ≤ borrowed_amount account_info)
    RewardCaculationError ≫= λ _,
  ok_or (checked_sub (total_shares pool_info) amount) InsufficientShares ≫= λ new_total_shares,
  (if decide (reward ≤ ExistentialReward) then
     mret (0, total_rewards pool_info, total_rewards_useable pool_info)
   else
     ok_or (checked_sub (total_rewards pool_info) reward_with_virtual)
       RewardCaculationError ≫= λ rewards,
     ok_or (checked_sub (total_rewards_useable pool_info) reward)
       RewardCaculationError ≫= λ rewards_useable,
     mret (reward, rewards, rewards_useable)) ≫= λ '(reward, rewards, rewards_useable),
  ok_or (checked_sub (pa_shares account_info) amount) RewardCaculationError ≫= λ new_shares,
  mret (pool_info <| total_rewards := rewards |> <| total_rewards_useable := rewards_useable |>
                  <| total_shares := new_total_shares |>,
        {| pa_shares := new_shares; borrowed_amount := new_balance |},
        reward).

Definition calc_pool_reward_at_block (p : PoolId) (info : PoolInfo) (cur_block : Z)
    : RP (PoolInfo * Z) :=
  if decide (cur_block ≤ last_update_block info) then mret (info, 0)
  else
    let reward := caculate_reward p (total_shares info) (last_update_block info) cur_block in
    let new_info := info <| last_update_block := cur_block |> in
    if decide (reward = 0) then mret (new_info, 0)
    else
      ok_or (checked_add 128 (total_rewards new_info) reward) RewardCaculationError ≫= λ rewards,
      ok_or (checked_add 128 (total_rewards_useable new_info) reward) RewardCaculationError
        ≫= λ useable,
      mret (new_info <| total_rewards := rewards |> <| total_rewards_useable := useable |>, reward).

Definition calc_pool_reward (p : PoolId) : RP (PoolInfo * Z) :=
  gets id ≫= λ s, calc_pool_reward_at_block p (get_pool_info s p) (rp_block_number s).

(** The amount becomes an [i128] by a conversion that saturates. *)
Definition update_pool_reward (p : PoolId) : RP PoolInfo :=
  calc_pool_reward p ≫= λ '(pool_info, balance_change),
  when (balance_change ≠ 0)
    (gets id ≫= λ s,
     ok_or (mc_update_balance GetNativeCurrencyId (sub_account_id p)
              (Z.min balance_change amount_max) (rp_currency s)) RewardCurrencyError ≫= λ c,
     modify (λ s, s <| rp_currency := c |>)) ≫= λ _,
  put_pool p pool_info ≫= λ _,
  mret pool_info.

Definition reward_transfer (from to : AccountId) (v : Z) : RP unit :=
  gets id ≫= λ s,
  ok_or (mc_transfer GetNativeCurrencyId from to v (rp_currency s)) RewardCurrencyError ≫= λ c,
  modify (λ s, s <| rp_currency := c |>).

Definition add_share (who : AccountId) (p : PoolId) (amount : Z) : RP Z :=
  ensure (amount ≠ 0) InvalidAmount ≫= λ _,
  update_pool_reward p ≫= λ pool_info,
  (if decide (total_shares pool_info = 0) then mret 0
   else ok_or (checked_from_rational (total_rewards pool_info) (total_shares pool_info))
          RewardCaculationError) ≫= λ price,
  ok_or (checked_mul_int price amount) RewardCaculationError ≫= λ virtual_reward_amount,
  ok_or (checked_add 128 (total_shares pool_info) amount) RewardCaculationError ≫= λ shares,
  ok_or (checked_add 128 (total_rewards pool_info) virtual_reward_amount)
    RewardCaculationError ≫= λ rewards,
  put_pool p (pool_info <| total_shares := shares |> <| total_rewards := rewards |>) ≫= λ _,
  gets id ≫= λ s,
  let data := get_pool_account_info s p who in
  ok_or (checked_add 128 (pa_shares data) amount) RewardCaculationError ≫= λ account_shares,
  ok_or (checked_add 128 (borrowed_amount data) virtual_reward_amount)
    RewardCaculationError ≫= λ borrowed,
  put_account p who {| pa_shares := account_shares; borrowed_amount := borrowed |} ≫= λ _,
  mret account_shares.

Definition remove_share (who : AccountId) (p : PoolId) (amount : Z) : RP Z :=
  update_pool_reward p ≫= λ pool_info,
  gets id ≫= λ s,
  let account_info := get_pool_account_info s p who in
  ensure (amount ≤ pa_shares account_info) InsufficientShares ≫= λ _,
  get_rewards_by_account_shares pool_info account_info amount
    ≫= λ '(pool_info, account_info, reward),
  put_pool p pool_info ≫= λ _,
  put_account p who account_info ≫= λ _,
  reward_transfer (sub_account_id p) who reward ≫= λ _,
  mret (pa_shares account_info).

Definition get_account_shares (s : RPStore) (who : AccountId) (p : PoolId) : Z :=
  pa_shares (get_pool_account_info s p who).

Definition get_accumlated_rewards (s : RPStore) (who : AccountId) (p : PoolId) : Z :=
  let account_info := get_pool_account_info s p who in
  if decide (pa_shares account_info = 0) then 0
  else
    let calc_reward :=
      calc_pool_reward p ≫= λ '(pool_info, _),
      get_rewards_by_account_shares pool_info account_info (pa_shares account_info)
        ≫= λ '(_, _, reward),
      mret reward in
    match fst (calc_reward s) with Ok reward => reward | Err _ => 0 end.

Definition claim_rewards (who : AccountId) (p : PoolId) : RP Z :=
  update_pool_reward p ≫= λ pool_info,
  gets id ≫= λ s,
  let account_info := get_pool_account_info s p who in
  if decide (pa_shares account_info = 0) then mret 0
  else
    calc_reward_by_shares pool_info (pa_shares account_info) ≫= λ reward_with_virtual,
    ok_or (checked_sub reward_with_virtual (borrowed_amount account_info))
      RewardCaculationError ≫= λ actual_reward,
    if decide (actual_reward < ExistentialReward) then mret 0
    else
      ok_or (checked_sub (total_rewards_useable pool_info) actual_reward)
        RewardCaculationError ≫= λ useable,
      ensure (borrowed_amount account_info ≤ reward_with_virtual) RewardCaculationError ≫= λ _,
      reward_transfer (sub_account_id p) who actual_reward ≫= λ _,
      gets id ≫= λ s,
      put_pool p ((get_pool_info s p) <| total_rewards_useable := useable |>) ≫= λ _,
      gets id ≫= λ s,
      put_account p who
        ((get_pool_account_info s p who) <| borrowed_amount := reward_with_virtual |>) ≫= λ _,
      mret actual_reward.

Definition get_all_pools (s : RPStore) : list (PoolId * Z * Z) :=
  (λ '(p, info),
     match fst (calc_pool_reward_at_block p info (rp_block_number s) s) with
     | Ok (new_info, _) => (p, total_shares new_info, total_rewards_useable new_info)
     | Err _ => (p, total_shares info, 0)
     end) <$> map_to_list (Pools s).
End RewardPool.

(** * The incentives *)

(** [CurrencyId], in the order of its codes ([primitives/src/lib.rs]). *)
Inductive CurrencyId := CLV | CUSDT | DOT | CETH.

#[export] Instance CurrencyId_eq_dec : EqDecision CurrencyId.
Proof. solve_decision. Defined.

Definition currency_code (c : CurrencyId) : Z :=
  match c with CLV => 0 | CUSDT => 1 | DOT => 2 | CETH => 3 end.

Record PairKey := { pk_left : CurrencyId; pk_right : CurrencyId }.

Inductive IncentivePool := Dex (key : PairKey).

#[export] Instance PairKey_eq_dec : EqDecision PairKey.
Proof. solve_decision. Defined.
#[export] Instance IncentivePool_eq_dec : EqDecision IncentivePool.
Proof. solve_decision. Defined.
#[export] Instance CurrencyId_countable : Countable CurrencyId.
Proof.
  apply (inj_countable' (λ c, Z.to_nat (currency_code c))
    (λ n, match n with 0%nat => CLV | 1%nat => CUSDT | 2%nat => DOT | _ => CETH end)).
  by intros [].
Defined.
#[export] Instance IncentivePool_countable : Countable IncentivePool.
Proof.
  apply (inj_countable' (λ p, let 'Dex k := p in (pk_left k, pk_right k))
    (λ lr, Dex {| pk_left := lr.1; pk_right := lr.2 |})).
  by intros [[? ?]].
Defined.

(** [PairKey::try_from] *)
Definition pair_key (first second : CurrencyId) : option PairKey :=
  if decide (first = second) then None
  else if decide (currency_code first < currency_code second)
       then Some {| pk_left := first; pk_right := second |}
       else Some {| pk_left := second; pk_right := first |}.

(** [DexIncentiveRewards]: the reward per block of a pool. *)
Definition IncentiveRewards := gmap IncentivePool Z.

(** The genesis configuration: a pair of equal currencies or a reward of zero
    stops the node ([None]). *)
Fixpoint incentives_genesis (dex_rewards : list (CurrencyId * CurrencyId * Z))
    (rewards : IncentiveRewards) : option IncentiveRewards :=
  match dex_rewards with
  | [] => Some rewards
  | (first, second, reward_per_block) :: rest =>
      key ← pair_key first second;
      if decide (reward_per_block = 0) then None
      else incentives_genesis rest (<[Dex key := reward_per_block]> rewards)
  end.

(** [RewardHandler::caculate_reward] *)
Definition incentive_reward (rewards : IncentiveRewards) (p : IncentivePool)
    (total_share last_update_block now : Z) : Z :=
  if decide (total_share = 0) then 0
  else if decide (rewards !! p = None ∨ now ≤ last_update_block) then 0
  else
    let reward_ratio := default 0 (rewards !! p) in
    if decide (reward_ratio = 0) then 0
    else
      let blocks := wsub 32 now last_update_block in
      sat_mul 128 reward_ratio blocks.

(** [RewardPoolOps]: what the incentives use of the reward pool. *)
Class RewardPoolOps (S E PoolId : Type) := {
  op_add_share : AccountId → PoolId → Z → M S E Z;
  op_remove_share : AccountId → PoolId → Z → M S E Z;
  op_get_account_shares : S → AccountId → PoolId → Z;
  op_get_accumlated_rewards : S → AccountId → PoolId → Z;
  op_claim_rewards : AccountId → PoolId → M S E Z;
  op_get_all_pools : S → list (PoolId * Z * Z);
}.

#[export] Instance reward_pool_ops {PoolId} `{Countable PoolId, MultiCurrency, !FixedPoint}
    `{!RewardHandler PoolId, !RewardPoolConfig PoolId} :
    RewardPoolOps (PoolStore PoolId) RewardPoolError PoolId := {|
  op_add_share := add_share;
  op_remove_share := remove_share;
  op_get_account_shares := get_account_shares;
  op_get_accumlated_rewards := get_accumlated_rewards;
  op_claim_rewards := claim_rewards;
  op_get_all_pools := get_all_pools;
|}.

Inductive IncentiveError (E : Type) := InvalidCurrencyPair | RewardPoolFailed (e : E).
Arguments InvalidCurrencyPair {E}.
Arguments RewardPoolFailed {E} e.

Record IncentivePoolAccountInfo := { inc_shares : Z; inc_accumlated_rewards : Z }.

Section Incentives.
Context {S E : Type} `{!RewardPoolOps S E IncentivePool}.

Definition get_dex_id (first second : CurrencyId) : result (IncentiveError E) IncentivePool :=
  match pair_key first second with
  | Some key => Ok (Dex key)
  | None => Err InvalidCurrencyPair
  end.

(** A call of the pool, with its error as one of this pallet's. *)
Definition pool_call {A} (m : M S E A) : M S (IncentiveError E) A := λ s,
  match m s with
  | (Ok a, s') => (Ok a, s')
  | (Err e, s') => (Err (RewardPoolFailed e), s')
  end.

Definition incentive_add_share who (first second : CurrencyId) (amount : Z) :
    M S (IncentiveError E) Z :=
  ok_or (pair_key first second) InvalidCurrencyPair ≫= λ key,
  pool_call (op_add_share who (Dex key) amount).

Definition incentive_remove_share who (first second : CurrencyId) (amount : Z) :
    M S (IncentiveError E) Z :=
  ok_or (pair_key first second) InvalidCurrencyPair ≫= λ key,
  pool_call (op_remove_share who (Dex key) amount).

Definition incentive_get_account_shares (s : S) who (left right : CurrencyId) : Z :=
  match get_dex_id left right with
  | Ok id => op_get_account_shares s who id
  | Err _ => 0
  end.

Definition incentive_get_accumlated_rewards (s : S) who (left right : CurrencyId) : Z :=
  match get_dex_id left right with
  | Ok id => op_get_accumlated_rewards s who id
  | Err _ => 0
  end.

Definition incentive_get_account_info (s : S) who (left right : CurrencyId) :
    IncentivePoolAccountInfo :=
  match get_dex_id left right with
  | Ok id => {| inc_shares := op_get_account_shares s who id;
                inc_accumlated_rewards := op_get_accumlated_rewards s who id |}
  | Err _ => {| inc_shares := 0; inc_accumlated_rewards := 0 |}
  end.

Definition incentive_claim_rewards who (left right : CurrencyId) : M S (IncentiveError E) Z :=
  of_result (get_dex_id left right) ≫= λ id, pool_call (op_claim_rewards who id).

Definition get_all_incentive_pools (s : S) : list (CurrencyId * CurrencyId * Z * Z) :=
  (λ '(Dex k, shares, balance), (pk_left k, pk_right k, shares, balance)) <$> op_get_all_pools s.
End Incentives.
