(* ===== verification/RewardPoolCorrect.v ===== *)
(** What the reward pool of [RewardPool] promises: in every reachable storage
    the shares of the accounts of a pool add up to its total and its account
    covers the rewards that can still be paid ([pool_solvent]); a claim pays
    what the read-only query reports, and pays it once ([claim_pays_accumulated]);
    when the pool is updated does not change what it accrues
    ([accrual_path_independent]).  The laws these need of the source of the
    rewards are discharged for the incentives. *)

From Stdlib Require Import ZArith Lia.
From stdpp Require Import base option list gmap fin_maps.
From S2P Require Import Prelude Interfaces RewardPool.
#[local] Open Scope Z_scope.

(** * The invariant *)
Section PoolInvariant.
Context {PoolId : Type} `{Countable PoolId, MultiCurrencyLaws, FixedPointLaws}.
Context `{!RewardHandler PoolId, !RewardHandlerLaws caculate_reward, !RewardPoolConfig PoolId}.
Abbreviation RPStore := (PoolStore PoolId).
Implicit Types (s : RPStore) (p q : PoolId) (who : AccountId).

Definition account_info_ok (a : PoolAccountInfo) : Prop :=
  u128 (pa_shares a) ∧ u128 (borrowed_amount a).

Definition pool_info_ok (info : PoolInfo) : Prop :=
  u128 (total_shares info) ∧ u128 (total_rewards info) ∧
  u128 (total_rewards_useable info) ∧ u32 (last_update_block info).

Definition pool_balance s p : Z :=
  mc_balance GetNativeCurrencyId (sub_account_id p) (rp_currency s).

Record pool_ok s p : Prop := {
  pool_accounts_ok : map_Forall (λ _ a, account_info_ok a) (pool_accounts s p);
  pool_info_is_ok : pool_info_ok (get_pool_info s p);
  pool_shares_sum : map_sum pa_shares (pool_accounts s p) = total_shares (get_pool_info s p);
  pool_borrowed_sum :
    map_sum borrowed_amount (pool_accounts s p) + total_rewards_useable (get_pool_info s p)
      ≤ total_rewards (get_pool_info s p);
  pool_covered : total_rewards_useable (get_pool_info s p) ≤ pool_balance s p;
}.

Definition pools_ok s : Prop := u32 (rp_block_number s) ∧ ∀ p, pool_ok s p.

Lemma account_default_ok s p who :
  pool_ok s p → account_info_ok (get_pool_account_info s p who).
Proof.
  intros Hp. unfold get_pool_account_info.
  destruct (pool_accounts s p !! who) as [a|] eqn:Ha; cbn; [|split; done].
  by apply (pool_accounts_ok _ _ Hp who).
Qed.

(** A step that concerns one pool keeps the invariant of the others when none
    of them loses money. *)
Lemma pools_ok_frame s s' p info :
  pools_ok s → Pools s' = <[p := info]> (Pools s) →
  (∀ q, q ≠ p → pool_accounts s' q = pool_accounts s q) →
  rp_block_number s' = rp_block_number s →
  (∀ q, q ≠ p → pool_balance s q ≤ pool_balance s' q) →
  pool_ok s' p → pools_ok s'.
Proof.
  intros [Hb Hs] Hp Ha Hn Hq Hok. split; [by rewrite Hn|]. intros q.
  destruct (decide (q = p)) as [->|Hne]; [done|].
  specialize (Ha q Hne). specialize (Hq q Hne). destruct (Hs q) as [? ? ? ? ?].
  assert (get_pool_info s' q = get_pool_info s q) as Hi.
  { unfold get_pool_info. by rewrite Hp, lookup_insert_ne. }
  split; rewrite ?Ha, ?Hi; try done. lia.
Qed.

(** Writing a pool and one of its accounts keeps the invariant when the sums
    move together. *)
Lemma pools_ok_put s p who info acc c :
  pools_ok s → pool_info_ok info → account_info_ok acc →
  total_shares info = total_shares (get_pool_info s p)
    + (pa_shares acc - pa_shares (get_pool_account_info s p who)) →
  borrowed_amount acc - borrowed_amount (get_pool_account_info s p who)
    + (total_rewards_useable info - total_rewards_useable (get_pool_info s p))
    ≤ total_rewards info - total_rewards (get_pool_info s p) →
  total_rewards_useable info ≤ mc_balance GetNativeCurrencyId (sub_account_id p) c →
  (∀ q, q ≠ p → pool_balance s q ≤ mc_balance GetNativeCurrencyId (sub_account_id q) c) →
  pools_ok (s <| Pools ::= <[p := info]> |>
              <| PoolAccountData ::= <[p := <[who := acc]> (pool_accounts s p)]> |>
              <| rp_currency := c |>).
Proof.
  intros Hs Hi Ha Hsh Hbo Hc Hq. destruct (proj2 Hs p) as [Hp1 Hp2 Hp3 Hp4 Hp5].
  assert (∀ f : PoolAccountInfo → Z, f PoolAccountInfo_default = 0 →
    map_sum f (<[who := acc]> (pool_accounts s p))
      = map_sum f (pool_accounts s p) - f (get_pool_account_info s p who) + f acc) as Hsum.
  { intros f Hf. rewrite map_sum_insert. unfold get_pool_account_info.
    destruct (pool_accounts s p !! who); cbn; lia. }
  eapply (pools_ok_frame s _ p info); [done | done | | done | exact Hq |].
  { intros q Hne. unfold pool_accounts. cbn. by rewrite lookup_insert_ne. }
  split; unfold get_pool_info, pool_accounts, pool_balance in *; cbn;
    rewrite ?lookup_insert_eq; cbn; rewrite ?Hsum by done; try done; try lia.
  by apply map_Forall_insert_2.
Qed.

(** ** Accrual *)
Lemma calc_at_block_wp p info b s :
  pool_info_ok info → u32 b →
  wp (calc_pool_reward_at_block p info b) s (λ r s', s' = s ∧
    ∀ info' x, r = Ok (info', x) →
      pool_info_ok info' ∧ 0 ≤ x ≤ amount_max ∧
      total_shares info' = total_shares info ∧
      total_rewards info' = total_rewards info + x ∧
      total_rewards_useable info' = total_rewards_useable info + x).
Proof.
  intros (Hi1 & Hi2 & Hi3 & Hi4) Hb. unfold calc_pool_reward_at_block.
  pose proof (caculate_reward_range p (total_shares info) (last_update_block info) b Hi4 Hb) as Hr.
  case_decide; [|case_decide as Hz].
  - apply wp_ret. split; [done|]. intros ? ? [= <- <-].
    unfold pool_info_ok. split_and!; try done; lia.
  - apply wp_ret. split; [done|]. intros ? ? [= <- <-].
    unfold pool_info_ok; cbn. split_and!; try done; lia.
  - wp_auto; (split; [done|]); [|done..]. intros ? ? [= <- <-].
    repeat match goal with Hc : checked_add _ _ _ = Some _ |- _ =>
      apply checked_add_Some in Hc as [? ->] end.
    unfold pool_info_ok; cbn in *. split_and!; try done; ulia.
Qed.

Lemma update_pool_ok p s :
  (∀ q, q ≠ p → sub_account_id q ≠ sub_account_id p) → pools_ok s →
  wp (update_pool_reward p) s (λ r s', ∀ info, r = Ok info →
    pools_ok s' ∧ get_pool_info s' p = info ∧ PoolAccountData s' = PoolAccountData s).
Proof.
  intros Hinj Hs. destruct (proj2 Hs p) as [Hp1 Hp2 Hp3 Hp4 Hp5].
  unfold update_pool_reward, calc_pool_reward, put_pool. apply wp_bind, wp_get.
  eapply wp_mono; [apply calc_at_block_wp; [done | apply Hs]|].
  intros [[info x]|e] s1 [-> Hr]; [|done].
  destruct (Hr info x eq_refl) as (Hi & Hx & E1 & E2 & E3). clear Hr.
  cut (∀ c, (∀ b, mc_balance GetNativeCurrencyId b c
        = mc_balance GetNativeCurrencyId b (rp_currency s)
          + (if decide (sub_account_id p = b) then x else 0)) →
     pools_ok (s <| rp_currency := c |> <| Pools ::= <[p := info]> |>)).
  - intros Hc. wp_auto; intros i' Hok; try discriminate Hok; injection Hok as <-.
    + split_and!; [apply Hc | unfold get_pool_info; cbn; by rewrite lookup_insert_eq | done].
      intros b. lazymatch goal with Hu : mc_update_balance _ _ _ _ = Some _ |- _ =>
        rewrite (mc_update_spec _ _ _ _ _ Hu) by lia end. case_decide; lia.
    + split_and!; [| unfold get_pool_info; cbn; by rewrite lookup_insert_eq | done].
      apply (Hc (rp_currency s)). intros b. case_decide; lia.
  - intros c Hc. eapply (pools_ok_frame s _ p info); [done | done | done | done | |].
    + intros q Hne. unfold pool_balance. cbn. rewrite Hc, decide_False; [lia|].
      intros Heq. by apply (Hinj q).
    + split; unfold get_pool_info, pool_accounts, pool_balance in *; cbn;
        rewrite ?lookup_insert_eq; cbn; try done; try lia.
      rewrite Hc, decide_True by done. lia.
Qed.

(** ** Payouts *)
Lemma calc_reward_wp info n s :
  pool_info_ok info → 0 ≤ n →
  wp (calc_reward_by_shares info n) s (λ r s', s' = s ∧
    ∀ v, r = Ok v → 0 ≤ v ≤ total_rewards info).
Proof.
  intros (Hi1 & Hi2 & _) Hn. unfold calc_reward_by_shares. wp_auto; (split; [done|]);
    intros v Hv; try discriminate Hv; injection Hv as <-; [ulia|].
  lazymatch goal with Ho : (_ ≫= _) = Some _ |- _ => apply bind_Some in Ho as (r & Hr & Hv) end.
  split; [|done]. eapply mul_int_nonneg; [exact Hv | | ulia].
  eapply from_rational_nonneg; [exact Hr | done | ulia].
Qed.

Lemma get_rewards_wp info acc n s :
  pool_info_ok info → account_info_ok acc →
  wp (get_rewards_by_account_shares info acc n) s (λ r s', s' = s ∧
    ∀ info' acc' v, r = Ok (info', acc', v) →
      pool_info_ok info' ∧ account_info_ok acc' ∧ 0 ≤ v ∧
      total_shares info' = total_shares info - n ∧ pa_shares acc' = pa_shares acc - n ∧
      total_rewards_useable info' = total_rewards_useable info - v ∧
      borrowed_amount acc' - borrowed_amount acc
        + (total_rewards_useable info' - total_rewards_useable info)
        ≤ total_rewards info' - total_rewards info).
Proof.
  intros Hi [Ha1 Ha2]. unfold get_rewards_by_account_shares. apply wp_bind, wp_ensure;
    [intros (Hn1 & Hn2 & Hn3)|done].
  apply wp_bind. eapply wp_mono; [apply calc_reward_wp; [done | lia]|].
  intros [w|] s1 [-> Hw]; [|done]. specialize (Hw w eq_refl). destruct Hi as (Hi1 & Hi2 & Hi3 & Hi4).
  wp_auto; try done; (split; [done|]); intros ? ? ? [= <- <- <-];
    repeat match goal with Hc : checked_sub _ _ = Some _ |- _ =>
      apply checked_sub_Some in Hc as [? ->] end;
    lazymatch goal with Ho : (_ ≫= _) = Some _ |- _ => apply bind_Some in Ho as (r & Hr & Hv) end;
    pose proof (mul_int_le _ _ _ Hv (from_rational_le _ _ _ Hr ltac:(lia)) ltac:(ulia));
    unfold pool_info_ok, account_info_ok; cbn; split_and!; try done; ulia.
Qed.

Lemma reward_transfer_wp a b v s :
  0 ≤ v →
  wp (reward_transfer a b v) s (λ r s', r = Ok tt →
    ∃ c, s' = s <| rp_currency := c |> ∧
      ∀ d, mc_balance GetNativeCurrencyId d c = mc_balance GetNativeCurrencyId d (rp_currency s)
             - (if decide (a = d) then v else 0) + (if decide (b = d) then v else 0)).
Proof.
  intros Hv. unfold reward_transfer. wp_auto; [|done]. intros _. eexists. split; [done|].
  intros d. by erewrite mc_transfer_spec.
Qed.

(** A payout from the account of one pool covers what the others may pay. *)
Lemma payout_covers s p who v c :
  (∀ q, q ≠ p → sub_account_id q ≠ sub_account_id p) → 0 ≤ v →
  (∀ d, mc_balance GetNativeCurrencyId d c = mc_balance GetNativeCurrencyId d (rp_currency s)
      - (if decide (sub_account_id p = d) then v else 0) + (if decide (who = d) then v else 0)) →
  pool_balance s p - v ≤ mc_balance GetNativeCurrencyId (sub_account_id p) c ∧
  ∀ q, q ≠ p → pool_balance s q ≤ mc_balance GetNativeCurrencyId (sub_account_id q) c.
Proof.
  intros Hinj Hv Hc. unfold pool_balance. split.
  - rewrite Hc, decide_True by done. case_decide; lia.
  - intros q Hq. rewrite Hc, decide_False; [case_decide; lia|]. intros Heq. by apply (Hinj q).
Qed.

(** ** The operations *)
Lemma accounts_of_pools s f p who :
  get_pool_account_info (s <| Pools ::= f |>) p who = get_pool_account_info s p who.
Proof. done. Qed.
Lemma accounts_of_currency s f p who :
  get_pool_account_info (s <| rp_currency ::= f |>) p who = get_pool_account_info s p who.
Proof. done. Qed.
Lemma pools_of_currency s f p :
  get_pool_info (s <| rp_currency ::= f |>) p = get_pool_info s p.
Proof. done. Qed.

Lemma add_share_wp who p n s :
  (∀ q, q ≠ p → sub_account_id q ≠ sub_account_id p) → pools_ok s → u128 n →
  wp (add_share who p n) s (λ r s', is_ok r → pools_ok s').
Proof.
  intros Hinj Hs Hn. unfold add_share, put_pool, put_account.
  apply wp_bind, wp_ensure; [intros Hn0|done].
  apply wp_bind. eapply wp_mono; [by apply update_pool_ok|].
  intros [info|] s1 Hu; [|done]. destruct (Hu info eq_refl) as (Hs1 & Hi & _). clear Hu.
  destruct (proj2 Hs1 p) as [Ha (Hi1 & Hi2 & Hi3 & Hi4) Hsh Hbo Hco]. rewrite Hi in *.
  pose proof (account_default_ok s1 p who (proj2 Hs1 p)) as [Ha1 Ha2].
  wp_auto; try done; intros _;
    repeat match goal with Hc : checked_add _ _ _ = Some _ |- _ =>
      apply checked_add_Some in Hc as [? ->] end;
    lazymatch goal with Ho : checked_mul_int _ _ = Some _ |- _ =>
      pose proof (mul_int_range _ _ _ Ho) end; rewrite !accounts_of_pools in *.
  all: eapply (pools_ok_put s1 p who _ _ (rp_currency s1)); [done | ..];
    unfold pool_info_ok, account_info_ok, pool_balance in *;
    cbn -[get_pool_account_info get_pool_info] in *; rewrite ?Hi;
    [split_and!; ulia | split; ulia | lia | lia | lia | done].
Qed.

Lemma remove_share_wp who p n s :
  (∀ q, q ≠ p → sub_account_id q ≠ sub_account_id p) → pools_ok s →
  wp (remove_share who p n) s (λ r s', is_ok r → pools_ok s').
Proof.
  intros Hinj Hs. unfold remove_share, put_pool, put_account.
  apply wp_bind. eapply wp_mono; [by apply update_pool_ok|].
  intros [info|] s1 Hu; [|done]. destruct (Hu info eq_refl) as (Hs1 & Hi & _). clear Hu.
  pose proof (account_default_ok s1 p who (proj2 Hs1 p)) as Ha.
  pose proof (pool_info_is_ok _ _ (proj2 Hs1 p)) as Hiok.
  pose proof (pool_covered _ _ (proj2 Hs1 p)) as Hco. rewrite Hi in *.
  apply wp_get, wp_bind, wp_ensure; [intros Hn|done].
  apply wp_bind. eapply wp_mono; [by apply get_rewards_wp|].
  intros [[[info' acc'] v]|] s2 [-> Hr]; [|done].
  destruct (Hr info' acc' v eq_refl) as (Hi' & Ha' & Hv & E1 & E2 & E3 & E4). clear Hr.
  do 2 (apply wp_bind, wp_modify). apply wp_bind. eapply wp_mono; [by apply reward_transfer_wp|].
  intros [[]|] s3 Ht; [|done]. destruct (Ht eq_refl) as (c & -> & Hc). clear Ht. intros _.
  destruct (payout_covers s1 p who v c Hinj Hv Hc) as [Hc1 Hc2].
  eapply (pools_ok_put s1 p who info' acc' c); rewrite ?Hi; try done; lia.
Qed.

Lemma claim_rewards_wp who p s :
  (∀ q, q ≠ p → sub_account_id q ≠ sub_account_id p) → pools_ok s →
  wp (claim_rewards who p) s (λ r s', is_ok r → pools_ok s').
Proof.
  intros Hinj Hs. unfold claim_rewards, put_pool, put_account.
  apply wp_bind. eapply wp_mono; [by apply update_pool_ok|].
  intros [info|] s1 Hu; [|done]. destruct (Hu info eq_refl) as (Hs1 & Hi & _). clear Hu.
  pose proof (account_default_ok s1 p who (proj2 Hs1 p)) as [Ha1 Ha2].
  pose proof (pool_info_is_ok _ _ (proj2 Hs1 p)) as Hiok.
  pose proof (pool_covered _ _ (proj2 Hs1 p)) as Hco. rewrite Hi in *.
  apply wp_get. case_decide as Hz; [by apply wp_ret|].
  apply wp_bind. eapply wp_mono; [apply calc_reward_wp; [done | ulia]|].
  intros [w|] s2 [-> Hw]; [|done]. specialize (Hw w eq_refl).
  apply wp_bind, wp_ok_or; [|done]. intros v [Hle ->]%checked_sub_Some.
  case_decide as Hx; [by apply wp_ret|].
  apply wp_bind, wp_ok_or; [|done]. intros u [Hu ->]%checked_sub_Some.
  apply wp_bind, wp_ensure; [|done]. intros _.
  apply wp_bind. eapply wp_mono; [apply reward_transfer_wp; lia|].
  intros [[]|] s3 Ht; [|done]. destruct (Ht eq_refl) as (c & -> & Hc). clear Ht.
  apply wp_get, wp_bind, wp_modify, wp_get, wp_bind, wp_modify. intros _.
  apply payout_covers in Hc as [Hc1 Hc2]; [|done | lia].
  destruct Hiok as (Hi1 & Hi2 & Hi3 & Hi4).
  subst info. eapply (pools_ok_put s1 p who _ _ c); [done | ..];
    unfold pool_info_ok, account_info_ok; cbn -[get_pool_account_info get_pool_info] in *;
    rewrite ?accounts_of_pools, ?accounts_of_currency, ?pools_of_currency;
    [split_and!; ulia | split; ulia | lia | lia | lia | done].
Qed.

(** ** Reachable storages *)
Inductive pool_step : RPStore → RPStore → Prop :=
  | step_add_share who p n s r s' :
      u128 n → transactional (add_share who p n) s = (r, s') → pool_step s s'
  | step_remove_share who p n s r s' :
      transactional (remove_share who p n) s = (r, s') → pool_step s s'
  | step_claim_rewards who p s r s' :
      transactional (claim_rewards who p) s = (r, s') → pool_step s s'
  | step_block n s : u32 n → pool_step s (s <| rp_block_number := n |>)
  | step_currency c s :
      (∀ p, pool_balance s p ≤ mc_balance GetNativeCurrencyId (sub_account_id p) c) →
      pool_step s (s <| rp_currency := c |>).

Inductive pool_reachable : RPStore → Prop :=
  | pool_genesis c : pool_reachable
      {| Pools := ∅; PoolAccountData := ∅; rp_currency := c; rp_block_number := 0 |}
  | pool_next s s' : pool_reachable s → pool_step s s' → pool_reachable s'.

Lemma transactional_pools_ok {A} (m : M RPStore RewardPoolError A) s r s' :
  pools_ok s → wp m s (λ r s', is_ok r → pools_ok s') →
  transactional m s = (r, s') → pools_ok s'.
Proof.
  intros Hs Hm Ht. eapply (wp_elim _ _ _ _ (λ _, pools_ok)); [|exact Ht].
  apply wp_transactional. eapply wp_mono; [exact Hm|]. intros [a|e] s1 Hr; [by apply Hr | done].
Qed.

Lemma pool_step_ok (Hinj : ∀ p q, q ≠ p → sub_account_id q ≠ sub_account_id p) s s' :
  pools_ok s → pool_step s s' → pools_ok s'.
Proof.
  intros Hs Hst. destruct Hst as [who p n s r s' Hn Ht|who p n s r s' Ht|who p s r s' Ht|n s Hn|c s Hc].
  - eapply transactional_pools_ok; [exact Hs | apply add_share_wp; [apply Hinj | done..] | exact Ht].
  - eapply transactional_pools_ok; [exact Hs | apply remove_share_wp; [apply Hinj | done] | exact Ht].
  - eapply transactional_pools_ok; [exact Hs | apply claim_rewards_wp; [apply Hinj | done] | exact Ht].
  - destruct Hs as [_ Hs]. split; [done|]. intros p. by destruct (Hs p).
  - destruct Hs as [Hb Hs]. split; [done|]. intros p. specialize (Hc p).
    destruct (Hs p) as [? ? ? ? Hp5]. split; try done.
    etrans; [exact Hp5 | exact Hc].
Qed.

(** C31: in every storage the pool can reach from an empty one, by additions and
    removals of shares, claims, new blocks and other movements of the currency
    that do not take from the accounts of the pools, and for every pool: the
    shares of the accounts add up to the total of the pool; what the accounts
    borrowed and what can still be paid stay within the total of the rewards;
    and the balance of the account of the pool covers what can still be paid. *)
Theorem pool_solvent (Hinj : ∀ p q, q ≠ p → sub_account_id q ≠ sub_account_id p) s
    (Hs : pool_reachable s) p :
  let info := get_pool_info s p in
  map_sum pa_shares (pool_accounts s p) = total_shares info ∧
  map_sum borrowed_amount (pool_accounts s p) + total_rewards_useable info ≤ total_rewards info ∧
  total_rewards_useable info
    ≤ mc_balance GetNativeCurrencyId (sub_account_id p) (rp_currency s).
Proof.
  assert (pools_ok s) as [_ Hok].
  { induction Hs as [c|s s' _ IH Hst]; [|by eapply pool_step_ok].
    split; [done|]. intros q. split; cbn; try done. apply mc_balance_nonneg. }
  by destruct (Hok p).
Qed.
End PoolInvariant.

(** * What is due, and what is paid *)

(** A computation that neither reads nor writes the storage. *)
Section Stateless.
Context {S E : Type}.
Definition stateless {A} (m : M S E A) : Prop := ∃ r, ∀ s, m s = (r, s).
Lemma stateless_ret {A} (a : A) : stateless (mret a).
Proof. by exists (Ok a). Qed.
Lemma stateless_ensure P `{Decision P} (e : E) : stateless (ensure P e).
Proof. unfold ensure. case_decide; [by exists (Ok tt) | by exists (Err e)]. Qed.
Lemma stateless_ok_or {A} (o : option A) (e : E) : stateless (ok_or o e).
Proof. destruct o as [a|]; [by exists (Ok a) | by exists (Err e)]. Qed.
Lemma stateless_bind {A B} (m : M S E A) (k : A → M S E B) :
  stateless m → (∀ a, stateless (k a)) → stateless (m ≫= k).
Proof.
  intros [[a|e] Hm] Hk.
  - destruct (Hk a) as [r Hr]. exists r. intros s. by rewrite (bind_step _ _ _ _ _ (Hm s)).
  - exists (Err e). intros s. by rewrite (bind_err _ _ _ _ _ (Hm s)).
Qed.
Lemma stateless_move {A} (m : M S E A) s r :
  stateless m → fst (m s) = r → ∀ s2, m s2 = (r, s2).
Proof. intros [r' Hm] <- s2. by rewrite !Hm. Qed.
End Stateless.

Ltac stateless_auto := repeat
  lazymatch goal with
  | |- stateless (mret _) => apply stateless_ret
  | |- stateless (ensure _ _) => apply stateless_ensure
  | |- stateless (ok_or _ _) => apply stateless_ok_or
  | |- stateless (_ ≫= _) => apply stateless_bind; [|intros ?]
  | |- stateless (let '(_, _) := ?x in _) => destruct x
  | |- stateless (if ?b then _ else _) => destruct b
  end.

Section Payouts.
Context {PoolId : Type} `{Countable PoolId, MultiCurrency, FixedPointLaws}.
Context `{!RewardHandler PoolId, !RewardPoolConfig PoolId}.
Abbreviation RPStore := (PoolStore PoolId).
Implicit Types (s : RPStore) (p : PoolId) (who : AccountId) (info : PoolInfo).

Lemma calc_reward_stateless info n :
  stateless (calc_reward_by_shares info n : M RPStore RewardPoolError Z).
Proof. unfold calc_reward_by_shares. stateless_auto. Qed.

Lemma get_rewards_stateless info acc n :
  stateless (get_rewards_by_account_shares info acc n : M RPStore RewardPoolError _).
Proof.
  unfold get_rewards_by_account_shares. stateless_auto; try apply calc_reward_stateless.
Qed.

Lemma calc_at_block_Ok p info b s info' x s' :
  calc_pool_reward_at_block p info b s = (Ok (info', x), s') →
  s' = s ∧ b ≤ last_update_block info' ∧ total_shares info' = total_shares info.
Proof.
  unfold calc_pool_reward_at_block. intros Hc.
  case_decide as Hb; [by injection Hc as <- <- <-|].
  case_decide; [injection Hc as <- <- <-; cbn; split_and!; [done | lia | done]|].
  m_inv Hc. subst s'. cbn. split_and!; [done | lia | done].
Qed.

Lemma update_Ok p s info s1 :
  update_pool_reward p s = (Ok info, s1) →
  (∃ x, calc_pool_reward p s = (Ok (info, x), s)) ∧
  rp_block_number s ≤ last_update_block info ∧ total_shares info = total_shares (get_pool_info s p) ∧
  ∃ c, s1 = s <| rp_currency := c |> <| Pools ::= <[p := info]> |>.
Proof.
  unfold update_pool_reward, put_pool. intros Hu. apply bind_Ok in Hu as ([info1 x] & s2 & Hc & Hu).
  pose proof Hc as Hc'. unfold calc_pool_reward in Hc'. apply bind_Ok in Hc' as (? & ? & Hg & Hc').
  apply gets_Ok in Hg as [-> ->]. apply calc_at_block_Ok in Hc' as (-> & Hb & Hsh).
  apply bind_Ok in Hu as ([] & s3 & Hw & Hu). m_inv Hu. split; [by exists x|].
  split; [done|]. split; [done|]. unfold when in Hw. case_decide.
  - m_inv Hw. by eexists.
  - injection Hw as <-. by exists (rp_currency s).
Qed.

Lemma ok_or_step {A B} (a : A) e (k : A → M RPStore RewardPoolError B) s :
  (ok_or (Some a) e ≫= k) s = k a s.
Proof. done. Qed.

(** What a removal of all the shares of an account pays. *)
Definition payable_reward (w b : Z) : Z := if decide (w - b ≤ ExistentialReward) then 0 else w - b.

Lemma removed_all acc :
  account_info_ok acc → pa_shares acc ≠ 0 →
  (checked_from_rational (pa_shares acc) (pa_shares acc)
     ≫= λ n, checked_mul_int n (borrowed_amount acc)) = Some (borrowed_amount acc).
Proof.
  intros [Ha1 Ha2] Hn. rewrite from_rational_same by ulia. by apply mul_int_one.
Qed.

Lemma get_rewards_all_inv info acc s info' acc' v s' :
  account_info_ok acc →
  get_rewards_by_account_shares info acc (pa_shares acc) s = (Ok (info', acc', v), s') →
  0 < pa_shares acc ∧ pa_shares acc' = 0 ∧ s' = s ∧
  ∃ w, calc_reward_by_shares info (pa_shares acc) s = (Ok w, s) ∧
    borrowed_amount acc ≤ w ∧ v = payable_reward w (borrowed_amount acc).
Proof.
  intros Ha Hr. unfold get_rewards_by_account_shares in Hr.
  apply bind_Ok in Hr as ([] & s1 & Hr1 & Hr). apply ensure_Ok in Hr1 as [Hn ->].
  apply bind_Ok in Hr as (w & s1 & Hw & Hr).
  destruct (calc_reward_stateless info (pa_shares acc)) as [r Hst].
  rewrite Hst in Hw. injection Hw as -> <-.
  rewrite removed_all in Hr by (done || lia).
  m_inv Hr. injection Hsome as <-. destruct x4 as [[v' ?] ?]. m_inv Hm1.
  repeat match goal with Hc : checked_sub _ _ = Some _ |- _ =>
    apply checked_sub_Some in Hc as [? ->] end.
  unfold payable_reward. case_decide as Hex.
  - injection Hm as <- _ _ <-. subst. cbn. rewrite Z.sub_diag. split_and!; [lia | done..|].
    exists w. by rewrite decide_True.
  - m_inv Hm. subst. cbn. rewrite Z.sub_diag. split_and!; [lia | done..|].
    exists w. by rewrite decide_False.
Qed.

Lemma get_rewards_all info acc w s :
  account_info_ok acc → 0 < pa_shares acc ≤ total_shares info → w ≤ total_rewards info →
  calc_reward_by_shares info (pa_shares acc) s = (Ok w, s) →
  borrowed_amount acc ≤ w → w - borrowed_amount acc ≤ total_rewards_useable info →
  ∃ info' acc', get_rewards_by_account_shares info acc (pa_shares acc) s
    = (Ok (info', acc', payable_reward w (borrowed_amount acc)), s).
Proof.
  intros Ha Hn Hwt Hw Hb Hu. unfold get_rewards_by_account_shares, payable_reward.
  assert (∀ a b : Z, b ≤ a → checked_sub a b = Some (a - b)) as Hsub.
  { intros a b Hab. by apply checked_sub_Some. }
  erewrite bind_step; [|apply ensure_true; lia].
  rewrite (bind_step _ _ _ _ _ Hw), removed_all by (done || lia).
  rewrite ok_or_step. rewrite !Hsub by lia. do 2 rewrite ok_or_step.
  erewrite bind_step; [|apply ensure_true; destruct Ha; split; [done | ulia]].
  rewrite ok_or_step. case_decide; [by eexists _, _|].
  rewrite !Hsub by lia. by eexists _, _.
Qed.

(** The query: what a removal of everything would pay, or nothing. *)
Lemma accumulated_step s who p info x :
  calc_pool_reward p s = (Ok (info, x), s) →
  pa_shares (get_pool_account_info s p who) ≠ 0 →
  get_accumlated_rewards s who p =
    match fst (get_rewards_by_account_shares info (get_pool_account_info s p who)
                 (pa_shares (get_pool_account_info s p who)) s) with
    | Ok (_, _, v) => v
    | Err _ => 0
    end.
Proof.
  intros Hc Hn. unfold get_accumlated_rewards. rewrite decide_False by done.
  rewrite (bind_step _ _ _ _ _ Hc). unfold mbind, M_bind.
  by destruct (get_rewards_by_account_shares info _ _ s) as [[[[? ?] ?]|?] ?].
Qed.

Lemma accumulated_none s who p info x w :
  account_info_ok (get_pool_account_info s p who) →
  calc_pool_reward p s = (Ok (info, x), s) →
  calc_reward_by_shares info (pa_shares (get_pool_account_info s p who)) s = (Ok w, s) →
  w - borrowed_amount (get_pool_account_info s p who) ≤ Z.max 0 ExistentialReward →
  get_accumlated_rewards s who p = 0.
Proof.
  intros Ha Hc Hw Hle. destruct (decide (pa_shares (get_pool_account_info s p who) = 0)) as [Hz|Hz].
  { unfold get_accumlated_rewards. by rewrite decide_True. }
  rewrite (accumulated_step _ _ _ _ _ Hc Hz).
  destruct (get_rewards_by_account_shares info _ _ s) as [[[[i a] v]|e] s'] eqn:Hr; [|done].
  destruct (get_rewards_all_inv _ _ _ _ _ _ _ Ha Hr) as (_ & _ & _ & w' & Hw' & Hb & ->). cbn.
  rewrite Hw in Hw'. injection Hw' as <-.
  unfold payable_reward. case_decide; lia.
Qed.

(** After the update of a pool the query and the payouts see the same pool. *)
Lemma calc_again p s info :
  get_pool_info s p = info → rp_block_number s ≤ last_update_block info →
  calc_pool_reward p s = (Ok (info, 0), s).
Proof.
  intros <- Hb. unfold calc_pool_reward. erewrite bind_step by done. unfold id.
  unfold calc_pool_reward_at_block. by rewrite decide_True.
Qed.

Lemma calc_reward_Ok info n s w s' :
  0 < n ≤ total_shares info → calc_reward_by_shares info n s = (Ok w, s') →
  u128 w ∧ w ≤ total_rewards info ∧ ∀ s2, calc_reward_by_shares info n s2 = (Ok w, s2).
Proof.
  intros Hn Hc. split; [|split].
  3:{ intros s2. by apply (stateless_move _ s), (f_equal fst Hc); apply calc_reward_stateless. }
  all: unfold calc_reward_by_shares in Hc; rewrite decide_False in Hc by lia; m_inv Hc; subst;
    lazymatch goal with Ho : (_ ≫= _) = Some _ |- _ => apply bind_Some in Ho as (r & Hr & Hv) end.
  - by eapply mul_int_range.
  - done.
Qed.

(** A claim that succeeds: the account has no shares, the reward is too small,
    or the reward is paid and becomes part of what the account borrowed. *)
Inductive claimed s s' who p info : Z → Prop :=
  | claimed_no_shares :
      pa_shares (get_pool_account_info s p who) = 0 →
      get_pool_account_info s' p who = get_pool_account_info s p who →
      claimed s s' who p info 0
  | claimed_small w :
      (∀ s1 : RPStore, calc_reward_by_shares info (pa_shares (get_pool_account_info s p who)) s1
         = (Ok w, s1)) →
      pa_shares (get_pool_account_info s p who) ≠ 0 →
      w - borrowed_amount (get_pool_account_info s p who) < ExistentialReward →
      get_pool_account_info s' p who = get_pool_account_info s p who →
      get_pool_info s' p = info →
      claimed s s' who p info 0
  | claimed_paid w u :
      (∀ s1 : RPStore, calc_reward_by_shares info (pa_shares (get_pool_account_info s p who)) s1
         = (Ok w, s1)) →
      pa_shares (get_pool_account_info s p who) ≠ 0 →
      borrowed_amount (get_pool_account_info s p who) ≤ w →
      ExistentialReward ≤ w - borrowed_amount (get_pool_account_info s p who)
        ≤ total_rewards_useable info →
      get_pool_account_info s' p who
        = (get_pool_account_info s p who) <| borrowed_amount := w |> →
      get_pool_info s' p = info <| total_rewards_useable := u |> →
      claimed s s' who p info (w - borrowed_amount (get_pool_account_info s p who)).

(** What is due is transferred from the account of the pool; nothing else is
    paid. *)
Definition paid_from_pool s1 s' who p (v : Z) : Prop :=
  mc_transfer GetNativeCurrencyId (sub_account_id p) who v (rp_currency s1) = Some (rp_currency s').

Lemma claim_Ok s who p v s' :
  claim_rewards who p s = (Ok v, s') →
  ∃ info x s1, update_pool_reward p s = (Ok info, s1) ∧
    (paid_from_pool s1 s' who p v ∨ v = 0 ∧ rp_currency s' = rp_currency s1) ∧
    calc_pool_reward p s = (Ok (info, x), s) ∧
    rp_block_number s' ≤ last_update_block info ∧
    total_shares info = total_shares (get_pool_info s p) ∧ claimed s s' who p info v.
Proof.
  intros Hc. unfold claim_rewards in Hc. apply bind_Ok in Hc as (info & s1 & Hu & Hc).
  pose proof Hu as Hu'.
  apply update_Ok in Hu' as ((x & Hx) & Hb & Hsh & c & Hs1). exists info, x, s1. split; [done|].
  cut ((paid_from_pool s1 s' who p v ∨ v = 0 ∧ rp_currency s' = rp_currency s1) ∧
    rp_block_number s' ≤ last_update_block info ∧ claimed s s' who p info v).
  { intros (? & ? & ?). split_and!; done. }
  clear Hu. subst s1. unfold paid_from_pool.
  assert (get_pool_info (s <| rp_currency := c |> <| Pools ::= <[p:=info]> |>) p = info) as Hi.
  { unfold get_pool_info. cbn. by rewrite lookup_insert_eq. }
  apply bind_Ok in Hc as (s2 & ? & Hg & Hc). apply gets_Ok in Hg as [-> ->].
  unfold id in Hc. rewrite accounts_of_pools, accounts_of_currency in Hc.
  case_decide as Hz.
  { injection Hc as <- <-. split_and!; [by right | done|]. by apply claimed_no_shares. }
  apply bind_Ok in Hc as (w & s2 & Hw & Hc).
  pose proof Hw as Hw'. apply (f_equal snd) in Hw'.
  destruct (calc_reward_stateless info (pa_shares (get_pool_account_info s p who))) as [r Hst].
  rewrite Hst in Hw, Hw'. cbn in Hw'. subst s2. injection Hw as ->.
  apply bind_Ok in Hc as (y & s2 & Hy & Hc). apply ok_or_Ok in Hy as [[Hbw ->]%checked_sub_Some ->].
  case_decide as Hex.
  { injection Hc as <- <-. split_and!; [by right | done|].
    eapply claimed_small; [apply Hst | done | done | done | apply Hi]. }
  unfold reward_transfer, put_pool, put_account in Hc. m_inv Hc. subst.
  apply checked_sub_Some in Hsome as [Hu ->].
  split_and!; [left; exact Hsome0 | done|].
  eapply claimed_paid; [apply Hst | done | done | lia | |].
  - unfold get_pool_account_info, pool_accounts. cbn. rewrite lookup_insert_eq. cbn.
    by rewrite lookup_insert_eq.
  - unfold get_pool_info. cbn. rewrite lookup_insert_eq. cbn. by rewrite lookup_insert_eq.
Qed.

(** C32: a claim transfers from the account of the pool to the claiming account
    what the query [get_accumlated_rewards] reports before it, except that the
    query reports nothing for a reward of exactly the existential amount, which a
    claim pays, and it transfers nothing only when it returns nothing; removing all the shares of an
    account transfers exactly what the query reports; and right after a claim the
    query reports nothing, so that a reward is claimed once. *)
Theorem claim_pays_accumulated s who p
    (Ha : account_info_ok (get_pool_account_info s p who))
    (Hn : get_account_shares s who p ≤ total_shares (get_pool_info s p)) :
  let due := get_accumlated_rewards s who p in
  match claim_rewards who p s with
  | (Ok v, s') =>
      (v = due ∨ v = ExistentialReward ∧ due = 0) ∧ get_accumlated_rewards s' who p = 0
      ∧ ∃ info s1, update_pool_reward p s = (Ok info, s1) ∧
          (paid_from_pool s1 s' who p v ∨ v = 0 ∧ rp_currency s' = rp_currency s1)
  | _ => True
  end ∧
  match remove_share who p (get_account_shares s who p) s with
  | (Ok n, s') =>
      n = 0 ∧ ∃ info s1, update_pool_reward p s = (Ok info, s1) ∧ paid_from_pool s1 s' who p due
  | _ => True
  end.
Proof.
  unfold get_account_shares in *. cbv zeta. split.
  - destruct (claim_rewards who p s) as [[v|] s'] eqn:Hc; [|done].
    apply claim_Ok in Hc as (info & x & s1 & Hu & Hpaid & Hx & Hb & Hsh & Hcl).
    apply and_assoc. split; [|by exists info, s1]. clear Hu Hpaid.
    destruct Hcl as [Hz Hacc|w Hw Hz Hex Hacc Hi|w u Hw Hz Hbw Hex Hacc Hi].
    + unfold get_accumlated_rewards. cbv zeta. rewrite Hacc, !decide_True by done. auto.
    + split; [left; symmetry; eapply accumulated_none; [done | exact Hx | apply Hw | lia]|].
      eapply (accumulated_none _ _ _ info 0 w); rewrite ?Hacc;
        [done | by apply calc_again | apply Hw | lia].
    + assert (0 < pa_shares (get_pool_account_info s p who) ≤ total_shares info) as Hpos by (destruct Ha; ulia).
      destruct (calc_reward_Ok _ _ _ _ _ Hpos (Hw s)) as (Hw1 & Hw2 & _).
      split.
      * destruct (get_rewards_all info _ w s Ha) as (i' & a' & Hr); [lia | done | apply Hw | done | lia |].
        rewrite (accumulated_step _ _ _ _ _ Hx Hz), Hr. cbn. unfold payable_reward.
        case_decide; [right | left]; lia.
      * eapply (accumulated_none _ _ _ _ 0 w); rewrite ?Hacc;
          [split; [apply Ha | done] | by apply calc_again; [exact Hi|] | apply Hw | cbn; lia].
  - destruct (remove_share who p _ s) as [[n|] s'] eqn:Hr; [|done].
    unfold remove_share in Hr. apply bind_Ok in Hr as (info & s1 & Hu & Hr).
    pose proof Hu as Hu'. apply update_Ok in Hu' as ((x & Hx) & _ & _ & c & Hs1).
    apply bind_Ok in Hr as (s2 & ? & Hg & Hr). apply gets_Ok in Hg as [-> ->]. unfold id in Hr.
    assert (get_pool_account_info s1 p who = get_pool_account_info s p who) as Hacc by by subst s1.
    rewrite Hacc in Hr.
    apply bind_Ok in Hr as ([] & ? & Hg & Hr). apply ensure_Ok in Hg as [_ ->].
    apply bind_Ok in Hr as ([[i' a'] v] & s2 & Hg & Hr).
    destruct (get_rewards_all_inv _ _ _ _ _ _ _ Ha Hg) as (Hpos & Ha0 & -> & _).
    assert (get_accumlated_rewards s who p = v) as Hdue.
    { rewrite (accumulated_step _ _ _ _ _ Hx) by lia.
      by rewrite (stateless_move _ _ _ (get_rewards_stateless _ _ _) (f_equal fst Hg) s). }
    unfold reward_transfer, put_pool, put_account in Hr. m_inv Hr.
    split; [done|]. exists info, s1. split; [done|].
    unfold paid_from_pool. rewrite Hdue. exact Hsome.
Qed.

(** ** Accrual does not depend on when the pool is updated *)
Definition accrued info r b : PoolInfo := {|
  total_shares := total_shares info; total_rewards := total_rewards info + r;
  total_rewards_useable := total_rewards_useable info + r; last_update_block := b |}.

Lemma calc_at_block_spec p info b s :
  let r := caculate_reward p (total_shares info) (last_update_block info) b in
  0 ≤ r → (b = last_update_block info → r = 0) → last_update_block info ≤ b →
  total_rewards info ≤ umax 128 → total_rewards_useable info ≤ umax 128 →
  calc_pool_reward_at_block p info b s =
    if decide (total_rewards info + r ≤ umax 128 ∧ total_rewards_useable info + r ≤ umax 128)
    then (Ok (accrued info r b, r), s) else (Err RewardCaculationError, s).
Proof.
  intros r Hr Hz Hb Ht Hu. unfold calc_pool_reward_at_block. fold r. unfold accrued.
  case_decide as Hle.
  { rewrite Hz, !Z.add_0_r, decide_True by lia. destruct info as [n t u l]. cbn in *.
    by replace b with l by lia. }
  case_decide as Hr0.
  { by rewrite Hr0, !Z.add_0_r, decide_True by lia. }
  change (total_rewards (info <| last_update_block := b |>)) with (total_rewards info).
  change (total_rewards_useable (info <| last_update_block := b |>))
    with (total_rewards_useable info).
  unfold checked_add. by repeat (case_decide; try tauto).
Qed.

Lemma calc_twice_spec p info b c s :
  let r := caculate_reward p (total_shares info) in
  let a := last_update_block info in
  0 ≤ r a b → 0 ≤ r b c → (∀ x, r x x = 0) → r a c = r a b + r b c → a ≤ b → b ≤ c →
  total_rewards info ≤ umax 128 → total_rewards_useable info ≤ umax 128 →
  (calc_pool_reward_at_block p info b ≫= λ '(i1, r1),
   calc_pool_reward_at_block p i1 c ≫= λ '(i2, r2), mret (i2, r1 + r2)) s
    = calc_pool_reward_at_block p info c s.
Proof.
  intros r a Hr1 Hr2 Hz Hsplit Hab Hbc Ht Hu.
  rewrite (calc_at_block_spec p info c); fold a; fold r; [|lia | by intros -> | lia | done | done].
  unfold mbind at 1, M_bind.
  rewrite (calc_at_block_spec p info b); fold a; fold r; [|lia | by intros -> | lia | done | done].
  case_decide as H1'; [|by rewrite decide_False by lia].
  unfold mbind, M_bind. rewrite calc_at_block_spec; cbn; fold r; [|done | by intros -> | done | lia | lia].
  rewrite Hsplit.
  case_decide; [rewrite decide_True by lia | by rewrite decide_False by lia].
  unfold mret, M_ret, accrued. cbn. by rewrite !Z.add_assoc.
Qed.
End Payouts.

(** * The incentives as the source of the rewards *)

Definition rewards_small (rewards : IncentiveRewards) : Prop :=
  map_Forall (λ _ r, 0 ≤ r < 2 ^ 95) rewards.

Lemma incentive_reward_exact rewards p sh a b :
  rewards_small rewards → sh ≠ 0 → u32 a → u32 b →
  incentive_reward rewards p sh a b
    = if decide (a ≤ b) then default 0 (rewards !! p) * (b - a) else 0.
Proof.
  intros Hr Hsh Ha Hb. unfold incentive_reward. rewrite decide_False by done.
  destruct (rewards !! p) as [x|] eqn:Hx; cbn.
  2:{ rewrite decide_True by auto. by case_decide. }
  specialize (Hr p x Hx). cbn in Hr. case_decide as Hab.
  { destruct Hab; [done|]. case_decide; [|done]. replace b with a by lia. lia. }
  assert (a < b) as Hlt by (destruct (Z.le_gt_cases b a); [tauto | lia]).
  rewrite (decide_True (P := a ≤ b)) by lia. case_decide as Hx0; [lia|].
  rewrite wsub_small by ulia. unfold sat_mul. apply Z.min_l.
  assert (x * (b - a) < 2 ^ 95 * 2 ^ 32) by (apply Z.mul_lt_mono_nonneg; ulia).
  unfold umax. lia.
Qed.

Lemma incentive_reward_bounds rewards p sh a b :
  rewards_small rewards → u32 a → u32 b →
  0 ≤ incentive_reward rewards p sh a b ≤ amount_max.
Proof.
  intros Hr Ha Hb. destruct (decide (sh = 0)) as [->|Hsh]; [done|].
  rewrite incentive_reward_exact by done. case_decide; [|done].
  destruct (rewards !! p) as [x|] eqn:Hx; cbn; [|done].
  specialize (Hr p x Hx). cbn in Hr. split; [nia|].
  assert (x * (b - a) < 2 ^ 95 * 2 ^ 32) by (apply Z.mul_lt_mono_nonneg; ulia).
  unfold amount_max. lia.
Qed.

(** The incentives keep the laws the reward pool needs of the source of its
    rewards. *)
Lemma incentive_handler_laws rewards :
  rewards_small rewards → RewardHandlerLaws (incentive_reward rewards).
Proof. intros Hr p sh a b Ha Hb. by apply incentive_reward_bounds. Qed.

Lemma pair_key_sym a b : pair_key a b = pair_key b a.
Proof. by destruct a, b. Qed.

(** The genesis configuration sets rewards that are small when those it names
    are. *)
Lemma incentives_genesis_small l : ∀ rewards rewards',
  Forall (λ x, 0 ≤ x.2 < 2 ^ 95) l → rewards_small rewards →
  incentives_genesis l rewards = Some rewards' → rewards_small rewards'.
Proof.
  induction l as [|[[a b] r] l IH]; intros rewards rewards' Hl Hr Hg; cbn in Hg.
  { by injection Hg as <-. }
  apply Forall_cons in Hl as [Hrl Hl]. cbn in Hrl.
  destruct (pair_key a b) as [k|]; [|done]. cbn in Hg. case_decide; [done|].
  eapply IH; [exact Hl | | exact Hg]. by apply map_Forall_insert_2.
Qed.

Section Incentives.
Context `{MultiCurrency, FixedPoint} (rewards : IncentiveRewards).
#[local] Instance incentive_handler : RewardHandler IncentivePool := incentive_reward rewards.
Implicit Types (p : IncentivePool) (info : PoolInfo).

(** When a pool is updated does not change what it accrues: with the
    incentives of a genesis configuration as the source of the rewards, updating
    a pool at one block and then at a later one gives the pool, the reward and
    the error that one update at the later block gives. *)
Theorem accrual_path_independent l (Hl : Forall (λ x, 0 ≤ x.2 < 2 ^ 95) l)
    (Hg : incentives_genesis l ∅ = Some rewards) p info b c
    (s : PoolStore IncentivePool) (Hi : pool_info_ok info) (Hb : last_update_block info ≤ b ≤ c)
    (Hc : u32 c) :
  (calc_pool_reward_at_block p info b ≫= λ '(i1, r1),
   calc_pool_reward_at_block p i1 c ≫= λ '(i2, r2), mret (i2, r1 + r2)) s
    = calc_pool_reward_at_block p info c s.
Proof.
  assert (rewards_small rewards) as Hr.
  { eapply incentives_genesis_small; [exact Hl | apply map_Forall_empty | exact Hg]. }
  destruct Hi as (_ & Hi2 & Hi3 & Hi4).
  assert (u32 b) as Hub by ulia.
  apply calc_twice_spec; try lia; try ulia;
    unfold caculate_reward, incentive_handler; try by apply incentive_reward_bounds.
  - intros x. unfold incentive_reward. case_decide; [done|].
    by rewrite decide_True by (right; lia).
  - destruct (decide (total_shares info = 0)) as [Hz|Hz];
      [unfold incentive_reward; by rewrite !decide_True by done|].
    rewrite !incentive_reward_exact by done. rewrite !decide_True by lia. lia.
Qed.
End Incentives.

(** The order in which a pair of currencies is named does not matter, and a pair
    of equal currencies is refused before the reward pool is called: of every pool
    behind the interface [RewardPoolOps]. *)
Section Symmetry.
Context {S E : Type} `{!RewardPoolOps S E IncentivePool}.
Implicit Types (s : S) (a b : CurrencyId).

Lemma get_dex_id_sym a b : get_dex_id (E:=E) a b = get_dex_id b a.
Proof. unfold get_dex_id. by rewrite pair_key_sym. Qed.

Lemma get_dex_id_refused a b : get_dex_id (E:=E) a b = Err InvalidCurrencyPair ↔ a = b.
Proof. by destruct a, b. Qed.

Theorem incentives_symmetric who a b n s :
  (incentive_add_share who a b n s = incentive_add_share who b a n s ∧
   incentive_remove_share who a b n s = incentive_remove_share who b a n s ∧
   incentive_claim_rewards who a b s = incentive_claim_rewards who b a s ∧
   incentive_get_account_info s who a b = incentive_get_account_info s who b a) ∧
  (incentive_add_share who a a n s = (Err InvalidCurrencyPair, s) ∧
   incentive_remove_share who a a n s = (Err InvalidCurrencyPair, s) ∧
   incentive_claim_rewards who a a s = (Err InvalidCurrencyPair, s) ∧
   incentive_get_account_info s who a a = {| inc_shares := 0; inc_accumlated_rewards := 0 |}).
Proof.
  split.
  - unfold incentive_add_share, incentive_remove_share, incentive_claim_rewards,
      incentive_get_account_info. by rewrite (pair_key_sym a b), (get_dex_id_sym a b).
  - by destruct a.
Qed.
End Symmetry.

(** * Examples *)

Definition TestMultiCurrency : MultiCurrency := {|
  mcur := test_cur;
  mc_balance _ := t_balance;
  mc_update_balance _ a v c :=
    if decide (0 ≤ t_balance a c + v ≤ umax 128) then Some (t_add a v c) else None;
  mc_transfer _ a b v c :=
    if decide (v = 0 ∨ a = b) then Some c
    else if t_can_take a v AllowDeath c && t_fits b v (t_add a (- v) c)
         then Some (t_add b v (t_add a (- v) c)) else None;
|}.

Lemma TestMultiCurrency_laws : @MultiCurrencyLaws TestMultiCurrency.
Proof.
  split; cbn.
  - intros _ a c. pose proof (t_balance_range a c). ulia.
  - intros _ a v c c'. case_decide; intros [= <-] Hv b. apply t_balance_add; lia.
  - intros _ a b v c c'. case_decide as Hd.
    { intros [= <-] Hv d. destruct Hd as [->| ->]; repeat case_decide; lia. }
    destruct (t_can_take a v AllowDeath c) eqn:Ht; [|done]. cbn.
    destruct (t_fits b v _) eqn:Hf; intros [= <-] Hv d.
    rewrite t_add_spec by done. by rewrite (t_take_spec _ _ AllowDeath).
Qed.

Section PoolTest.
#[local] Existing Instances TestMultiCurrency TestFixedPoint.

Definition ex_rewards : IncentiveRewards := default ∅ (incentives_genesis [(CUSDT, CLV, 10)] ∅).
#[local] Instance ex_handler : RewardHandler IncentivePool := incentive_reward ex_rewards.
#[local] Instance ex_pool_config : RewardPoolConfig IncentivePool := {|
  sub_account_id '(Dex k) := 1000 + 10 * currency_code (pk_left k) + currency_code (pk_right k);
  GetNativeCurrencyId := 0;
  ExistentialReward := 5;
|}.

Definition ex_pool : IncentivePool := Dex {| pk_left := CLV; pk_right := CUSDT |}.

Definition ex_pool_genesis : PoolStore IncentivePool := {|
  Pools := ∅; PoolAccountData := ∅;
  rp_currency := TestCur ∅ 0 ∅; rp_block_number := 0 |}.

(** Account 1 holds 100 shares for ten blocks, then account 2 adds as many. *)
Definition ex_pool_shared : PoolStore IncentivePool :=
  let s1 := run (transactional (add_share 1 ex_pool 100)) ex_pool_genesis in
  run (transactional (add_share 2 ex_pool 100)) (s1 <| rp_block_number := 10 |>).

Lemma ex_sub_account_inj (p q : IncentivePool) : q ≠ p → sub_account_id q ≠ sub_account_id p.
Proof. destruct p as [[[] []]], q as [[[] []]]; cbn; congruence || lia. Qed.

Lemma ex_pool_reachable : pool_reachable ex_pool_shared.
Proof.
  assert (∀ s who n, pool_reachable s → u128 n →
    pool_reachable (run (transactional (add_share who ex_pool n)) s)) as Hadd.
  { intros s who n Hs Hn. eapply pool_next; [exact Hs|].
    eapply step_add_share; [exact Hn | apply surjective_pairing]. }
  apply Hadd; [|done]. eapply pool_next; [|by apply (step_block 10)].
  apply Hadd; [|done]. apply pool_genesis.
Qed.

Lemma ex_rewards_small : rewards_small ex_rewards.
Proof.
  eapply (incentives_genesis_small [(CUSDT, CLV, 10)] ∅);
    [by repeat constructor | apply map_Forall_empty | by vm_compute].
Qed.

Lemma pool_solvent_witness :
  get_pool_info ex_pool_shared ex_pool
    = {| total_shares := 200; total_rewards := 200; total_rewards_useable := 100;
         last_update_block := 10 |} ∧
  100 ≤ mc_balance 0 (sub_account_id ex_pool) (rp_currency ex_pool_shared).
Proof.
  split; [by vm_compute|].
  destruct (@pool_solvent IncentivePool _ _ TestMultiCurrency TestMultiCurrency_laws
    TestFixedPoint TestFixedPoint_laws ex_handler
    (incentive_handler_laws ex_rewards ex_rewards_small) ex_pool_config
    ex_sub_account_inj ex_pool_shared ex_pool_reachable ex_pool) as (_ & _ & Hc).
  exact Hc.
Defined.

Lemma claim_pays_accumulated_witness :
  get_accumlated_rewards ex_pool_shared 1 ex_pool = 100 ∧
  (let r := claim_rewards 1 ex_pool ex_pool_shared in
   fst r = Ok 100 ∧ get_accumlated_rewards (snd r) 1 ex_pool = 0).
Proof.
  split; [by vm_compute|].
  pose proof (@claim_pays_accumulated IncentivePool _ _ TestMultiCurrency
    TestFixedPoint TestFixedPoint_laws ex_handler ex_pool_config ex_pool_shared 1 ex_pool
    ltac:(by vm_compute) ltac:(by vm_compute)) as [Hc _].
  assert (fst (claim_rewards 1 ex_pool ex_pool_shared) = Ok 100) as Hv by by vm_compute.
  split; [exact Hv|]. revert Hv Hc. cbv zeta.
  generalize (claim_rewards 1 ex_pool ex_pool_shared). intros [r s'] Hr Hc. cbn in *.
  rewrite Hr in Hc. apply Hc.
Defined.

Lemma accrual_path_independent_witness :
  let info := get_pool_info ex_pool_shared ex_pool in
  fst ((calc_pool_reward_at_block ex_pool info 12 ≫= λ '(i1, r1),
        calc_pool_reward_at_block ex_pool i1 20 ≫= λ '(i2, r2), mret (i2, r1 + r2))
       ex_pool_shared)
    = Ok ({| total_shares := 200; total_rewards := 300; total_rewards_useable := 200;
             last_update_block := 20 |}, 100).
Proof.
  cbv zeta.
  rewrite (accrual_path_independent ex_rewards [(CUSDT, CLV, 10)]);
    [by vm_compute | by repeat constructor | by vm_compute | by vm_compute | by vm_compute | by vm_compute].
Defined.

(** A removal whose reward is withheld still repays what the account borrowed,
    but leaves this virtual amount in the total of the pool.  When account 2
    removes its shares at once, it is due nothing and the 100 it borrowed stay in
    the total: what account 1 is due exceeds what can be paid, and it can neither
    claim its reward nor remove its shares, though the account of the pool holds
    the reward. *)
Example withheld_reward_blocks_payouts :
  let s := run (remove_share 2 ex_pool 100) ex_pool_shared in
  fst (remove_share 2 ex_pool 100 ex_pool_shared) = Ok 0 ∧
  get_pool_info s ex_pool
    = {| total_shares := 100; total_rewards := 200; total_rewards_useable := 100;
         last_update_block := 10 |} ∧
  t_balance (sub_account_id ex_pool) (rp_currency s) = 100 ∧
  get_accumlated_rewards s 1 ex_pool = 0 ∧
  fst (claim_rewards 1 ex_pool s) = Err RewardCaculationError ∧
  fst (remove_share 1 ex_pool 100 s) = Err RewardCaculationError.
Proof. by vm_compute. Qed.
End PoolTest.
