(* ===== verification/Rpc.v ===== *)
(** The RPC servers of the exchange ([rpc/src]): each asks the runtime API at a
    block, the best one unless another is named, and turns amounts into text.  The
    runtime API ([rpc/runtime-api]) is a parameter, with one function per method
    of its traits; a panic is an outcome of its own. *)

From Stdlib Require Import ZArith Lia.
From stdpp Require Import base option list strings.
From S2P Require Import Prelude RewardPool.
#[local] Open Scope Z_scope.

(** [jsonrpc_core::Error] *)
Record RpcError := { err_code : Z; err_message : string; err_data : option string }.

Inductive Outcome (A : Type) := Reply (r : result RpcError A) | Crash.
Arguments Reply {A} r.
Arguments Crash {A}.

Inductive ServerError := RuntimeError.
Definition server_error_code (e : ServerError) : Z := match e with RuntimeError => 1 end.

Section Rpc.
Context {BlockHash Account Asset Amount Rate Share ApiError : Type}.

(** [format!] of amounts and of errors. *)
Variable show_amount : Amount → string.
Variable show_share : Share → string.
Variable debug_error : ApiError → string.

(** The runtime API at a block, and the best block of the client. *)
Abbreviation Api A := (result ApiError A).
Variable best_hash : BlockHash.
Variable api_account_balance : BlockHash → Account → option Asset → Api (list (Asset * Amount)).
Variable api_currency_pair : BlockHash → Api (list (CurrencyId * CurrencyId)).
Variable api_target_amount_available :
  BlockHash → Asset → Asset → Amount → Api (Amount * list Asset).
Variable api_supply_amount_needed :
  BlockHash → Asset → Asset → Amount → Api (Amount * list Asset).
Variable api_get_liquidity : BlockHash → option Account →
  Api (list (Asset * Asset * Amount * Amount * Amount * Amount * Amount)).
Variable api_get_exchange_rate : BlockHash → Api Rate.
Variable api_to_add_liquidity : BlockHash → Asset → Asset → Amount → Amount → Api (Share * Share).
Variable api_get_staking_info : BlockHash → Account → Asset → Asset → Api (Share * Amount).
Variable api_get_all_incentive_pools : BlockHash → Api (list (Asset * Asset * Share * Amount)).

Definition at_or_best (at_ : option BlockHash) : BlockHash := default best_hash at_.

(** The closure of [map_err]. *)
Definition rpc_error (e : ApiError) : RpcError := {|
  err_code := server_error_code RuntimeError;
  err_message := "Unable to get value.";
  err_data := Some (debug_error e) |}.

(** [map_err(...).map(f)] *)
Definition answer {A B} (r : Api A) (f : A → B) : Outcome B :=
  Reply (match r with Ok a => Ok (f a) | Err e => Err (rpc_error e) end).

(** [map_err(...).unwrap()] *)
Definition answer_unwrap {A B} (r : Api A) (f : A → B) : Outcome B :=
  match r with Ok a => Reply (Ok (f a)) | Err _ => Crash end.

Record ExchangeInfo := { info_balance : string; info_routes : list Asset }.

Definition exchange_info (br : Amount * list Asset) : ExchangeInfo :=
  {| info_balance := show_amount br.1; info_routes := br.2 |}.

Definition rpc_account_balance (account : Account) (currency_id : option Asset)
    (at_ : option BlockHash) : Outcome (list (Asset * string)) :=
  answer_unwrap (api_account_balance (at_or_best at_) account currency_id)
    (map (λ '(cid, balance), (cid, show_amount balance))).

Definition rpc_currency_pair (at_ : option BlockHash) : Outcome (list (CurrencyId * CurrencyId)) :=
  answer (api_currency_pair (at_or_best at_)) id.

Definition rpc_target_amount_available (source target : Asset) (amount : Amount)
    (at_ : option BlockHash) : Outcome ExchangeInfo :=
  answer (api_target_amount_available (at_or_best at_) source target amount) exchange_info.

Definition rpc_supply_amount_needed (source target : Asset) (amount : Amount)
    (at_ : option BlockHash) : Outcome ExchangeInfo :=
  answer (api_supply_amount_needed (at_or_best at_) source target amount) exchange_info.

Definition rpc_get_liquidity (account : option Account) (at_ : option BlockHash)
    : Outcome (list (Asset * Asset * string * string * string * string * string)) :=
  answer_unwrap (api_get_liquidity (at_or_best at_) account)
    (map (λ '(c1, c2, b1, b2, s1, s2, s3),
       (c1, c2, show_amount b1, show_amount b2, show_amount s1, show_amount s2, show_amount s3))).

Definition rpc_get_exchange_rate (at_ : option BlockHash) : Outcome Rate :=
  answer (api_get_exchange_rate (at_or_best at_)) id.

Definition rpc_to_add_liquidity (source target : Asset) (source_amount target_amount : Amount)
    (at_ : option BlockHash) : Outcome (string * string) :=
  answer (api_to_add_liquidity (at_or_best at_) source target source_amount target_amount)
    (λ '(s1, s2), (show_share s1, show_share s2)).

Definition rpc_get_account_staking_info (account : Account) (left_ right_ : Asset)
    (at_ : option BlockHash) : Outcome (string * string) :=
  answer (api_get_staking_info (at_or_best at_) account left_ right_)
    (λ '(s1, s2), (show_share s1, show_amount s2)).

Definition rpc_get_all_incentive_pools (at_ : option BlockHash)
    : Outcome (list (Asset * Asset * string * string)) :=
  answer (api_get_all_incentive_pools (at_or_best at_))
    (map (λ '(c1, c2, share, balance), (c1, c2, show_share share, show_amount balance))).

(** A request without a block is one for the best block. *)
Lemma at_best : at_or_best None = best_hash ∧ ∀ h, at_or_best (Some h) = h.
Proof. done. Qed.

(** An error of the runtime reaches the client with the code 1 and its own text,
    but two of the methods unwrap it and bring the request down. *)
Theorem runtime_errors_reported at_ e :
  (∀ s t a, api_target_amount_available (at_or_best at_) s t a = Err e →
     rpc_target_amount_available s t a at_ = Reply (Err (rpc_error e)))
  ∧ (∀ s t a, api_supply_amount_needed (at_or_best at_) s t a = Err e →
     rpc_supply_amount_needed s t a at_ = Reply (Err (rpc_error e)))
  ∧ (api_get_all_incentive_pools (at_or_best at_) = Err e →
     rpc_get_all_incentive_pools at_ = Reply (Err (rpc_error e)))
  ∧ (∀ a c, api_account_balance (at_or_best at_) a c = Err e → rpc_account_balance a c at_ = Crash)
  ∧ (∀ a, api_get_liquidity (at_or_best at_) a = Err e → rpc_get_liquidity a at_ = Crash).
Proof.
  unfold rpc_target_amount_available, rpc_supply_amount_needed, rpc_get_all_incentive_pools,
    rpc_account_balance, rpc_get_liquidity, answer, answer_unwrap.
  by split_and!; intros *; intros ->.
Qed.
End Rpc.

(** * The currencies ([currency.rs]) *)

Record CurrencyInfo := { ci_id : Z; ci_name : string }.

(** [CurrencyId::iter()] and its [Display] *)
Definition currency_iter : list CurrencyId := [CLV; CUSDT; DOT; CETH].

Definition currency_name (c : CurrencyId) : string :=
  match c with CLV => "CLV" | CUSDT => "CUSDT" | DOT => "DOT" | CETH => "CETH" end.

Definition get_currencies : list CurrencyInfo :=
  map (λ c, {| ci_id := currency_code c; ci_name := currency_name c |}) currency_iter.

(** Every currency is listed, once, by its code. *)
Lemma get_currencies_complete c :
  (∃ i, get_currencies !! i = Some {| ci_id := currency_code c; ci_name := currency_name c |})
  ∧ NoDup (ci_id <$> get_currencies) ∧ NoDup (ci_name <$> get_currencies).
Proof.
  split.
  - exists (Z.to_nat (currency_code c)). by destruct c.
  - split; apply (bool_decide_eq_true_1 (NoDup _)); by vm_compute.
Qed.
